(* ===== verification/_CoqProject ===== *)
-Q . S2P
Prelude.v
Lanes.v
Cond.v
Bitops.v
Backend.v
VecOps.v
SymHelpers.v
SymMemory.v
SymVec.v
Ops.v
MemOp.v
LdstAtomicity.v
LdstAtomicitySpec.v
SoftTlb.v
SoftTlbSpec.v
SoftTlbMachine.v
Atomics.v
Temps.v
Exec.v
GuestBytes.v
Softmmu.v
SoftmmuSpec.v
SoftmmuStoreSpec.v
SoftmmuLookup.v
SoftmmuRefine.v
Logic.v
Calls.v
Vars.v
Block.v
GenCore.v
GenCoreSpec.v
GenAlu.v
GenAluSpec.v
GenConvSpec.v
GenWideSpec.v
GenMemSpec.v
GenVec.v
VecLogic.v
GenVecSpec.v
GenLdst.v
GenLdstSpec.v
GenNames.v
Hosts.v
VecHosts.v
VecHostSpec.v
HelperTheorems.v
CoreTheorems.v
GenTheorems.v
BlockTheorems.v
VecTheorems.v
GuestTheorems.v
AtomicityTheorems.v
SoftmmuTheorems.v
