(* ===== verification/Prelude.v ===== *)
(** * Symbolic execution of translated code in SymQEMU

    SymQEMU runs a guest program by translating it, block by block, to the
    operations of TCG and these to host code.  Its change to QEMU is in that
    translation: next to every variable it keeps the pointer to a symbolic
    expression, every generator of an operation also emits the call of a helper
    that builds the expression of the result, comparisons push constraints on
    the path, and loads and stores keep a symbolic view of memory.  This
    library models that change and the code it rests on, and proves that the
    expressions and constraints are those of the values that the translated
    code computes.

    ** The parts of the program and the files

    - [Prelude]: results that can fail ([Res]), integers of a width ([wrap],
      [sgn], [in_range]), bit-level lemmas, tactics and the hint database.
    - [Lanes]: the elements of a vector, which is an integer of 64 to 256 bits.
    - [Cond]: the conditions ([include/tcg/tcg-cond.h]) and the comparison
      functions of the interpreter ([tcg/tci.c]).
    - [Bitops]: rotations, fields, swaps, shuffles and bit counts
      ([include/qemu/bitops.h], [host-utils.h], [bswap.h]).
    - [Backend]: the interface of the symbolic back end.  The run-time library
      that builds expressions is a submodule which is not in the repository: its
      functions are the class [SymBackend], what an expression evaluates to is
      [BackendSem], and the documented meaning of each constructor is a law of
      [BackendLaws].  [Denot] is an instance in which expressions are
      functions of the inputs; it shows that the laws can hold.
    - [SymHelpers], [SymMemory]: the helpers ([accel/tcg/tcg-runtime-sym.c],
      [tcg-runtime-sym-common.c]).  The symbolic memory is part of the same
      library, with the laws [ShadowLaws] and the instance [DenotMem].
    - [SymVec]: the vector helpers ([accel/tcg/tcg-runtime-sym-vec.c]); [VecOps]: the
      operations on host vectors and their documented results.
    - [Ops]: the operations of TCG ([include/tcg/tcg-opc.h]), their documented
      results ([docs/devel/tcg-ops.rst]) and the interpreter ([tcg/tci.c]).
    - [MemOp]: the codes of guest accesses ([include/exec/memop.h],
      [memopidx.h]) and of barriers ([include/tcg/tcg-mo.h]).
    - [LdstAtomicity], [LdstAtomicitySpec]: how the host makes a guest access
      atomic ([accel/tcg/ldst_atomicity.c.inc]), over a log of host accesses and
      their sizes, and what each routine reads, writes and keeps whole.
    - [Atomics]: the atomic helpers ([accel/tcg/atomic_template.h]).
    - [SoftTlb]: the software TLB and the jump cache ([accel/tcg/cputlb.c],
      [tb-jmp-cache.h]); [SoftTlbSpec] has its invariant and what each operation
      does to the pages it caches, [SoftTlbMachine] the runs of a CPU on
      changing page tables.
    - [Softmmu]: loads and stores of system emulation through the TLB, in one
      page or across two ([accel/tcg/cputlb.c]); [SoftmmuSpec] and
      [SoftmmuStoreSpec] are about the parts of an access that crosses a page,
      [SoftmmuLookup] about the lookup, and [SoftmmuRefine] relates the whole to the
      guest accesses of the intermediate code over the page tables.
    - [Temps]: the translation context ([tcg/tcg.c], [include/tcg/tcg.h]):
      temporaries with their expression twins, constants, globals, the start of
      a block; a generator is a function of the context ([Gen]) that can overflow
      the temporaries (the block is then translated again) or fail an assertion.
    - [Exec]: the execution of the emitted operations on a register file, the
      path constraints, the memory and the symbolic memory, and the concrete
      helpers ([accel/tcg/tcg-runtime.c]); guest addresses are translated by a
      parameter, which [SoftmmuRefine] instantiates.  [GuestBytes] has the lists
      of bytes that accesses are about.
    - [GenCore], [GenAlu]: the generators ([tcg/tcg-op.c]), and [GenLdst] those of
      guest accesses and atomic operations ([tcg/tcg-op-ldst.c]), once over the type
      where the [i32] and [i64] functions agree; [GenNames] has the functions
      under their own names, [Hosts] the [TCG_TARGET_HAS_*] settings of three hosts
      ([tcg/*/tcg-target.h]).
    - [Logic], [Calls], [Vars]: a program logic for generators, in three layers:
      cells (the registers of temporaries), calls of helpers, and variables
      (a value with its expression).  [GenCoreSpec], [GenAluSpec], [GenConvSpec],
      [GenWideSpec], [GenMemSpec] and [GenLdstSpec] prove the generators in it.
    - [GenVec]: the generators of vector operations ([tcg/tcg-op-vec.c]), for any
      choice [VecHost] of the operations that the host emits, expands or lacks;
      [VecHosts] has the choices and expansions of x86 and AArch64
      ([tcg/*/tcg-target.c.inc]).  [VecLogic] extends the logic by the buffers that
      the emitted code allocates, [GenVecSpec] and [VecHostSpec] prove the generators
      and the expansions of x86.
    - [Block]: the globals of a CPU, and the adequacy of the logic: what is
      proved of a generator holds of the execution of the block it emits.
    - [HelperTheorems], [CoreTheorems], [GenTheorems], [BlockTheorems],
      [VecTheorems], [GuestTheorems], [AtomicityTheorems], [SoftmmuTheorems]: the
      properties, each with an instance at concrete values.

    ** How correctness is stated

    A run is considered together with other inputs [i] of the program: a
    variable holds a concrete value [c], and its value under [i] would be [x].
    [shadows i w c x o] says that the expression [o] of the variable is right:
    it has width [w] and evaluates to [x] under [i], or it is NULL and [x = c].
    A generator is right when its result has the operation's value at the
    concrete operands, and an expression that evaluates to the operation's
    value at the operands' values under [i], for every [i]; a comparison moreover
    adds the constraint that it goes under [i] as it went.  Memory has the same
    two views, the bytes and what the symbolic memory makes of them under [i].

    ** What the theorems show

    - The helpers build the expressions of their operations, for each of the
      widths they accept, and push the constraints they should.
    - The generators of [tcg/tcg-op.c] emit code that computes operation and
      expression, on every host: whichever of the operations the host lacks, the
      fallback is equivalent.
    - Where this fails the theorems say how: signed loads, the high word of
      64-bit products, native bit counts, conditional moves, the 64-bit unsigned
      remainder, and results that are operands of divisions and comparisons.
    - The generators of vector operations do the same for each element, on any
      host that emits the operations or expands them as promised, and free the
      buffers they allocate; x86 keeps the promise for direct comparisons and for
      rotations.  The runs of [vector_defects] show where vectors go wrong.
    - The generators of guest accesses and of atomic operations in serial mode do
      to the guest's memory what they should in both views of it; the atomic
      helpers do the same to a word in one step, and their loops end.
    - In system emulation the TLB only holds what the page tables say, so loads
      and stores through it reach the bytes to which the page tables map them,
      as atomically as they ask for, in one page or across two.
    - The temporaries: the pairing of values and expressions is an invariant of
      the context, constants are shared, and the expressions of globals have
      slots of their own.
    - The interpreter implements the documented operations; the bit operations
      and conditions satisfy their specifications and are inverse to each other
      where they should be.

    ** Bounds

    A [w]-bit value is an integer in [[0, 2^w)].  The execution of a block follows
    its list of operations up to the first jump or exit, which is part of the
    result.  Overflow of the 512 temporaries is a result of its own.  Loops that
    are not structural have a number of rounds which the theorems show to be
    enough: the bytes of an access for the loops over its parts ([store_parts_rec],
    [ld_parts]) and over device accesses; 64 halvings of a table that cannot be
    allocated ([alloc_from]) and 64 shifts of the mask of large pages ([cover]); the
    16 modes for a flush ([flush_work]); two nested expansions of a vector operation
    ([x86_vec_host]); one attempt of a compare-and-swap loop that
    nobody disturbs ([rmw_loop]), while [rmw_step] has any number of them.

    ** Not modelled

    32-bit and big-endian hosts (the helpers assume a 64-bit one), host code
    generation and register allocation, the optimizer, guest vectors
    ([tcg/tcg-op-gvec.c]) and the vector operations of other hosts, plugin callbacks, the execution of the 128-bit compare-and-exchange helper, flushes
    that are queued for other CPUs, the failure of a device access, the
    invalidation of translated code by stores, user-mode page protections, and
    everything outside [tcg/] and [accel/tcg/]: front ends, devices, user-mode
    emulation, tools.  The page tables of the target, the devices and the
    watchpoint hook are parameters. *)
From Stdlib Require Export ZArith Lia ZifyBool Bool List Btauto.
From stdpp Require Export base gmap list functions option.
#[global] Open Scope Z_scope.

(** ** Results of C functions

    [Abort] is every way a C function of the modelled code ends without a
    value: a failed [assert]/[g_assert], [g_assert_not_reached], or behaviour
    the C standard leaves undefined (division by zero, a NULL dereference). *)

Inductive Res (A : Type) : Type :=
| Ok (a : A)
| Abort.
Arguments Ok {A} a.
Arguments Abort {A}.

#[export] Instance res_ret : MRet Res := λ A, Ok.
#[export] Instance res_bind : MBind Res := λ A B k m,
  match m with Ok a => k a | Abort => Abort end.

(** [assert(b)] / [g_assert(b)]. *)
Definition assert_ (b : bool) : Res unit := if b then Ok tt else Abort.

(** A fallible function on each element of a list, from the first on. *)
Fixpoint mapR {A B} (f : A → Res B) (l : list A) : Res (list B) :=
  match l with
  | [] => Ok []
  | x :: l => y ← f x; ys ← mapR f l; Ok (y :: ys)
  end.

Lemma assert_true b (A : Type) (k : unit → Res A) :
  b = true → (assert_ b ≫= k) = k tt.
Proof. by intros ->. Qed.

Lemma mapR_ok {A B} (f : A → Res B) g l : Forall (λ x, f x = Ok (g x)) l → mapR f l = Ok (map g l).
Proof. induction 1 as [|x l H _ IH]; cbn; [done|]. by rewrite H; cbn; rewrite IH. Qed.
(** A loop over the numbers below [n]. *)
Lemma mapR_seq {B} (f : Z → Res B) (g : nat → B) n :
  (∀ k, (k < n)%nat → f (Z.of_nat k) = Ok (g k)) → mapR f (map Z.of_nat (seq 0 n)) = Ok (map g (seq 0 n)).
Proof.
  intros H. rewrite (mapR_ok f (λ z, g (Z.to_nat z))).
  - rewrite map_map. f_equal. apply map_ext. intros k. by rewrite Nat2Z.id.
  - apply Forall_fmap, Forall_seq. intros k Hk. cbn. rewrite Nat2Z.id. apply H. lia.
Qed.

(** ** Fixed-width integers: a [w]-bit value is a [Z] in [0, 2^w). *)

Definition wrap (w z : Z) : Z := z mod 2 ^ w.

(** The two's-complement reading of a [w]-bit value ((intN_t) cast). *)
Definition sgn (w z : Z) : Z :=
  let u := wrap w z in if u <? 2 ^ (w - 1) then u else u - 2 ^ w.

(** Symbolic widths and bit patterns are kept folded by [simpl] and [cbn]. *)
#[global] Arguments wrap : simpl never.
#[global] Arguments sgn : simpl never.
#[global] Arguments Z.ltb : simpl never.
#[global] Arguments Z.leb : simpl never.
#[global] Arguments Z.eqb : simpl never.
#[global] Arguments Z.pow : simpl never.
#[global] Arguments Z.land : simpl never.
#[global] Arguments Z.lor : simpl never.
#[global] Arguments Z.lxor : simpl never.
#[global] Arguments Z.shiftl : simpl never.
#[global] Arguments Z.shiftr : simpl never.

Definition in_range (w z : Z) : Prop := 0 ≤ z < 2 ^ w.

Lemma pow2_pos w : 0 ≤ w → 0 < 2 ^ w.
Proof. intros. apply Z.pow_pos_nonneg; lia. Qed.

Lemma wrap_range w z : 0 ≤ w → in_range w (wrap w z).
Proof. intros. apply Z.mod_pos_bound, pow2_pos; lia. Qed.

Lemma wrap_small w z : in_range w z → wrap w z = z.
Proof. apply Z.mod_small. Qed.

Lemma wrap_wrap w z : 0 ≤ w → wrap w (wrap w z) = wrap w z.
Proof. intros. apply wrap_small, wrap_range; lia. Qed.

Lemma wrap_wrap_le w v z : 0 ≤ w ≤ v → wrap w (wrap v z) = wrap w z.
Proof.
  intros. unfold wrap. apply Z.mod_mod_divide.
  exists (2 ^ (v - w)). rewrite <- Z.pow_add_r by lia. f_equal; lia.
Qed.

Lemma testbit_wrap w z i : 0 ≤ w → Z.testbit (wrap w z) i = (i <? w) && Z.testbit z i.
Proof.
  intros. unfold wrap. destruct (Z.ltb_spec i w).
  - rewrite Z.mod_pow2_bits_low by lia. done.
  - rewrite Z.mod_pow2_bits_high by lia. done.
Qed.

Lemma testbit_ones n i : 0 ≤ n → 0 ≤ i → Z.testbit (Z.ones n) i = (i <? n).
Proof.
  intros. destruct (Z.ltb_spec i n).
  - apply Z.ones_spec_low; lia.
  - apply Z.ones_spec_high; lia.
Qed.

Lemma testbit_high w x i : in_range w x → 0 ≤ w ≤ i → Z.testbit x i = false.
Proof.
  intros Hx Hi. rewrite <- (wrap_small w x Hx), testbit_wrap by lia.
  by replace (i <? w) with false by lia.
Qed.

Lemma in_range_bits w x :
  0 ≤ w → 0 ≤ x → (∀ i, w ≤ i → Z.testbit x i = false) → in_range w x.
Proof.
  intros Hw Hx H. assert (x = wrap w x) as ->; [|apply wrap_range; lia].
  apply Z.bits_inj'. intros i Hi. rewrite testbit_wrap by lia.
  destruct (Z.ltb_spec i w); [done|]. by rewrite H by lia.
Qed.

(** ** Signed readings *)

Lemma sgn_wrap w z : 0 ≤ w → sgn w (wrap w z) = sgn w z.
Proof. intros. unfold sgn. by rewrite wrap_wrap by lia. Qed.

Lemma wrap_sgn w z : 0 ≤ w → wrap w (sgn w z) = wrap w z.
Proof.
  intros Hw. unfold sgn. destruct (Z.ltb_spec (wrap w z) (2 ^ (w - 1))).
  - by apply wrap_wrap.
  - unfold wrap at 1. rewrite <- (Z.mod_add _ 1) by (pose proof (pow2_pos w); lia).
    rewrite Z.mul_1_l. replace (wrap w z - 2 ^ w + 2 ^ w) with (wrap w z) by lia.
    by apply wrap_wrap.
Qed.

Lemma sgn_range w z : 0 < w → - 2 ^ (w - 1) ≤ sgn w z < 2 ^ (w - 1).
Proof.
  intros. unfold sgn. pose proof (wrap_range w z) as [? ?]; [lia|].
  assert (2 ^ w = 2 * 2 ^ (w - 1)) by (rewrite <- Z.pow_succ_r by lia; f_equal; lia).
  pose proof (pow2_pos (w - 1)). destruct (Z.ltb_spec (wrap w z) (2 ^ (w - 1))); lia.
Qed.

Lemma testbit_sgn w z i :
  0 < w → 0 ≤ i → Z.testbit (sgn w z) i = Z.testbit z (if i <? w then i else w - 1).
Proof.
  intros Hw Hi. pose proof (wrap_range w z) as [? ?]; [lia|].
  assert (2 ^ w = 2 * 2 ^ (w - 1)) as Hp by (rewrite <- Z.pow_succ_r by lia; f_equal; lia).
  assert (Htop : Z.testbit z (w - 1) = negb (wrap w z <? 2 ^ (w - 1))).
  { replace (Z.testbit z (w - 1)) with (Z.testbit (wrap w z) (w - 1))
      by (rewrite testbit_wrap by lia; by replace (w - 1 <? w) with true by lia).
    destruct (Z.ltb_spec (wrap w z) (2 ^ (w - 1))) as [Hlt|Hge]; simpl.
    - apply (testbit_high (w - 1)); [split|]; lia.
    - apply Z.testbit_true; [lia|].
      replace (wrap w z / 2 ^ (w - 1)) with 1; [done|].
      apply (Z.div_unique _ _ _ (wrap w z - 2 ^ (w - 1))); lia. }
  destruct (Z.ltb_spec i w) as [Hlt|Hge].
  - rewrite <- (Z.mod_pow2_bits_low (sgn w z) w) by lia.
    change (sgn w z mod 2 ^ w) with (wrap w (sgn w z)). rewrite wrap_sgn by lia.
    rewrite testbit_wrap by lia. by replace (i <? w) with true by lia.
  - rewrite Htop. unfold sgn. destruct (Z.ltb_spec (wrap w z) (2 ^ (w - 1))); simpl.
    + apply (testbit_high w); [split|]; lia.
    + replace (wrap w z - 2 ^ w) with (- (2 ^ w - wrap w z)) by lia.
      rewrite Z.bits_opp by lia. apply negb_true_iff, (testbit_high w); [split|]; lia.
Qed.

(** ** Bit-level reasoning

    [zbits] proves an equality of integers bit by bit: it pushes
    [Z.testbit] through the operators, splits on the guards the shifts and
    masks introduce and closes the residual boolean goal. *)

Lemma testbit_shiftl a n i :
  0 ≤ i → Z.testbit (Z.shiftl a n) i = (n <=? i) && Z.testbit a (i - n).
Proof.
  intros. rewrite Z.shiftl_spec by lia. destruct (Z.leb_spec n i); [done|].
  by rewrite Z.testbit_neg_r by lia.
Qed.

Lemma testbit_if (b : bool) x y i :
  Z.testbit (if b then x else y) i = if b then Z.testbit x i else Z.testbit y i.
Proof. by destruct b. Qed.

Create HintDb range.
#[export] Hint Resolve wrap_range : range.
#[export] Hint Extern 2 (_ ≤ _) => lia : range.
#[export] Hint Extern 2 (_ < _) => lia : range.
#[export] Hint Extern 5 (in_range _ _) => assumption : range.
#[export] Hint Extern 9 (in_range _ _) => (unfold in_range; lia) : range.

Ltac no_if a := lazymatch a with context [if _ then _ else _] => fail | _ => idtac end.
Ltac zguard :=
  match goal with
  | |- context [?a <? ?b] => no_if a; no_if b; destruct (Z.ltb_spec a b)
  | |- context [?a <=? ?b] => no_if a; no_if b; destruct (Z.leb_spec a b)
  | |- context [?a =? ?b] => no_if a; no_if b; destruct (Z.eqb_spec a b)
  end; try (exfalso; lia); cbn [andb orb negb xorb];
  rewrite ?andb_false_r, ?andb_true_r, ?orb_false_r, ?orb_true_r,
    ?xorb_false_r, ?xorb_true_r.

Ltac zspec :=
  match goal with
  | |- context [Z.testbit (if _ then _ else _) _] => rewrite testbit_if
  | |- context [Z.testbit (Z.land _ _) _] => rewrite Z.land_spec
  | |- context [Z.testbit (Z.lor _ _) _] => rewrite Z.lor_spec
  | |- context [Z.testbit (Z.lxor _ _) _] => rewrite Z.lxor_spec
  | |- context [Z.testbit (Z.ldiff _ _) _] => rewrite Z.ldiff_spec
  | |- context [Z.testbit 0 _] => rewrite Z.bits_0
  | |- context [Z.testbit ?a ?i] => rewrite (Z.testbit_neg_r a i) by lia
  | |- context [Z.testbit (wrap ?w ?a) ?i] => rewrite (testbit_wrap w a i) by lia
  | |- context [Z.testbit (sgn ?w ?a) ?i] => rewrite (testbit_sgn w a i) by lia
  | |- context [Z.testbit (Z.ones ?n) ?i] => rewrite (testbit_ones n i) by lia
  | |- context [Z.testbit (-1) ?i] => rewrite (Z.bits_m1 i) by lia
  | |- context [Z.testbit (Z.lnot ?a) ?i] => rewrite (Z.lnot_spec a i) by lia
  | |- context [Z.testbit (Z.shiftl ?a ?n) ?i] => rewrite (testbit_shiftl a n i) by lia
  | |- context [Z.testbit (Z.shiftr ?a ?n) ?i] => rewrite (Z.shiftr_spec a n i) by lia
  | H : in_range ?w ?x |- context [Z.testbit ?x ?i] =>
      rewrite (testbit_high w x i H) by lia
  end; cbn [andb orb negb xorb];
  rewrite ?andb_false_r, ?andb_true_r, ?orb_false_r, ?orb_true_r,
    ?xorb_false_r, ?xorb_true_r.

Ltac zindex :=
  match goal with
  | |- context [Z.testbit ?x ?i] =>
      match goal with
      | |- context [Z.testbit x ?j] =>
          lazymatch i with j => fail | _ => replace (Z.testbit x j) with (Z.testbit x i)
            by (f_equal; lia) end
      end
  end.

Ltac zbits_core :=
  repeat first [progress zspec | zguard];
  try reflexivity; try lia; repeat zindex; try reflexivity; try btauto.

Ltac zbits := apply Z.bits_inj'; let i := fresh "i" in let Hi := fresh "Hi" in
  intros i Hi; zbits_core.

(** ** Modular arithmetic *)

Lemma wrap_0 w : wrap w 0 = 0.
Proof. apply Zmod_0_l. Qed.
Lemma wrap_neg1 w : 0 ≤ w → wrap w (-1) = Z.ones w.
Proof. intros. unfold wrap. rewrite <- Z.land_ones by lia. apply Z.land_m1_l. Qed.
Lemma wrap_add w a b : 0 ≤ w → wrap w (wrap w a + wrap w b) = wrap w (a + b).
Proof. intros. unfold wrap. by rewrite <- Zplus_mod. Qed.
Lemma wrap_add_l w a b : 0 ≤ w → wrap w (wrap w a + b) = wrap w (a + b).
Proof. intros. unfold wrap. by rewrite Zplus_mod_idemp_l. Qed.
Lemma wrap_add_r w a b : 0 ≤ w → wrap w (a + wrap w b) = wrap w (a + b).
Proof. intros. unfold wrap. by rewrite Zplus_mod_idemp_r. Qed.
Lemma wrap_sub w a b : 0 ≤ w → wrap w (wrap w a - wrap w b) = wrap w (a - b).
Proof. intros. unfold wrap. by rewrite <- Zminus_mod. Qed.
Lemma wrap_sub_r w a b : 0 ≤ w → wrap w (a - wrap w b) = wrap w (a - b).
Proof. intros. unfold wrap. by rewrite Zminus_mod_idemp_r. Qed.
Lemma wrap_mul w a b : 0 ≤ w → wrap w (wrap w a * wrap w b) = wrap w (a * b).
Proof. intros. unfold wrap. by rewrite <- Zmult_mod. Qed.
Lemma wrap_opp w a : 0 ≤ w → wrap w (- wrap w a) = wrap w (- a).
Proof. intros. rewrite <- !Z.sub_0_l, <- (wrap_sub w 0 (wrap w a)), wrap_wrap by lia.
  by rewrite wrap_sub by lia. Qed.
Lemma wrap_land w a b : 0 ≤ w → wrap w (Z.land a b) = Z.land (wrap w a) (wrap w b).
Proof. intros. zbits. Qed.
Lemma wrap_lor w a b : 0 ≤ w → wrap w (Z.lor a b) = Z.lor (wrap w a) (wrap w b).
Proof. intros. zbits. Qed.
Lemma wrap_lxor w a b : 0 ≤ w → wrap w (Z.lxor a b) = Z.lxor (wrap w a) (wrap w b).
Proof. intros. zbits. Qed.
Lemma wrap_lnot w a : 0 ≤ w → wrap w (Z.lnot (wrap w a)) = wrap w (Z.lnot a).
Proof. intros. zbits. Qed.

(** A [w]-bit value is its own low [w] bits: range facts bit by bit. *)
Lemma in_range_wrap w x : 0 ≤ w → wrap w x = x → in_range w x.
Proof. intros ? <-. by apply wrap_range. Qed.

Lemma in_range_le w v x : 0 ≤ w ≤ v → in_range w x → in_range v x.
Proof. intros ? [? ?]. split; [lia|]. pose proof (Z.pow_le_mono_r 2 w v). lia. Qed.

Ltac zrange := apply in_range_wrap; [lia|]; zbits.

Lemma land_range w a b : 0 ≤ w → in_range w a → in_range w (Z.land a b).
Proof. intros. zrange. Qed.
Lemma lor_range w a b : 0 ≤ w → in_range w a → in_range w b → in_range w (Z.lor a b).
Proof. intros. zrange. Qed.
Lemma lxor_range w a b : 0 ≤ w → in_range w a → in_range w b → in_range w (Z.lxor a b).
Proof. intros. zrange. Qed.
Lemma shiftr_range w a n : 0 ≤ w → 0 ≤ n → in_range w a → in_range w (Z.shiftr a n).
Proof. intros. zrange. Qed.
#[export] Hint Resolve land_range lor_range lxor_range shiftr_range : range.

Lemma ones_range n w : 0 ≤ n ≤ w → in_range w (Z.ones n).
Proof.
  intros. rewrite Z.ones_equiv. unfold in_range.
  pose proof (Z.pow_le_mono_r 2 n w). pose proof (pow2_pos n). lia.
Qed.
#[export] Hint Resolve ones_range : range.

Lemma wrap_range_le w v z : 0 ≤ w → w ≤ v → in_range v (wrap w z).
Proof. intros. apply (in_range_le w); [lia|]. by apply wrap_range. Qed.
#[export] Hint Resolve wrap_range_le : range.
