(* ===== verification/Lanes.v ===== *)
(** Vectors as numbers: the elements of a vector, and operations on each of them.

    A vector of [n] elements of [w] bits is a number of [n * w] bits, the first
    element in the lowest ones ([docs/devel/tcg-ops.rst], host vector operations). *)
From S2P Require Import Prelude.

Fixpoint lanes (n : nat) (w v : Z) : list Z :=
  match n with O => [] | S n => wrap w v :: lanes n w (Z.shiftr v w) end.
Fixpoint join (w : Z) (l : list Z) : Z :=
  match l with [] => 0 | x :: l => Z.lor x (Z.shiftl (join w l) w) end.

(** An operation on the elements of one or two vectors. *)
Definition vmap (n : nat) (w : Z) (f : Z → Z) (a : Z) : Z := join w (map f (lanes n w a)).
Definition vmap2 (n : nat) (w : Z) (f : Z → Z → Z) (a b : Z) : Z := join w (zip_with f (lanes n w a) (lanes n w b)).
(** The same value in each element. *)
Definition vdup (n : nat) (w x : Z) : Z := join w (replicate n (wrap w x)).

Lemma lanes_length n w v : length (lanes n w v) = n.
Proof. revert v. induction n; intros v; cbn; auto. Qed.

Lemma lanes_range n w v : 0 ≤ w → Forall (in_range w) (lanes n w v).
Proof. intros Hw. revert v. induction n; intros v; constructor; auto. by apply wrap_range. Qed.

Lemma lanes_seq n w v : 0 ≤ w → lanes n w v = map (λ k, wrap w (Z.shiftr v (Z.of_nat k * w))) (seq 0 n).
Proof.
  intros Hw. revert v. induction n as [|n IH]; intros v; [done|]. cbn [lanes seq map].
  rewrite Z.mul_0_l, Z.shiftr_0_r. f_equal. rewrite IH, <- seq_shift, map_map. apply map_ext. intros k.
  rewrite Z.shiftr_shiftr by lia. do 2 f_equal. lia.
Qed.

Lemma join_range w l : 0 < w → Forall (in_range w) l → in_range (Z.of_nat (length l) * w) (join w l).
Proof.
  intros Hw. induction 1 as [|x l Hx Hl IH]; cbn [join length]; [done|].
  replace (Z.of_nat (S (length l)) * w) with (w + Z.of_nat (length l) * w) by lia.
  set (m := Z.of_nat (length l) * w) in *. assert (0 ≤ m) by lia.
  apply lor_range; [lia|by apply (in_range_le w); [lia|]|].
  rewrite Z.shiftl_mul_pow2 by lia. unfold in_range in *. rewrite Z.pow_add_r by lia. nia.
Qed.

Lemma lanes_join w l : 0 < w → Forall (in_range w) l → lanes (length l) w (join w l) = l.
Proof.
  intros Hw. induction 1 as [|x l Hx Hl IH]; cbn [join length lanes]; [done|]. f_equal.
  - zbits.
  - etrans; [|exact IH]. f_equal. zbits.
Qed.

Lemma join_lanes n w v : 0 < w → in_range (Z.of_nat n * w) v → join w (lanes n w v) = v.
Proof.
  intros Hw. revert v. induction n as [|n IH]; intros v Hv; cbn [join lanes].
  - unfold in_range in Hv. rewrite Z.mul_0_l, Z.pow_0_r in Hv. lia.
  - assert (Hr : in_range (Z.of_nat n * w) (Z.shiftr v w)).
    { replace (Z.of_nat (S n) * w) with (w + Z.of_nat n * w) in Hv by lia. unfold in_range in *.
      rewrite Z.shiftr_div_pow2 by lia. rewrite Z.pow_add_r in Hv by lia. pose proof (pow2_pos w ltac:(lia)).
      split; [apply Z.div_pos; lia|]. apply Z.div_lt_upper_bound; lia. }
    rewrite (IH _ Hr). zbits.
Qed.

Lemma join_snoc w l x : 0 ≤ w → join w (l ++ [x]) = Z.lor (Z.shiftl x (Z.of_nat (length l) * w)) (join w l).
Proof.
  intros Hw. induction l as [|y l IH]; cbn [app join length].
  - change (Z.of_nat 0 * w) with 0. by rewrite Z.shiftl_0_l, Z.shiftl_0_r.
  - rewrite IH. rewrite Z.shiftl_lor, Z.shiftl_shiftl by lia. replace (Z.of_nat (S (length l)) * w) with (Z.of_nat (length l) * w + w) by lia.
    rewrite !Z.lor_assoc. f_equal. apply Z.lor_comm.
Qed.

Lemma vmap2_ext n w f g a b :
  (∀ x y, in_range w x → in_range w y → f x y = g x y) → 0 ≤ w → vmap2 n w f a b = vmap2 n w g a b.
Proof.
  intros Hfg Hw. unfold vmap2. f_equal. revert a b. induction n as [|n IH]; intros a b; cbn; [done|].
  rewrite IH. f_equal. apply Hfg; by apply wrap_range.
Qed.
Lemma zip_range w (f : Z → Z → Z) l1 l2 :
  (∀ x y, in_range w x → in_range w y → in_range w (f x y)) → Forall (in_range w) l1 → Forall (in_range w) l2 →
  Forall (in_range w) (zip_with f l1 l2).
Proof. intros Hf H1. revert l2. induction H1; intros l2 H2; destruct H2; cbn; constructor; auto. Qed.
Lemma vmap2_range n w f a b :
  0 < w → (∀ x y, in_range w x → in_range w y → in_range w (f x y)) → in_range (Z.of_nat n * w) (vmap2 n w f a b).
Proof.
  intros Hw Hf. unfold vmap2.
  replace (Z.of_nat n) with (Z.of_nat (length (zip_with f (lanes n w a) (lanes n w b))))
    by (rewrite length_zip_with, !lanes_length; lia).
  apply join_range; [done|]. apply zip_range; [done| |]; apply lanes_range; lia.
Qed.

(** Elements as digits. *)
Lemma join_add w x l : 0 ≤ w → in_range w x → join w (x :: l) = x + 2 ^ w * join w l.
Proof.
  intros Hw Hx. cbn [join]. rewrite (Z.mul_comm (2 ^ w)), <- Z.shiftl_mul_pow2 by done.
  assert (D : Z.land x (Z.shiftl (join w l) w) = 0) by zbits.
  by rewrite Z.add_nocarry_lxor, Z.lxor_lor by done.
Qed.
Lemma vdup_S n w x : 0 ≤ w → vdup (S n) w x = wrap w x + 2 ^ w * vdup n w x.
Proof. intros Hw. unfold vdup. cbn [replicate]. apply join_add; [done|by apply wrap_range]. Qed.
Lemma vdup_0 w x : vdup 0 w x = 0.
Proof. done. Qed.
Lemma vdup_wrap n w x : 0 ≤ w → vdup n w (wrap w x) = vdup n w x.
Proof. intros Hw. unfold vdup. by rewrite (wrap_small w (wrap w x)) by (by apply wrap_range). Qed.
Lemma vdup_in n w x : 0 < w → in_range (Z.of_nat n * w) (vdup n w x).
Proof.
  intros Hw. unfold vdup. rewrite <- (length_replicate n (wrap w x)) at 1. apply join_range; [done|].
  apply Forall_replicate, wrap_range. lia.
Qed.
Lemma vdup_app m n w x : 0 ≤ w → vdup (m + n) w x = vdup m w x + 2 ^ (Z.of_nat m * w) * vdup n w x.
Proof.
  intros Hw. induction m as [|m IH]; [rewrite vdup_0, Z.mul_0_l, Z.pow_0_r; cbn [Nat.add]; lia|]. cbn [Nat.add]. rewrite !vdup_S, IH by done.
  replace (Z.of_nat (S m) * w) with (w + Z.of_nat m * w) by lia. rewrite Z.pow_add_r by nia. ring.
Qed.
Lemma vdup_vdup k m w x : 0 < w → (0 < m)%nat → vdup k (Z.of_nat m * w) (vdup m w x) = vdup (k * m) w x.
Proof.
  intros Hw Hm. induction k as [|k IH]; [done|]. cbn [Nat.mul]. rewrite vdup_S, vdup_app, IH by nia.
  by rewrite wrap_small by (by apply vdup_in).
Qed.
