(* ===== verification/Cond.v ===== *)
(** Comparison codes: [include/tcg/tcg-cond.h] and the two comparison routines
    of the TCG interpreter, [tci_compare32] and [tci_compare64] of
    [tcg/tci.c].

    [TCGCond] has the constructors of the C enum; [cond_code] is the numeric
    value of each and the operations compute on the code, as the C does.
    [cond_holds] is the mathematical meaning of a comparison at a width; the
    theorems say that the bit tricks on the code implement the operations on
    the meaning that their comments promise. *)
From S2P Require Import Prelude.

Inductive TCGCond : Set :=
| TCG_COND_NEVER | TCG_COND_ALWAYS
| TCG_COND_EQ | TCG_COND_NE
| TCG_COND_TSTEQ | TCG_COND_TSTNE
| TCG_COND_LT | TCG_COND_GE | TCG_COND_GT | TCG_COND_LE
| TCG_COND_LTU | TCG_COND_GEU | TCG_COND_GTU | TCG_COND_LEU.

#[export] Instance TCGCond_eq_dec : EqDecision TCGCond.
Proof. solve_decision. Defined.

Definition cond_code (c : TCGCond) : Z :=
  match c with
  | TCG_COND_NEVER => 0 | TCG_COND_ALWAYS => 1
  | TCG_COND_EQ => 8 | TCG_COND_NE => 9
  | TCG_COND_TSTEQ => 12 | TCG_COND_TSTNE => 13
  | TCG_COND_LT => 2 | TCG_COND_GE => 3 | TCG_COND_GT => 6 | TCG_COND_LE => 7
  | TCG_COND_LTU => 10 | TCG_COND_GEU => 11 | TCG_COND_GTU => 14 | TCG_COND_LEU => 15
  end.

(** The cast of an integer to the enum.  4 and 5 are the only four-bit codes
    without an enumerator; [cond_cast_exact] shows that no operation below
    produces them. *)
Definition cond_of_code (z : Z) : option TCGCond :=
  match z with
  | 0 => Some TCG_COND_NEVER | 1 => Some TCG_COND_ALWAYS
  | 2 => Some TCG_COND_LT | 3 => Some TCG_COND_GE
  | 6 => Some TCG_COND_GT | 7 => Some TCG_COND_LE
  | 8 => Some TCG_COND_EQ | 9 => Some TCG_COND_NE
  | 10 => Some TCG_COND_LTU | 11 => Some TCG_COND_GEU
  | 12 => Some TCG_COND_TSTEQ | 13 => Some TCG_COND_TSTNE
  | 14 => Some TCG_COND_GTU | 15 => Some TCG_COND_LEU
  | _ => None
  end.

Definition cond_cast (z : Z) : TCGCond := default TCG_COND_NEVER (cond_of_code z).

Definition tcg_invert_cond (c : TCGCond) : TCGCond :=
  cond_cast (Z.lxor (cond_code c) 1).

Definition tcg_swap_cond (c : TCGCond) : TCGCond :=
  cond_cast (Z.lxor (cond_code c) (Z.shiftl (Z.land (cond_code c) 2) 1)).

Definition is_signed_cond (c : TCGCond) : bool :=
  Z.land (cond_code c) (Z.lor 8 2) =? 2.

Definition is_unsigned_cond (c : TCGCond) : bool :=
  Z.land (cond_code c) (Z.lor 8 2) =? Z.lor 8 2.

Definition is_tst_cond (c : TCGCond) : bool :=
  Z.lor (cond_code c) 1 =? cond_code TCG_COND_TSTNE.

Definition tcg_unsigned_cond (c : TCGCond) : TCGCond :=
  if is_signed_cond c then cond_cast (cond_code c + 8) else c.

Definition tcg_signed_cond (c : TCGCond) : TCGCond :=
  if is_unsigned_cond c then cond_cast (cond_code c - 8) else c.

Definition tcg_tst_eqne_cond (c : TCGCond) : TCGCond :=
  if is_tst_cond c then cond_cast (cond_code c - 4) else c.

Definition tcg_tst_ltge_cond (c : TCGCond) : TCGCond :=
  if is_tst_cond c then cond_cast (Z.lxor (cond_code c) 15) else c.

Definition tcg_high_cond (c : TCGCond) : TCGCond :=
  match c with
  | TCG_COND_GE | TCG_COND_LE | TCG_COND_GEU | TCG_COND_LEU =>
      cond_cast (Z.lxor (cond_code c) (Z.lor 4 1))
  | _ => c
  end.

(** [tci_compare32] and [tci_compare64] differ only in the width of the
    operands and of their signed readings. *)
Definition tci_compare (w : Z) (u0 u1 : Z) (condition : TCGCond) : Res bool :=
  let i0 := sgn w u0 in
  let i1 := sgn w u1 in
  match condition with
  | TCG_COND_EQ => Ok (u0 =? u1)
  | TCG_COND_NE => Ok (negb (u0 =? u1))
  | TCG_COND_LT => Ok (i0 <? i1)
  | TCG_COND_GE => Ok (i1 <=? i0)
  | TCG_COND_LE => Ok (i0 <=? i1)
  | TCG_COND_GT => Ok (i1 <? i0)
  | TCG_COND_LTU => Ok (u0 <? u1)
  | TCG_COND_GEU => Ok (u1 <=? u0)
  | TCG_COND_LEU => Ok (u0 <=? u1)
  | TCG_COND_GTU => Ok (u1 <? u0)
  | TCG_COND_TSTEQ => Ok (Z.land u0 u1 =? 0)
  | TCG_COND_TSTNE => Ok (negb (Z.land u0 u1 =? 0))
  | _ => Abort
  end.

Definition tci_compare32 : Z → Z → TCGCond → Res bool := tci_compare 32.
Definition tci_compare64 : Z → Z → TCGCond → Res bool := tci_compare 64.

(** The meaning of a comparison of two [w]-bit values. *)
Definition cond_holds (w : Z) (c : TCGCond) (a b : Z) : bool :=
  match c with
  | TCG_COND_NEVER => false
  | TCG_COND_ALWAYS => true
  | TCG_COND_EQ => a =? b
  | TCG_COND_NE => negb (a =? b)
  | TCG_COND_TSTEQ => Z.land a b =? 0
  | TCG_COND_TSTNE => negb (Z.land a b =? 0)
  | TCG_COND_LT => sgn w a <? sgn w b
  | TCG_COND_GE => sgn w b <=? sgn w a
  | TCG_COND_GT => sgn w b <? sgn w a
  | TCG_COND_LE => sgn w a <=? sgn w b
  | TCG_COND_LTU => a <? b
  | TCG_COND_GEU => b <=? a
  | TCG_COND_GTU => b <? a
  | TCG_COND_LEU => a <=? b
  end.

(** The conditions a comparison instruction may carry: everything but the two
    constant ones, which the generators fold away. *)
Definition cond_proper (c : TCGCond) : bool :=
  negb (bool_decide (c = TCG_COND_NEVER)) && negb (bool_decide (c = TCG_COND_ALWAYS)).

Lemma cond_of_code_code c : cond_of_code (cond_code c) = Some c.
Proof. by destruct c. Qed.

Lemma cond_cast_code c : cond_cast (cond_code c) = c.
Proof. by destruct c. Qed.

Lemma tci_compare_holds w a b c :
  cond_proper c = true → tci_compare w a b c = Ok (cond_holds w c a b).
Proof. by destruct c. Qed.

(** Every code the operations compute is that of an enumerator, so the casts
    of the C code never leave the enum. *)
Lemma cond_cast_exact c :
  cond_code (tcg_invert_cond c) = Z.lxor (cond_code c) 1 ∧
  cond_code (tcg_swap_cond c)
    = Z.lxor (cond_code c) (Z.shiftl (Z.land (cond_code c) 2) 1).
Proof. by destruct c. Qed.

(** Case analysis on a condition, with the code operations evaluated. *)
Ltac cond_case c :=
  destruct c;
  repeat match goal with
    | |- context [?f ?k] =>
        lazymatch f with
        | tcg_invert_cond => idtac | tcg_swap_cond => idtac
        | tcg_unsigned_cond => idtac | tcg_high_cond => idtac
        | tcg_tst_ltge_cond => idtac | tcg_tst_eqne_cond => idtac
        end;
        let v := eval vm_compute in (f k) in change (f k) with v
    end; cbn [cond_holds].

Lemma cond_holds_invert w c a b :
  cond_holds w (tcg_invert_cond c) a b = negb (cond_holds w c a b).
Proof.
  cond_case c; rewrite ?negb_involutive; try done;
    rewrite Z.leb_antisym, ?negb_involutive; done.
Qed.

Lemma cond_holds_swap w c a b :
  cond_holds w (tcg_swap_cond c) a b = cond_holds w c b a.
Proof. cond_case c; try done; rewrite ?(Z.eqb_sym a b), ?(Z.land_comm a b); done. Qed.

Lemma proper_invert c : cond_proper (tcg_invert_cond c) = cond_proper c.
Proof. by destruct c. Qed.

Lemma proper_swap c : cond_proper (tcg_swap_cond c) = cond_proper c.
Proof. by destruct c. Qed.

(** A comparison of double words through the halves. *)
Lemma sgn_concat h l v :
  0 < v → in_range v h → in_range v l →
  sgn (2 * v) (h * 2 ^ v + l) = sgn v h * 2 ^ v + l.
Proof.
  intros Hv [? ?] [? ?]. unfold sgn.
  assert (E : 2 ^ (2 * v) = 2 ^ v * 2 ^ v) by (rewrite <- Z.pow_add_r by lia; f_equal; lia).
  assert (E' : 2 ^ (2 * v - 1) = 2 ^ (v - 1) * 2 ^ v)
    by (rewrite <- Z.pow_add_r by lia; f_equal; lia).
  rewrite (wrap_small v h), (wrap_small (2 * v)) by (split; nia).
  rewrite E, E'.
  destruct (Z.ltb_spec h (2 ^ (v - 1))), (Z.ltb_spec (h * 2 ^ v + l) (2 ^ (v - 1) * 2 ^ v)); nia.
Qed.

Lemma lex_ltb h h' l l' v :
  in_range v l → in_range v l' →
  (h * 2 ^ v + l <? h' * 2 ^ v + l') = if h =? h' then l <? l' else h <? h'.
Proof.
  intros [? ?] [? ?]. destruct (Z.eqb_spec h h') as [->|];
    repeat match goal with |- context [?x <? ?y] => destruct (Z.ltb_spec x y) end; nia.
Qed.

Lemma lex_leb h h' l l' v :
  in_range v l → in_range v l' →
  (h * 2 ^ v + l <=? h' * 2 ^ v + l') = if h =? h' then l <=? l' else h <? h'.
Proof.
  intros. rewrite !Z.leb_antisym, lex_ltb by done. rewrite (Z.eqb_sym h' h).
  destruct (Z.eqb_spec h h'); [by rewrite <- Z.leb_antisym|].
  destruct (Z.ltb_spec h' h), (Z.ltb_spec h h'); lia.
Qed.

Lemma lex_eqb h h' l l' v :
  in_range v l → in_range v l' →
  (h * 2 ^ v + l =? h' * 2 ^ v + l') = if h =? h' then l =? l' else false.
Proof.
  intros [? ?] [? ?]. destruct (Z.eqb_spec h h') as [->|], (Z.eqb_spec l l');
    match goal with |- context [?x =? ?y] => destruct (Z.eqb_spec x y) end; nia.
Qed.

Lemma sgn_inj w a b : in_range w a → in_range w b → (sgn w a =? sgn w b) = (a =? b).
Proof.
  intros Ha Hb. pose proof Ha as [? ?]. pose proof Hb as [? ?].
  unfold sgn. rewrite !wrap_small by done.
  destruct (Z.ltb_spec a (2 ^ (w - 1))), (Z.ltb_spec b (2 ^ (w - 1)));
    repeat match goal with |- context [?x =? ?y] => destruct (Z.eqb_spec x y) end; lia.
Qed.

(** [tcg_high_cond] and [tcg_unsigned_cond] split a double-word comparison:
    equal high words leave it to the unsigned comparison of the low words,
    different ones to the high comparison. *)
Lemma cond_holds_double v c ah al bh bl :
  0 < v → is_tst_cond c = false →
  in_range v ah → in_range v al → in_range v bh → in_range v bl →
  cond_holds (2 * v) c (ah * 2 ^ v + al) (bh * 2 ^ v + bl)
  = if ah =? bh then cond_holds v (tcg_unsigned_cond c) al bl
    else cond_holds v (tcg_high_cond c) ah bh.
Proof.
  intros Hv Ht Hah Hal Hbh Hbl.
  cond_case c; try done;
    rewrite ?sgn_concat, ?lex_ltb, ?lex_leb, ?lex_eqb, ?sgn_inj by done;
    rewrite ?(Z.eqb_sym bh ah); destruct (Z.eqb_spec ah bh); try done.
Qed.

(** A test of the sign bit is a signed comparison with zero. *)
Lemma cond_holds_tst_sign w c a :
  0 < w → is_tst_cond c = true → in_range w a →
  cond_holds w (tcg_tst_ltge_cond c) a 0 = cond_holds w c a (2 ^ (w - 1)).
Proof.
  intros Hw Hc Ha. pose proof Ha as [? ?].
  assert (E : (Z.land a (2 ^ (w - 1)) =? 0) = (0 <=? sgn w a)).
  { pose proof (testbit_sgn w a (w - 1)) as Hs.
    pose proof (Z.land_ones a w). unfold sgn. rewrite wrap_small by done.
    assert (2 ^ w = 2 * 2 ^ (w - 1)) by (rewrite <- Z.pow_succ_r by lia; f_equal; lia).
    assert (Z.land a (2 ^ (w - 1)) = if a <? 2 ^ (w - 1) then 0 else 2 ^ (w - 1)) as ->.
    { apply Z.bits_inj'. intros i Hi. rewrite Z.land_spec, Z.pow2_bits_eqb by lia.
      destruct (Z.eqb_spec (w - 1) i) as [<-|].
      - rewrite andb_true_r. destruct (Z.ltb_spec a (2 ^ (w - 1))).
        + rewrite Z.bits_0. apply (testbit_high (w - 1)); [split|]; lia.
        + rewrite Z.pow2_bits_true by lia. apply Z.testbit_true; [lia|].
          replace (a / 2 ^ (w - 1)) with 1; [done|].
          apply (Z.div_unique _ _ _ (a - 2 ^ (w - 1))); lia.
      - rewrite andb_false_r. destruct (a <? 2 ^ (w - 1));
          [by rewrite Z.bits_0 | by rewrite Z.pow2_bits_false by lia]. }
    destruct (Z.ltb_spec a (2 ^ (w - 1))); [lia|].
    destruct (Z.eqb_spec (2 ^ (w - 1)) 0), (Z.leb_spec 0 (a - 2 ^ w)); lia. }
  assert (Hz : sgn w 0 = 0).
  { unfold sgn. rewrite wrap_small by (split; lia).
    pose proof (pow2_pos (w - 1)). destruct (Z.ltb_spec 0 (2 ^ (w - 1))); lia. }
  cond_case c; try done; rewrite E, Hz; [done|]. rewrite Z.leb_antisym. by rewrite negb_involutive.
Qed.

(** A test is an equality comparison of the conjunction with zero. *)
Lemma cond_holds_tst_eqne w c a b :
  is_tst_cond c = true →
  cond_holds w (tcg_tst_eqne_cond c) (Z.land a b) 0 = cond_holds w c a b.
Proof. by cond_case c. Qed.
