(* ===== verification/Bitops.v ===== *)
(** Bit manipulation: [include/qemu/bitops.h], the counting and multiplication
    routines of [include/qemu/host-utils.h] and the byte swaps of
    [include/qemu/bswap.h].

    A routine the header repeats for several widths is one definition over the
    width; the compiler builtins are the functions the compiler documents.
    Every routine has a theorem giving each bit (or the value) of its result. *)
From S2P Require Import Prelude.

(** ** Rotations (rol8 ... ror64) *)

Definition rol (w word shift : Z) : Z :=
  wrap w (Z.lor (Z.shiftl word (Z.land shift (w - 1)))
                (Z.shiftr word (Z.land (wrap 32 (- shift)) (w - 1)))).
Definition ror (w word shift : Z) : Z :=
  wrap w (Z.lor (Z.shiftr word (Z.land shift (w - 1)))
                (Z.shiftl word (Z.land (wrap 32 (- shift)) (w - 1)))).

Definition rol8 := rol 8.
Definition ror8 := ror 8.
Definition rol16 := rol 16.
Definition ror16 := ror 16.
Definition rol32 := rol 32.
Definition ror32 := ror 32.
Definition rol64 := rol 64.
Definition ror64 := ror 64.

Definition hswap32 (h : Z) : Z := rol32 h 16.
Definition hswap64 (h : Z) : Z :=
  let m := 0x0000ffff0000ffff in
  let h := rol64 h 32 in
  Z.lor (wrap 64 (Z.shiftl (Z.land h m) 16)) (Z.land (Z.shiftr h 16) m).
Definition wswap64 (h : Z) : Z := rol64 h 32.

(** ** Bit fields *)

Definition field_ok (w start length : Z) : bool :=
  (0 <=? start) && (0 <? length) && (length <=? w - start).

(** [~0U >> (w - length)] *)
Definition low_mask (w length : Z) : Z := Z.shiftr (2 ^ w - 1) (w - length).

Definition extract (w value start length : Z) : Res Z :=
  assert_ (field_ok w start length);;
  mret (Z.land (Z.shiftr value start) (low_mask w length)).
Definition extract8 (value start length : Z) : Res Z :=
  assert_ (field_ok 8 start length);; extract 32 value start length.
Definition extract16 (value start length : Z) : Res Z :=
  assert_ (field_ok 16 start length);; extract 32 value start length.
Definition extract32 := extract 32.
Definition extract64 := extract 64.

(** The result is the signed value the C function returns. *)
Definition sextract (w value start length : Z) : Res Z :=
  assert_ (field_ok w start length);;
  mret (Z.shiftr (sgn w (Z.shiftl value (w - length - start))) (w - length)).
Definition sextract32 := sextract 32.
Definition sextract64 := sextract 64.

Definition deposit (w value start length fieldval : Z) : Res Z :=
  assert_ (field_ok w start length);;
  let mask := wrap w (Z.shiftl (low_mask w length) start) in
  mret (Z.lor (Z.land value (wrap w (Z.lnot mask)))
              (Z.land (wrap w (Z.shiftl fieldval start)) mask)).
Definition deposit32 := deposit 32.
Definition deposit64 := deposit 64.

(** ** Half shuffles *)

(** One line of the shuffles: [x = ((x << s) | x) & m] and
    [x = ((x >> s) | x) & m]. *)
Definition shuffle_step (w s m x : Z) : Z :=
  Z.land (Z.lor (wrap w (Z.shiftl x s)) x) m.
Definition unshuffle_step (s m x : Z) : Z :=
  Z.land (Z.lor (Z.shiftr x s) x) m.

Definition half_shuffle32 (x : Z) : Z :=
  let x := Z.lor (wrap 32 (Z.shiftl (Z.land x 0xFF00) 8)) (Z.land x 0x00FF) in
  let x := shuffle_step 32 4 0x0F0F0F0F x in
  let x := shuffle_step 32 2 0x33333333 x in
  let x := shuffle_step 32 1 0x55555555 x in
  x.

Definition half_shuffle64 (x : Z) : Z :=
  let x := Z.lor (wrap 64 (Z.shiftl (Z.land x 0xFFFF0000) 16)) (Z.land x 0xFFFF) in
  let x := shuffle_step 64 8 0x00FF00FF00FF00FF x in
  let x := shuffle_step 64 4 0x0F0F0F0F0F0F0F0F x in
  let x := shuffle_step 64 2 0x3333333333333333 x in
  let x := shuffle_step 64 1 0x5555555555555555 x in
  x.

Definition half_unshuffle32 (x : Z) : Z :=
  let x := Z.land x 0x55555555 in
  let x := unshuffle_step 1 0x33333333 x in
  let x := unshuffle_step 2 0x0F0F0F0F x in
  let x := unshuffle_step 4 0x00FF00FF x in
  let x := unshuffle_step 8 0x0000FFFF x in
  x.

Definition half_unshuffle64 (x : Z) : Z :=
  let x := Z.land x 0x5555555555555555 in
  let x := unshuffle_step 1 0x3333333333333333 x in
  let x := unshuffle_step 2 0x0F0F0F0F0F0F0F0F x in
  let x := unshuffle_step 4 0x00FF00FF00FF00FF x in
  let x := unshuffle_step 8 0x0000FFFF0000FFFF x in
  let x := unshuffle_step 16 0x00000000FFFFFFFF x in
  x.

(** ** Counting bits *)

Fixpoint popcount (n : nat) (v : Z) : Z :=
  match n with
  | O => 0
  | S n => Z.b2z (Z.odd v) + popcount n (Z.div2 v)
  end.
Definition ctpop8 (val : Z) : Z := popcount 32 (wrap 8 val).
Definition ctpop16 (val : Z) : Z := popcount 32 (wrap 16 val).
Definition ctpop32 (val : Z) : Z := popcount 32 val.
Definition ctpop64 (val : Z) : Z := popcount 64 val.

Definition builtin_clz (w val : Z) : Z := w - 1 - Z.log2 val.
Definition clz32 (val : Z) : Z := if val =? 0 then 32 else builtin_clz 32 val.
Definition clz64 (val : Z) : Z := if val =? 0 then 64 else builtin_clz 64 val.
Definition clo32 (val : Z) : Z := clz32 (wrap 32 (Z.lnot val)).
Definition clo64 (val : Z) : Z := clz64 (wrap 64 (Z.lnot val)).

Fixpoint ctz_pos (p : positive) : Z :=
  match p with xO p => 1 + ctz_pos p | _ => 0 end.
Definition builtin_ctz (val : Z) : Z :=
  match val with Zpos p => ctz_pos p | _ => 0 end.
Definition ctz8 (val : Z) : Z := if val =? 0 then 8 else builtin_ctz val.
Definition ctz16 (val : Z) : Z := if val =? 0 then 16 else builtin_ctz val.
Definition ctz32 (val : Z) : Z := if val =? 0 then 32 else builtin_ctz val.
Definition ctz64 (val : Z) : Z := if val =? 0 then 64 else builtin_ctz val.
Definition cto32 (val : Z) : Z := ctz32 (wrap 32 (Z.lnot val)).
Definition cto64 (val : Z) : Z := ctz64 (wrap 64 (Z.lnot val)).

(** The portable branch of the header, which is also the documented meaning
    of the builtin: leading bits equal to the sign bit, not counting it. *)
Definition clrsb32 (val : Z) : Z :=
  clz32 (wrap 32 (Z.lxor val (Z.shiftr (sgn 32 val) 1))) - 1.
Definition clrsb64 (val : Z) : Z :=
  clz64 (wrap 64 (Z.lxor val (Z.shiftr (sgn 64 val) 1))) - 1.

Definition is_power_of_2 (value : Z) : bool :=
  if value =? 0 then false else Z.land value (wrap 64 (value - 1)) =? 0.

(** ** Wide multiplication: (low, high) *)

Definition mulu64 (a b : Z) : Z * Z :=
  let r := a * b in (wrap 64 r, wrap 64 (Z.shiftr r 64)).
Definition muls64 (a b : Z) : Z * Z :=
  let r := sgn 64 a * sgn 64 b in (wrap 64 r, wrap 64 (Z.shiftr r 64)).

(** ** Byte swaps *)

Fixpoint bswap_bytes (n : nat) (v : Z) : Z :=
  match n with
  | O => 0
  | S n => Z.lor (Z.shiftl (wrap 8 v) (8 * Z.of_nat n)) (bswap_bytes n (Z.shiftr v 8))
  end.
Definition bswap16 (x : Z) : Z := bswap_bytes 2 x.
Definition bswap32 (x : Z) : Z := bswap_bytes 4 x.
Definition bswap64 (x : Z) : Z := bswap_bytes 8 x.
Definition bswap24 (x : Z) : Z :=
  Z.lor (Z.lor (wrap 32 (Z.shiftl (Z.land x 0x000000ff) 16))
               (Z.land x 0x0000ff00))
        (Z.shiftr (Z.land x 0x00ff0000) 16).

(** ** Rotations bit by bit *)

(** The widths the routines exist at. *)
Definition is_width (w : Z) : Prop := w = 8 ∨ w = 16 ∨ w = 32 ∨ w = 64.

Lemma land_width w s : is_width w → Z.land s (w - 1) = s mod w.
Proof.
  intros [-> | [-> | [-> | ->]]];
    [apply (Z.land_ones s 3) | apply (Z.land_ones s 4)
    | apply (Z.land_ones s 5) | apply (Z.land_ones s 6)]; lia.
Qed.

Lemma land_neg_width w s :
  is_width w → Z.land (wrap 32 (- s)) (w - 1) = (- s) mod w.
Proof.
  intros Hw. rewrite land_width by done. unfold wrap. apply Z.mod_mod_divide.
  destruct Hw as [-> | [-> | [-> | ->]]];
    [exists (2 ^ 29) | exists (2 ^ 28) | exists (2 ^ 27) | exists (2 ^ 26)]; done.
Qed.

Lemma mod_neg w s : 0 < w → (- s) mod w = if s mod w =? 0 then 0 else w - s mod w.
Proof.
  intros. destruct (Z.eqb_spec (s mod w) 0).
  - by apply Z.mod_opp_l_z; [lia|].
  - by apply Z.mod_opp_l_nz; [lia|].
Qed.

Lemma mod_sub_small w i s :
  0 < w → 0 ≤ i < w →
  (i - s) mod w = if s mod w <=? i then i - s mod w else i - s mod w + w.
Proof.
  intros. pose proof (Z.mod_pos_bound s w).
  assert (E : (i - s) mod w = (i - s mod w) mod w) by (by rewrite Zminus_mod_idemp_r).
  rewrite E. destruct (Z.leb_spec (s mod w) i).
  - apply Z.mod_small; lia.
  - rewrite <- (Z.mod_add _ 1) by lia. rewrite Z.mul_1_l. apply Z.mod_small; lia.
Qed.

Lemma width_pos w : is_width w → 0 < w.
Proof. unfold is_width. lia. Qed.

Lemma testbit_rol w x s i :
  is_width w → in_range w x → 0 ≤ i < w →
  Z.testbit (rol w x s) i = Z.testbit x ((i - s) mod w).
Proof.
  intros Hw Hx Hi. pose proof (width_pos w Hw).
  unfold rol. rewrite land_neg_width, land_width, mod_neg, mod_sub_small by done.
  pose proof (Z.mod_pos_bound s w). zbits_core.
Qed.

Lemma testbit_ror w x s i :
  is_width w → in_range w x → 0 ≤ i < w →
  Z.testbit (ror w x s) i = Z.testbit x ((i + s) mod w).
Proof.
  intros Hw Hx Hi. pose proof (width_pos w Hw).
  unfold ror. rewrite land_neg_width, land_width by done.
  replace (i + s) with (i - (- s)) by lia. rewrite mod_sub_small, mod_neg by done.
  pose proof (Z.mod_pos_bound s w). zbits_core.
Qed.

Lemma rol_range w x s : 0 ≤ w → in_range w (rol w x s).
Proof. intros. by apply wrap_range. Qed.
Lemma ror_range w x s : 0 ≤ w → in_range w (ror w x s).
Proof. intros. by apply wrap_range. Qed.
#[export] Hint Resolve rol_range ror_range : range.

(** Two [w]-bit values with the same low [w] bits are equal. *)
Lemma range_ext w x y :
  in_range w x → in_range w y →
  (∀ i, 0 ≤ i < w → Z.testbit x i = Z.testbit y i) → x = y.
Proof.
  intros Hx Hy H. destruct (Z_lt_le_dec w 0) as [Hw|Hw].
  { destruct Hx. rewrite (Z.pow_neg_r 2 w) in * by lia. lia. }
  apply Z.bits_inj'. intros i Hi. destruct (Z_lt_le_dec i w); [by apply H|].
  by rewrite !(testbit_high w) by (done || lia).
Qed.

Lemma ror_rol w x s : is_width w → in_range w x → ror w (rol w x s) s = x.
Proof.
  intros Hw Hx. pose proof (width_pos w Hw).
  apply (range_ext w); auto with range. intros i Hi.
  rewrite testbit_ror by auto with range.
  rewrite testbit_rol by (auto with range; apply Z.mod_pos_bound; lia).
  rewrite Zminus_mod_idemp_l. f_equal. rewrite Z.add_simpl_r. apply Z.mod_small; lia.
Qed.

Lemma rol_ror_neg w x s : is_width w → in_range w x → rol w x (- s) = ror w x s.
Proof.
  intros Hw Hx. pose proof (width_pos w Hw).
  apply (range_ext w); auto with range. intros i Hi.
  rewrite testbit_ror, testbit_rol by auto with range. do 2 f_equal. lia.
Qed.

(** ** Bit fields *)

Lemma low_mask_ones w l : 0 ≤ l ≤ w → low_mask w l = Z.ones l.
Proof.
  intros. unfold low_mask. replace (2 ^ w - 1) with (Z.ones w) by (rewrite Z.ones_equiv; lia).
  zbits.
Qed.

Lemma field_ok_spec w s l :
  field_ok w s l = true ↔ 0 ≤ s ∧ 0 < l ∧ s + l ≤ w.
Proof. unfold field_ok. rewrite !andb_true_iff. lia. Qed.

Lemma extract_eq w v s l :
  field_ok w s l = true → extract w v s l = Ok (wrap l (Z.shiftr v s)).
Proof.
  intros H. unfold extract. rewrite assert_true by done. apply field_ok_spec in H.
  rewrite low_mask_ones by lia. unfold mret, res_ret. f_equal. zbits.
Qed.

Lemma sextract_eq w v s l :
  field_ok w s l = true → sextract w v s l = Ok (sgn l (Z.shiftr v s)).
Proof.
  intros H. unfold sextract. rewrite assert_true by done. apply field_ok_spec in H.
  unfold mret, res_ret. f_equal. zbits.
Qed.

(** The field [f] placed at bit [s] of [v]. *)
Definition put_field (v s l f : Z) : Z :=
  Z.lor (Z.ldiff v (Z.shiftl (Z.ones l) s)) (Z.shiftl (wrap l f) s).

Lemma deposit_eq w v s l f :
  field_ok w s l = true → in_range w v → deposit w v s l f = Ok (put_field v s l f).
Proof.
  intros H Hv. unfold deposit, put_field. rewrite assert_true by done. apply field_ok_spec in H.
  rewrite low_mask_ones by lia. unfold mret, res_ret. f_equal. zbits.
Qed.

Lemma put_field_range w v s l f :
  0 ≤ s → 0 < l → s + l ≤ w → in_range w v → in_range w (put_field v s l f).
Proof. intros. unfold put_field. zrange. Qed.
#[export] Hint Resolve put_field_range : range.

Lemma extract_put_field v s l f :
  0 ≤ s → 0 < l → wrap l (Z.shiftr (put_field v s l f) s) = wrap l f.
Proof. intros. unfold put_field. zbits. Qed.

Lemma put_field_wrap v s l f : 0 ≤ l → put_field v s l (wrap l f) = put_field v s l f.
Proof. intros. unfold put_field. by rewrite wrap_wrap. Qed.

Lemma put_field_extract v s l :
  0 ≤ s → 0 < l → put_field v s l (Z.shiftr v s) = v.
Proof. intros. unfold put_field. zbits. Qed.

(** ** Byte swaps bit by bit *)

Lemma testbit_bswap n v i :
  0 ≤ i →
  Z.testbit (bswap_bytes n v) i
  = (i <? 8 * Z.of_nat n) && Z.testbit v (8 * (Z.of_nat n - 1 - i / 8) + i mod 8).
Proof.
  intros Hi. revert v. induction n as [|n IH]; intros v.
  { change (bswap_bytes 0 v) with 0. change (8 * Z.of_nat 0) with 0.
    rewrite Z.bits_0. by replace (i <? 0) with false by lia. }
  cbn [bswap_bytes]. rewrite Z.lor_spec, IH, testbit_shiftl, testbit_wrap, Nat2Z.inj_succ by lia.
  pose proof (Z.div_mod i 8). pose proof (Z.mod_pos_bound i 8).
  destruct (Z.ltb_spec i (8 * Z.of_nat n)) as [Hlt|Hge].
  - replace (8 * Z.of_nat n <=? i) with false by lia.
    replace (i <? 8 * Z.succ (Z.of_nat n)) with true by lia. cbn [andb orb].
    assert (i / 8 < Z.of_nat n) by (apply Z.div_lt_upper_bound; lia).
    rewrite Z.shiftr_spec by lia. f_equal. lia.
  - replace (8 * Z.of_nat n <=? i) with true by lia. cbn [andb]. rewrite orb_false_r.
    destruct (Z.ltb_spec (i - 8 * Z.of_nat n) 8); cbn [andb].
    + replace (i <? 8 * Z.succ (Z.of_nat n)) with true by lia. cbn [andb]. f_equal.
      assert (i / 8 = Z.of_nat n) by (symmetry; apply (Z.div_unique _ _ _ (i - 8 * Z.of_nat n)); lia).
      lia.
    + by replace (i <? 8 * Z.succ (Z.of_nat n)) with false by lia.
Qed.

Lemma bswap_range n v : in_range (8 * Z.of_nat n) (bswap_bytes n v).
Proof.
  apply in_range_wrap; [lia|]. apply Z.bits_inj'. intros i Hi.
  rewrite testbit_wrap, testbit_bswap by lia. by destruct (i <? 8 * Z.of_nat n).
Qed.

Lemma bswap_wrap n w v : 8 * Z.of_nat n ≤ w → bswap_bytes n (wrap w v) = bswap_bytes n v.
Proof.
  intros Hw. apply Z.bits_inj'. intros i Hi. rewrite !testbit_bswap by lia.
  destruct (Z.ltb_spec i (8 * Z.of_nat n)); [|done]. cbn [andb].
  pose proof (Z.div_mod i 8). pose proof (Z.mod_pos_bound i 8).
  assert (0 ≤ i / 8) by (apply Z.div_pos; lia).
  rewrite testbit_wrap by lia. by replace (_ <? w) with true by lia.
Qed.

Lemma bswap_involutive n v :
  in_range (8 * Z.of_nat n) v → bswap_bytes n (bswap_bytes n v) = v.
Proof.
  intros Hv. apply (range_ext (8 * Z.of_nat n)); [apply bswap_range | done |].
  intros i Hi. pose proof (Z.div_mod i 8). pose proof (Z.mod_pos_bound i 8).
  assert (0 ≤ i / 8 < Z.of_nat n) by (split; [apply Z.div_pos | apply Z.div_lt_upper_bound]; lia).
  set (j := 8 * (Z.of_nat n - 1 - i / 8) + i mod 8).
  assert (j / 8 = Z.of_nat n - 1 - i / 8)
    by (symmetry; apply (Z.div_unique _ _ _ (i mod 8)); lia).
  assert (j mod 8 = i mod 8)
    by (symmetry; apply (Z.mod_unique _ _ (Z.of_nat n - 1 - i / 8)); lia).
  rewrite testbit_bswap by lia. fold j. rewrite testbit_bswap by lia.
  replace (i <? 8 * Z.of_nat n) with true by lia.
  replace (j <? 8 * Z.of_nat n) with true by lia. cbn [andb]. f_equal. lia.
Qed.

(** ** Counting *)

Lemma popcount_zero n : popcount n 0 = 0.
Proof. induction n; cbn; [done|]. by rewrite IHn. Qed.

Lemma popcount_ones n k : 0 ≤ k ≤ Z.of_nat n → popcount n (Z.ones k) = k.
Proof.
  revert k. induction n as [|n IH]; intros k Hk; cbn; [lia|].
  destruct (Z.eq_dec k 0) as [->|]; [by rewrite popcount_zero|].
  assert (Z.odd (Z.ones k) = true) as ->
    by (rewrite <- Z.bit0_odd, testbit_ones by lia; lia).
  assert (Z.div2 (Z.ones k) = Z.ones (k - 1)) as ->
    by (rewrite Z.div2_spec; zbits).
  rewrite IH by lia. cbn. lia.
Qed.

Lemma popcount_bounds n v : 0 ≤ popcount n v ≤ Z.of_nat n.
Proof.
  revert v. induction n as [|n IH]; intros v; cbn; [lia|].
  specialize (IH (Z.div2 v)). destruct (Z.odd v); cbn; lia.
Qed.

(** Popcount at a larger width of a value that fits the smaller one. *)
Lemma popcount_widen n m v :
  in_range (Z.of_nat n) v → popcount (n + m) v = popcount n v.
Proof.
  revert v. induction n as [|n IH]; intros v Hv; cbn.
  - assert (v = 0) as -> by (unfold in_range in Hv; lia). apply popcount_zero.
  - rewrite IH; [done|]. rewrite Z.div2_spec. zrange.
Qed.

Lemma ctz_pos_nonneg p : 0 ≤ ctz_pos p.
Proof. induction p; cbn; lia. Qed.

Lemma testbit_double a i : 0 ≤ i →
  Z.testbit (2 * a) i = negb (i =? 0) && Z.testbit a (i - 1).
Proof.
  intros. destruct (Z.eqb_spec i 0) as [->|]; [by rewrite Z.testbit_even_0|].
  replace i with (Z.succ (i - 1)) at 1 by lia. by rewrite Z.testbit_even_succ by lia.
Qed.

Lemma testbit_double_1 a i : 0 ≤ i →
  Z.testbit (2 * a + 1) i = (i =? 0) || Z.testbit a (i - 1).
Proof.
  intros. destruct (Z.eqb_spec i 0) as [->|]; [by rewrite Z.testbit_odd_0|].
  replace i with (Z.succ (i - 1)) at 1 by lia. by rewrite Z.testbit_odd_succ by lia.
Qed.

(** The bits below the lowest set bit: [(x - 1) & ~x]. *)
Lemma ctz_mask p :
  Z.land (Z.pos p - 1) (Z.lnot (Z.pos p)) = Z.ones (ctz_pos p).
Proof.
  induction p as [p _|p IH|]; cbn [ctz_pos]; [| |done].
  - replace (Z.pos p~1 - 1) with (2 * Z.pos p) by lia.
    replace (Z.lnot (Z.pos p~1)) with (2 * Z.lnot (Z.pos p)) by (unfold Z.lnot; lia).
    apply Z.bits_inj'. intros i Hi. rewrite Z.land_spec, !testbit_double by lia. zbits_core.
  - pose proof (ctz_pos_nonneg p).
    replace (Z.pos p~0 - 1) with (2 * (Z.pos p - 1) + 1) by lia.
    replace (Z.lnot (Z.pos p~0)) with (2 * Z.lnot (Z.pos p) + 1) by (unfold Z.lnot; lia).
    apply Z.bits_inj'. intros i Hi.
    rewrite Z.land_spec, !testbit_double_1, <- orb_andb_distrib_r, <- Z.land_spec, IH by lia.
    zbits_core.
Qed.

Lemma ctz_pos_bits p :
  Z.testbit (Z.pos p) (ctz_pos p) = true ∧ ∀ j, 0 ≤ j < ctz_pos p → Z.testbit (Z.pos p) j = false.
Proof.
  induction p as [p _|p [IH1 IH2]|]; cbn [ctz_pos]; [by split; [|lia]| |by split; [|lia]].
  pose proof (ctz_pos_nonneg p). change (Z.pos p~0) with (2 * Z.pos p). split.
  - rewrite testbit_double by lia. replace (1 + ctz_pos p - 1) with (ctz_pos p) by lia. rewrite IH1.
    by replace (1 + ctz_pos p =? 0) with false by lia.
  - intros j Hj. rewrite testbit_double by lia. destruct (Z.eqb_spec j 0); [done|]. apply IH2. lia.
Qed.
Lemma ctz_lowest x : 0 < x → Z.testbit x (builtin_ctz x) = true.
Proof. intros. destruct x; [lia| |lia]. apply ctz_pos_bits. Qed.
Lemma ctz_below x j : 0 < x → 0 ≤ j < builtin_ctz x → Z.testbit x j = false.
Proof. intros ?. destruct x; [lia| |lia]. apply ctz_pos_bits. Qed.

Lemma ctz_pos_bound w p : in_range w (Z.pos p) → ctz_pos p < w.
Proof.
  intros [_ Hx]. pose proof (ctz_pos_nonneg p). destruct (Z_lt_le_dec (ctz_pos p) w) as [|Hge]; [done|].
  destruct (Z_lt_le_dec w 0); [rewrite Z.pow_neg_r in Hx by lia; lia|].
  assert (2 ^ w ≤ 2 ^ ctz_pos p) by (apply Z.pow_le_mono_r; lia).
  assert (2 ^ ctz_pos p ≤ Z.pos p); [|lia]. clear.
  induction p; cbn [ctz_pos]; [lia| |lia].
  rewrite Z.pow_add_r by (pose proof (ctz_pos_nonneg p); lia). lia.
Qed.

Lemma ctz_bound w x : in_range w x → x ≠ 0 → 0 ≤ builtin_ctz x < w.
Proof.
  intros Hx ?. destruct x as [|p|p]; [done| |unfold in_range in Hx; lia].
  split; [apply ctz_pos_nonneg | by apply ctz_pos_bound].
Qed.

Lemma clz_bound w x : in_range w x → x ≠ 0 → 0 ≤ builtin_clz w x < w.
Proof.
  unfold builtin_clz. intros [? ?] ?. pose proof (Z.log2_nonneg x).
  assert (Z.log2 x < w) by (apply Z.log2_lt_pow2; lia). lia.
Qed.

(** Counting trailing zeros with a population count. *)
(** Powers of two, as the test by [x & (x - 1)] finds them. *)
Lemma is_power_of_2_ctz x :
  in_range 64 x → is_power_of_2 x = true → x ≠ 0 ∧ x = 2 ^ builtin_ctz x.
Proof.
  unfold is_power_of_2. intros Hx. destruct (Z.eqb_spec x 0); [done|]. intros Hl%Z.eqb_eq. split; [done|].
  destruct x as [|p|p]; [done| |unfold in_range in Hx; lia]. cbn [builtin_ctz].
  rewrite wrap_small in Hl by (unfold in_range in *; lia).
  pose proof (ctz_mask p) as Hm. pose proof (ctz_pos_nonneg p).
  assert (E : Z.pos p - 1 = Z.lor (Z.land (Z.pos p) (Z.pos p - 1)) (Z.land (Z.pos p - 1) (Z.lnot (Z.pos p)))).
  { apply Z.bits_inj'. intros j Hj. rewrite Z.lor_spec, !Z.land_spec, Z.lnot_spec by lia.
    by destruct (Z.testbit (Z.pos p) j), (Z.testbit (Z.pos p - 1) j). }
  rewrite Hl, Z.lor_0_l, Hm, Z.ones_equiv in E. lia.
Qed.

Lemma ctz_popcount n w x :
  w = Z.of_nat n → in_range w x → x ≠ 0 →
  popcount n (Z.land (wrap w (x - 1)) (wrap w (Z.lnot x))) = builtin_ctz x.
Proof.
  intros -> Hx H0. destruct x as [|p|p]; [done| |unfold in_range in Hx; lia].
  cbn [builtin_ctz]. rewrite <- wrap_land, ctz_mask by lia.
  assert (Hc : ctz_pos p < Z.of_nat n) by (by apply ctz_pos_bound).
  pose proof (ctz_pos_nonneg p). rewrite wrap_small by (apply ones_range; lia).
  apply popcount_ones. lia.
Qed.

(** ** Half shuffles bit by bit *)

Lemma forall_bits (n : nat) (P : Z → Prop) :
  Forall P (map Z.of_nat (seq 0 n)) → ∀ i, 0 ≤ i < Z.of_nat n → P i.
Proof.
  intros H i Hi. rewrite List.Forall_map, Forall_forall in H.
  rewrite <- (Z2Nat.id i) by lia. apply H. apply in_seq. lia.
Qed.
Lemma testbit_masked a m i (b : bool) :
  Z.testbit m i = b → Z.testbit (Z.land a m) i = if b then Z.testbit a i else false.
Proof. intros <-. rewrite Z.land_spec. destruct (Z.testbit m i); [apply andb_true_r|apply andb_false_r]. Qed.

Lemma testbit_shuffle_step w s m x i (b : bool) :
  0 ≤ w → 0 ≤ i < w → Z.testbit m i = b →
  Z.testbit (shuffle_step w s m x) i
  = if b then Z.testbit x (i - s) || Z.testbit x i else false.
Proof.
  intros. unfold shuffle_step. erewrite testbit_masked by done.
  rewrite Z.lor_spec, testbit_wrap, Z.shiftl_spec by lia. by replace (i <? w) with true by lia.
Qed.

Lemma testbit_unshuffle_step s m x i (b : bool) :
  0 ≤ i → Z.testbit m i = b →
  Z.testbit (unshuffle_step s m x) i
  = if b then Z.testbit x (i + s) || Z.testbit x i else false.
Proof.
  intros. unfold unshuffle_step. erewrite testbit_masked by done.
  by rewrite Z.lor_spec, Z.shiftr_spec by lia.
Qed.

(** [zconst] evaluates bits at constant positions through constant masks. *)
Ltac zbit m i := eval vm_compute in (Z.testbit m i).
Ltac znorm e := let v := eval vm_compute in e in change e with v.
Ltac zconst :=
  repeat match goal with
  | |- context [Z.testbit ?a ?i] =>
    lazymatch i with
    | Z.neg _ => rewrite (Z.testbit_neg_r a i) by reflexivity
    | _ =>
    lazymatch a with
    | shuffle_step ?w ?s ?m ?b => let v := zbit m i in
        rewrite (testbit_shuffle_step w s m b i v) by (reflexivity || lia); cbv iota;
        try znorm (i - s)
    | unshuffle_step ?s ?m ?b => let v := zbit m i in
        rewrite (testbit_unshuffle_step s m b i v) by (reflexivity || lia); cbv iota;
        try znorm (i + s)
    | Z.land ?b ?m => let v := zbit m i in
        rewrite (testbit_masked b m i v) by reflexivity; cbv iota
    | Z.lor _ _ => rewrite (Z.lor_spec _ _ i)
    | Z.shiftl ?b ?n => rewrite (Z.shiftl_spec b n i) by lia; znorm (i - n)
    | Z.shiftr ?b ?n => rewrite (Z.shiftr_spec b n i) by lia; znorm (i + n)
    | bswap_bytes ?n ?b => rewrite (testbit_bswap n b i) by lia;
        znorm (i <? 8 * Z.of_nat n); cbn [andb];
        try znorm (8 * (Z.of_nat n - 1 - i / 8) + i mod 8)
    | wrap ?w ?b => rewrite (testbit_wrap w b i) by lia; znorm (i <? w)
    end end; cbn [andb orb]; rewrite ?orb_false_r
  end.

Lemma testbit_half_shuffle32 x i :
  0 ≤ i < 32 → Z.testbit (half_shuffle32 x) i = Z.even i && Z.testbit x (i / 2).
Proof.
  revert i. apply (forall_bits 32). unfold half_shuffle32. cbv zeta.
  repeat constructor; zconst; reflexivity.
Qed.
Lemma testbit_half_shuffle64 x i :
  0 ≤ i < 64 → Z.testbit (half_shuffle64 x) i = Z.even i && Z.testbit x (i / 2).
Proof.
  revert i. apply (forall_bits 64). unfold half_shuffle64. cbv zeta.
  repeat constructor; zconst; reflexivity.
Qed.

Lemma testbit_half_unshuffle32 x i :
  0 ≤ i < 16 → Z.testbit (half_unshuffle32 x) i = Z.testbit x (2 * i).
Proof.
  revert i. apply (forall_bits 16). unfold half_unshuffle32. cbv zeta.
  repeat constructor; zconst; reflexivity.
Qed.

Lemma testbit_half_unshuffle64 x i :
  0 ≤ i < 32 → Z.testbit (half_unshuffle64 x) i = Z.testbit x (2 * i).
Proof.
  revert i. apply (forall_bits 32). unfold half_unshuffle64. cbv zeta.
  repeat constructor; zconst; reflexivity.
Qed.

Lemma half_unshuffle32_range x : in_range 16 (half_unshuffle32 x).
Proof. unfold half_unshuffle32. cbv zeta. unfold unshuffle_step at 1. rewrite Z.land_comm. by apply land_range. Qed.
Lemma half_unshuffle64_range x : in_range 32 (half_unshuffle64 x).
Proof. unfold half_unshuffle64. cbv zeta. unfold unshuffle_step at 1. rewrite Z.land_comm. by apply land_range. Qed.

Lemma unshuffle_shuffle32 x : half_unshuffle32 (half_shuffle32 x) = wrap 16 x.
Proof.
  apply (range_ext 16); [apply half_unshuffle32_range | by apply wrap_range |].
  intros i Hi. rewrite testbit_half_unshuffle32, testbit_half_shuffle32, testbit_wrap by lia.
  rewrite Z.even_mul, Z.mul_comm, Z.div_mul by lia. by replace (i <? 16) with true by lia.
Qed.

Lemma unshuffle_shuffle64 x : half_unshuffle64 (half_shuffle64 x) = wrap 32 x.
Proof.
  apply (range_ext 32); [apply half_unshuffle64_range | by apply wrap_range |].
  intros i Hi. rewrite testbit_half_unshuffle64, testbit_half_shuffle64, testbit_wrap by lia.
  rewrite Z.even_mul, Z.mul_comm, Z.div_mul by lia. by replace (i <? 32) with true by lia.
Qed.

(** ** Byte swaps by shifting and masking

    The expansions [tcg_gen_bswap*] of tcg-op.c emits for a host without the
    instruction, which the symbolic helper also builds. *)

Lemma bswap16_expand w x : 16 ≤ w → in_range 16 x →
  Z.lor (wrap w (Z.shiftl (wrap 8 x) 8)) (Z.shiftr x 8) = bswap16 x.
Proof. intros. unfold bswap16. cbn [bswap_bytes]. change (8 * Z.of_nat 1) with 8.
  change (8 * Z.of_nat 0) with 0. zbits. Qed.

Definition bswap_round (w s m x : Z) : Z :=
  Z.lor (Z.land (Z.shiftr x s) m) (wrap w (Z.shiftl (Z.land x m) s)).

Lemma bswap_round_range w s m x : 0 ≤ w → 0 ≤ s → in_range w x → in_range w (bswap_round w s m x).
Proof. intros. unfold bswap_round. auto with range. Qed.
#[export] Hint Resolve bswap_round_range : range.

Lemma bswap32_expand x : in_range 32 x →
  let r := bswap_round 32 8 0x00ff00ff x in
  Z.lor (Z.shiftr r 16) (wrap 32 (Z.shiftl r 16)) = bswap32 x.
Proof.
  intros Hx r. apply (range_ext 32); [unfold r; auto with range|apply (bswap_range 4)|].
  apply (forall_bits 32). subst r. unfold bswap_round, bswap32.
  repeat constructor; zconst; reflexivity.
Qed.

(** The same round in a 64-bit register, where nothing leaves the low half. *)
Lemma bswap_round_64 x : in_range 32 x → bswap_round 64 8 0x00ff00ff x = bswap_round 32 8 0x00ff00ff x.
Proof.
  intros Hx. unfold bswap_round. f_equal. rewrite !wrap_small; [done| |];
    apply (in_range_le 32); try lia; unfold in_range;
    (split; [apply Z.shiftl_nonneg, Z.land_nonneg; lia|]);
    rewrite Z.shiftl_mul_pow2 by lia.
  all: assert (in_range 24 (Z.land x 0x00ff00ff)) as [? ?]
    by (rewrite Z.land_comm; by apply land_range); lia.
Qed.

Lemma land_low w m x : 0 ≤ w → in_range w m → Z.land (wrap w x) m = Z.land x m.
Proof. intros. zbits. Qed.
Lemma bswap_round_low x : bswap_round 64 8 0x00ff00ff x = bswap_round 64 8 0x00ff00ff (wrap 32 x).
Proof.
  unfold bswap_round. rewrite (land_low 32 _ x) by done. f_equal.
  assert (E : Z.shiftr (wrap 32 x) 8 = wrap 24 (Z.shiftr x 8)) by zbits.
  by rewrite E, (land_low 24).
Qed.

Lemma bswap32_expand_64 x : in_range 32 x →
  let r := bswap_round 64 8 0x00ff00ff x in
  Z.lor (Z.shiftr r 16) (Z.shiftr (wrap 64 (Z.shiftl r 48)) 32) = bswap32 x ∧
  Z.lor (Z.shiftr r 16) (wrap 64 (Z.shiftr (sgn 64 (wrap 64 (Z.shiftl r 48))) 32))
  = wrap 64 (sgn 32 (bswap32 x)).
Proof.
  intros Hx r. assert (Hr : r = bswap_round 32 8 0x00ff00ff x) by (by apply bswap_round_64).
  assert (in_range 32 r) by (rewrite Hr; auto with range).
  rewrite <- bswap32_expand by done. rewrite <- Hr. cbv zeta. split; zbits.
Qed.

Lemma bswap64_expand x : in_range 64 x →
  let r := bswap_round 64 16 0x0000ffff0000ffff (bswap_round 64 8 0x00ff00ff00ff00ff x) in
  Z.lor (Z.shiftr r 32) (wrap 64 (Z.shiftl r 32)) = bswap64 x.
Proof.
  intros Hx r. apply (range_ext 64); [unfold r; auto with range|apply (bswap_range 8)|].
  apply (forall_bits 64). subst r. unfold bswap_round, bswap64.
  repeat constructor; zconst; reflexivity.
Qed.
