(* ===== verification/Backend.v ===== *)
(** The interface to the symbolic backend.

    SymQEMU builds its symbolic expressions by calling the SymCC run-time
    library through the functions declared in [RuntimeCommon.h], a git
    submodule that is not part of this repository.  The functions are
    therefore the operations of a class, [SymBackend], and what the helpers
    rely on is a second class, [BackendLaws]: an expression has a value under
    every assignment of the program's inputs, and each builder computes the
    bit-vector operation of the SMT-LIB standard its name denotes.  A shift by
    the width or more is zero (or the sign), and a division has a law only for
    a divisor that is not zero.

    [Denot] is a backend that satisfies the laws (an expression is its own
    meaning), so the laws are consistent and the helpers can be evaluated. *)
From S2P Require Import Prelude.

(** ** Bit-vector operations at width [w] *)

Definition bv_add (w a b : Z) : Z := wrap w (a + b).
Definition bv_sub (w a b : Z) : Z := wrap w (a - b).
Definition bv_mul (w a b : Z) : Z := wrap w (a * b).
Definition bv_udiv (w a b : Z) : Z := a / b.
Definition bv_urem (w a b : Z) : Z := a mod b.
Definition bv_sdiv (w a b : Z) : Z := wrap w (Z.quot (sgn w a) (sgn w b)).
Definition bv_srem (w a b : Z) : Z := wrap w (Z.rem (sgn w a) (sgn w b)).
Definition bv_and (w a b : Z) : Z := Z.land a b.
Definition bv_or (w a b : Z) : Z := Z.lor a b.
Definition bv_xor (w a b : Z) : Z := Z.lxor a b.
Definition bv_not (w a : Z) : Z := wrap w (Z.lnot a).
Definition bv_neg (w a : Z) : Z := wrap w (- a).
Definition bv_shl (w a n : Z) : Z := wrap w (Z.shiftl a n).
Definition bv_lshr (w a n : Z) : Z := Z.shiftr a n.
Definition bv_ashr (w a n : Z) : Z := wrap w (Z.shiftr (sgn w a) n).

Definition clamp (lo hi x : Z) : Z := Z.max lo (Z.min hi x).
Definition bv_sadd_sat (w a b : Z) : Z :=
  wrap w (clamp (- 2 ^ (w - 1)) (2 ^ (w - 1) - 1) (sgn w a + sgn w b)).
Definition bv_ssub_sat (w a b : Z) : Z :=
  wrap w (clamp (- 2 ^ (w - 1)) (2 ^ (w - 1) - 1) (sgn w a - sgn w b)).
Definition bv_uadd_sat (w a b : Z) : Z := Z.min (2 ^ w - 1) (a + b).
Definition bv_usub_sat (w a b : Z) : Z := Z.max 0 (a - b).

Lemma urem_range w x y : in_range w y → y ≠ 0 → in_range w (bv_urem w x y).
Proof. unfold in_range, bv_urem. intros. pose proof (Z.mod_pos_bound x y). lia. Qed.

Lemma udiv_range w x y : in_range w x → in_range w y → y ≠ 0 → in_range w (bv_udiv w x y).
Proof.
  unfold in_range, bv_udiv. intros. split; [apply Z.div_pos; lia|].
  apply (Z.le_lt_trans _ x); [|lia]. apply Z.div_le_upper_bound; nia.
Qed.

#[export] Hint Resolve urem_range udiv_range : range.

(** ** The operations of [RuntimeCommon.h] the sources call *)

Class SymBackend := {
  SymExpr : Type;
  _sym_bits_helper : SymExpr → Z;
  _sym_build_integer : Z → Z → SymExpr;
  _sym_build_integer_from_buffer : Z → Z → SymExpr;
  _sym_build_add : SymExpr → SymExpr → SymExpr;
  _sym_build_sub : SymExpr → SymExpr → SymExpr;
  _sym_build_mul : SymExpr → SymExpr → SymExpr;
  _sym_build_unsigned_div : SymExpr → SymExpr → SymExpr;
  _sym_build_signed_div : SymExpr → SymExpr → SymExpr;
  _sym_build_unsigned_rem : SymExpr → SymExpr → SymExpr;
  _sym_build_signed_rem : SymExpr → SymExpr → SymExpr;
  _sym_build_and : SymExpr → SymExpr → SymExpr;
  _sym_build_or : SymExpr → SymExpr → SymExpr;
  _sym_build_xor : SymExpr → SymExpr → SymExpr;
  _sym_build_shift_left : SymExpr → SymExpr → SymExpr;
  _sym_build_logical_shift_right : SymExpr → SymExpr → SymExpr;
  _sym_build_arithmetic_shift_right : SymExpr → SymExpr → SymExpr;
  _sym_build_sadd_sat : SymExpr → SymExpr → SymExpr;
  _sym_build_ssub_sat : SymExpr → SymExpr → SymExpr;
  _sym_build_uadd_sat : SymExpr → SymExpr → SymExpr;
  _sym_build_usub_sat : SymExpr → SymExpr → SymExpr;
  _sym_build_neg : SymExpr → SymExpr;
  _sym_build_not : SymExpr → SymExpr;
  _sym_build_equal : SymExpr → SymExpr → SymExpr;
  _sym_build_not_equal : SymExpr → SymExpr → SymExpr;
  _sym_build_signed_less_than : SymExpr → SymExpr → SymExpr;
  _sym_build_signed_less_equal : SymExpr → SymExpr → SymExpr;
  _sym_build_signed_greater_than : SymExpr → SymExpr → SymExpr;
  _sym_build_signed_greater_equal : SymExpr → SymExpr → SymExpr;
  _sym_build_unsigned_less_than : SymExpr → SymExpr → SymExpr;
  _sym_build_unsigned_less_equal : SymExpr → SymExpr → SymExpr;
  _sym_build_unsigned_greater_than : SymExpr → SymExpr → SymExpr;
  _sym_build_unsigned_greater_equal : SymExpr → SymExpr → SymExpr;
  _sym_build_bool_to_bit : SymExpr → SymExpr;
  _sym_build_zext : SymExpr → Z → SymExpr;
  _sym_build_sext : SymExpr → Z → SymExpr;
  _sym_build_trunc : SymExpr → Z → SymExpr;
  _sym_extract_helper : SymExpr → Z → Z → SymExpr;
  _sym_concat_helper : SymExpr → SymExpr → SymExpr;
}.

(** ** Meaning of expressions *)

Class BackendSem (B : SymBackend) := {
  (** An assignment of values to the program's symbolic inputs. *)
  Input : Type;
  (** The value of a bit-vector expression and the truth of a boolean one. *)
  eval : Input → SymExpr → Z;
  holds : Input → SymExpr → bool;
  is_bool : SymExpr → Prop;
}.

Section Shapes.
Context `{BS : BackendSem}.

(** [f] builds the binary operation [g] (where [ok] holds of the operands),
    the unary operation [g], the comparison [g]. *)
Definition binary (ok : Z → Z → Prop) (f : SymExpr → SymExpr → SymExpr)
    (g : Z → Z → Z → Z) : Prop :=
  ∀ a b, 0 < _sym_bits_helper a → _sym_bits_helper b = _sym_bits_helper a →
  _sym_bits_helper (f a b) = _sym_bits_helper a ∧
  ∀ i, ok (eval i a) (eval i b) →
       eval i (f a b) = g (_sym_bits_helper a) (eval i a) (eval i b).

Definition unary (f : SymExpr → SymExpr) (g : Z → Z → Z) : Prop :=
  ∀ a, 0 < _sym_bits_helper a →
  _sym_bits_helper (f a) = _sym_bits_helper a ∧
  ∀ i, eval i (f a) = g (_sym_bits_helper a) (eval i a).

Definition comparison (f : SymExpr → SymExpr → SymExpr) (g : Z → Z → Z → bool) : Prop :=
  ∀ a b, 0 < _sym_bits_helper a → _sym_bits_helper b = _sym_bits_helper a →
  is_bool (f a b) ∧
  ∀ i, holds i (f a b) = g (_sym_bits_helper a) (eval i a) (eval i b).

Definition always (x y : Z) : Prop := True.
Definition nonzero_divisor (x y : Z) : Prop := y ≠ 0.
End Shapes.

(** ** Laws *)

Class BackendLaws (B : SymBackend) (BS : BackendSem B) : Prop := {
  eval_range i e : 0 < _sym_bits_helper e → in_range (_sym_bits_helper e) (eval i e);

  law_integer v n : in_range 64 v → 0 < n ≤ 64 →
    _sym_bits_helper (_sym_build_integer v n) = n ∧
    ∀ i, eval i (_sym_build_integer v n) = wrap n v;
  law_integer_from_buffer v n : 0 < n → in_range n v →
    _sym_bits_helper (_sym_build_integer_from_buffer v n) = n ∧
    ∀ i, eval i (_sym_build_integer_from_buffer v n) = v;

  law_add : binary always _sym_build_add bv_add;
  law_sub : binary always _sym_build_sub bv_sub;
  law_mul : binary always _sym_build_mul bv_mul;
  law_and : binary always _sym_build_and bv_and;
  law_or : binary always _sym_build_or bv_or;
  law_xor : binary always _sym_build_xor bv_xor;
  law_shift_left : binary always _sym_build_shift_left bv_shl;
  law_logical_shift_right : binary always _sym_build_logical_shift_right bv_lshr;
  law_arithmetic_shift_right : binary always _sym_build_arithmetic_shift_right bv_ashr;
  law_unsigned_div : binary nonzero_divisor _sym_build_unsigned_div bv_udiv;
  law_signed_div : binary nonzero_divisor _sym_build_signed_div bv_sdiv;
  law_unsigned_rem : binary nonzero_divisor _sym_build_unsigned_rem bv_urem;
  law_signed_rem : binary nonzero_divisor _sym_build_signed_rem bv_srem;
  law_sadd_sat : binary always _sym_build_sadd_sat bv_sadd_sat;
  law_ssub_sat : binary always _sym_build_ssub_sat bv_ssub_sat;
  law_uadd_sat : binary always _sym_build_uadd_sat bv_uadd_sat;
  law_usub_sat : binary always _sym_build_usub_sat bv_usub_sat;

  law_neg : unary _sym_build_neg bv_neg;
  law_not : unary _sym_build_not bv_not;

  law_equal : comparison _sym_build_equal (λ _ x y, x =? y);
  law_not_equal : comparison _sym_build_not_equal (λ _ x y, negb (x =? y));
  law_slt : comparison _sym_build_signed_less_than (λ w x y, sgn w x <? sgn w y);
  law_sle : comparison _sym_build_signed_less_equal (λ w x y, sgn w x <=? sgn w y);
  law_sgt : comparison _sym_build_signed_greater_than (λ w x y, sgn w y <? sgn w x);
  law_sge : comparison _sym_build_signed_greater_equal (λ w x y, sgn w y <=? sgn w x);
  law_ult : comparison _sym_build_unsigned_less_than (λ _ x y, x <? y);
  law_ule : comparison _sym_build_unsigned_less_equal (λ _ x y, x <=? y);
  law_ugt : comparison _sym_build_unsigned_greater_than (λ _ x y, y <? x);
  law_uge : comparison _sym_build_unsigned_greater_equal (λ _ x y, y <=? x);

  law_bool_to_bit e : is_bool e →
    _sym_bits_helper (_sym_build_bool_to_bit e) = 1 ∧
    ∀ i, eval i (_sym_build_bool_to_bit e) = Z.b2z (holds i e);
  law_zext e n : 0 < _sym_bits_helper e → 0 ≤ n < 256 →
    _sym_bits_helper (_sym_build_zext e n) = _sym_bits_helper e + n ∧
    ∀ i, eval i (_sym_build_zext e n) = eval i e;
  law_sext e n : 0 < _sym_bits_helper e → 0 ≤ n < 256 →
    _sym_bits_helper (_sym_build_sext e n) = _sym_bits_helper e + n ∧
    ∀ i, eval i (_sym_build_sext e n)
         = wrap (_sym_bits_helper e + n) (sgn (_sym_bits_helper e) (eval i e));
  law_trunc e n : 0 < n ≤ _sym_bits_helper e →
    _sym_bits_helper (_sym_build_trunc e n) = n ∧
    ∀ i, eval i (_sym_build_trunc e n) = wrap n (eval i e);
  law_extract e hi lo : 0 ≤ lo ≤ hi → hi < _sym_bits_helper e →
    _sym_bits_helper (_sym_extract_helper e hi lo) = hi - lo + 1 ∧
    ∀ i, eval i (_sym_extract_helper e hi lo)
         = wrap (hi - lo + 1) (Z.shiftr (eval i e) lo);
  law_concat a b : 0 < _sym_bits_helper a → 0 < _sym_bits_helper b →
    _sym_bits_helper (_sym_concat_helper a b)
      = _sym_bits_helper a + _sym_bits_helper b ∧
    ∀ i, eval i (_sym_concat_helper a b)
         = Z.lor (Z.shiftl (eval i a) (_sym_bits_helper b)) (eval i b);
}.

(** ** Derived rules

    [den i w e x]: under the input [i], [e] is a [w]-bit expression of value
    [x].  The rules are the laws in the form [eauto with sym] composes: the
    expression a helper builds determines the value it denotes. *)

Section Rules.
Context `{BL : BackendLaws}.
Implicit Types (i : Input) (e a b : SymExpr).

Definition den i (w : Z) e (x : Z) : Prop :=
  0 < w ∧ _sym_bits_helper e = w ∧ eval i e = x.

Lemma den_range i w e x : den i w e x → in_range w x.
Proof. intros (? & <- & <-). by apply eval_range. Qed.

Lemma den_bits i w e x : den i w e x → _sym_bits_helper e = w.
Proof. by intros (? & ? & ?). Qed.

Lemma den_eq i w e x y : den i w e x → x = y → den i w e y.
Proof. by intros ? <-. Qed.

Lemma den_integer i w v : in_range 64 v → 0 < w ≤ 64 → den i w (_sym_build_integer v w) (wrap w v).
Proof. intros Hv Hw. destruct (law_integer v w Hv Hw) as [Hb He]. split; [lia|auto]. Qed.

Lemma den_buffer i w v : 0 < w → in_range w v → den i w (_sym_build_integer_from_buffer v w) v.
Proof. intros Hw Hv. destruct (law_integer_from_buffer v w Hw Hv) as [Hb He]. split; [lia|auto]. Qed.

Lemma den_binary i w ok f g a b x y :
  binary ok f g → den i w a x → den i w b y → ok x y → den i w (f a b) (g w x y).
Proof.
  intros Hf (Hw & Ha & <-) (_ & Hb & <-) Hok. destruct (Hf a b) as [Hbits He]; [lia|lia|].
  split; [done|]. split; [congruence|]. rewrite He by done. by rewrite Ha.
Qed.

Lemma den_unary i w f g a x : unary f g → den i w a x → den i w (f a) (g w x).
Proof.
  intros Hf (Hw & Ha & <-). destruct (Hf a) as [Hbits He]; [lia|].
  split; [done|]. split; [congruence|]. rewrite He. by rewrite Ha.
Qed.

(** A boolean expression and its truth value. *)
Definition denb i e (t : bool) : Prop := is_bool e ∧ holds i e = t.

Lemma den_comparison i w f g a b x y :
  comparison f g → den i w a x → den i w b y → denb i (f a b) (g w x y).
Proof.
  intros Hf (Hw & Ha & <-) (_ & Hb & <-). destruct (Hf a b) as [Hbits He]; [lia|lia|].
  split; [done|]. rewrite He. by rewrite Ha.
Qed.

Lemma den_add i w a b x y : den i w a x → den i w b y → den i w (_sym_build_add a b) (bv_add w x y).
Proof. intros. by eapply den_binary; [apply law_add| | |]. Qed.
Lemma den_sub i w a b x y : den i w a x → den i w b y → den i w (_sym_build_sub a b) (bv_sub w x y).
Proof. intros. by eapply den_binary; [apply law_sub| | |]. Qed.
Lemma den_mul i w a b x y : den i w a x → den i w b y → den i w (_sym_build_mul a b) (bv_mul w x y).
Proof. intros. by eapply den_binary; [apply law_mul| | |]. Qed.
Lemma den_and i w a b x y : den i w a x → den i w b y → den i w (_sym_build_and a b) (bv_and w x y).
Proof. intros. by eapply den_binary; [apply law_and| | |]. Qed.
Lemma den_or i w a b x y : den i w a x → den i w b y → den i w (_sym_build_or a b) (bv_or w x y).
Proof. intros. by eapply den_binary; [apply law_or| | |]. Qed.
Lemma den_xor i w a b x y : den i w a x → den i w b y → den i w (_sym_build_xor a b) (bv_xor w x y).
Proof. intros. by eapply den_binary; [apply law_xor| | |]. Qed.
Lemma den_shl i w a b x y :
  den i w a x → den i w b y → den i w (_sym_build_shift_left a b) (bv_shl w x y).
Proof. intros. by eapply den_binary; [apply law_shift_left| | |]. Qed.
Lemma den_lshr i w a b x y :
  den i w a x → den i w b y → den i w (_sym_build_logical_shift_right a b) (bv_lshr w x y).
Proof. intros. by eapply den_binary; [apply law_logical_shift_right| | |]. Qed.
Lemma den_ashr i w a b x y :
  den i w a x → den i w b y → den i w (_sym_build_arithmetic_shift_right a b) (bv_ashr w x y).
Proof. intros. by eapply den_binary; [apply law_arithmetic_shift_right| | |]. Qed.
Lemma den_neg i w a x : den i w a x → den i w (_sym_build_neg a) (bv_neg w x).
Proof. intros. by eapply den_unary; [apply law_neg|]. Qed.
Lemma den_not i w a x : den i w a x → den i w (_sym_build_not a) (bv_not w x).
Proof. intros. by eapply den_unary; [apply law_not|]. Qed.

Lemma den_bool_to_bit i e t : denb i e t → den i 1 (_sym_build_bool_to_bit e) (Z.b2z t).
Proof. intros [Hb <-]. destruct (law_bool_to_bit e Hb). split; [lia|auto]. Qed.

Lemma den_zext i w v e n x :
  v = w + n → 0 ≤ n < 256 → den i w e x → den i v (_sym_build_zext e n) x.
Proof.
  intros -> Hn (Hw & Hb & <-). destruct (law_zext e n) as [Hbits He]; [lia|lia|].
  split; [lia|]. split; [lia|done].
Qed.

Lemma den_sext i w v e n x :
  v = w + n → 0 ≤ n < 256 → den i w e x → den i v (_sym_build_sext e n) (wrap v (sgn w x)).
Proof.
  intros -> Hn (Hw & Hb & <-). destruct (law_sext e n) as [Hbits He]; [lia|lia|].
  split; [lia|]. split; [lia|]. by rewrite He, Hb.
Qed.

Lemma den_trunc i w v e x : 0 < v ≤ w → den i w e x → den i v (_sym_build_trunc e v) (wrap v x).
Proof.
  intros Hv (Hw & Hb & <-). destruct (law_trunc e v) as [Hbits He]; [lia|].
  split; [lia|]. by split.
Qed.

Lemma den_extract i w v e hi lo x :
  v = hi - lo + 1 → 0 ≤ lo ≤ hi → hi < w → den i w e x →
  den i v (_sym_extract_helper e hi lo) (wrap v (Z.shiftr x lo)).
Proof.
  intros -> Hl Hh (Hw & Hb & <-). destruct (law_extract e hi lo) as [Hbits He]; [lia|lia|].
  split; [lia|]. by split.
Qed.

Lemma den_concat i w v u a b x y :
  u = w + v → den i w a x → den i v b y →
  den i u (_sym_concat_helper a b) (Z.lor (Z.shiftl x v) y).
Proof.
  intros -> (Hw & Ha & <-) (Hv & Hb & <-). destruct (law_concat a b) as [Hbits He]; [lia|lia|].
  split; [lia|]. split; [lia|]. by rewrite He, Hb.
Qed.
End Rules.

(** [den_solve] follows the structure of the expression. *)
Ltac den_side :=
  first [ assumption | lia | apply wrap_range; lia | apply ones_range; lia
        | unfold in_range; match goal with |- 0 ≤ ?k < 2 ^ ?n =>
            first [is_var n; fail 1 | let m := eval vm_compute in (2 ^ n) in change (2 ^ n) with m; lia] end ].
Ltac den_solve :=
  lazymatch goal with
  | |- den _ _ (_sym_build_or _ _) _ => eapply den_or; den_solve
  | |- den _ _ (_sym_build_and _ _) _ => eapply den_and; den_solve
  | |- den _ _ (_sym_build_xor _ _) _ => eapply den_xor; den_solve
  | |- den _ _ (_sym_build_not _) _ => eapply den_not; den_solve
  | |- den _ _ (_sym_build_neg _) _ => eapply den_neg; den_solve
  | |- den _ _ (_sym_build_add _ _) _ => eapply den_add; den_solve
  | |- den _ _ (_sym_build_sub _ _) _ => eapply den_sub; den_solve
  | |- den _ _ (_sym_build_mul _ _) _ => eapply den_mul; den_solve
  | |- den _ _ (_sym_build_shift_left _ _) _ => eapply den_shl; den_solve
  | |- den _ _ (_sym_build_logical_shift_right _ _) _ => eapply den_lshr; den_solve
  | |- den _ _ (_sym_build_arithmetic_shift_right _ _) _ => eapply den_ashr; den_solve
  | |- den _ _ (_sym_build_integer _ _) _ => eapply den_integer; try den_side
  | |- den _ _ _ _ => eassumption
  end.

Create HintDb sym.
#[export] Hint Resolve den_integer den_buffer den_add den_sub den_mul den_and den_or den_xor
  den_shl den_lshr den_ashr den_neg den_not den_bool_to_bit : sym.
#[export] Hint Extern 3 (in_range _ _) => (unfold in_range; lia) : sym.
#[export] Hint Extern 3 (_ < _) => lia : sym.
#[export] Hint Extern 3 (_ ≤ _) => lia : sym.
#[export] Hint Extern 3 (_ ≤ _ ≤ _) => lia : sym.
#[export] Hint Extern 3 (_ < _ ≤ _) => lia : sym.

(** ** A backend that satisfies the laws

    An expression is its width together with its value as a function of the
    input; the input assigns a value to each symbolic variable. *)

Module Denot.

Record expr := Expr { width : Z; value : (nat → Z) → Z; truth : (nat → Z) → bool }.

Definition denote (i : nat → Z) (e : expr) : Z := wrap (width e) (value e i).
Definition bv (w : Z) (f : (nat → Z) → Z) : expr := Expr w f (λ _, false).
(** The symbolic variable [k] of [w] bits. *)
Definition var (w : Z) (k : nat) : expr := bv w (λ i, i k).
Definition lift1 (g : Z → Z → Z) (a : expr) : expr :=
  bv (width a) (λ i, g (width a) (denote i a)).
Definition lift2 (g : Z → Z → Z → Z) (a b : expr) : expr :=
  bv (width a) (λ i, g (width a) (denote i a) (denote i b)).
Definition lift_cmp (g : Z → Z → Z → bool) (a b : expr) : expr :=
  Expr 1 (λ i, Z.b2z (g (width a) (denote i a) (denote i b)))
       (λ i, g (width a) (denote i a) (denote i b)).

#[export] Instance backend : SymBackend := {|
  SymExpr := expr;
  _sym_bits_helper := width;
  _sym_build_integer v n := bv n (λ _, v);
  _sym_build_integer_from_buffer v n := bv n (λ _, v);
  _sym_build_add := lift2 bv_add;
  _sym_build_sub := lift2 bv_sub;
  _sym_build_mul := lift2 bv_mul;
  _sym_build_unsigned_div := lift2 bv_udiv;
  _sym_build_signed_div := lift2 bv_sdiv;
  _sym_build_unsigned_rem := lift2 bv_urem;
  _sym_build_signed_rem := lift2 bv_srem;
  _sym_build_and := lift2 bv_and;
  _sym_build_or := lift2 bv_or;
  _sym_build_xor := lift2 bv_xor;
  _sym_build_shift_left := lift2 bv_shl;
  _sym_build_logical_shift_right := lift2 bv_lshr;
  _sym_build_arithmetic_shift_right := lift2 bv_ashr;
  _sym_build_sadd_sat := lift2 bv_sadd_sat;
  _sym_build_ssub_sat := lift2 bv_ssub_sat;
  _sym_build_uadd_sat := lift2 bv_uadd_sat;
  _sym_build_usub_sat := lift2 bv_usub_sat;
  _sym_build_neg := lift1 bv_neg;
  _sym_build_not := lift1 bv_not;
  _sym_build_equal := lift_cmp (λ _ x y, x =? y);
  _sym_build_not_equal := lift_cmp (λ _ x y, negb (x =? y));
  _sym_build_signed_less_than := lift_cmp (λ w x y, sgn w x <? sgn w y);
  _sym_build_signed_less_equal := lift_cmp (λ w x y, sgn w x <=? sgn w y);
  _sym_build_signed_greater_than := lift_cmp (λ w x y, sgn w y <? sgn w x);
  _sym_build_signed_greater_equal := lift_cmp (λ w x y, sgn w y <=? sgn w x);
  _sym_build_unsigned_less_than := lift_cmp (λ _ x y, x <? y);
  _sym_build_unsigned_less_equal := lift_cmp (λ _ x y, x <=? y);
  _sym_build_unsigned_greater_than := lift_cmp (λ _ x y, y <? x);
  _sym_build_unsigned_greater_equal := lift_cmp (λ _ x y, y <=? x);
  _sym_build_bool_to_bit e := bv 1 (λ i, Z.b2z (truth e i));
  _sym_build_zext e n := bv (width e + n) (λ i, denote i e);
  _sym_build_sext e n := bv (width e + n) (λ i, sgn (width e) (denote i e));
  _sym_build_trunc e n := bv n (λ i, denote i e);
  _sym_extract_helper e hi lo := bv (hi - lo + 1) (λ i, Z.shiftr (denote i e) lo);
  _sym_concat_helper a b := bv (width a + width b)
    (λ i, Z.lor (Z.shiftl (denote i a) (width b)) (denote i b));
|}.

#[export] Instance sem : BackendSem backend := {|
  Input := nat → Z; eval := denote; holds i e := truth e i; is_bool _ := True;
|}.

Lemma lift2_law ok g :
  (∀ w x y, 0 < w → in_range w x → in_range w y → ok x y → in_range w (g w x y)) →
  binary ok (lift2 g) g.
Proof.
  intros Hg a b Ha Hb. split; [done|]. intros i Hok. cbn in *. unfold denote at 1. cbn.
  apply wrap_small. apply Hg; [done| | |done]; unfold denote; rewrite ?Hb; apply wrap_range; lia.
Qed.

Lemma lift1_law g :
  (∀ w x, 0 < w → in_range w x → in_range w (g w x)) → unary (lift1 g) g.
Proof.
  intros Hg a Ha. split; [done|]. intros i. cbn in *. unfold denote at 1. cbn.
  apply wrap_small. apply Hg; [done|]. apply wrap_range; lia.
Qed.

Lemma saturated_range w x y :
  0 < w → in_range w x → in_range w y →
  in_range w (bv_uadd_sat w x y) ∧ in_range w (bv_usub_sat w x y).
Proof. unfold bv_uadd_sat, bv_usub_sat, in_range. intros. pose proof (pow2_pos w). lia. Qed.

Lemma lshr_range w x y : 0 < w → in_range w x → in_range w y → in_range w (bv_lshr w x y).
Proof. intros ? ? [? ?]. by apply shiftr_range; [lia|..]. Qed.

Lemma concat_range w v x y :
  0 < w → 0 < v → in_range w x → in_range v y → in_range (w + v) (Z.lor (Z.shiftl x v) y).
Proof. intros. zrange. Qed.

#[export] Instance laws : BackendLaws backend sem.
Proof.
  split; try (apply lift2_law; intros; first
    [ by apply wrap_range; lia | by apply urem_range | by apply udiv_range
    | by apply saturated_range | by apply lshr_range
    | by unfold bv_and, bv_or, bv_xor; auto with range ]).
  all: try (apply lift1_law; intros; apply wrap_range; lia).
  all: try (intros a b Ha Hb; split; [done|]; intros i; reflexivity).
  all: cbn; unfold denote; cbn.
  - intros. apply wrap_range; lia.
  - intros. split; [done|]. intros. by apply wrap_small.
  - intros e _. split; [done|]. intros i. apply wrap_small. by destruct (truth e i).
  - intros e n Hw Hn. split; [done|]. intros i. apply wrap_small.
    apply (in_range_le (width e)); [lia|]. apply wrap_range; lia.
  - done.
  - intros a b Ha Hb. split; [done|]. intros i. apply wrap_small.
    apply concat_range; auto with range.
Qed.
End Denot.
