(* ===== verification/VecOps.v ===== *)
(** The operations on host vectors ([include/tcg/tcg-opc.h]) and their documented
    results ([docs/devel/tcg-ops.rst], host vector operations).

    The operations of one host ([tcg/i386/tcg-target.opc.h] and
    [tcg/aarch64/tcg-target.opc.h], those that the expansions use) have no
    documented result, and none here.

    A result is given for the amounts of shifts and rotations that are less than
    the width of an element; the loads and stores are executed in [Exec]. *)
From S2P Require Import Prelude Lanes Cond Bitops Backend.

Inductive VecOpcode : Set :=
| INDEX_op_mov_vec | INDEX_op_dup_vec
| INDEX_op_ld_vec | INDEX_op_st_vec | INDEX_op_dupm_vec
| INDEX_op_add_vec | INDEX_op_sub_vec | INDEX_op_mul_vec | INDEX_op_neg_vec | INDEX_op_abs_vec
| INDEX_op_ssadd_vec | INDEX_op_usadd_vec | INDEX_op_sssub_vec | INDEX_op_ussub_vec
| INDEX_op_smin_vec | INDEX_op_umin_vec | INDEX_op_smax_vec | INDEX_op_umax_vec
| INDEX_op_and_vec | INDEX_op_or_vec | INDEX_op_xor_vec | INDEX_op_andc_vec | INDEX_op_orc_vec
| INDEX_op_nand_vec | INDEX_op_nor_vec | INDEX_op_eqv_vec | INDEX_op_not_vec
| INDEX_op_shli_vec | INDEX_op_shri_vec | INDEX_op_sari_vec | INDEX_op_rotli_vec
| INDEX_op_shls_vec | INDEX_op_shrs_vec | INDEX_op_sars_vec | INDEX_op_rotls_vec
| INDEX_op_shlv_vec | INDEX_op_shrv_vec | INDEX_op_sarv_vec | INDEX_op_rotlv_vec | INDEX_op_rotrv_vec
| INDEX_op_cmp_vec | INDEX_op_bitsel_vec | INDEX_op_cmpsel_vec
| INDEX_op_x86_vpblendvb_vec | INDEX_op_x86_blend_vec | INDEX_op_x86_packss_vec | INDEX_op_x86_packus_vec
| INDEX_op_x86_punpckl_vec | INDEX_op_x86_punpckh_vec
| INDEX_op_x86_vpshldi_vec | INDEX_op_x86_vpshldv_vec | INDEX_op_x86_vpshrdv_vec
| INDEX_op_aa64_sshl_vec | INDEX_op_aa64_sli_vec.
#[export] Instance vec_opcode_eq : EqDecision VecOpcode.
Proof. solve_decision. Defined.

(** The elements of the result of a comparison (all ones or zero) and of a selection. *)
Definition cmp_element (w : Z) (cond : TCGCond) (x y : Z) : Z := if cond_holds w cond x y then Z.ones w else 0.
Definition sel_element (w : Z) (cond : TCGCond) (x y : Z) : Z := if cond_holds w cond x y then x else y.

(** Operations on each pair of elements. *)
Definition element_op (opc : VecOpcode) (w : Z) : option (Z → Z → Z) :=
  match opc with
  | INDEX_op_add_vec => Some (bv_add w)
  | INDEX_op_sub_vec => Some (bv_sub w)
  | INDEX_op_mul_vec => Some (bv_mul w)
  | INDEX_op_ssadd_vec => Some (bv_sadd_sat w)
  | INDEX_op_usadd_vec => Some (bv_uadd_sat w)
  | INDEX_op_sssub_vec => Some (bv_ssub_sat w)
  | INDEX_op_ussub_vec => Some (bv_usub_sat w)
  | INDEX_op_smin_vec => Some (sel_element w TCG_COND_LT)
  | INDEX_op_umin_vec => Some (sel_element w TCG_COND_LTU)
  | INDEX_op_smax_vec => Some (sel_element w TCG_COND_GT)
  | INDEX_op_umax_vec => Some (sel_element w TCG_COND_GTU)
  | _ => None
  end.

(** Operations on the bits. *)
Definition bit_op (opc : VecOpcode) (size : Z) : option (Z → Z → Z) :=
  match opc with
  | INDEX_op_and_vec => Some Z.land
  | INDEX_op_or_vec => Some Z.lor
  | INDEX_op_xor_vec => Some Z.lxor
  | INDEX_op_andc_vec => Some (λ x y, Z.land x (bv_not size y))
  | INDEX_op_orc_vec => Some (λ x y, Z.lor x (bv_not size y))
  | INDEX_op_nand_vec => Some (λ x y, bv_not size (Z.land x y))
  | INDEX_op_nor_vec => Some (λ x y, bv_not size (Z.lor x y))
  | INDEX_op_eqv_vec => Some (λ x y, bv_not size (Z.lxor x y))
  | _ => None
  end.

(** Shifts and rotations of each element, by an immediate, by a scalar, by the
    elements of a vector. *)
Inductive ShiftAmount : Set := Immediate | Scalar | Elements.
Definition shift_op (opc : VecOpcode) (w : Z) : option (ShiftAmount * (Z → Z → Z)) :=
  match opc with
  | INDEX_op_shli_vec => Some (Immediate, bv_shl w)
  | INDEX_op_shri_vec => Some (Immediate, bv_lshr w)
  | INDEX_op_sari_vec => Some (Immediate, bv_ashr w)
  | INDEX_op_rotli_vec => Some (Immediate, rol w)
  | INDEX_op_shls_vec => Some (Scalar, bv_shl w)
  | INDEX_op_shrs_vec => Some (Scalar, bv_lshr w)
  | INDEX_op_sars_vec => Some (Scalar, bv_ashr w)
  | INDEX_op_rotls_vec => Some (Scalar, rol w)
  | INDEX_op_shlv_vec => Some (Elements, bv_shl w)
  | INDEX_op_shrv_vec => Some (Elements, bv_lshr w)
  | INDEX_op_sarv_vec => Some (Elements, bv_ashr w)
  | INDEX_op_rotlv_vec => Some (Elements, rol w)
  | INDEX_op_rotrv_vec => Some (Elements, ror w)
  | _ => None
  end.
Definition amount_ok (w s : Z) : bool := (0 <=? s) && (s <? w).

(** The result of an operation on vectors of [size] bits with [n] elements of [w]
    bits, from its register and its immediate operands. *)
Definition vec_op_val (opc : VecOpcode) (size w : Z) (n : nat) (args imms : list Z) : option Z :=
  match element_op opc w, bit_op opc size, shift_op opc w, args, imms with
  | Some f, _, _, [a; b], [] => Some (vmap2 n w f a b)
  | _, Some f, _, [a; b], [] => Some (f a b)
  | _, _, Some (Immediate, f), [a], [s] => if amount_ok w s then Some (vmap n w (λ x, f x s) a) else None
  | _, _, Some (Scalar, f), [a; s], [] =>
      let s := wrap 32 s in if amount_ok w s then Some (vmap n w (λ x, f x s) a) else None
  | _, _, Some (Elements, f), [a; b], [] => if forallb (amount_ok w) (lanes n w b) then Some (vmap2 n w f a b) else None
  | _, _, _, _, _ =>
      match opc, args, imms with
      | INDEX_op_mov_vec, [a], [] => Some a
      | INDEX_op_dup_vec, [a], [] => Some (vdup n w a)
      | INDEX_op_not_vec, [a], [] => Some (bv_not size a)
      | INDEX_op_neg_vec, [a], [] => Some (vmap n w (bv_neg w) a)
      | INDEX_op_abs_vec, [a], [] => Some (vmap n w (λ x, if sgn w x <? 0 then bv_neg w x else x) a)
      | INDEX_op_cmp_vec, [a; b], [c] =>
          c ← cond_of_code c; Some (vmap2 n w (cmp_element w c) a b)
      | INDEX_op_bitsel_vec, [a; b; c], [] => Some (Z.lor (Z.land b a) (Z.land c (bv_not size a)))
      | INDEX_op_cmpsel_vec, [c1; c2; v3; v4], [c] =>
          c ← cond_of_code c;
          let t := vmap2 n w (cmp_element w c) c1 c2 in
          Some (Z.lor (Z.land v3 t) (Z.land v4 (bv_not size t)))
      | _, _, _ => None
      end
  end.

(** The number of outputs, inputs and constants ([DEF]). *)
Definition vec_op_def (opc : VecOpcode) : nat * nat * nat :=
  match opc with
  | INDEX_op_mov_vec | INDEX_op_dup_vec | INDEX_op_neg_vec | INDEX_op_abs_vec | INDEX_op_not_vec => (1, 1, 0)
  | INDEX_op_ld_vec | INDEX_op_dupm_vec
  | INDEX_op_shli_vec | INDEX_op_shri_vec | INDEX_op_sari_vec | INDEX_op_rotli_vec => (1, 1, 1)
  | INDEX_op_st_vec => (0, 2, 1)
  | INDEX_op_cmp_vec | INDEX_op_x86_blend_vec | INDEX_op_x86_vpshldi_vec | INDEX_op_aa64_sli_vec => (1, 2, 1)
  | INDEX_op_bitsel_vec | INDEX_op_x86_vpblendvb_vec | INDEX_op_x86_vpshldv_vec | INDEX_op_x86_vpshrdv_vec => (1, 3, 0)
  | INDEX_op_cmpsel_vec => (1, 4, 1)
  | _ => (1, 2, 0)
  end%nat.

(** Results have the size of the vector. *)
Lemma cmp_element_range w cond x y : 0 ≤ w → in_range w (cmp_element w cond x y).
Proof.
  intros Hw. unfold cmp_element. destruct (cond_holds _ _ _ _); [by apply ones_range|].
  pose proof (pow2_pos w Hw). split; lia.
Qed.
Lemma sel_element_range w cond x y : in_range w x → in_range w y → in_range w (sel_element w cond x y).
Proof. intros. unfold sel_element. by destruct (cond_holds _ _ _ _). Qed.

Lemma sat_range w x y :
  0 < w → in_range w x → in_range w y →
  in_range w (bv_sadd_sat w x y) ∧ in_range w (bv_ssub_sat w x y) ∧
  in_range w (bv_uadd_sat w x y) ∧ in_range w (bv_usub_sat w x y).
Proof.
  intros Hw Hx Hy. unfold bv_sadd_sat, bv_ssub_sat, bv_uadd_sat, bv_usub_sat.
  split; [apply wrap_range; lia|]. split; [apply wrap_range; lia|]. unfold in_range in *. lia.
Qed.
Lemma element_op_range opc w f x y :
  0 < w → element_op opc w = Some f → in_range w x → in_range w y → in_range w (f x y).
Proof.
  intros Hw Hf Hx Hy. destruct (sat_range w x y Hw Hx Hy) as (? & ? & ? & ?).
  destruct opc; cbn in Hf; try done; injection Hf as <-; try done;
    first [by apply sel_element_range | apply wrap_range; lia].
Qed.
