(* ===== verification/SymHelpers.v ===== *)
(** The symbolic helpers of [accel/tcg/tcg-runtime-sym.c] and
    [accel/tcg/tcg-runtime-sym-common.c].

    A [void *] expression is an [option SymExpr] ([None] is NULL, a concrete
    value).  A helper that only builds expressions returns a [Res]; one that
    also pushes path constraints or touches the symbolic memory transforms a
    [World].

    The theorems are about [shadows i w c x o]: [c] is the concrete value of a
    variable of [w] bits, [x] the value the same variable has when the
    program's inputs are [i] (and the execution follows the same path), and
    the expression [o] accounts for the difference. *)
From S2P Require Import Prelude Cond Bitops Backend.

(** ** Expression-building helpers *)

Section Definitions.
Context {B : SymBackend}.

(** [_sym_bits_helper] dereferences its argument. *)
Definition bits_of (o : option SymExpr) : Res Z :=
  match o with Some e => Ok (_sym_bits_helper e) | None => Abort end.

Definition is_32_or_64 (b : Z) : bool := (b =? 32) || (b =? 64).

(** [BINARY_HELPER_ENSURE_EXPRESSIONS], followed by the body [k] of the
    helper; [null] is the result of the early [return NULL]. *)
Definition BINARY_HELPER_ENSURE_EXPRESSIONS {A : Type} (null : A)
    (arg1 : Z) (arg1_expr : option SymExpr) (arg2 : Z) (arg2_expr : option SymExpr)
    (k : SymExpr → SymExpr → Res A) : Res A :=
  match arg1_expr, arg2_expr with
  | None, None => Ok null
  | _, _ =>
      arg1_expr ← match arg1_expr with
                  | Some e => Ok e
                  | None => b ← bits_of arg2_expr; Ok (_sym_build_integer arg1 b)
                  end;
      arg2_expr ← match arg2_expr with
                  | Some e => Ok e
                  | None => b ← bits_of (Some arg1_expr); Ok (_sym_build_integer arg2 b)
                  end;
      assert_ (is_32_or_64 (_sym_bits_helper arg1_expr));;
      assert_ (is_32_or_64 (_sym_bits_helper arg2_expr));;
      assert_ (_sym_bits_helper arg1_expr =? _sym_bits_helper arg2_expr);;
      k arg1_expr arg2_expr
  end.

(** [DEF_HELPER_BINARY(name, symcc_name)].  The 32-bit helper zero-extends its
    arguments and calls the 64-bit one, which is the identity on the
    non-negative integers that model both. *)
Definition DEF_HELPER_BINARY (build : SymExpr → SymExpr → SymExpr)
    (arg1 : Z) (arg1_expr : option SymExpr) (arg2 : Z) (arg2_expr : option SymExpr)
    : Res (option SymExpr) :=
  BINARY_HELPER_ENSURE_EXPRESSIONS None arg1 arg1_expr arg2 arg2_expr
    (λ e1 e2, Ok (Some (build e1 e2))).

Definition helper_sym_add := DEF_HELPER_BINARY _sym_build_add.
Definition helper_sym_sub := DEF_HELPER_BINARY _sym_build_sub.
Definition helper_sym_mul := DEF_HELPER_BINARY _sym_build_mul.
Definition helper_sym_div := DEF_HELPER_BINARY _sym_build_signed_div.
Definition helper_sym_divu := DEF_HELPER_BINARY _sym_build_unsigned_div.
Definition helper_sym_rem := DEF_HELPER_BINARY _sym_build_signed_rem.
Definition helper_sym_remu := DEF_HELPER_BINARY _sym_build_unsigned_rem.
Definition helper_sym_and := DEF_HELPER_BINARY _sym_build_and.
Definition helper_sym_or := DEF_HELPER_BINARY _sym_build_or.
Definition helper_sym_xor := DEF_HELPER_BINARY _sym_build_xor.
Definition helper_sym_shift_right := DEF_HELPER_BINARY _sym_build_logical_shift_right.
Definition helper_sym_arithmetic_shift_right :=
  DEF_HELPER_BINARY _sym_build_arithmetic_shift_right.
Definition helper_sym_shift_left := DEF_HELPER_BINARY _sym_build_shift_left.

Definition helper_sym_neg (expr : option SymExpr) : Res (option SymExpr) :=
  match expr with None => Ok None | Some e => Ok (Some (_sym_build_neg e)) end.

Definition helper_sym_andc := DEF_HELPER_BINARY (λ a b, _sym_build_and a (_sym_build_not b)).
Definition helper_sym_eqv := DEF_HELPER_BINARY (λ a b, _sym_build_not (_sym_build_xor a b)).
Definition helper_sym_nand := DEF_HELPER_BINARY (λ a b, _sym_build_not (_sym_build_and a b)).
Definition helper_sym_nor := DEF_HELPER_BINARY (λ a b, _sym_build_not (_sym_build_or a b)).
Definition helper_sym_orc := DEF_HELPER_BINARY (λ a b, _sym_build_or a (_sym_build_not b)).

Definition helper_sym_not (expr : option SymExpr) : Res (option SymExpr) :=
  match expr with None => Ok None | Some e => Ok (Some (_sym_build_not e)) end.

Definition helper_sym_muluh_i64 (arg1 : Z) (arg1_expr : option SymExpr)
    (arg2 : Z) (arg2_expr : option SymExpr) : Res (option SymExpr) :=
  BINARY_HELPER_ENSURE_EXPRESSIONS None arg1 arg1_expr arg2 arg2_expr (λ e1 e2,
    assert_ ((_sym_bits_helper e1 =? 64) && (_sym_bits_helper e2 =? 64));;
    let full_result := _sym_build_mul (_sym_build_zext e1 64) (_sym_build_zext e2 64) in
    Ok (Some (_sym_extract_helper full_result 127 64))).

Definition helper_sym_sext (expr : option SymExpr) (target_length : Z)
    : Res (option SymExpr) :=
  match expr with
  | None => Ok None
  | Some e =>
      let current_bits := _sym_bits_helper e in
      let bits_to_keep := wrap 64 (target_length * 8) in
      let shift_distance_expr :=
        _sym_build_integer (wrap 64 (current_bits - bits_to_keep)) current_bits in
      Ok (Some (_sym_build_arithmetic_shift_right
                  (_sym_build_shift_left e shift_distance_expr) shift_distance_expr))
  end.

(** [1ull << desired_bits] is undefined for 64 bits and more. *)
Definition helper_sym_zext (expr : option SymExpr) (target_length : Z)
    : Res (option SymExpr) :=
  match expr with
  | None => Ok None
  | Some e =>
      let current_bits := _sym_bits_helper e in
      let desired_bits := wrap 64 (target_length * 8) in
      assert_ (desired_bits <? 64);;
      Ok (Some (_sym_build_and e
            (_sym_build_integer (wrap 64 (Z.shiftl 1 desired_bits - 1)) current_bits)))
  end.

Definition helper_sym_sext_i32_i64 (expr : option SymExpr) : Res (option SymExpr) :=
  match expr with
  | None => Ok None
  | Some e => assert_ (_sym_bits_helper e =? 32);; Ok (Some (_sym_build_sext e 32))
  end.

Definition helper_sym_zext_i32_i64 (expr : option SymExpr) : Res (option SymExpr) :=
  match expr with
  | None => Ok None
  | Some e => assert_ (_sym_bits_helper e =? 32);; Ok (Some (_sym_build_zext e 32))
  end.

Definition helper_sym_trunc_i64_i32 (expr : option SymExpr) : Res (option SymExpr) :=
  match expr with
  | None => Ok None
  | Some e => assert_ (_sym_bits_helper e =? 64);; Ok (Some (_sym_build_trunc e 32))
  end.

Definition helper_sym_bswap (expr : option SymExpr) (length : Z) : Res (option SymExpr) :=
  match expr with
  | None => Ok None
  | Some e =>
      let bits := _sym_bits_helper e in
      let eight := _sym_build_integer 8 bits in
      let sixteen := _sym_build_integer 16 bits in
      let thirty_two := _sym_build_integer 32 bits in
      let forty_eight := _sym_build_integer 48 bits in
      if length =? 2 then
        low ← helper_sym_zext (Some e) 1;
        match low with
        | None => Abort
        | Some low =>
            Ok (Some (_sym_build_or (_sym_build_shift_left low eight)
                                    (_sym_build_logical_shift_right e eight)))
        end
      else if length =? 4 then
        let mask := _sym_build_integer 0x00ff00ff bits in
        let first_block :=
          _sym_build_or
            (_sym_build_and (_sym_build_logical_shift_right e eight) mask)
            (_sym_build_shift_left (_sym_build_and e mask) eight) in
        if bits =? 32 then
          Ok (Some (_sym_build_or
                (_sym_build_logical_shift_right first_block sixteen)
                (_sym_build_shift_left first_block sixteen)))
        else
          Ok (Some (_sym_build_or
                (_sym_build_logical_shift_right first_block sixteen)
                (_sym_build_logical_shift_right
                   (_sym_build_shift_left first_block forty_eight) thirty_two)))
      else if length =? 8 then
        let mask1 := _sym_build_integer 0x00ff00ff00ff00ff 64 in
        let mask2 := _sym_build_integer 0x0000ffff0000ffff 64 in
        let first_block :=
          _sym_build_or
            (_sym_build_and (_sym_build_logical_shift_right e eight) mask1)
            (_sym_build_shift_left (_sym_build_and e mask1) eight) in
        let second_block :=
          _sym_build_or
            (_sym_build_and (_sym_build_logical_shift_right first_block sixteen) mask2)
            (_sym_build_shift_left (_sym_build_and first_block mask2) sixteen) in
        Ok (Some (_sym_build_or
              (_sym_build_logical_shift_right second_block thirty_two)
              (_sym_build_shift_left second_block thirty_two)))
      else Abort
  end.

(** [sym_rotate_left] and [sym_rotate_right] of tcg-runtime-sym-common.c; the
    bodies of the [rotate] helpers repeat them. *)
Definition sym_rotate_left (arg1_expr arg2_expr : SymExpr) : SymExpr :=
  let bits := wrap 8 (_sym_bits_helper arg1_expr) in
  _sym_build_or
    (_sym_build_shift_left arg1_expr arg2_expr)
    (_sym_build_logical_shift_right arg1_expr
       (_sym_build_sub (_sym_build_integer bits bits) arg2_expr)).

Definition sym_rotate_right (arg1_expr arg2_expr : SymExpr) : SymExpr :=
  let bits := wrap 8 (_sym_bits_helper arg1_expr) in
  _sym_build_or
    (_sym_build_logical_shift_right arg1_expr arg2_expr)
    (_sym_build_shift_left arg1_expr
       (_sym_build_sub (_sym_build_integer bits bits) arg2_expr)).

Definition helper_sym_rotate_left := DEF_HELPER_BINARY sym_rotate_left.
Definition helper_sym_rotate_right := DEF_HELPER_BINARY sym_rotate_right.

(** The helpers [helper_sym_<name>_i32] / [helper_sym_<name>_i64] that share
    the type of [DEF_HELPER_BINARY], by name. *)
Inductive SymBinary : Set :=
| SYM_add | SYM_sub | SYM_mul | SYM_div | SYM_divu | SYM_rem | SYM_remu
| SYM_and | SYM_or | SYM_xor | SYM_shift_right | SYM_arithmetic_shift_right | SYM_shift_left
| SYM_andc | SYM_eqv | SYM_nand | SYM_nor | SYM_orc | SYM_rotate_left | SYM_rotate_right.

Definition helper_sym_binary (h : SymBinary) :
    Z → option SymExpr → Z → option SymExpr → Res (option SymExpr) :=
  match h with
  | SYM_add => helper_sym_add | SYM_sub => helper_sym_sub | SYM_mul => helper_sym_mul
  | SYM_div => helper_sym_div | SYM_divu => helper_sym_divu
  | SYM_rem => helper_sym_rem | SYM_remu => helper_sym_remu
  | SYM_and => helper_sym_and | SYM_or => helper_sym_or | SYM_xor => helper_sym_xor
  | SYM_shift_right => helper_sym_shift_right
  | SYM_arithmetic_shift_right => helper_sym_arithmetic_shift_right
  | SYM_shift_left => helper_sym_shift_left
  | SYM_andc => helper_sym_andc | SYM_eqv => helper_sym_eqv | SYM_nand => helper_sym_nand
  | SYM_nor => helper_sym_nor | SYM_orc => helper_sym_orc
  | SYM_rotate_left => helper_sym_rotate_left | SYM_rotate_right => helper_sym_rotate_right
  end.

(** The positions are computed on 64-bit unsigned integers. *)
Definition helper_sym_extract (expr : option SymExpr) (ofs len : Z) : Res (option SymExpr) :=
  match expr with
  | None => Ok None
  | Some e =>
      Ok (Some (_sym_build_zext (_sym_extract_helper e (wrap 64 (ofs + len - 1)) ofs)
                                (wrap 64 (_sym_bits_helper e - len))))
  end.

Definition helper_sym_sextract (expr : option SymExpr) (ofs len : Z) : Res (option SymExpr) :=
  match expr with
  | None => Ok None
  | Some e =>
      Ok (Some (_sym_build_sext (_sym_extract_helper e (wrap 64 (ofs + len - 1)) ofs)
                                (wrap 64 (_sym_bits_helper e - len))))
  end.

(** [helper_sym_deposit_i32] and [helper_sym_deposit_i64], at width [w]; the
    shift of 1 by [len] and of the mask by [ofs] are undefined for [w] and
    more. *)
Definition helper_sym_deposit (w : Z) (arg1 : Z) (arg1_expr : option SymExpr)
    (arg2 : Z) (arg2_expr : option SymExpr) (ofs len : Z) : Res (option SymExpr) :=
  BINARY_HELPER_ENSURE_EXPRESSIONS None arg1 arg1_expr arg2 arg2_expr (λ e1 e2,
    assert_ ((len <? w) && (ofs <? w));;
    let mask := wrap w (Z.shiftl 1 len - 1) in
    Ok (Some (_sym_build_or
          (_sym_build_and e1
             (_sym_build_integer (wrap w (Z.lnot (wrap w (Z.shiftl mask ofs)))) w))
          (_sym_build_shift_left
             (_sym_build_and e2 (_sym_build_integer mask w))
             (_sym_build_integer ofs w))))).
Definition helper_sym_deposit_i32 := helper_sym_deposit 32.
Definition helper_sym_deposit_i64 := helper_sym_deposit 64.

(** [helper_sym_extract2_i32] and [helper_sym_extract2_i64], at width [w]. *)
Definition helper_sym_extract2 (w : Z) (ah : Z) (ah_expr : option SymExpr)
    (al : Z) (al_expr : option SymExpr) (ofs : Z) : Res (option SymExpr) :=
  match ah_expr, al_expr with
  | None, None => Ok None
  | _, _ =>
      let ah_expr := default (_sym_build_integer ah w) ah_expr in
      let al_expr := default (_sym_build_integer al w) al_expr in
      if ofs =? 0 then Ok (Some al_expr)
      else if ofs =? w then Ok (Some ah_expr)
      else
        assert_ (ofs <? w);;
        helper_sym_deposit w (Z.shiftr al ofs)
          (Some (_sym_build_logical_shift_right al_expr (_sym_build_integer ofs w)))
          ah (Some ah_expr) (w - ofs) ofs
  end.
Definition helper_sym_extract2_i32 := helper_sym_extract2 32.
Definition helper_sym_extract2_i64 := helper_sym_extract2 64.
End Definitions.

(** ** Path constraints *)

(** What the helpers tell the backend besides building expressions. *)
Inductive Event {B : SymBackend} : Type :=
| PathConstraint (constraint : SymExpr) (taken site_id : Z)
| NotifyCall (return_address : Z)
| NotifyRet (return_address : Z)
| NotifyBasicBlock (block_id : Z)
| CollectGarbage.
#[global] Arguments Event : clear implicits.

Section Constraints.
Context {B : SymBackend}.

(** The trace of notifications, the latest last. *)
Definition Trace := list (Event B).

Definition _sym_build_tsteq (a b : SymExpr) : Res SymExpr :=
  let bits_a := _sym_bits_helper a in
  let bits_b := _sym_bits_helper a in
  assert_ (bits_a =? bits_b);;
  Ok (_sym_build_equal (_sym_build_and a b) (_sym_build_integer 0 bits_a)).

Definition _sym_build_tstne (a b : SymExpr) : Res SymExpr :=
  let bits_a := _sym_bits_helper a in
  let bits_b := _sym_bits_helper a in
  assert_ (bits_a =? bits_b);;
  Ok (_sym_build_not_equal (_sym_build_and a b) (_sym_build_integer 0 bits_a)).

(** The [handler] the switch of [build_and_push_path_constraint] selects. *)
Definition constraint_handler (comparison_operator : TCGCond)
    : Res (SymExpr → SymExpr → Res SymExpr) :=
  match comparison_operator with
  | TCG_COND_EQ => Ok (λ a b, Ok (_sym_build_equal a b))
  | TCG_COND_NE => Ok (λ a b, Ok (_sym_build_not_equal a b))
  | TCG_COND_TSTEQ => Ok _sym_build_tsteq
  | TCG_COND_TSTNE => Ok _sym_build_tstne
  | TCG_COND_LT => Ok (λ a b, Ok (_sym_build_signed_less_than a b))
  | TCG_COND_GE => Ok (λ a b, Ok (_sym_build_signed_greater_equal a b))
  | TCG_COND_GT => Ok (λ a b, Ok (_sym_build_signed_greater_than a b))
  | TCG_COND_LE => Ok (λ a b, Ok (_sym_build_signed_less_equal a b))
  | TCG_COND_LTU => Ok (λ a b, Ok (_sym_build_unsigned_less_than a b))
  | TCG_COND_GEU => Ok (λ a b, Ok (_sym_build_unsigned_greater_equal a b))
  | TCG_COND_GTU => Ok (λ a b, Ok (_sym_build_unsigned_greater_than a b))
  | TCG_COND_LEU => Ok (λ a b, Ok (_sym_build_unsigned_less_equal a b))
  | _ => Abort
  end.

(** [pc] is [get_pc(env)]; [is_taken] arrives as a [uint8_t]. *)
Definition build_and_push_path_constraint (pc : Z) (arg1_expr arg2_expr : SymExpr)
    (comparison_operator : TCGCond) (is_taken : Z) (t : Trace) : Res (SymExpr * Trace) :=
  handler ← constraint_handler comparison_operator;
  condition_symbol ← handler arg1_expr arg2_expr;
  Ok (condition_symbol, t ++ [PathConstraint condition_symbol (wrap 8 is_taken) pc]).

Definition sym_setcond_internal (pc : Z) (arg1 : Z) (arg1_expr : option SymExpr)
    (arg2 : Z) (arg2_expr : option SymExpr) (comparison_operator : TCGCond)
    (is_taken result_bits : Z) (t : Trace) : Res (option SymExpr * Trace) :=
  BINARY_HELPER_ENSURE_EXPRESSIONS (None, t) arg1 arg1_expr arg2 arg2_expr (λ e1 e2,
    '(condition_symbol, t) ←
      build_and_push_path_constraint pc e1 e2 comparison_operator is_taken t;
    assert_ (1 <? result_bits);;
    Ok (Some (_sym_build_zext (_sym_build_bool_to_bit condition_symbol) (result_bits - 1)), t)).

Definition helper_sym_setcond_i32 pc arg1 arg1_expr arg2 arg2_expr cond is_taken :=
  sym_setcond_internal pc arg1 arg1_expr arg2 arg2_expr cond is_taken 32.
Definition helper_sym_setcond_i64 pc arg1 arg1_expr arg2 arg2_expr cond is_taken :=
  sym_setcond_internal pc arg1 arg1_expr arg2 arg2_expr cond is_taken 64.

(** An expression is created for each missing operand, with the width of the
    other comparison operand. *)
Definition ensure_with (o : option SymExpr) (v : Z) (like : option SymExpr) : Res SymExpr :=
  match o with
  | Some e => Ok e
  | None => b ← bits_of like; Ok (_sym_build_integer v b)
  end.

Definition sym_movcond_internal (pc : Z) (c1 : Z) (c1_expr : option SymExpr)
    (c2 : Z) (c2_expr : option SymExpr) (v1 : Z) (v1_expr : option SymExpr)
    (v2 : Z) (v2_expr : option SymExpr) (comparison_operator : TCGCond)
    (is_taken result_bits : Z) (t : Trace) : Res (option SymExpr * Trace) :=
  match c1_expr, c2_expr, v1_expr, v2_expr with
  | None, None, None, None => Ok (None, t)
  | _, _, _, _ =>
      c1_expr ← ensure_with c1_expr c1 c2_expr;
      c2_expr ← ensure_with c2_expr c2 (Some c1_expr);
      v1_expr ← ensure_with v1_expr v1 (Some c1_expr);
      v2_expr ← ensure_with v2_expr v2 (Some c1_expr);
      assert_ (_sym_bits_helper c1_expr =? result_bits);;
      assert_ (_sym_bits_helper c2_expr =? result_bits);;
      assert_ (_sym_bits_helper v1_expr =? result_bits);;
      assert_ (_sym_bits_helper v2_expr =? result_bits);;
      '(condition_symbol, t) ←
        build_and_push_path_constraint pc c1_expr c2_expr comparison_operator is_taken t;
      let condition_ext :=
        _sym_build_sext (_sym_build_bool_to_bit condition_symbol) (result_bits - 1) in
      assert_ (_sym_bits_helper condition_ext =? result_bits);;
      let v1_masked := _sym_build_and v1_expr condition_ext in
      let v2_masked := _sym_build_and v2_expr condition_ext in
      Ok (Some (_sym_build_xor v1_masked v2_masked), t)
  end.

Definition helper_sym_movcond_i32 pc c1 c1_expr c2 c2_expr v1 v1_expr v2 v2_expr cond is_taken :=
  sym_movcond_internal pc c1 c1_expr c2 c2_expr v1 v1_expr v2 v2_expr cond is_taken 32.
Definition helper_sym_movcond_i64 pc c1 c1_expr c2 c2_expr v1 v1_expr v2 v2_expr cond is_taken :=
  sym_movcond_internal pc c1 c1_expr c2 c2_expr v1 v1_expr v2 v2_expr cond is_taken 64.

Definition helper_sym_notify_call (return_address : Z) (t : Trace) : Trace :=
  t ++ [NotifyCall return_address].
Definition helper_sym_notify_return (return_address : Z) (t : Trace) : Trace :=
  t ++ [NotifyRet return_address].
Definition helper_sym_notify_block (block_id : Z) (t : Trace) : Trace :=
  t ++ [NotifyBasicBlock block_id].
Definition helper_sym_collect_garbage (t : Trace) : Trace := t ++ [CollectGarbage].
End Constraints.

(** ** Correctness *)

Section Correctness.
Context `{BL : BackendLaws}.
Implicit Types (i : Input) (o : option SymExpr).

(** Under the inputs [i], the expression [o] describes the value [x] of a
    [w]-bit variable that concretely holds [c]. *)
Definition shadows i (w c x : Z) o : Prop :=
  match o with None => x = c | Some e => den i w e x end.

(** The helper call [h] succeeds with an expression for [x]. *)
Definition computes (h : Res (option SymExpr)) i (w c x : Z) : Prop :=
  ∃ o, h = Ok o ∧ shadows i w c x o.

Definition reg_width (w : Z) : Prop := w = 32 ∨ w = 64.

Lemma reg_width_ok w : reg_width w → is_32_or_64 w = true ∧ 0 < w ≤ 64.
Proof. intros [-> | ->]; by cbn. Qed.

Lemma shadows_range i w c x o : in_range w c → shadows i w c x o → in_range w x.
Proof. intros ?. destruct o; cbn; [apply den_range | by intros ->]. Qed.

Lemma shadows_ensure i w c x o : 0 < w ≤ 64 → in_range w c → shadows i w c x o →
  den i w (default (_sym_build_integer c w) o) x.
Proof.
  intros Hw Hc. destruct o as [e|]; cbn; [done|]. intros ->.
  rewrite <- (wrap_small w c Hc) at 2. apply den_integer; [|done].
  apply (in_range_le w); [lia|done].
Qed.

(** The macro creates the missing expression and its assertions hold. *)
Lemma ensure_expressions_spec {A} (null : A) i w c1 x1 o1 c2 x2 o2
    (k : SymExpr → SymExpr → Res A) (P : A → Prop) :
  reg_width w → in_range w c1 → in_range w c2 →
  shadows i w c1 x1 o1 → shadows i w c2 x2 o2 →
  (x1 = c1 → x2 = c2 → P null) →
  (∀ e1 e2, den i w e1 x1 → den i w e2 x2 → ∃ r, k e1 e2 = Ok r ∧ P r) →
  ∃ r, BINARY_HELPER_ENSURE_EXPRESSIONS null c1 o1 c2 o2 k = Ok r ∧ P r.
Proof.
  intros Hw Hc1 Hc2 H1 H2 Hnull Hk. destruct (reg_width_ok w Hw) as [Hok Hpos].
  pose proof (shadows_ensure i w c1 x1 o1 Hpos Hc1 H1) as D1.
  pose proof (shadows_ensure i w c2 x2 o2 Hpos Hc2 H2) as D2.
  destruct (Hk _ _ D1 D2) as (r & Hr & HP).
  pose proof (den_bits _ _ _ _ D1) as B1. pose proof (den_bits _ _ _ _ D2) as B2.
  destruct o1 as [e1|], o2 as [e2|]; cbn in *;
    try (by eexists; split; [done|apply Hnull]);
    exists r; split; try done; unfold BINARY_HELPER_ENSURE_EXPRESSIONS; cbn;
    rewrite ?B1, ?B2; cbn; rewrite ?B1, ?B2, Hok; cbn; by rewrite ?Z.eqb_refl.
Qed.

(** A binary helper whose builder denotes [g] (on operands that satisfy
    [ok]) computes [g]. *)
Lemma binary_helper_spec ok f g i w c1 x1 o1 c2 x2 o2 :
  binary ok f g → reg_width w → in_range w c1 → in_range w c2 → ok x1 x2 →
  shadows i w c1 x1 o1 → shadows i w c2 x2 o2 →
  computes (DEF_HELPER_BINARY f c1 o1 c2 o2) i w (g w c1 c2) (g w x1 x2).
Proof.
  intros Hf Hw H1 H2 Hok S1 S2. eapply ensure_expressions_spec; try done.
  - by intros -> ->.
  - intros e1 e2 D1 D2. eexists. split; [done|]. by eapply den_binary.
Qed.

(** The same for a builder given by its denotation. *)
Lemma binary_helper_den f g i w c1 x1 o1 c2 x2 o2 :
  (∀ e1 e2, den i w e1 x1 → den i w e2 x2 → den i w (f e1 e2) (g x1 x2)) →
  (x1 = c1 → x2 = c2 → g x1 x2 = g c1 c2) →
  reg_width w → in_range w c1 → in_range w c2 →
  shadows i w c1 x1 o1 → shadows i w c2 x2 o2 →
  computes (DEF_HELPER_BINARY f c1 o1 c2 o2) i w (g c1 c2) (g x1 x2).
Proof.
  intros Hf Hg Hw H1 H2 S1 S2. eapply ensure_expressions_spec; try done.
  intros e1 e2 D1 D2. eexists. split; [done|]. by apply Hf.
Qed.

Lemma computes_none i w c x : x = c → computes (Ok None) i w c x.
Proof. intros. by exists None. Qed.
Lemma computes_some i w c x e y : den i w e y → y = x → computes (Ok (Some e)) i w c x.
Proof. intros ? <-. by exists (Some e). Qed.

(** What a binary helper computes at width [w], and the operands it needs: a
    divisor that is not zero, a rotation by less than the width (a shift by
    more denotes zero or the sign). *)
Definition binary_meaning (h : SymBinary) (w x y : Z) : Z :=
  match h with
  | SYM_add => bv_add w x y | SYM_sub => bv_sub w x y | SYM_mul => bv_mul w x y
  | SYM_div => bv_sdiv w x y | SYM_divu => bv_udiv w x y
  | SYM_rem => bv_srem w x y | SYM_remu => bv_urem w x y
  | SYM_and => Z.land x y | SYM_or => Z.lor x y | SYM_xor => Z.lxor x y
  | SYM_shift_right => bv_lshr w x y
  | SYM_arithmetic_shift_right => bv_ashr w x y
  | SYM_shift_left => bv_shl w x y
  | SYM_andc => Z.land x (bv_not w y)
  | SYM_eqv => bv_not w (Z.lxor x y)
  | SYM_nand => bv_not w (Z.land x y)
  | SYM_nor => bv_not w (Z.lor x y)
  | SYM_orc => Z.lor x (bv_not w y)
  | SYM_rotate_left => rol w x y | SYM_rotate_right => ror w x y
  end.

Definition binary_domain (h : SymBinary) (w y : Z) : Prop :=
  match h with
  | SYM_div | SYM_divu | SYM_rem | SYM_remu => y ≠ 0
  | SYM_rotate_left | SYM_rotate_right => y < w
  | _ => True
  end.

Lemma reg_is_width w : reg_width w → is_width w.
Proof. unfold is_width, reg_width. lia. Qed.
Lemma amount_fits w k : is_width w → 0 ≤ k ≤ w → in_range w k.
Proof.
  unfold in_range. intros Hw Hk. pose proof (Z.pow_gt_lin_r 2 w ltac:(lia)).
  destruct Hw as [-> | [-> | [-> | ->]]]; lia.
Qed.
Lemma width_fits w k : reg_width w → 0 ≤ k ≤ w → in_range w k.
Proof. intros Hw. by apply amount_fits, reg_is_width. Qed.

Lemma rotate_den i w e1 e2 x y :
  is_width w → y < w → den i w e1 x → den i w e2 y →
  den i w (sym_rotate_left e1 e2) (rol w x y) ∧
  den i w (sym_rotate_right e1 e2) (ror w x y).
Proof.
  intros Hw Hy D1 D2. pose proof (den_range _ _ _ _ D1) as Hx.
  pose proof (den_range _ _ _ _ D2) as [Hy0 _].
  assert (Hw64 : 0 < w ≤ 64) by (unfold is_width in Hw; lia).
  unfold sym_rotate_left, sym_rotate_right. rewrite (den_bits _ _ _ _ D1).
  assert (wrap 8 w = w) as -> by (destruct Hw as [-> | [-> | [-> | ->]]]; done).
  assert (F : in_range 64 w) by (apply amount_fits; [unfold is_width|]; lia).
  assert (E : bv_sub w (wrap w w) y = w - y)
    by (unfold bv_sub; rewrite (wrap_small w w), wrap_small by (apply amount_fits; auto; lia); done).
  assert (M : Z.land y (w - 1) = y) by (rewrite land_width by done; apply Z.mod_small; lia).
  assert (N : Z.land (wrap 32 (- y)) (w - 1) = if y =? 0 then 0 else w - y)
    by (rewrite land_neg_width, mod_neg, Z.mod_small by (done || lia); done).
  split; (eapply den_eq; [den_solve|]); unfold rol, ror, bv_or, bv_shl, bv_lshr;
    rewrite E, M, N; destruct (Z.eqb_spec y 0); zbits.
Qed.

(** The builders of the helpers that combine several operations. *)
Lemma logic_den i w e1 e2 x y :
  den i w e1 x → den i w e2 y →
  den i w (_sym_build_and e1 (_sym_build_not e2)) (Z.land x (bv_not w y)) ∧
  den i w (_sym_build_not (_sym_build_xor e1 e2)) (bv_not w (Z.lxor x y)) ∧
  den i w (_sym_build_not (_sym_build_and e1 e2)) (bv_not w (Z.land x y)) ∧
  den i w (_sym_build_not (_sym_build_or e1 e2)) (bv_not w (Z.lor x y)) ∧
  den i w (_sym_build_or e1 (_sym_build_not e2)) (Z.lor x (bv_not w y)).
Proof.
  intros. repeat split; (eapply den_eq; [den_solve|done]).
Qed.

Lemma binary_helper_correct h i w c1 x1 o1 c2 x2 o2 :
  reg_width w → in_range w c1 → in_range w c2 → binary_domain h w x2 →
  shadows i w c1 x1 o1 → shadows i w c2 x2 o2 →
  computes (helper_sym_binary h c1 o1 c2 o2) i w
    (binary_meaning h w c1 c2) (binary_meaning h w x1 x2).
Proof.
  intros Hw H1 H2 Hd S1 S2.
  destruct h; cbn [binary_domain helper_sym_binary] in *;
    try (by apply (binary_helper_spec always _ (binary_meaning _)); eauto using law_add, law_sub,
      law_mul, law_and, law_or, law_xor, law_shift_left, law_logical_shift_right,
      law_arithmetic_shift_right);
    try (by apply (binary_helper_spec nonzero_divisor _ (binary_meaning _)); eauto using
      law_unsigned_div, law_signed_div, law_unsigned_rem, law_signed_rem);
    apply (binary_helper_den _ (binary_meaning _ w)); try done; try congruence;
    intros e1 e2 D1 D2; try (by apply logic_den); by apply rotate_den; [apply reg_is_width|..].
Qed.

Lemma fits64 k : 0 ≤ k ≤ 64 → in_range 64 k.
Proof. intros. apply width_fits; unfold reg_width; lia. Qed.

Lemma sext_correct i w c x o len :
  reg_width w → 0 < len → 8 * len ≤ w → shadows i w c x o →
  computes (helper_sym_sext o len) i w (wrap w (sgn (8 * len) c)) (wrap w (sgn (8 * len) x)).
Proof.
  intros Hw Hl Hlw. destruct o as [e|]; cbn; [|intros ->; by apply computes_none].
  intros D. destruct (reg_width_ok w Hw) as [_ Hw64]. rewrite (den_bits _ _ _ _ D).
  rewrite (wrap_small 64 (len * 8)), (wrap_small 64 (w - len * 8)) by (apply fits64; lia).
  eapply computes_some; [den_solve|].
  rewrite (wrap_small w (w - len * 8)) by (apply width_fits; auto; lia).
  unfold bv_ashr, bv_shl. zbits.
Qed.

Lemma zext_correct i w c x o len :
  reg_width w → 0 < len < 8 → 8 * len ≤ w → shadows i w c x o →
  computes (helper_sym_zext o len) i w (wrap (8 * len) c) (wrap (8 * len) x).
Proof.
  intros Hw Hl Hlw. destruct o as [e|]; cbn; [|intros ->; by apply computes_none].
  intros D. destruct (reg_width_ok w Hw) as [_ Hw64]. rewrite (den_bits _ _ _ _ D).
  rewrite (wrap_small 64 (len * 8)) by (apply fits64; lia).
  rewrite assert_true by lia.
  replace (Z.shiftl 1 (len * 8) - 1) with (Z.ones (len * 8)) by (rewrite Z.shiftl_1_l, Z.ones_equiv; lia).
  rewrite wrap_small by (apply ones_range; lia).
  eapply computes_some; [den_solve|].
  unfold bv_and. zbits.
Qed.

Lemma extend_correct i c x o :
  shadows i 32 c x o →
  computes (helper_sym_sext_i32_i64 o) i 64 (wrap 64 (sgn 32 c)) (wrap 64 (sgn 32 x)) ∧
  computes (helper_sym_zext_i32_i64 o) i 64 c x.
Proof.
  destruct o as [e|]; cbn; [|intros ->; split; by apply computes_none].
  intros D. rewrite (den_bits _ _ _ _ D). cbn.
  split; (eapply computes_some; [|done]); 
    [eapply den_sext | eapply den_zext]; try done; lia.
Qed.

Lemma trunc_correct i c x o :
  shadows i 64 c x o → computes (helper_sym_trunc_i64_i32 o) i 32 (wrap 32 c) (wrap 32 x).
Proof.
  destruct o as [e|]; cbn; [|intros ->; by apply computes_none].
  intros D. rewrite (den_bits _ _ _ _ D). cbn.
  eapply computes_some; [|done]. eapply den_trunc; [|done]; lia.
Qed.

Lemma not_correct i w c x o :
  shadows i w c x o → computes (helper_sym_not o) i w (bv_not w c) (bv_not w x).
Proof.
  destruct o as [e|]; cbn; [|intros ->; by apply computes_none].
  intros D. eapply computes_some; [|done]. by apply den_not.
Qed.

Lemma neg_correct i w c x o :
  shadows i w c x o → computes (helper_sym_neg o) i w (bv_neg w c) (bv_neg w x).
Proof.
  destruct o as [e|]; cbn; [|intros ->; by apply computes_none].
  intros D. eapply computes_some; [|done]. by apply den_neg.
Qed.

Lemma extract_den i w e x ofs len :
  reg_width w → field_ok w ofs len = true → den i w e x →
  den i len (_sym_extract_helper e (wrap 64 (ofs + len - 1)) ofs) (wrap len (Z.shiftr x ofs)).
Proof.
  intros Hw Hf D. apply field_ok_spec in Hf. destruct (reg_width_ok w Hw) as [_ Hw64].
  rewrite wrap_small by (apply fits64; lia). eapply den_extract; [..|done]; lia.
Qed.

Lemma extract_correct i w c x o ofs len :
  reg_width w → field_ok w ofs len = true → shadows i w c x o →
  computes (helper_sym_extract o ofs len) i w
    (wrap len (Z.shiftr c ofs)) (wrap len (Z.shiftr x ofs)).
Proof.
  intros Hw Hf. destruct o as [e|]; cbn; [|intros ->; by apply computes_none].
  intros D. pose proof (extract_den _ _ _ _ _ _ Hw Hf D) as De. apply field_ok_spec in Hf.
  destruct (reg_width_ok w Hw) as [_ Hw64]. rewrite (den_bits _ _ _ _ D).
  rewrite (wrap_small 64 (w - len)) by (apply fits64; lia).
  eapply computes_some; [|done]. eapply den_zext; [..|done]; lia.
Qed.

Lemma sextract_correct i w c x o ofs len :
  reg_width w → field_ok w ofs len = true → shadows i w c x o →
  computes (helper_sym_sextract o ofs len) i w
    (wrap w (sgn len (Z.shiftr c ofs))) (wrap w (sgn len (Z.shiftr x ofs))).
Proof.
  intros Hw Hf. destruct o as [e|]; cbn; [|intros ->; by apply computes_none].
  intros D. pose proof (extract_den _ _ _ _ _ _ Hw Hf D) as De. apply field_ok_spec in Hf.
  destruct (reg_width_ok w Hw) as [_ Hw64]. rewrite (den_bits _ _ _ _ D).
  rewrite (wrap_small 64 (w - len)) by (apply fits64; lia).
  eapply computes_some; [eapply den_sext; [..|done]; lia|]. by rewrite sgn_wrap by lia.
Qed.

(** The expression [helper_sym_deposit] builds, and what it denotes. *)
Lemma deposit_den i w e1 e2 x y ofs len :
  reg_width w → field_ok w ofs len = true → len < w → den i w e1 x → den i w e2 y →
  let mask := wrap w (Z.shiftl 1 len - 1) in
  den i w (_sym_build_or
      (_sym_build_and e1
         (_sym_build_integer (wrap w (Z.lnot (wrap w (Z.shiftl mask ofs)))) w))
      (_sym_build_shift_left (_sym_build_and e2 (_sym_build_integer mask w))
         (_sym_build_integer ofs w)))
    (put_field x ofs len y).
Proof.
  intros Hw Hf Hl D1 D2. destruct (reg_width_ok w Hw) as [_ Hw64]. apply field_ok_spec in Hf.
  replace (Z.shiftl 1 len - 1) with (Z.ones len) by (rewrite Z.shiftl_1_l, Z.ones_equiv; lia).
  rewrite (wrap_small w (Z.ones len)) by (apply ones_range; lia). intros mask.
  assert (in_range 64 mask) by (apply ones_range; lia).
  assert (∀ z, in_range 64 (wrap w z))
    by (intros z; apply (in_range_le w); [lia|]; apply wrap_range; lia).
  pose proof (den_range _ _ _ _ D1). pose proof (den_range _ _ _ _ D2).
  eapply den_eq; [den_solve; auto|].
  rewrite (wrap_small w ofs) by (apply width_fits; auto; lia).
  unfold put_field, bv_or, bv_and, bv_shl, mask. zbits.
Qed.

Lemma deposit_correct i w c1 x1 o1 c2 x2 o2 ofs len :
  reg_width w → in_range w c1 → in_range w c2 → field_ok w ofs len = true → len < w →
  shadows i w c1 x1 o1 → shadows i w c2 x2 o2 →
  computes (helper_sym_deposit w c1 o1 c2 o2 ofs len) i w
    (put_field c1 ofs len c2) (put_field x1 ofs len x2).
Proof.
  intros Hw H1 H2 Hf Hl S1 S2. eapply ensure_expressions_spec; try done.
  - by intros -> ->.
  - intros e1 e2 D1 D2. pose proof (deposit_den _ _ _ _ _ _ _ _ Hw Hf Hl D1 D2) as D.
    apply field_ok_spec in Hf. rewrite assert_true by lia. eexists. split; [done|]. apply D.
Qed.

(** The double word [ah:al] shifted right by [ofs]. *)
Definition extract2_val (w ah al ofs : Z) : Z :=
  wrap w (Z.shiftr (Z.lor (Z.shiftl ah w) al) ofs).

Lemma extract2_put_field w h l ofs :
  0 < w → in_range w h → in_range w l → 0 < ofs < w →
  put_field (Z.shiftr l ofs) (w - ofs) ofs h = extract2_val w h l ofs.
Proof. intros. unfold put_field, extract2_val. zbits. Qed.

Lemma extract2_correct i w ch xh oh cl xl ol ofs :
  reg_width w → in_range w ch → in_range w cl → 0 ≤ ofs ≤ w →
  shadows i w ch xh oh → shadows i w cl xl ol →
  computes (helper_sym_extract2 w ch oh cl ol ofs) i w
    (extract2_val w ch cl ofs) (extract2_val w xh xl ofs).
Proof.
  intros Hw Hh Hl Ho Sh Sl. destruct (reg_width_ok w Hw) as [_ Hw64].
  pose proof (shadows_ensure _ _ _ _ _ Hw64 Hh Sh) as Dh.
  pose proof (shadows_ensure _ _ _ _ _ Hw64 Hl Sl) as Dl.
  pose proof (den_range _ _ _ _ Dh). pose proof (den_range _ _ _ _ Dl).
  destruct oh as [eh|] eqn:Eh, ol as [el|] eqn:El; cbn [helper_sym_extract2];
    [| | |cbn in Sh, Sl; subst; by apply computes_none].
  all: unfold helper_sym_extract2; set (eh' := default _ _) in *; set (el' := default _ _) in *.
  all: destruct (Z.eqb_spec ofs 0) as [->|];
    [eapply computes_some; [done|]; unfold extract2_val; zbits|].
  all: destruct (Z.eqb_spec ofs w) as [->|];
    [eapply computes_some; [done|]; unfold extract2_val; zbits|].
  all: rewrite assert_true by lia.
  all: rewrite <- !extract2_put_field by (done || lia).
  all: apply deposit_correct; try done; try (apply field_ok_spec); try lia;
    try (by apply shiftr_range; [lia|lia|]).
  all: eapply den_eq; [den_solve|].
  all: by rewrite (wrap_small w ofs) by (apply width_fits; auto; lia).
Qed.

Lemma muluh_correct i c1 x1 o1 c2 x2 o2 :
  in_range 64 c1 → in_range 64 c2 → shadows i 64 c1 x1 o1 → shadows i 64 c2 x2 o2 →
  computes (helper_sym_muluh_i64 c1 o1 c2 o2) i 64 (snd (mulu64 c1 c2)) (snd (mulu64 x1 x2)).
Proof.
  intros H1 H2 S1 S2. eapply (ensure_expressions_spec _ i 64); try done; [by right|..].
  - by intros -> ->.
  - intros e1 e2 D1 D2. rewrite (den_bits _ _ _ _ D1), (den_bits _ _ _ _ D2). cbn.
    eexists. split; [done|]. pose proof (den_range _ _ _ _ D1) as [? ?].
    pose proof (den_range _ _ _ _ D2) as [? ?].
    eapply den_eq.
    + eapply (den_extract i 128); [done|lia|lia|].
      apply den_mul; eapply den_zext; try done; lia.
    + unfold bv_mul. rewrite (wrap_small 128); [done|].
      unfold in_range. change (2 ^ 128) with (2 ^ 64 * 2 ^ 64). nia.
Qed.

(** The values whose bytes [helper_sym_bswap] swaps: the whole register, the
    low half of it, or sixteen bits extended with zeros. *)
Definition bswap_domain (w length x : Z) : Prop :=
  (length = 2 ∧ in_range 16 x) ∨ length = 4 ∨ (length = 8 ∧ w = 64).

Definition bswap_val (length x : Z) : Z := bswap_bytes (Z.to_nat length) x.

(** The helper call [h] succeeds with a symbolic expression for [x]. *)
Definition yields (h : Res (option SymExpr)) i (w x : Z) : Prop :=
  ∃ e, h = Ok (Some e) ∧ den i w e x.

Lemma yields_some i w x e y : den i w e y → y = x → yields (Ok (Some e)) i w x.
Proof. intros ? <-. by exists e. Qed.

Lemma bswap_den2 i w e x :
  reg_width w → in_range 16 x → den i w e x → yields (helper_sym_bswap (Some e) 2) i w (bswap16 x).
Proof.
  intros Hw Hx D. destruct (reg_width_ok w Hw) as [_ Hw64].
  destruct (zext_correct i w 0 x (Some e) 1) as (o & Ho & Hs); [done|lia|destruct Hw; lia|done|].
  cbn [helper_sym_bswap]. change (2 =? 2) with true. cbv iota. rewrite Ho.
  destruct o as [low|]; [|by revert Ho; cbn; destruct (_ <? _)]. cbn in Hs |- *.
  rewrite (den_bits _ _ _ _ D).
  eapply yields_some; [den_solve|].
  rewrite !(wrap_small w) by (apply width_fits; auto; destruct Hw; lia).
  apply bswap16_expand; [destruct Hw; lia|done].
Qed.

Lemma bswap_den4 i w e x :
  reg_width w → den i w e x → yields (helper_sym_bswap (Some e) 4) i w (bswap32 x).
Proof.
  intros Hw D. pose proof (den_range _ _ _ _ D). unfold helper_sym_bswap. rewrite (den_bits _ _ _ _ D).
  destruct Hw as [-> | ->]; cbv zeta; cbn -[bswap32]; (eapply yields_some; [den_solve|]).
  - by rewrite <- bswap32_expand by done.
  - destruct (bswap32_expand_64 (wrap 32 x)) as [E _]; [by apply wrap_range|].
    rewrite <- bswap_round_low in E. unfold bswap32 in E. by rewrite bswap_wrap in E.
Qed.

Lemma bswap_den8 i e x :
  den i 64 e x → yields (helper_sym_bswap (Some e) 8) i 64 (bswap64 x).
Proof.
  intros D. unfold helper_sym_bswap. rewrite (den_bits _ _ _ _ D). cbv zeta. cbn -[bswap64].
  eapply yields_some; [den_solve|].
  rewrite <- bswap64_expand by (by eapply den_range). done.
Qed.

Lemma bswap_correct i w c x o length :
  reg_width w → bswap_domain w length x → shadows i w c x o →
  computes (helper_sym_bswap o length) i w (bswap_val length c) (bswap_val length x).
Proof.
  intros Hw Hx. destruct o as [e|]; [|intros ->; by apply computes_none].
  intros D. assert (yields (helper_sym_bswap (Some e) length) i w (bswap_val length x))
    as (e' & He & De); [|by exists (Some e')].
  destruct Hx as [[-> ?]|[->|[-> ->]]];
    [by apply bswap_den2 | by apply bswap_den4 | by apply bswap_den8].
Qed.

(** The handler chosen for a condition denotes the condition. *)
Lemma constraint_handler_correct c i w a b x y :
  0 < w ≤ 64 → cond_proper c = true → den i w a x → den i w b y →
  ∃ h e, constraint_handler c = Ok h ∧ h a b = Ok e ∧ denb i e (cond_holds w c x y).
Proof.
  intros Hw Hc Da Db.
  assert (D0 : den i w (_sym_build_integer 0 w) 0)
    by (apply (den_eq _ _ _ (wrap w 0)); [den_solve|by apply Z.mod_0_l, Z.pow_nonzero; lia]).
  assert (Dab : den i w (_sym_build_and a b) (Z.land x y)) by (by apply den_and).
  destruct c; try done; cbn [constraint_handler cond_holds];
    unfold _sym_build_tsteq, _sym_build_tstne;
    eexists _, _; (split; [reflexivity|]); (split; [first
      [ reflexivity
      | rewrite assert_true by apply Z.eqb_refl; rewrite (den_bits _ _ _ _ Da); reflexivity ]|]).
  all: try (by apply (den_comparison i w _ (λ _ x y, x =? y)); eauto using law_equal).
  all: try (by apply (den_comparison i w _ (λ _ x y, negb (x =? y))); eauto using law_not_equal).
  - by apply (den_comparison i w _ _ _ _ _ _ law_slt).
  - by apply (den_comparison i w _ _ _ _ _ _ law_sge).
  - by apply (den_comparison i w _ _ _ _ _ _ law_sgt).
  - by apply (den_comparison i w _ _ _ _ _ _ law_sle).
  - by apply (den_comparison i w _ _ _ _ _ _ law_ult).
  - by apply (den_comparison i w _ _ _ _ _ _ law_uge).
  - by apply (den_comparison i w _ _ _ _ _ _ law_ugt).
  - by apply (den_comparison i w _ _ _ _ _ _ law_ule).
Qed.

(** A constraint is pushed for the condition, with the concrete outcome. *)
Lemma push_path_constraint_correct c i w a b x y pc taken t :
  0 < w ≤ 64 → cond_proper c = true → den i w a x → den i w b y →
  ∃ e, build_and_push_path_constraint pc a b c taken t
         = Ok (e, t ++ [PathConstraint e (wrap 8 taken) pc]) ∧
       denb i e (cond_holds w c x y).
Proof.
  intros Hw Hc Da Db.
  destruct (constraint_handler_correct c i w a b x y) as (h & e & Hh & He & Hd); try done.
  exists e. split; [|done]. unfold build_and_push_path_constraint. by rewrite Hh; cbn; rewrite He.
Qed.

(** The pushed constraints hold under [i]. *)
Definition path_holds i (t : Trace) : bool :=
  forallb (λ ev, match ev with
                 | PathConstraint e taken _ => Bool.eqb (holds i e) (negb (taken =? 0))
                 | _ => true
                 end) t.

Lemma path_holds_app i t t' : path_holds i (t ++ t') = path_holds i t && path_holds i t'.
Proof. apply forallb_app. Qed.

(** A traced helper call: the expression and the constraint it pushes, if
    any; [cond] is the truth of the constraint under [i]. *)
Definition traces (h : Res (option SymExpr * Trace)) (t : Trace) i (w c x : Z)
    (cond : bool) (taken pc : Z) : Prop :=
  ∃ o t', h = Ok (o, t') ∧ shadows i w c x o ∧
    ((o = None ∧ t' = t) ∨
     (∃ e, t' = t ++ [PathConstraint e (wrap 8 taken) pc] ∧ denb i e cond)).

Lemma setcond_correct i w r c1 x1 o1 c2 x2 o2 cond taken pc t :
  reg_width w → reg_width r → in_range w c1 → in_range w c2 → cond_proper cond = true →
  shadows i w c1 x1 o1 → shadows i w c2 x2 o2 →
  traces (sym_setcond_internal pc c1 o1 c2 o2 cond taken r t) t i r
    (Z.b2z (cond_holds w cond c1 c2)) (Z.b2z (cond_holds w cond x1 x2))
    (cond_holds w cond x1 x2) taken pc.
Proof.
  intros Hw Hr H1 H2 Hc S1 S2. destruct (reg_width_ok w Hw) as [_ Hw64].
  destruct (reg_width_ok r Hr) as [_ Hr64].
  destruct (ensure_expressions_spec (None, t) i w c1 x1 o1 c2 x2 o2
    (λ e1 e2,
      '(condition_symbol, t) ← build_and_push_path_constraint pc e1 e2 cond taken t;
      assert_ (1 <? r);;
      Ok (Some (_sym_build_zext (_sym_build_bool_to_bit condition_symbol) (r - 1)), t))
    (λ p, shadows i r (Z.b2z (cond_holds w cond c1 c2)) (Z.b2z (cond_holds w cond x1 x2)) p.1 ∧
      ((p.1 = None ∧ p.2 = t) ∨ (∃ e, p.2 = t ++ [PathConstraint e (wrap 8 taken) pc] ∧
         denb i e (cond_holds w cond x1 x2))))) as ([o t'] & Ho & Hs); try done.
  - intros -> ->. cbn. eauto.
  - intros e1 e2 D1 D2.
    destruct (push_path_constraint_correct cond i w e1 e2 x1 x2 pc taken t) as (e & He & Hd); try done.
    rewrite He. cbn. rewrite assert_true by (destruct Hr; lia).
    eexists. split; [done|]. cbn. split; [|eauto].
    eapply den_zext; [..|by apply den_bool_to_bit]; lia.
  - exists o, t'. split; [done|]. done.
Qed.

(** What [sym_movcond_internal] builds: both alternatives under the same mask,
    so their difference if the condition holds, and zero otherwise. *)
Definition movcond_built (b : bool) (y1 y2 : Z) : Z := if b then Z.lxor y1 y2 else 0.

Lemma ensure_with_den i w c x o like y :
  0 < w ≤ 64 → in_range w c → shadows i w c x o → den i w like y →
  ∃ e, ensure_with o c (Some like) = Ok e ∧ den i w e x.
Proof.
  intros Hw Hc Hs D. eexists. split; [|by apply (shadows_ensure i w c x o)].
  destruct o; cbn; [done|]. by rewrite (den_bits _ _ _ _ D).
Qed.

Lemma masked_den i w cnd b e y :
  reg_width w → denb i cnd b → den i w e y →
  let m := _sym_build_sext (_sym_build_bool_to_bit cnd) (w - 1) in
  _sym_bits_helper m = w ∧ den i w (_sym_build_and e m) (if b then y else 0).
Proof.
  intros Hw Hb He m. destruct (reg_width_ok w Hw) as [_ Hw64].
  assert (D : den i w m (wrap w (sgn 1 (Z.b2z b))))
    by (eapply den_sext; [..|by apply den_bool_to_bit]; lia).
  split; [by eapply den_bits|]. pose proof (den_range _ _ _ _ He) as Hr.
  eapply den_eq; [by apply den_and|]. unfold bv_and. destruct b; cbn.
  - replace (sgn 1 1) with (-1) by done. rewrite wrap_neg1, Z.land_ones by lia. by apply wrap_small.
  - replace (sgn 1 0) with 0 by done. by rewrite wrap_0, Z.land_0_r.
Qed.

Lemma movcond_masks i w c1 x1 o1 c2 x2 o2 v1 y1 p1 v2 y2 p2 cond taken pc t :
  reg_width w → in_range w c1 → in_range w c2 → in_range w v1 → in_range w v2 → cond_proper cond = true →
  shadows i w c1 x1 o1 → shadows i w c2 x2 o2 → shadows i w v1 y1 p1 → shadows i w v2 y2 p2 →
  is_Some o1 ∨ is_Some o2 →
  ∃ e e', sym_movcond_internal pc c1 o1 c2 o2 v1 p1 v2 p2 cond taken w t
            = Ok (Some e, t ++ [PathConstraint e' (wrap 8 taken) pc]) ∧
    denb i e' (cond_holds w cond x1 x2) ∧ den i w e (movcond_built (cond_holds w cond x1 x2) y1 y2).
Proof.
  intros Hw R1 R2 R3 R4 Hc S1 S2 S3 S4 Hsome. destruct (reg_width_ok w Hw) as [_ Hw64].
  assert (∃ e1, ensure_with o1 c1 o2 = Ok e1 ∧ den i w e1 x1) as (e1 & E1 & D1).
  { destruct o2 as [e2|]; [by eapply ensure_with_den|]. destruct o1 as [e1|]; [by exists e1|].
    destruct Hsome as [[? [=]]|[? [=]]]. }
  destruct (ensure_with_den i w c2 x2 o2 e1 x1) as (e2 & E2 & D2); [done..|].
  destruct (ensure_with_den i w v1 y1 p1 e1 x1) as (e3 & E3 & D3); [done..|].
  destruct (ensure_with_den i w v2 y2 p2 e1 x1) as (e4 & E4 & D4); [done..|].
  destruct (push_path_constraint_correct cond i w e1 e2 x1 x2 pc taken t) as (e & He & Hd); [done..|].
  destruct (masked_den i w e _ e3 y1 Hw Hd D3) as [Hb M1]. destruct (masked_den i w e _ e4 y2 Hw Hd D4) as [_ M2].
  eexists _, e. split; [|split; [done|]].
  - transitivity (e1 ← ensure_with o1 c1 o2; e2 ← ensure_with o2 c2 (Some e1);
      e3 ← ensure_with p1 v1 (Some e1); e4 ← ensure_with p2 v2 (Some e1); 
      sym_movcond_internal pc c1 (Some e1) c2 (Some e2) v1 (Some e3) v2 (Some e4) cond taken w t).
    + destruct o1, o2; try (destruct Hsome as [[? [=]]|[? [=]]]); destruct p1, p2; done.
    + rewrite E1. cbn. rewrite E2. cbn. rewrite E3. cbn. rewrite E4. cbn.
      rewrite (den_bits _ _ _ _ D1), (den_bits _ _ _ _ D2), (den_bits _ _ _ _ D3), (den_bits _ _ _ _ D4).
      rewrite !assert_true by apply Z.eqb_refl. rewrite He. cbn. rewrite Hb, assert_true by apply Z.eqb_refl. done.
  - eapply den_eq; [by apply den_xor|]. unfold bv_xor, movcond_built. by destruct (cond_holds _ _ _ _).
Qed.
End Correctness.
