(* ===== verification/SymMemory.v ===== *)
(** The symbolic memory and the helpers that access it
    ([sym_load_*], [sym_store_*] of [accel/tcg/tcg-runtime-sym.c]).

    The backend keeps an expression for every byte of host memory that holds a
    symbolic value.  Its two operations are again a class, [ShadowMemory],
    with laws in [ShadowLaws]: reading joins the bytes, little-endian, taking
    the byte in memory where none is symbolic, and returns NULL when no byte
    is; writing replaces the bytes of the range. *)
From S2P Require Import Prelude Cond Bitops Backend SymHelpers.

(** Host memory, by address. *)
Definition Mem := Z → Z.

(** The value of the [n] bytes at [a], little-endian. *)
Fixpoint le_join (n : nat) (f : Z → Z) (a : Z) : Z :=
  match n with
  | O => 0
  | S n => f a + 2 ^ 8 * le_join n f (a + 1)
  end.

(** Byte [k] of a value. *)
Definition byte_of (v k : Z) : Z := wrap 8 (Z.shiftr v (8 * k)).

Class ShadowMemory (B : SymBackend) := {
  Shadow : Type;
  (** The address, the length in bytes, and whether it is little-endian. *)
  _sym_read_memory : Shadow → Mem → Z → Z → bool → option SymExpr;
  _sym_write_memory : Shadow → Z → Z → option SymExpr → bool → Shadow;
}.

Class ShadowLaws (B : SymBackend) (BS : BackendSem B) (SM : ShadowMemory B) := {
  (** The value of a symbolic byte; [None] when the byte is concrete. *)
  byte_val : Input → Shadow → Z → option Z;
  byte_val_range i sh a v : byte_val i sh a = Some v → in_range 8 v;
  law_read i sh m a n : 0 < n → (∀ k, in_range 8 (m k)) →
    match _sym_read_memory sh m a n true with
    | None => ∀ k, a ≤ k < a + n → byte_val i sh k = None
    | Some e => den i (8 * n) e (le_join (Z.to_nat n) (λ k, default (m k) (byte_val i sh k)) a)
    end;
  law_write_null i sh a n k : 0 < n →
    byte_val i (_sym_write_memory sh a n None true) k
    = if (a <=? k) && (k <? a + n) then None else byte_val i sh k;
  law_write i sh a n e w x k : 0 < n → 8 * n ≤ w → den i w e x →
    byte_val i (_sym_write_memory sh a n (Some e) true) k
    = if (a <=? k) && (k <? a + n) then Some (byte_of x (k - a)) else byte_val i sh k;
}.

Section Definitions.
Context {B : SymBackend} {SM : ShadowMemory B}.

(** Zero-extension from the loaded length to that of the result. *)
Definition extend_load (memory_expr : option SymExpr) (load_length result_length : Z)
    : option SymExpr :=
  match memory_expr with
  | None => None
  | Some e =>
      if load_length =? result_length then Some e
      else Some (_sym_build_zext e ((result_length - load_length) * 8))
  end.

Definition sym_load_host_internal (sh : Shadow) (m : Mem) (addr offset load_length result_length : Z)
    : option SymExpr :=
  let memory_expr := _sym_read_memory sh m (wrap 64 (addr + offset)) load_length true in
  extend_load memory_expr load_length result_length.

Definition helper_sym_load_host_i32 sh m addr offset length :=
  sym_load_host_internal sh m addr offset length 4.
Definition helper_sym_load_host_i64 sh m addr offset length :=
  sym_load_host_internal sh m addr offset length 8.
Definition helper_sym_load_host_vec sh m addr offset length :=
  sym_load_host_internal sh m addr offset length length.

Definition helper_sym_store_host (sh : Shadow) (value_expr : option SymExpr)
    (addr offset length : Z) : Shadow :=
  _sym_write_memory sh (wrap 64 (addr + offset)) length value_expr true.

(** Guest memory.  [tlb_vaddr_to_host] is the guest-to-host translation (the
    identity plus [guest_base] in user mode); [target_bits] is the width of
    [target_ulong], the type [addr] has in the load.  A symbolic address is
    pinned to its concrete value with a path constraint. *)
Section Guest.
Variable tlb_vaddr_to_host : Z → Z.

Definition pin_address (pc addr bits : Z) (addr_expr : option SymExpr) (t : Trace) : Trace :=
  match addr_expr with
  | None => t
  | Some e => t ++ [PathConstraint (_sym_build_equal e (_sym_build_integer addr bits)) 1 pc]
  end.

Definition sym_load_guest_internal (pc target_bits : Z) (sh : Shadow) (m : Mem)
    (addr : Z) (addr_expr : option SymExpr) (load_length result_length : Z) (t : Trace)
    : option SymExpr * Trace :=
  let t := pin_address pc addr target_bits addr_expr t in
  let host_addr := tlb_vaddr_to_host addr in
  let memory_expr := _sym_read_memory sh m host_addr load_length true in
  (extend_load memory_expr load_length result_length, t).

(** The arguments arrive as [uint64_t] and are converted to [target_ulong]. *)
Definition helper_sym_load_guest_i32 pc target_bits sh m addr addr_expr length t :=
  sym_load_guest_internal pc target_bits sh m (wrap target_bits addr) addr_expr length 4 t.
Definition helper_sym_load_guest_i64 pc target_bits sh m addr addr_expr length t :=
  sym_load_guest_internal pc target_bits sh m (wrap target_bits addr) addr_expr length 8 t.

(** In the store, [addr] is a [uint64_t]. *)
Definition sym_store_guest_internal (pc : Z) (sh : Shadow) (value_expr : option SymExpr)
    (addr : Z) (addr_expr : option SymExpr) (length : Z) (t : Trace) : Shadow * Trace :=
  let t := pin_address pc addr 64 addr_expr t in
  let host_addr := tlb_vaddr_to_host addr in
  (_sym_write_memory sh host_addr length value_expr true, t).

Definition helper_sym_store_guest_i32 pc sh value_expr addr addr_expr length t :=
  sym_store_guest_internal pc sh value_expr addr addr_expr length t.
Definition helper_sym_store_guest_i64 pc sh value_expr addr addr_expr length t :=
  sym_store_guest_internal pc sh value_expr addr addr_expr length t.
End Guest.
End Definitions.

(** ** Little-endian values *)

Lemma le_join_ext n f g a :
  (∀ k, a ≤ k < a + Z.of_nat n → f k = g k) → le_join n f a = le_join n g a.
Proof.
  revert a. induction n as [|n IH]; intros a H; cbn; [done|].
  rewrite (H a) by lia. rewrite (IH (a + 1)); [done|]. intros k Hk. apply H. lia.
Qed.

Lemma le_join_range n f a :
  (∀ k, in_range 8 (f k)) → in_range (8 * Z.of_nat n) (le_join n f a).
Proof.
  intros Hf. revert a. induction n as [|n IH]; intros a; cbn [le_join]; [done|].
  destruct (IH (a + 1)) as [? ?]. destruct (Hf a) as [? ?].
  replace (8 * Z.of_nat (S n)) with (8 + 8 * Z.of_nat n) by lia.
  unfold in_range. rewrite Z.pow_add_r by lia. nia.
Qed.

Lemma byte_of_range v k : in_range 8 (byte_of v k).
Proof. by apply wrap_range. Qed.

Lemma le_join_bytes n v b a :
  0 ≤ b → le_join n (λ k, byte_of v (b + (k - a))) a = wrap (8 * Z.of_nat n) (Z.shiftr v (8 * b)).
Proof.
  revert a b. induction n as [|n IH]; intros a b Hb; cbn [le_join].
  { symmetry. apply Z.mod_1_r. }
  rewrite (le_join_ext n _ (λ k, byte_of v ((b + 1) + (k - (a + 1)))));
    [|intros k _; f_equal; lia].
  rewrite IH by lia. unfold byte_of. rewrite Z.sub_diag, Z.add_0_r.
  rewrite <- (Z.mul_comm (wrap _ _)), <- Z.shiftl_mul_pow2, Z.add_comm by lia.
  assert (D : Z.land (Z.shiftl (wrap (8 * Z.of_nat n) (Z.shiftr v (8 * (b + 1)))) 8)
                     (wrap 8 (Z.shiftr v (8 * b))) = 0) by zbits.
  rewrite Z.add_nocarry_lxor, Z.lxor_lor by done. zbits.
Qed.

Lemma le_join_bytes0 n v a :
  le_join n (λ k, byte_of v (k - a)) a = wrap (8 * Z.of_nat n) v.
Proof.
  rewrite (le_join_ext n _ (λ k, byte_of v (0 + (k - a)))) by (intros; f_equal; lia).
  by rewrite le_join_bytes by lia.
Qed.

Definition bytes (m : Mem) : Prop := ∀ k, in_range 8 (m k).

Lemma le_join_app a b m p :
  le_join (a + b) m p = le_join a m p + 2 ^ (8 * Z.of_nat a) * le_join b m (p + Z.of_nat a).
Proof.
  revert p. induction a as [|a IH]; intros p; cbn [le_join Nat.add].
  - rewrite Z.add_0_r. change (2 ^ (8 * Z.of_nat 0)) with 1. lia.
  - rewrite IH. replace (8 * Z.of_nat (S a)) with (8 + 8 * Z.of_nat a) by lia. rewrite Z.pow_add_r by lia.
    replace (p + 1 + Z.of_nat a) with (p + Z.of_nat (S a)) by lia. ring.
Qed.

(** A piece of a word. *)
Lemma le_join_piece W o s m p :
  bytes m → (o + s ≤ W)%nat →
  wrap (8 * Z.of_nat s) (Z.shiftr (le_join W m p) (8 * Z.of_nat o)) = le_join s m (p + Z.of_nat o).
Proof.
  intros Hm HW. replace W with (o + (s + (W - o - s)))%nat by lia. rewrite !le_join_app.
  pose proof (le_join_range o m p Hm) as [? ?]. pose proof (le_join_range s m (p + Z.of_nat o) Hm) as [? ?].
  rewrite Z.shiftr_div_pow2, (Z.mul_comm (2 ^ (8 * Z.of_nat o))) by lia.
  rewrite Z.div_add, Z.div_small, Z.add_0_l by (try apply Z.pow_nonzero; lia).
  unfold wrap. rewrite (Z.mul_comm (2 ^ _)), Z.mod_add by (apply Z.pow_nonzero; lia). by apply Z.mod_small.
Qed.
(** Two words side by side. *)
Lemma le_join_pair a b m p :
  bytes m → Z.lor (le_join a m p) (Z.shiftl (le_join b m (p + Z.of_nat a)) (8 * Z.of_nat a)) = le_join (a + b) m p.
Proof.
  intros Hm. rewrite le_join_app. pose proof (le_join_range a m p Hm).
  pose proof (le_join_range b m (p + Z.of_nat a) Hm) as [? _].
  rewrite Z.shiftl_mul_pow2 by lia. rewrite (Z.mul_comm (2 ^ _)).
  symmetry. rewrite <- Z.lxor_lor; [apply Z.add_nocarry_lxor|]; rewrite <- Z.shiftl_mul_pow2 by lia; zbits.
Qed.

Lemma join_byte W m b i : bytes m → 0 ≤ i < Z.of_nat W → byte_of (le_join W m b) i = m (b + i).
Proof.
  intros Hm Hi. unfold byte_of. pose proof (le_join_piece W (Z.to_nat i) 1 m b Hm ltac:(lia)) as J.
  rewrite Z2Nat.id in J by lia. change (8 * Z.of_nat 1) with 8 in J. rewrite J. cbn. lia.
Qed.

(** ** Correctness *)

Section Correctness.
Context `{SL : ShadowLaws} {BL : BackendLaws B BS}.
Implicit Types (i : Input) (o : option SymExpr) (sh : Shadow) (m : Mem).

(** The value of a byte of memory under the inputs [i]. *)
Definition alt_byte i sh m (k : Z) : Z := default (m k) (byte_val i sh k).

Lemma alt_byte_range i sh m k : bytes m → in_range 8 (alt_byte i sh m k).
Proof.
  intros Hm. unfold alt_byte. destruct (byte_val i sh k) eqn:E; cbn; [|apply Hm].
  by eapply byte_val_range.
Qed.

Lemma read_correct i sh m a n :
  0 < n → bytes m → shadows i (8 * n) (le_join (Z.to_nat n) m a) (le_join (Z.to_nat n) (alt_byte i sh m) a)
            (_sym_read_memory sh m a n true).
Proof.
  intros Hn Hm. pose proof (law_read i sh m a n Hn Hm) as H.
  destruct (_sym_read_memory sh m a n true) as [e|]; cbn; [done|].
  apply le_join_ext. intros k Hk. unfold alt_byte. rewrite H by lia. done.
Qed.

(** A load of [n] bytes zero-extended to [r] bytes. *)
Lemma load_correct i sh m a n r :
  0 < n ≤ r → r ≤ 32 → bytes m →
  shadows i (8 * r) (le_join (Z.to_nat n) m a) (le_join (Z.to_nat n) (alt_byte i sh m) a)
    (extend_load (_sym_read_memory sh m a n true) n r).
Proof.
  intros Hn Hr Hm. pose proof (read_correct i sh m a n ltac:(lia) Hm) as H.
  destruct (_sym_read_memory sh m a n true) as [e|]; cbn in *; [|done].
  destruct (Z.eqb_spec n r) as [->|]; [done|]. eapply den_zext; [..|done]; lia.
Qed.

(** The loads of host and of guest memory, through [extend_load]. *)
Lemma load_host_correct i sh m addr ofs n r :
  0 < n ≤ r → r ≤ 32 → bytes m →
  let a := wrap 64 (addr + ofs) in
  shadows i (8 * r) (le_join (Z.to_nat n) m a) (le_join (Z.to_nat n) (alt_byte i sh m) a)
    (sym_load_host_internal sh m addr ofs n r).
Proof. intros Hn Hr Hm. by apply load_correct. Qed.
Lemma load_guest_correct i tlb pc bits sh m addr oa n r t :
  0 < n ≤ r → r ≤ 32 → bytes m →
  let a := tlb addr in
  shadows i (8 * r) (le_join (Z.to_nat n) m a) (le_join (Z.to_nat n) (alt_byte i sh m) a)
    (fst (sym_load_guest_internal tlb pc bits sh m addr oa n r t)).
Proof. intros Hn Hr Hm. by apply load_correct. Qed.

(** The constraint on a symbolic address says that the address is the concrete
    one. *)
Lemma pin_address_correct i pc addr bits oa xa t :
  0 < bits ≤ 64 → in_range bits addr → shadows i bits addr xa oa →
  (pin_address pc addr bits oa t = t ∧ xa = addr) ∨
  ∃ e, pin_address pc addr bits oa t = t ++ [PathConstraint e 1 pc] ∧ denb i e (xa =? addr).
Proof.
  intros Hb Ha. destruct oa as [e|]; cbn; [|auto]. intros D. right. eexists. split; [done|].
  apply (den_comparison i bits _ (λ _ x y, x =? y)); [apply law_equal|done|].
  eapply den_eq; [apply den_integer; [|done]|by apply wrap_small]. by apply (in_range_le bits); [lia|].
Qed.

(** The host store: concrete bytes and their expressions. *)
Definition store_bytes (m : Mem) (a n v : Z) : Mem :=
  λ k, if (a <=? k) && (k <? a + n) then byte_of v (k - a) else m k.

Lemma store_bytes_range m a n v : bytes m → bytes (store_bytes m a n v).
Proof.
  intros Hm k. unfold store_bytes. destruct (_ && _); [apply byte_of_range|apply Hm].
Qed.
Lemma store_bytes_ext m m' a n v k : m k = m' k → store_bytes m a n v k = store_bytes m' a n v k.
Proof. unfold store_bytes. by intros ->. Qed.
Lemma store_bytes_wrap m a n v w k : 0 < n → 8 * n ≤ w → store_bytes m a n (wrap w v) k = store_bytes m a n v k.
Proof.
  intros Hn Hw. unfold store_bytes. destruct ((a <=? k) && (k <? a + n)) eqn:E; [|done].
  unfold byte_of. zbits.
Qed.

Lemma store_correct i sh m a n w c x o :
  0 < n → 8 * n ≤ w → shadows i w c x o →
  ∀ k, alt_byte i (_sym_write_memory sh a n o true) (store_bytes m a n c) k
       = store_bytes (alt_byte i sh m) a n x k.
Proof.
  intros Hn Hw Hs k. unfold alt_byte, store_bytes.
  destruct o as [e|]; cbn in Hs; [rewrite (law_write _ _ _ _ _ w x)|rewrite law_write_null]; try done;
    destruct ((a <=? k) && (k <? a + n)) eqn:E; cbn; try done.
  by subst.
Qed.

Lemma load_store_bytes m a n v :
  0 ≤ n → le_join (Z.to_nat n) (store_bytes m a n v) a = wrap (8 * n) v.
Proof.
  intros Hn. rewrite (le_join_ext _ _ (λ k, byte_of v (k - a))).
  - rewrite le_join_bytes0. f_equal. lia.
  - intros k Hk. unfold store_bytes. by replace ((a <=? k) && (k <? a + n)) with true by lia.
Qed.
End Correctness.

(** ** A symbolic memory that satisfies the laws *)

Module DenotMem.
Import Denot.

(** The value of the byte expression at [k]. *)
Definition byte (i : nat → Z) (sh : Z → option expr) (k : Z) : option Z :=
  (λ e, wrap 8 (denote i e)) <$> sh k.

Definition read (sh : Z → option expr) (m : Mem) (a n : Z) (le : bool) : option expr :=
  if existsb (λ j, bool_decide (is_Some (sh (a + Z.of_nat j)))) (seq 0 (Z.to_nat n)) then
    Some (bv (8 * n) (λ i, le_join (Z.to_nat n) (λ k, default (m k) (byte i sh k)) a))
  else None.

Definition write (sh : Z → option expr) (a n : Z) (o : option expr) (le : bool)
    : Z → option expr :=
  λ k, if (a <=? k) && (k <? a + n)
       then (λ e, bv 8 (λ i, byte_of (denote i e) (k - a))) <$> o else sh k.

#[export] Instance shadow : ShadowMemory backend := {|
  Shadow := Z → option expr; _sym_read_memory := read; _sym_write_memory := write |}.

Lemma byte_range i sh k v : byte i sh k = Some v → in_range 8 v.
Proof. unfold byte. intros H. destruct (sh k); simplify_eq/=. by apply wrap_range. Qed.

Lemma read_none sh m a n :
  read sh m a n true = None → ∀ k, a ≤ k < a + n → sh k = None.
Proof.
  unfold read. destruct (existsb _ _) eqn:E; [done|]. intros _ k Hk.
  apply not_true_iff_false in E. rewrite existsb_exists in E.
  apply eq_None_not_Some. intros Hs. apply E. exists (Z.to_nat (k - a)). split.
  - apply in_seq. lia.
  - rewrite Z2Nat.id by lia. replace (a + (k - a)) with k by lia. by apply bool_decide_eq_true.
Qed.

#[export] Instance shadow_laws : ShadowLaws backend sem shadow.
Proof.
  refine {| byte_val := (byte : Input → Shadow → Z → option Z) |}.
  - apply byte_range.
  - intros i sh m a n Hn Hm. cbn. destruct (read sh m a n true) as [e|] eqn:E.
    + unfold read in E. destruct (existsb _ _); [|done]. injection E as <-.
      split; [lia|]. split; [done|]. cbn. apply wrap_small.
      rewrite <- (Z2Nat.id n) at 1 by lia. apply le_join_range. intros k.
      destruct (byte i sh k) eqn:Eb; cbn; [by eapply byte_range|apply Hm].
    + intros k Hk. unfold byte. by rewrite (read_none _ _ _ _ E).
  - intros i sh a n k Hn. cbn. unfold byte, write. by destruct (_ && _).
  - intros i sh a n e w x k Hn Hw (_ & _ & <-). cbn. unfold byte, write.
    destruct (_ && _); [|done]. cbn. f_equal. unfold denote at 1. cbn.
    rewrite wrap_wrap by lia. apply wrap_small, byte_of_range.
Defined.
End DenotMem.
