(* ===== verification/SymVec.v ===== *)
(** The symbolic helpers for vector operations
    ([accel/tcg/tcg-runtime-sym-vec.c]).

    A vector operand is the expression of the whole vector, or NULL together
    with a buffer that holds its concrete value.  A helper splits the
    expressions into elements, applies the scalar builder to each pair, and
    joins the results.  The static arrays of the C functions are scratch space
    for the elements, filled on every call before they are read; here the
    elements are lists. *)
From S2P Require Import Prelude Lanes Cond Bitops Backend VecOps SymHelpers SymMemory.

(** The operations with a helper of their own ([HELPER(sym_<op>_vec)]). *)
Inductive SymVecOp : Set :=
| SYM_VEC_and | SYM_VEC_or | SYM_VEC_xor | SYM_VEC_add | SYM_VEC_sub | SYM_VEC_mul
| SYM_VEC_signed_saturating_add | SYM_VEC_signed_saturating_sub
| SYM_VEC_unsigned_saturating_add | SYM_VEC_unsigned_saturating_sub
| SYM_VEC_shift_left | SYM_VEC_logical_shift_right | SYM_VEC_arithmetic_shift_right
| SYM_VEC_rotate_left | SYM_VEC_rotate_right.
#[export] Instance sym_vec_op_eq : EqDecision SymVecOp.
Proof. solve_decision. Defined.

(** The elements chosen by the outcomes of a condition. *)
Fixpoint choose {A} (concrete_condition_was_true : list bool) (args1 args2 : list A) : list A :=
  match concrete_condition_was_true, args1, args2 with
  | c :: cs, a :: args1, b :: args2 => (if c : bool then a else b) :: choose cs args1 args2
  | _, _, _ => []
  end.

Section Definitions.
Context {B : SymBackend} {SM : ShadowMemory B}.

(** The scalar builder of an operation. *)
Definition vec_builder (op : SymVecOp) : SymExpr → SymExpr → SymExpr :=
  match op with
  | SYM_VEC_and => _sym_build_and
  | SYM_VEC_or => _sym_build_or
  | SYM_VEC_xor => _sym_build_xor
  | SYM_VEC_add => _sym_build_add
  | SYM_VEC_sub => _sym_build_sub
  | SYM_VEC_mul => _sym_build_mul
  | SYM_VEC_signed_saturating_add => _sym_build_sadd_sat
  | SYM_VEC_signed_saturating_sub => _sym_build_ssub_sat
  | SYM_VEC_unsigned_saturating_add => _sym_build_uadd_sat
  | SYM_VEC_unsigned_saturating_sub => _sym_build_usub_sat
  | SYM_VEC_shift_left => _sym_build_shift_left
  | SYM_VEC_logical_shift_right => _sym_build_logical_shift_right
  | SYM_VEC_arithmetic_shift_right => _sym_build_arithmetic_shift_right
  | SYM_VEC_rotate_left => sym_rotate_left
  | SYM_VEC_rotate_right => sym_rotate_right
  end.

Definition vece_element_size (vece : Z) : Z := Z.shiftl 8 vece.
Definition is_vector_size (n : Z) : bool := (n =? 64) || (n =? 128) || (n =? 256).

(** The numbers below a bound, the index of a loop. *)
Definition below (n : Z) : list Z := map Z.of_nat (seq 0 (Z.to_nat n)).

Definition split_expression (expression : SymExpr) (element_count element_size : Z) : Res (list SymExpr) :=
  assert_ (_sym_bits_helper expression mod element_count =? 0);;
  Ok (map (λ k, _sym_extract_helper expression ((k + 1) * element_size - 1) (k * element_size)) (below element_count)).

(** The loop of [apply_op_and_merge], from the elements [args1] and [args2] on;
    [first] is [args1[0]]. *)
Fixpoint merge_rest (symbolic_operation : SymExpr → SymExpr → SymExpr) (first : SymExpr)
    (args1 args2 : list SymExpr) (merged_result : SymExpr) : Res SymExpr :=
  match args1, args2 with
  | a :: args1, b :: args2 =>
      assert_ (_sym_bits_helper first =? _sym_bits_helper a);;
      merge_rest symbolic_operation first args1 args2 (_sym_concat_helper (symbolic_operation a b) merged_result)
  | _, _ => Ok merged_result
  end.
Definition apply_op_and_merge (symbolic_operation : SymExpr → SymExpr → SymExpr) (args1 args2 : list SymExpr) : Res SymExpr :=
  match args1, args2 with
  | a :: args1, b :: args2 => merge_rest symbolic_operation a args1 args2 (symbolic_operation a b)
  | _, _ => Abort
  end.

(** A buffer is its bytes, from the first one on. *)
Definition integer_from_buffer (buffer : Mem) (vector_size : Z) : SymExpr :=
  _sym_build_integer_from_buffer (le_join (Z.to_nat (vector_size / 8)) buffer 0) vector_size.

(** What the functions on two vectors have in common: the assertions on the sizes,
    the missing expression, and the elements. *)
Definition with_elements {A} (null : A) (arg1_concrete : Mem) (arg1_symbolic : option SymExpr)
    (arg2_concrete : Mem) (arg2_symbolic : option SymExpr) (vector_size vece : Z)
    (body : Z → list SymExpr → list SymExpr → Res A) : Res A :=
  let element_size := vece_element_size vece in
  assert_ (vector_size mod element_size =? 0);;
  let element_count := vector_size / element_size in
  assert_ (is_vector_size vector_size);;
  assert_ (element_size <=? vector_size);;
  match arg1_symbolic, arg2_symbolic with
  | None, None => Ok null
  | _, _ =>
      let e1 := default (integer_from_buffer arg1_concrete vector_size) arg1_symbolic in
      let e2 := default (integer_from_buffer arg2_concrete vector_size) arg2_symbolic in
      assert_ ((_sym_bits_helper e1 =? _sym_bits_helper e2) && (_sym_bits_helper e1 =? vector_size));;
      arg1_elts ← split_expression e1 element_count element_size;
      arg2_elts ← split_expression e2 element_count element_size;
      body element_count arg1_elts arg2_elts
  end.

Definition build_expression_for_vector_vector_op (arg1_concrete : Mem) (arg1_symbolic : option SymExpr)
    (arg2_concrete : Mem) (arg2_symbolic : option SymExpr) (vector_size vece : Z)
    (symbolic_operation : SymExpr → SymExpr → SymExpr) : Res (option SymExpr) :=
  with_elements None arg1_concrete arg1_symbolic arg2_concrete arg2_symbolic vector_size vece (λ _ arg1_elts arg2_elts,
    result ← apply_op_and_merge symbolic_operation arg1_elts arg2_elts;
    assert_ (_sym_bits_helper result =? vector_size);;
    Ok (Some result)).

(** The difference of the sizes is computed in [uint64_t]. *)
Definition build_expression_for_vector_int32_op (arg1_concrete : Mem) (arg1_symbolic : option SymExpr)
    (arg2_concrete : Z) (arg2_symbolic : option SymExpr) (vector_size vece : Z)
    (symbolic_operation : SymExpr → SymExpr → SymExpr) : Res (option SymExpr) :=
  let element_size := vece_element_size vece in
  assert_ (vector_size mod element_size =? 0);;
  let element_count := vector_size / element_size in
  assert_ (is_vector_size vector_size);;
  assert_ (element_size <=? vector_size);;
  match arg1_symbolic, arg2_symbolic with
  | None, None => Ok None
  | _, _ =>
      let e1 := default (integer_from_buffer arg1_concrete vector_size) arg1_symbolic in
      let e2 := default (_sym_build_integer arg2_concrete 32) arg2_symbolic in
      assert_ (_sym_bits_helper e1 =? vector_size);;
      assert_ (_sym_bits_helper e2 =? 32);;
      let e2 := if negb (element_size =? 32) then _sym_build_zext e2 (wrap 64 (element_size - 32)) else e2 in
      arg1_elts ← split_expression e1 element_count element_size;
      let arg2_elts := map (λ _, e2) (below element_count) in
      result ← apply_op_and_merge symbolic_operation arg1_elts arg2_elts;
      assert_ (_sym_bits_helper result =? vector_size);;
      Ok (Some result)
  end.

Definition helper_sym_vec (op : SymVecOp) arg1 arg1_expr arg2 arg2_expr size vece :=
  build_expression_for_vector_vector_op arg1 arg1_expr arg2 arg2_expr size vece (vec_builder op).
(** [HELPER(sym_<op>_vec_int32)], for the shifts and rotations. *)
Definition helper_sym_vec_int32 (op : SymVecOp) arg1 arg1_expr (arg2 : Z) arg2_expr size vece :=
  build_expression_for_vector_int32_op arg1 arg1_expr arg2 arg2_expr size vece (vec_builder op).

Fixpoint repeat_concat (n : nat) (e result : SymExpr) : SymExpr :=
  match n with O => result | S n => repeat_concat n e (_sym_concat_helper e result) end.

Definition helper_sym_duplicate_value_into_vec (value_expression : option SymExpr) (vector_size vece : Z) : Res (option SymExpr) :=
  assert_ (is_vector_size vector_size);;
  let element_size := vece_element_size vece in
  assert_ (element_size <=? vector_size);;
  assert_ (vector_size mod element_size =? 0);;
  match value_expression with
  | None => Ok None
  | Some e =>
      let bits := _sym_bits_helper e in
      assert_ ((bits =? 32) || (bits =? 64));;
      let resized_value_expr :=
        if bits =? element_size then e
        else if bits <? element_size then _sym_build_zext e element_size
        else _sym_extract_helper e (element_size - 1) 0 in
      let element_count := vector_size / element_size in
      let result_expression := repeat_concat (Z.to_nat (element_count - 1)) resized_value_expr resized_value_expr in
      assert_ (_sym_bits_helper result_expression =? vector_size);;
      Ok (Some result_expression)
  end.

Definition helper_sym_load_and_duplicate_into_vec (sh : Shadow) (m : Mem) (load_address address_offset vector_size vece : Z)
    : Res (option SymExpr) :=
  assert_ (is_vector_size vector_size);;
  let element_size := vece_element_size vece in
  assert_ (element_size <=? vector_size);;
  assert_ (vector_size mod element_size =? 0);;
  let value_expr := helper_sym_load_host_vec sh m load_address address_offset (element_size / 8) in
  assert_ (match value_expr with None => true | Some e => _sym_bits_helper e =? element_size end);;
  helper_sym_duplicate_value_into_vec value_expr vector_size vece.

(** The offset of an element in its buffer. *)
Definition element_address (element_index element_size vector_size : Z) : Res Z :=
  let result := element_index * element_size / 8 in
  assert_ (result + element_size <=? vector_size);;
  Ok result.

(** A loop that pushes a constraint for each pair of elements; [taken] is its
    outcome in the run. *)
Fixpoint push_all (pc : Z) (comparison_operator : TCGCond) (args1 args2 : list SymExpr) (taken : list Z) (t : Trace)
    : Res Trace :=
  match args1, args2, taken with
  | a :: args1, b :: args2, k :: taken =>
      '(_, t) ← build_and_push_path_constraint pc a b comparison_operator k t;
      push_all pc comparison_operator args1 args2 taken t
  | _, _, _ => Ok t
  end.

(** The first byte of an element of the result of a comparison. *)
Definition first_byte (result_concrete : Mem) (element_size vector_size k : Z) : Res Z :=
  p ← element_address k element_size vector_size; Ok (result_concrete p).

Definition helper_sym_cmp_vec (pc : Z) arg1_concrete arg1_symbolic arg2_concrete arg2_symbolic
    (comparison_operator : TCGCond) (result_concrete : Mem) (vector_size vece : Z) (t : Trace) : Res (option SymExpr * Trace) :=
  with_elements (None, t) arg1_concrete arg1_symbolic arg2_concrete arg2_symbolic vector_size vece
    (λ element_count arg1_elts arg2_elts,
      taken ← mapR (first_byte result_concrete (vece_element_size vece) vector_size) (below element_count);
      t ← push_all pc comparison_operator arg1_elts arg2_elts taken t;
      Ok (None, t)).

(** [memcmp(p, q, n) == 0] for the same offset of two buffers. *)
Definition same_element (b1 b2 : Mem) (element_size vector_size k : Z) : Res bool :=
  p ← element_address k element_size vector_size;
  q ← element_address k element_size vector_size;
  Ok (forallb (λ j, b1 (p + j) =? b2 (q + j)) (below (element_size / 8))).

Fixpoint concat_rest (l : list SymExpr) (result_expression : SymExpr) : SymExpr :=
  match l with [] => result_expression | e :: l => concat_rest l (_sym_concat_helper e result_expression) end.

Definition helper_sym_ternary_vec (pc : Z) arg1_concrete arg1_symbolic arg2_concrete arg2_symbolic
    (comparison_operator : TCGCond) (concrete_result : Mem) (vector_size vece : Z) (t : Trace) : Res (option SymExpr * Trace) :=
  with_elements (None, t) arg1_concrete arg1_symbolic arg2_concrete arg2_symbolic vector_size vece
    (λ element_count arg1_elts arg2_elts,
      concrete_condition_was_true ←
        mapR (same_element concrete_result arg1_concrete (vece_element_size vece) vector_size) (below element_count);
      t ← push_all pc comparison_operator arg1_elts arg2_elts (map Z.b2z concrete_condition_was_true) t;
      match choose concrete_condition_was_true arg1_elts arg2_elts with
      | [] => Abort
      | e :: l =>
          let result_expression := concat_rest l e in
          assert_ (_sym_bits_helper result_expression =? vector_size);;
          Ok (Some result_expression, t)
      end).
End Definitions.

(** ** Shapes of vectors *)

Definition lane_count (size vece : Z) : nat := Z.to_nat (size / vece_element_size vece).

(** Vectors of 64, 128 or 256 bits with elements of 8 to 64 bits. *)
Definition vec_shape (size vece : Z) : Prop := is_vector_size size = true ∧ 0 ≤ vece ≤ 3.

Lemma vec_shape_facts size vece :
  vec_shape size vece →
  let w := vece_element_size vece in let n := lane_count size vece in
  is_width w ∧ (0 < n)%nat ∧ size = Z.of_nat n * w ∧ size / w = Z.of_nat n ∧ size mod w = 0 ∧ w ≤ size ∧
  size = 8 * (size / 8) ∧ size ≤ 256.
Proof.
  intros [Hs Hv] w n. assert (size = 64 ∨ size = 128 ∨ size = 256) by (unfold is_vector_size in Hs; lia).
  assert (vece = 0 ∨ vece = 1 ∨ vece = 2 ∨ vece = 3) by lia. clear Hs Hv. unfold is_width.
  subst w n. destruct_or!; subst; repeat split; vm_compute; first [done | lia].
Qed.

Section Correctness.
Context `{SL : ShadowLaws} {BL : BackendLaws B BS}.
Implicit Types (i : Input) (o : option SymExpr) (l : list SymExpr).

Lemma split_correct i size vece e x :
  vec_shape size vece → den i size e x →
  let w := vece_element_size vece in let n := lane_count size vece in
  ∃ l, split_expression e (Z.of_nat n) w = Ok l ∧ Forall2 (den i w) l (lanes n w x).
Proof.
  intros Hv D w n. destruct (vec_shape_facts _ _ Hv) as (Hw & Hn & Hs & _). fold w n in Hw, Hn, Hs.
  pose proof (width_pos w Hw). eexists. split.
  - unfold split_expression. rewrite (den_bits _ _ _ _ D), Hs, Z.mul_comm, Z_mod_mult. reflexivity.
  - rewrite lanes_seq by lia. unfold below. rewrite Nat2Z.id, map_map. apply Forall2_fmap, Forall_Forall2_diag, Forall_seq.
    intros k Hk. eapply den_extract; [| | |done]; nia.
Qed.

(** Concatenating the expressions of elements, from the lowest on. *)
Lemma concat_rest_correct i w l xs acc merged :
  0 < w → Forall2 (den i w) l xs → den i (Z.of_nat (length acc) * w) merged (join w acc) →
  den i (Z.of_nat (length acc + length xs) * w) (concat_rest l merged) (join w (acc ++ xs)).
Proof.
  intros Hw H. revert acc merged. induction H as [|e x l xs He H IH]; intros acc merged D; cbn [concat_rest length].
  - by rewrite Nat.add_0_r, app_nil_r.
  - replace (acc ++ x :: xs) with ((acc ++ [x]) ++ xs) by (by rewrite <- app_assoc).
    replace (length acc + S (length xs))%nat with (length (acc ++ [x]) + length xs)%nat by (rewrite length_app; cbn; lia).
    apply IH. rewrite length_app, join_snoc by lia. cbn [length]. eapply den_concat; [|exact He|exact D]. lia.
Qed.
Lemma concat_correct i w e l x xs :
  0 < w → Forall2 (den i w) (e :: l) (x :: xs) →
  den i (Z.of_nat (length (x :: xs)) * w) (concat_rest l e) (join w (x :: xs)).
Proof.
  intros Hw H. inversion H as [|? ? ? ? He Hl]; subst. apply (concat_rest_correct i w l xs [x] e Hw Hl).
  cbn [join length]. rewrite Z.shiftl_0_l, Z.lor_0_r. by replace (Z.of_nat 1 * w) with w by lia.
Qed.

Lemma merge_rest_concat op first l1 l2 merged :
  Forall (λ a, _sym_bits_helper a = _sym_bits_helper first) l1 →
  merge_rest op first l1 l2 merged = Ok (concat_rest (zip_with op l1 l2) merged).
Proof.
  intros H. revert l2 merged. induction H as [|a l1 Ha H IH]; intros [|b l2] merged; cbn; try done.
  rewrite Ha, assert_true by apply Z.eqb_refl. apply IH.
Qed.
Lemma repeat_concat_rest n e r : repeat_concat n e r = concat_rest (replicate n e) r.
Proof. revert r. induction n; intros r; cbn; auto. Qed.

Lemma merge_correct i w op f (ok : Z → Z → Prop) l1 l2 xs ys :
  (∀ a b x y, ok x y → den i w a x → den i w b y → den i w (op a b) (f x y)) →
  0 < w → xs ≠ [] → Forall2 ok xs ys → Forall2 (den i w) l1 xs → Forall2 (den i w) l2 ys →
  ∃ r, apply_op_and_merge op l1 l2 = Ok r ∧ den i (Z.of_nat (length xs) * w) r (join w (zip_with f xs ys)).
Proof.
  intros Hop Hw Hne Hok H1 H2.
  assert (Hz : ∀ l1 l2 xs ys, Forall2 ok xs ys → Forall2 (den i w) l1 xs → Forall2 (den i w) l2 ys →
    Forall2 (den i w) (zip_with op l1 l2) (zip_with f xs ys)).
  { clear -Hop. intros l1 l2 xs ys Hok H1. revert l2 ys Hok. induction H1; intros l2 ys Hok H2; [by constructor|].
    inversion Hok; subst. inversion H2; subst. cbn. constructor; eauto. }
  specialize (Hz _ _ _ _ Hok H1 H2). destruct H1 as [|a x l1 xs Ha H1]; [done|].
  inversion Hok as [|? y ? ys' Hxy Hok']; subst. inversion H2 as [|b ? l2' ? Hb H2']; subst.
  cbn [apply_op_and_merge]. rewrite merge_rest_concat.
  - eexists. split; [done|]. apply (concat_correct i w _ _ (f x y) (zip_with f xs ys') Hw) in Hz. cbn [length] in *.
    pose proof (Forall2_length Hok') as El. rewrite length_zip_with, <- El, Nat.min_id in Hz. exact Hz.
  - rewrite (den_bits _ _ _ _ Ha). clear -H1. induction H1; constructor; [by eapply den_bits|done].
Qed.

(** ** Operations on two vectors *)

(** The value of an operation on elements of [w] bits, and the operands for which
    it is defined. *)
Definition vec_meaning (op : SymVecOp) (w x y : Z) : Z :=
  match op with
  | SYM_VEC_and => bv_and w x y
  | SYM_VEC_or => bv_or w x y
  | SYM_VEC_xor => bv_xor w x y
  | SYM_VEC_add => bv_add w x y
  | SYM_VEC_sub => bv_sub w x y
  | SYM_VEC_mul => bv_mul w x y
  | SYM_VEC_signed_saturating_add => bv_sadd_sat w x y
  | SYM_VEC_signed_saturating_sub => bv_ssub_sat w x y
  | SYM_VEC_unsigned_saturating_add => bv_uadd_sat w x y
  | SYM_VEC_unsigned_saturating_sub => bv_usub_sat w x y
  | SYM_VEC_shift_left => bv_shl w x y
  | SYM_VEC_logical_shift_right => bv_lshr w x y
  | SYM_VEC_arithmetic_shift_right => bv_ashr w x y
  | SYM_VEC_rotate_left => rol w x y
  | SYM_VEC_rotate_right => ror w x y
  end.
Definition vec_rotates (op : SymVecOp) : bool :=
  match op with SYM_VEC_rotate_left | SYM_VEC_rotate_right => true | _ => false end.
Definition vec_domain (op : SymVecOp) (w x y : Z) : Prop := vec_rotates op = true → y < w.

Lemma vec_builder_den op i w a b x y :
  is_width w → vec_domain op w x y → den i w a x → den i w b y → den i w (vec_builder op a b) (vec_meaning op w x y).
Proof.
  intros Hw Hd Da Db.
  destruct op; cbn [vec_builder vec_meaning];
    try (eapply (den_binary _ _ always); [|done|done|done];
         first [apply law_and|apply law_or|apply law_xor|apply law_add|apply law_sub|apply law_mul
           |apply law_sadd_sat|apply law_ssub_sat|apply law_uadd_sat|apply law_usub_sat
           |apply law_shift_left|apply law_logical_shift_right|apply law_arithmetic_shift_right]);
    by apply rotate_den; auto.
Qed.

(** A buffer that holds the vector [c]. *)
Definition buffer_holds (b : Mem) (size c : Z) : Prop :=
  bytes b ∧ le_join (Z.to_nat (size / 8)) b 0 = c.

Lemma buffer_range b size vece c : vec_shape size vece → buffer_holds b size c → in_range size c.
Proof.
  intros Hv [Hb <-]. destruct (vec_shape_facts _ _ Hv) as (_ & _ & _ & _ & _ & _ & Hs & _).
  destruct Hv as [Hvs _]. unfold is_vector_size in Hvs.
  rewrite Hs at 1. rewrite <- (Z2Nat.id (size / 8)) at 1 by lia. by apply le_join_range.
Qed.

Lemma ensure_vector i size vece b c x o :
  vec_shape size vece → buffer_holds b size c → shadows i size c x o →
  den i size (default (integer_from_buffer b size) o) x.
Proof.
  intros Hv Hb Hs. pose proof (buffer_range _ _ _ _ Hv Hb) as Hr. destruct o as [e|]; cbn in *; [done|]. subst x.
  unfold integer_from_buffer. destruct Hb as [_ ->]. apply den_buffer; [|done].
  destruct Hv as [Hvs _]. unfold is_vector_size in Hvs. lia.
Qed.

(** The common part: either both vectors are concrete, or the body gets the
    expressions of their elements. *)
Lemma with_elements_correct {A} (null : A) i size vece b1 c1 x1 o1 b2 c2 x2 o2 body (P : A → Prop) :
  let w := vece_element_size vece in let n := lane_count size vece in
  vec_shape size vece → buffer_holds b1 size c1 → buffer_holds b2 size c2 →
  shadows i size c1 x1 o1 → shadows i size c2 x2 o2 →
  (o1 = None → o2 = None → x1 = c1 → x2 = c2 → P null) →
  (∀ l1 l2, ¬ (o1 = None ∧ o2 = None) →
     Forall2 (den i w) l1 (lanes n w x1) → Forall2 (den i w) l2 (lanes n w x2) →
     ∃ r, body (Z.of_nat n) l1 l2 = Ok r ∧ P r) →
  ∃ r, with_elements null b1 o1 b2 o2 size vece body = Ok r ∧ P r.
Proof.
  intros w n Hv Hb1 Hb2 S1 S2 Hnull Hbody.
  pose proof (ensure_vector _ _ _ _ _ _ _ Hv Hb1 S1) as D1. pose proof (ensure_vector _ _ _ _ _ _ _ Hv Hb2 S2) as D2.
  destruct (vec_shape_facts _ _ Hv) as (_ & _ & _ & Hd & Hm & Hle & _). fold w n in Hd, Hm, Hle.
  destruct (split_correct _ _ _ _ _ Hv D1) as (l1 & E1 & F1). destruct (split_correct _ _ _ _ _ Hv D2) as (l2 & E2 & F2).
  fold w n in E1, F1, E2, F2.
  unfold with_elements. fold w. rewrite !assert_true by (apply Hv || lia). rewrite Hd.
  destruct (decide (o1 = None ∧ o2 = None)) as [[-> ->]|Hne]; [exists null; split; [done|by apply Hnull]|].
  destruct (Hbody l1 l2 Hne F1 F2) as (r & Hr & HP).
  assert (E : (assert_ ((_sym_bits_helper (default (integer_from_buffer b1 size) o1)
      =? _sym_bits_helper (default (integer_from_buffer b2 size) o2)) &&
      (_sym_bits_helper (default (integer_from_buffer b1 size) o1) =? size));;
    arg1_elts ← split_expression (default (integer_from_buffer b1 size) o1) (Z.of_nat n) w;
    arg2_elts ← split_expression (default (integer_from_buffer b2 size) o2) (Z.of_nat n) w;
    body (Z.of_nat n) arg1_elts arg2_elts) = Ok r).
  { rewrite (den_bits _ _ _ _ D1), (den_bits _ _ _ _ D2), assert_true by lia. rewrite E1. cbn. by rewrite E2. }
  destruct o1, o2; [by exists r..|]. by destruct Hne.
Qed.

Lemma lanes_nonempty size vece x : vec_shape size vece → lanes (lane_count size vece) (vece_element_size vece) x ≠ [].
Proof.
  intros Hv. destruct (vec_shape_facts _ _ Hv) as (_ & Hn & _). destruct (lane_count size vece); [lia|done].
Qed.

Lemma lanes_forall2 (P : Z → Z → Prop) n w x y :
  (∀ k : nat, (k < n)%nat → P (wrap w (Z.shiftr x (Z.of_nat k * w))) (wrap w (Z.shiftr y (Z.of_nat k * w)))) →
  0 ≤ w → Forall2 P (lanes n w x) (lanes n w y).
Proof.
  intros H Hw. rewrite !lanes_seq by done. apply Forall2_fmap, Forall_Forall2_diag, Forall_seq. intros k Hk. apply H. lia.
Qed.

(** An operation on two vectors is the operation on their elements. *)
Lemma vec_vec_correct op i size vece b1 c1 x1 o1 b2 c2 x2 o2 :
  let w := vece_element_size vece in let n := lane_count size vece in
  vec_shape size vece → buffer_holds b1 size c1 → buffer_holds b2 size c2 →
  shadows i size c1 x1 o1 → shadows i size c2 x2 o2 →
  Forall2 (vec_domain op w) (lanes n w x1) (lanes n w x2) →
  computes (helper_sym_vec op b1 o1 b2 o2 size vece) i size
    (vmap2 n w (vec_meaning op w) c1 c2) (vmap2 n w (vec_meaning op w) x1 x2).
Proof.
  intros w n Hv Hb1 Hb2 S1 S2 Hok. destruct (vec_shape_facts _ _ Hv) as (Hw & Hn & Hs & _). fold w n in Hw, Hn, Hs.
  unfold computes, helper_sym_vec, build_expression_for_vector_vector_op.
  eapply with_elements_correct; try done.
  - by intros _ _ -> ->.
  - fold w n. intros l1 l2 _ F1 F2.
    destruct (merge_correct i w (vec_builder op) (vec_meaning op w) (vec_domain op w)) with (5 := F1) (6 := F2)
      as (r & Hr & D); [|by apply width_pos|by apply lanes_nonempty|done|].
    { intros a b x y Hxy Da Db. by apply vec_builder_den. }
    rewrite lanes_length, <- Hs in D. rewrite Hr. cbn [mbind res_bind].
    rewrite (den_bits _ _ _ _ D), assert_true by lia. eexists. split; [done|]. exact D.
Qed.

(** An operation on a vector and a number of 32 bits, for elements that are at
    least as wide. *)
Lemma zip_with_const {A C D} (f : A → C → D) (l : list A) c : zip_with f l (replicate (length l) c) = map (λ a, f a c) l.
Proof. induction l; cbn; congruence. Qed.

Lemma vec_int32_correct op i size vece b1 c1 x1 o1 c2 x2 o2 :
  let w := vece_element_size vece in let n := lane_count size vece in
  vec_shape size vece → 2 ≤ vece → buffer_holds b1 size c1 → in_range 32 c2 →
  shadows i size c1 x1 o1 → shadows i 32 c2 x2 o2 → vec_domain op w 0 x2 →
  computes (helper_sym_vec_int32 op b1 o1 c2 o2 size vece) i size
    (vmap n w (λ x, vec_meaning op w x c2) c1) (vmap n w (λ x, vec_meaning op w x x2) x1).
Proof.
  intros w n Hv Hve Hb1 Hc2 S1 S2 Hok.
  pose proof (ensure_vector _ _ _ _ _ _ _ Hv Hb1 S1) as D1.
  pose proof (shadows_ensure i 32 c2 x2 o2 ltac:(lia) Hc2 S2) as D2.
  destruct (vec_shape_facts _ _ Hv) as (Hw & Hn & Hs & Hd & Hm & Hle & _). fold w n in Hw, Hn, Hs, Hd, Hm, Hle.
  assert (Hw32 : w = 32 ∨ w = 64).
  { destruct Hv as [_ Hv]. assert (vece = 2 ∨ vece = 3) as [-> | ->] by lia; [by left|by right]. }
  set (e1 := default (integer_from_buffer b1 size) o1) in *. set (e2 := default (_sym_build_integer c2 32) o2) in *.
  set (e2' := if negb (w =? 32) then _sym_build_zext e2 (wrap 64 (w - 32)) else e2).
  assert (D2' : den i w e2' x2).
  { subst e2'. destruct Hw32 as [E|E]; rewrite E; cbn; [done|]. eapply den_zext; [..|exact D2]; done. }
  destruct (split_correct _ _ _ _ _ Hv D1) as (l1 & E1 & F1). fold w n in E1, F1.
  destruct (merge_correct i w (vec_builder op) (vec_meaning op w) (λ x y, y = x2)) with (5 := F1)
    (l2 := map (λ _, e2') (below (Z.of_nat n))) (ys := replicate n x2) as (r & Hr & D).
  { intros a b x y -> Da Db. by apply vec_builder_den. }
  { by apply width_pos. }
  { by apply lanes_nonempty. }
  { rewrite <- (lanes_length n w x1) at 2. clear. induction (lanes n w x1); cbn; by constructor. }
  { unfold below. rewrite Nat2Z.id, map_map. rewrite <- (length_seq n 0) at 2.
    induction (seq 0 n); cbn; by constructor. }
  rewrite <- (lanes_length n w x1) in D at 3. rewrite zip_with_const, lanes_length, <- Hs in D.
  unfold computes, helper_sym_vec_int32, build_expression_for_vector_int32_op. fold w. rewrite Hd.
  rewrite !assert_true by (apply Hv || lia). fold e1 e2.
  assert (E : (assert_ (_sym_bits_helper e1 =? size);; assert_ (_sym_bits_helper e2 =? 32);;
    arg1_elts ← split_expression e1 (Z.of_nat n) w;
    result ← apply_op_and_merge (vec_builder op) arg1_elts (map (λ _, e2') (below (Z.of_nat n)));
    assert_ (_sym_bits_helper result =? size);; Ok (Some result)) = Ok (Some r)).
  { rewrite (den_bits _ _ _ _ D1), (den_bits _ _ _ _ D2), !assert_true by lia. rewrite E1. cbn [mbind res_bind].
    rewrite Hr. cbn [mbind res_bind]. by rewrite (den_bits _ _ _ _ D), assert_true by lia. }
  destruct o1, o2; [by exists (Some r)..|]. exists None. split; [done|]. cbn in S1, S2 |- *. by rewrite S1, S2.
Qed.

(** Duplicating a value that is at least as wide as an element. *)
Lemma vdup_den i w n e x :
  0 < w → (0 < n)%nat → den i w e (wrap w x) →
  den i (Z.of_nat n * w) (repeat_concat (Z.to_nat (Z.of_nat n - 1)) e e) (vdup n w x).
Proof.
  intros Hw Hn D. rewrite repeat_concat_rest. unfold vdup. destruct n as [|n]; [lia|]. replace (Z.to_nat _) with n by lia.
  pose proof (concat_correct i w e (replicate n e) (wrap w x) (replicate n (wrap w x)) Hw) as Hc.
  cbn [length] in Hc. rewrite length_replicate in Hc. apply Hc. constructor; [done|]. clear -D. induction n; cbn; by constructor.
Qed.
Lemma duplicate_correct i size vece v c x o :
  let w := vece_element_size vece in let n := lane_count size vece in
  vec_shape size vece → reg_width v → w ≤ v → shadows i v c x o →
  computes (helper_sym_duplicate_value_into_vec o size vece) i size (vdup n w c) (vdup n w x).
Proof.
  intros w n Hv Hr Hle Hs. destruct (vec_shape_facts _ _ Hv) as (Hw & Hn & Hsz & Hd & Hm & Hl & _).
  fold w n in Hw, Hn, Hsz, Hd, Hm, Hl. pose proof (width_pos w Hw).
  unfold helper_sym_duplicate_value_into_vec. fold w. rewrite !assert_true by (apply Hv || lia). rewrite Hd.
  destruct o as [e|]; cbn in Hs; [|rewrite Hs; by exists None]. pose proof (den_bits _ _ _ _ Hs) as Hb. rewrite Hb.
  rewrite assert_true by (destruct Hr; lia).
  set (e' := if v =? w then e else if v <? w then _ else _).
  assert (D : den i w e' (wrap w x)).
  { subst e'. destruct (Z.eqb_spec v w) as [<-|].
    - rewrite wrap_small; [done|]. by eapply den_range.
    - replace (v <? w) with false by lia. eapply den_eq; [eapply den_extract; [..|exact Hs]; lia|]. by rewrite Z.shiftr_0_r. }
  pose proof (vdup_den i w n e' x ltac:(lia) Hn D) as Dn. rewrite <- Hsz in Dn.
  rewrite (den_bits _ _ _ _ Dn), assert_true by lia. by eapply computes_some.
Qed.
Lemma load_duplicate_correct i sh m addr ofs size vece :
  let w := vece_element_size vece in let n := lane_count size vece in let k := Z.to_nat (w / 8) in
  vec_shape size vece → 2 ≤ vece → bytes m → let a := wrap 64 (addr + ofs) in
  computes (helper_sym_load_and_duplicate_into_vec sh m addr ofs size vece) i size
    (vdup n w (le_join k m a)) (vdup n w (le_join k (alt_byte i sh m) a)).
Proof.
  intros w n k Hv Hve Hm a. destruct (vec_shape_facts _ _ Hv) as (Hw & Hn & Hsz & Hd & Hmod & Hl & _).
  fold w n in Hw, Hn, Hsz, Hd, Hmod, Hl.
  assert (Hw32 : w = 32 ∨ w = 64).
  { destruct Hv as [_ Hv]. assert (vece = 2 ∨ vece = 3) as [-> | ->] by lia; [by left|by right]. }
  assert (Hk : w = 8 * (w / 8)) by (destruct Hw32 as [-> | ->]; done).
  pose proof (load_host_correct i sh m addr ofs (w / 8) (w / 8) ltac:(lia) ltac:(lia) Hm) as Hs. cbn in Hs. rewrite <- Hk in Hs.
  unfold helper_sym_load_and_duplicate_into_vec. fold w. rewrite !assert_true by (apply Hv || lia).
  unfold helper_sym_load_host_vec. rewrite assert_true; [by eapply duplicate_correct|].
  destruct (sym_load_host_internal _ _ _ _ _ _); [|done]. cbn in Hs. rewrite (den_bits _ _ _ _ Hs). lia.
Qed.

(** ** Comparisons *)

(** The outcomes [ts] of a comparison are those of the elements. *)
Definition agree (w : Z) (cond : TCGCond) (xs ys : list Z) (ts : list bool) : bool :=
  forallb id (zip_with Bool.eqb (zip_with (cond_holds w cond) xs ys) ts).

Lemma push_all_correct i w cond pc l1 l2 xs ys taken t :
  0 < w ≤ 64 → cond_proper cond = true → Forall2 (den i w) l1 xs → Forall2 (den i w) l2 ys →
  ∃ t', push_all pc cond l1 l2 taken t = Ok t' ∧
    path_holds i t' = path_holds i t && agree w cond xs ys (map (λ k, negb (wrap 8 k =? 0)) taken).
Proof.
  intros Hw Hc H1. revert l2 ys taken t. induction H1 as [|a x l1 xs Ha H1 IH]; intros l2 ys taken t H2.
  { exists t. by rewrite andb_true_r. }
  destruct H2 as [|b y l2 ys Hb H2]; [exists t; by rewrite andb_true_r|].
  destruct taken as [|k taken]; [exists t; by rewrite andb_true_r|]. cbn [push_all].
  destruct (push_path_constraint_correct cond i w a b x y pc k t Hw Hc Ha Hb) as (e & He & _ & Hd).
  rewrite He. cbn [mbind res_bind]. destruct (IH l2 ys taken (t ++ [PathConstraint e (wrap 8 k) pc]) H2) as (t' & Ht' & Hp).
  exists t'. split; [done|]. rewrite Hp, path_holds_app. cbn. rewrite Hd. unfold agree. cbn. by rewrite andb_true_r, andb_assoc.
Qed.

(** The bytes of the elements of a buffer. *)
Lemma element_at size vece k :
  vec_shape size vece → (k < lane_count size vece)%nat →
  element_address (Z.of_nat k) (vece_element_size vece) size = Ok (Z.of_nat k * (vece_element_size vece / 8)).
Proof.
  intros Hv Hk. destruct (vec_shape_facts _ _ Hv) as (Hw & _ & Hs & _). set (w := vece_element_size vece) in *.
  set (n := lane_count size vece) in *. assert (Hw8 : w = 8 * (w / 8)) by (destruct Hw as [-> | [-> | [-> | ->]]]; done).
  unfold element_address. replace (Z.of_nat k * w / 8) with (Z.of_nat k * (w / 8)); [rewrite assert_true; [done|]|].
  { pose proof (width_pos w Hw). generalize dependent (w / 8). intros d Hd. apply Z.leb_le. rewrite Hs, Hd. nia. }
  rewrite Hw8 at 2. replace (Z.of_nat k * (8 * (w / 8))) with (Z.of_nat k * (w / 8) * 8) by lia. by rewrite Z.div_mul.
Qed.
Lemma buffer_lane b size vece c k :
  vec_shape size vece → buffer_holds b size c → (k < lane_count size vece)%nat →
  let w := vece_element_size vece in
  wrap w (Z.shiftr c (Z.of_nat k * w)) = le_join (Z.to_nat (w / 8)) b (Z.of_nat k * (w / 8)).
Proof.
  intros Hv [Hb <-] Hk w. destruct (vec_shape_facts _ _ Hv) as (Hw & _ & Hs & _ & _ & _ & H8 & _). fold w in Hw, Hs.
  assert (Hw8 : w = 8 * (w / 8)) by (destruct Hw as [-> | [-> | [-> | ->]]]; done). pose proof (width_pos w Hw).
  pose proof (le_join_piece (Z.to_nat (size / 8)) (Z.to_nat (Z.of_nat k * (w / 8))) (Z.to_nat (w / 8)) b 0 Hb ltac:(nia)) as J.
  rewrite !Z2Nat.id in J by nia. rewrite <- Hw8 in J. rewrite Z.add_0_l in J. rewrite <- J. do 2 f_equal. lia.
Qed.

Lemma first_bytes_correct b size vece c :
  let w := vece_element_size vece in let n := lane_count size vece in
  vec_shape size vece → buffer_holds b size c →
  mapR (first_byte b w size) (below (Z.of_nat n)) = Ok (map (wrap 8) (lanes n w c)).
Proof.
  intros w n Hv Hb. destruct (vec_shape_facts _ _ Hv) as (Hw & _). fold w in Hw. pose proof (width_pos w Hw).
  unfold below. rewrite Nat2Z.id, lanes_seq, map_map by lia. apply mapR_seq. intros k Hk.
  unfold first_byte. pose proof (element_at _ _ _ Hv Hk) as Ea. fold w in Ea. rewrite Ea. cbn [mbind res_bind]. f_equal.
  pose proof (buffer_lane b size vece c k Hv Hb Hk) as El. fold w in El. rewrite El.
  assert (Hd : (0 < Z.to_nat (w / 8))%nat) by (destruct Hw as [-> | [-> | [-> | ->]]]; vm_compute; lia).
  destruct (Z.to_nat (w / 8)) as [|d]; [lia|]. cbn [le_join]. unfold wrap. rewrite (Z.mul_comm (2 ^ 8)), Z.mod_add by done.
  symmetry. apply Z.mod_small. apply Hb.
Qed.

Lemma same_elements_correct b1 b2 size vece c1 c2 :
  let w := vece_element_size vece in let n := lane_count size vece in
  vec_shape size vece → buffer_holds b1 size c1 → buffer_holds b2 size c2 →
  mapR (same_element b1 b2 w size) (below (Z.of_nat n)) = Ok (zip_with Z.eqb (lanes n w c1) (lanes n w c2)).
Proof.
  intros w n Hv Hb1 Hb2. destruct (vec_shape_facts _ _ Hv) as (Hw & _). fold w in Hw. pose proof (width_pos w Hw).
  unfold below. rewrite Nat2Z.id, !lanes_seq, zip_with_fmap_l, zip_with_fmap_r, zip_with_diag by lia. apply mapR_seq.
  intros k Hk. unfold same_element. pose proof (element_at _ _ _ Hv Hk) as Ea. fold w in Ea. rewrite Ea. cbn [mbind res_bind]. f_equal.
  pose proof (buffer_lane b1 size vece c1 k Hv Hb1 Hk) as E1. pose proof (buffer_lane b2 size vece c2 k Hv Hb2 Hk) as E2.
  fold w in E1, E2. rewrite E1, E2.
  set (p := Z.of_nat k * (w / 8)). destruct (Z.eqb_spec (le_join (Z.to_nat (w / 8)) b1 p) (le_join (Z.to_nat (w / 8)) b2 p)) as [E|E].
  - apply forallb_forall. intros j Hj. unfold below in Hj. apply in_map_iff in Hj as (j' & <- & Hj%in_seq).
    rewrite <- (join_byte (Z.to_nat (w / 8)) b1 p), <- (join_byte (Z.to_nat (w / 8)) b2 p), E by (apply Hb1 || apply Hb2 || lia).
    apply Z.eqb_refl.
  - apply not_true_iff_false. rewrite forallb_forall. intros Hf. apply E, le_join_ext. intros j Hj. apply Z.eqb_eq.
    replace j with (p + (j - p)) by lia. apply Hf. unfold below. apply in_map_iff. exists (Z.to_nat (j - p)).
    split; [lia|]. apply in_seq. lia.
Qed.

Lemma agree_refl w cond xs ys : agree w cond xs ys (zip_with (cond_holds w cond) xs ys) = true.
Proof. unfold agree. revert ys. induction xs as [|x xs IH]; intros [|y ys]; cbn; try done. by rewrite Bool.eqb_reflx, IH. Qed.

Lemma lanes_vmap2 size vece f c1 c2 :
  let w := vece_element_size vece in let n := lane_count size vece in
  vec_shape size vece → (∀ x y, in_range w x → in_range w y → in_range w (f x y)) →
  lanes n w (vmap2 n w f c1 c2) = zip_with f (lanes n w c1) (lanes n w c2).
Proof.
  intros w n Hv Hf. destruct (vec_shape_facts _ _ Hv) as (Hw & _). fold w in Hw. pose proof (width_pos w Hw).
  unfold vmap2. replace n with (length (zip_with f (lanes n w c1) (lanes n w c2))) at 1
    by (rewrite length_zip_with, !lanes_length; lia).
  apply lanes_join; [done|]. apply zip_range; [done| |]; apply lanes_range; lia.
Qed.

Lemma cmp_element_taken w cond x y : is_width w → negb (wrap 8 (wrap 8 (cmp_element w cond x y)) =? 0) = cond_holds w cond x y.
Proof. intros Hw. unfold cmp_element. destruct (cond_holds _ _ _ _); destruct Hw as [-> | [-> | [-> | ->]]]; done. Qed.

(** A comparison constrains each pair of elements to compare as in the run. *)
Lemma cmp_vec_correct i pc size vece cond b1 c1 x1 o1 b2 c2 x2 o2 br t :
  let w := vece_element_size vece in let n := lane_count size vece in
  vec_shape size vece → cond_proper cond = true → buffer_holds b1 size c1 → buffer_holds b2 size c2 →
  buffer_holds br size (vmap2 n w (cmp_element w cond) c1 c2) →
  shadows i size c1 x1 o1 → shadows i size c2 x2 o2 →
  ∃ t', helper_sym_cmp_vec pc b1 o1 b2 o2 cond br size vece t = Ok (None, t') ∧
    path_holds i t' = path_holds i t &&
      agree w cond (lanes n w x1) (lanes n w x2) (zip_with (cond_holds w cond) (lanes n w c1) (lanes n w c2)).
Proof.
  intros w n Hv Hc Hb1 Hb2 Hbr S1 S2. destruct (vec_shape_facts _ _ Hv) as (Hw & _). fold w in Hw. pose proof (width_pos w Hw).
  assert (Hw64 : 0 < w ≤ 64) by (unfold is_width in Hw; lia).
  enough (∃ p, helper_sym_cmp_vec pc b1 o1 b2 o2 cond br size vece t = Ok p ∧ p.1 = None ∧
    path_holds i p.2 = path_holds i t &&
      agree w cond (lanes n w x1) (lanes n w x2) (zip_with (cond_holds w cond) (lanes n w c1) (lanes n w c2)))
    as ([o t'] & E & ? & Hp) by (cbn in *; subst o; by exists t').
  unfold helper_sym_cmp_vec. eapply with_elements_correct; try done.
  - intros _ _ -> ->. by rewrite agree_refl, andb_true_r.
  - fold w n. intros l1 l2 _ F1 F2. pose proof (first_bytes_correct _ _ _ _ Hv Hbr) as Eb. fold w n in Eb. rewrite Eb.
    cbn [mbind res_bind]. destruct (push_all_correct i w cond pc l1 l2 _ _
      (map (wrap 8) (lanes n w (vmap2 n w (cmp_element w cond) c1 c2))) t Hw64 Hc F1 F2) as (t' & Et & Hp).
    rewrite Et. eexists. split; [done|]. split; [done|]. cbn [snd]. rewrite Hp. do 2 f_equal.
    pose proof (lanes_vmap2 size vece (cmp_element w cond) c1 c2 Hv) as El. fold w n in El.
    rewrite map_map, El by (intros; apply cmp_element_range; lia).
    clear -Hw. generalize (lanes n w c1) as l1, (lanes n w c2) as l2.
    induction l1 as [|x l1 IH]; intros [|y l2]; cbn; try done. by rewrite cmp_element_taken, IH.
Qed.

(** A minimum or maximum: the expressions of the chosen elements. *)
Lemma choose_den i w ts l1 l2 xs ys :
  Forall2 (den i w) l1 xs → Forall2 (den i w) l2 ys → Forall2 (den i w) (choose ts l1 l2) (choose ts xs ys).
Proof.
  intros H1. revert ts l2 ys. induction H1; intros [|c ts] l2 ys H2; cbn; try by constructor.
  destruct H2; constructor; [by destruct c|auto].
Qed.
Lemma choose_length {A} ts (l1 l2 : list A) :
  length l1 = length ts → length l2 = length ts → length (choose ts l1 l2) = length ts.
Proof. revert l1 l2. induction ts; intros [|? l1] [|? l2] H1 H2; cbn in *; auto with lia. Qed.
Lemma choose_cond w cond xs ys :
  choose (zip_with (cond_holds w cond) xs ys) xs ys = zip_with (sel_element w cond) xs ys.
Proof. revert ys. induction xs as [|x xs IH]; intros [|y ys]; cbn; try done. by rewrite IH. Qed.

(** The helper takes the condition for true where the result is the first
    element.  That is so if the condition holds, or if the elements are equal. *)
Definition sel_taken (w : Z) (cond : TCGCond) (x y : Z) : bool := cond_holds w cond x y || (x =? y).

Lemma sel_taken_same w cond xs ys :
  zip_with Z.eqb (zip_with (sel_element w cond) xs ys) xs = zip_with (sel_taken w cond) xs ys.
Proof.
  revert ys. induction xs as [|x xs IH]; intros [|y ys]; cbn; try done. rewrite IH. f_equal.
  unfold sel_element, sel_taken. destruct (cond_holds w cond x y); [by rewrite Z.eqb_refl|]. cbn. apply Z.eqb_sym.
Qed.
Lemma choose_taken w cond xs ys :
  choose (zip_with (sel_taken w cond) xs ys) xs ys = zip_with (sel_element w cond) xs ys.
Proof.
  revert ys. induction xs as [|x xs IH]; intros [|y ys]; cbn; try done. rewrite IH. f_equal. unfold sel_element, sel_taken.
  destruct (cond_holds w cond x y); [done|]. cbn. by destruct (Z.eqb_spec x y).
Qed.

Lemma ternary_vec_correct i pc size vece cond b1 c1 x1 o1 b2 c2 x2 o2 br t :
  let w := vece_element_size vece in let n := lane_count size vece in
  let taken := zip_with (sel_taken w cond) (lanes n w c1) (lanes n w c2) in
  vec_shape size vece → cond_proper cond = true → buffer_holds b1 size c1 → buffer_holds b2 size c2 →
  buffer_holds br size (vmap2 n w (sel_element w cond) c1 c2) →
  shadows i size c1 x1 o1 → shadows i size c2 x2 o2 →
  ∃ o t', helper_sym_ternary_vec pc b1 o1 b2 o2 cond br size vece t = Ok (o, t') ∧
    shadows i size (vmap2 n w (sel_element w cond) c1 c2) (join w (choose taken (lanes n w x1) (lanes n w x2))) o ∧
    path_holds i t' = path_holds i t && (bool_decide (o1 = None ∧ o2 = None) || agree w cond (lanes n w x1) (lanes n w x2) taken).
Proof.
  intros w n taken Hv Hc Hb1 Hb2 Hbr S1 S2. destruct (vec_shape_facts _ _ Hv) as (Hw & Hn & Hs & _).
  fold w n in Hw, Hn, Hs. pose proof (width_pos w Hw).
  assert (Hw64 : 0 < w ≤ 64) by (unfold is_width in Hw; lia).
  assert (Hsel : ∀ x y, in_range w x → in_range w y → in_range w (sel_element w cond x y))
    by (intros; by apply sel_element_range).
  set (p' := path_holds i t && _).
  enough (∃ p, helper_sym_ternary_vec pc b1 o1 b2 o2 cond br size vece t = Ok p ∧
    shadows i size (vmap2 n w (sel_element w cond) c1 c2) (join w (choose taken (lanes n w x1) (lanes n w x2))) p.1 ∧
    path_holds i p.2 = p') as ([o t'] & E & HP) by (by exists o, t').
  unfold helper_sym_ternary_vec. eapply with_elements_correct; try done.
  - intros -> -> -> ->. split; [cbn; by subst taken; rewrite choose_taken|]. subst p'. cbn. by rewrite andb_true_r.
  - fold w n. intros l1 l2 Hne F1 F2. pose proof (same_elements_correct _ _ _ _ _ _ Hv Hbr Hb1) as Eb. fold w n in Eb.
    pose proof (lanes_vmap2 size vece (sel_element w cond) c1 c2 Hv Hsel) as El. fold w n in El.
    rewrite El, sel_taken_same in Eb. fold taken in Eb. rewrite Eb. cbn [mbind res_bind].
    destruct (push_all_correct i w cond pc l1 l2 _ _ (map Z.b2z taken) t Hw64 Hc F1 F2) as (t' & Et & Hp).
    rewrite Et. cbn [mbind res_bind]. pose proof (choose_den i w taken _ _ _ _ F1 F2) as Fc.
    assert (Hlen : length (choose taken (lanes n w x1) (lanes n w x2)) = n).
    { assert (Ht : length taken = n) by (subst taken; rewrite length_zip_with, !lanes_length; lia).
      rewrite <- Ht at 3. apply choose_length; by rewrite lanes_length. }
    destruct Fc as [|e x l xs He Fc]; [cbn in Hlen; lia|].
    pose proof (concat_correct i w e l x xs ltac:(lia) ltac:(by constructor)) as D.
    rewrite Hlen, <- Hs in D. rewrite (den_bits _ _ _ _ D), assert_true by lia.
    eexists. split; [done|]. split; [exact D|]. cbn [snd]. rewrite Hp. subst p'. f_equal.
    rewrite bool_decide_false by done. cbn [orb]. f_equal. rewrite map_map. clear. induction taken as [|[] l IH]; cbn; by rewrite ?IH.
Qed.
End Correctness.

(** ** Elements and bits *)

Lemma vec_meaning_range op w x y : 0 < w → in_range w x → in_range w y → in_range w (vec_meaning op w x y).
Proof.
  intros Hw Hx Hy. destruct (sat_range w x y Hw Hx Hy) as (? & ? & ? & ?).
  destruct op; cbn [vec_meaning]; try done;
    first [ apply land_range; [lia|done] | apply lor_range; [lia|done|done] | apply lxor_range; [lia|done|done]
          | by apply Denot.lshr_range | apply rol_range; lia | apply ror_range; lia | apply wrap_range; lia ].
Qed.

(** An operation on the bits is one on the elements. *)
Definition bitwise (f : Z → Z → Z) : Prop :=
  ∀ w x y, 0 ≤ w → wrap w (f x y) = f (wrap w x) (wrap w y) ∧ Z.shiftr (f x y) w = f (Z.shiftr x w) (Z.shiftr y w).
Lemma vmap2_bitwise f n w x y :
  bitwise f → 0 < w → in_range (Z.of_nat n * w) (f x y) → vmap2 n w f x y = f x y.
Proof.
  intros Hf Hw Hr. rewrite <- (join_lanes n w (f x y)) by done. unfold vmap2. f_equal. clear Hr.
  revert x y. induction n as [|n IH]; intros x y; cbn; [done|]. destruct (Hf w x y ltac:(lia)) as [-> ->]. by rewrite IH.
Qed.
Lemma land_bitwise : bitwise Z.land.
Proof. intros w x y Hw. split; zbits. Qed.
Lemma lor_bitwise : bitwise Z.lor.
Proof. intros w x y Hw. split; zbits. Qed.
Lemma lxor_bitwise : bitwise Z.lxor.
Proof. intros w x y Hw. split; zbits. Qed.

Lemma vmap_id n w x (f : Z → Z) :
  0 < w → in_range (Z.of_nat n * w) x → (∀ y, in_range w y → f y = y) → vmap n w f x = x.
Proof.
  intros Hw Hx Hf. rewrite <- (join_lanes n w x) at 2 by done. unfold vmap. f_equal.
  pose proof (lanes_range n w x ltac:(lia)) as Hl. induction Hl; cbn; [done|]. by rewrite Hf, IHHl.
Qed.
Lemma vmap_range n w f a :
  0 < w → (∀ x, in_range w x → in_range w (f x)) → in_range (Z.of_nat n * w) (vmap n w f a).
Proof.
  intros Hw Hf. unfold vmap.
  replace (Z.of_nat n) with (Z.of_nat (length (map f (lanes n w a)))) by (by rewrite length_map, lanes_length).
  apply join_range; [done|]. pose proof (lanes_range n w a ltac:(lia)) as Hl. induction Hl; constructor; auto.
Qed.
