(* ===== verification/Ops.v ===== *)
(** The operations of the TCG intermediate representation: the opcodes of
    [include/tcg/tcg-opc.h], the meaning the IR documentation
    ([docs/devel/tcg-ops.rst]) gives them, and the interpreter of [tcg/tci.c].

    Hosts have 64-bit registers ([TCG_TARGET_REG_BITS] is 64).  An opcode that
    exists for [i32] and [i64] is one constructor over [RegType].  A register
    holds 64 bits; the upper half of a register that holds an [i32] value is
    unspecified, and the interpreter leaves whatever the 64-bit operation left
    there.

    [op_val] is the documented result, undefined ([None]) where the
    documentation leaves the result unspecified; [tci_op] is the interpreter;
    [tci_op_refines] says that the interpreter computes the documented
    result. *)
From S2P Require Import Prelude Cond Bitops Backend SymHelpers.

Inductive RegType : Set := I32 | I64.

Definition ty_width (t : RegType) : Z := match t with I32 => 32 | I64 => 64 end.

#[export] Instance RegType_eq_dec : EqDecision RegType.
Proof. solve_decision. Defined.

Inductive TCGOpcode : Set :=
| INDEX_op_mov (t : RegType)
| INDEX_op_setcond (t : RegType) | INDEX_op_negsetcond (t : RegType)
| INDEX_op_movcond (t : RegType)
| INDEX_op_add (t : RegType) | INDEX_op_sub (t : RegType) | INDEX_op_mul (t : RegType)
| INDEX_op_div (t : RegType) | INDEX_op_divu (t : RegType)
| INDEX_op_rem (t : RegType) | INDEX_op_remu (t : RegType)
| INDEX_op_div2 (t : RegType) | INDEX_op_divu2 (t : RegType)
| INDEX_op_and (t : RegType) | INDEX_op_or (t : RegType) | INDEX_op_xor (t : RegType)
| INDEX_op_shl (t : RegType) | INDEX_op_shr (t : RegType) | INDEX_op_sar (t : RegType)
| INDEX_op_rotl (t : RegType) | INDEX_op_rotr (t : RegType)
| INDEX_op_deposit (t : RegType) | INDEX_op_extract (t : RegType)
| INDEX_op_sextract (t : RegType) | INDEX_op_extract2 (t : RegType)
| INDEX_op_add2 (t : RegType) | INDEX_op_sub2 (t : RegType)
| INDEX_op_mulu2 (t : RegType) | INDEX_op_muls2 (t : RegType)
| INDEX_op_muluh (t : RegType) | INDEX_op_mulsh (t : RegType)
| INDEX_op_ext8s (t : RegType) | INDEX_op_ext16s (t : RegType)
| INDEX_op_ext8u (t : RegType) | INDEX_op_ext16u (t : RegType)
| INDEX_op_ext32s_i64 | INDEX_op_ext32u_i64
| INDEX_op_bswap16 (t : RegType) | INDEX_op_bswap32 (t : RegType) | INDEX_op_bswap64_i64
| INDEX_op_not (t : RegType) | INDEX_op_neg (t : RegType)
| INDEX_op_andc (t : RegType) | INDEX_op_orc (t : RegType) | INDEX_op_eqv (t : RegType)
| INDEX_op_nand (t : RegType) | INDEX_op_nor (t : RegType)
| INDEX_op_clz (t : RegType) | INDEX_op_ctz (t : RegType) | INDEX_op_ctpop (t : RegType)
| INDEX_op_ext_i32_i64 | INDEX_op_extu_i32_i64
| INDEX_op_extrl_i64_i32 | INDEX_op_extrh_i64_i32.

Definition TCG_BSWAP_IZ : Z := 1.
Definition TCG_BSWAP_OZ : Z := 2.
Definition TCG_BSWAP_OS : Z := 4.

(** ** Operand types *)

(** Output and input registers of each opcode, in the order of the argument
    list (the [DEF] lines of tcg-opc.h give the counts), and the number of
    constant arguments that follow. *)
Definition op_def (opc : TCGOpcode) : list RegType * list RegType * nat :=
  match opc with
  | INDEX_op_mov t | INDEX_op_not t | INDEX_op_neg t | INDEX_op_ctpop t
  | INDEX_op_ext8s t | INDEX_op_ext16s t | INDEX_op_ext8u t | INDEX_op_ext16u t =>
      ([t], [t], 0%nat)
  | INDEX_op_ext32s_i64 | INDEX_op_ext32u_i64 => ([I64], [I64], 0%nat)
  | INDEX_op_bswap16 t | INDEX_op_bswap32 t => ([t], [t], 1%nat)
  | INDEX_op_bswap64_i64 => ([I64], [I64], 1%nat)
  | INDEX_op_setcond t | INDEX_op_negsetcond t => ([t], [t; t], 1%nat)
  | INDEX_op_movcond t => ([t], [t; t; t; t], 1%nat)
  | INDEX_op_add t | INDEX_op_sub t | INDEX_op_mul t
  | INDEX_op_div t | INDEX_op_divu t | INDEX_op_rem t | INDEX_op_remu t
  | INDEX_op_and t | INDEX_op_or t | INDEX_op_xor t
  | INDEX_op_shl t | INDEX_op_shr t | INDEX_op_sar t | INDEX_op_rotl t | INDEX_op_rotr t
  | INDEX_op_andc t | INDEX_op_orc t | INDEX_op_eqv t | INDEX_op_nand t | INDEX_op_nor t
  | INDEX_op_clz t | INDEX_op_ctz t | INDEX_op_muluh t | INDEX_op_mulsh t =>
      ([t], [t; t], 0%nat)
  | INDEX_op_div2 t | INDEX_op_divu2 t => ([t; t], [t; t; t], 0%nat)
  | INDEX_op_deposit t => ([t], [t; t], 2%nat)
  | INDEX_op_extract t | INDEX_op_sextract t => ([t], [t], 2%nat)
  | INDEX_op_extract2 t => ([t], [t; t], 1%nat)
  | INDEX_op_add2 t | INDEX_op_sub2 t => ([t; t], [t; t; t; t], 0%nat)
  | INDEX_op_mulu2 t | INDEX_op_muls2 t => ([t; t], [t; t], 0%nat)
  | INDEX_op_ext_i32_i64 | INDEX_op_extu_i32_i64 => ([I64], [I32], 0%nat)
  | INDEX_op_extrl_i64_i32 | INDEX_op_extrh_i64_i32 => ([I32], [I64], 0%nat)
  end.

(** ** The documented result *)

(** A double word from its halves, and back: low half first. *)
Definition join (w lo hi : Z) : Z := hi * 2 ^ w + lo.
Definition split2 (w v : Z) : list Z := [wrap w v; wrap w (Z.shiftr v w)].

Definition guard_ (b : bool) (r : list Z) : option (list Z) := if b then Some r else None.

Definition with_cond (code : Z) (k : TCGCond → list Z) : option (list Z) :=
  match cond_of_code code with
  | Some c => guard_ (cond_proper c) (k c)
  | None => None
  end.

Definition sdiv_ok (w a b : Z) : bool :=
  negb (b =? 0) && negb ((sgn w a =? - 2 ^ (w - 1)) && (sgn w b =? -1)).

(** The byte swap of the low [n] bytes, extended as [flags] ask. *)
Definition bswap_flags (w : Z) (n : nat) (flags x : Z) : Z :=
  let r := bswap_bytes n x in
  if Z.land flags TCG_BSWAP_OS =? 0 then r else wrap w (sgn (8 * Z.of_nat n) r).

Definition op_val (opc : TCGOpcode) (ins imms : list Z) : option (list Z) :=
  match opc, ins, imms with
  | INDEX_op_mov t, [a], [] => Some [a]
  | INDEX_op_setcond t, [a; b], [c] =>
      with_cond c (λ c, [Z.b2z (cond_holds (ty_width t) c a b)])
  | INDEX_op_negsetcond t, [a; b], [c] =>
      with_cond c (λ c, [bv_neg (ty_width t) (Z.b2z (cond_holds (ty_width t) c a b))])
  | INDEX_op_movcond t, [c1; c2; v1; v2], [c] =>
      with_cond c (λ c, [if cond_holds (ty_width t) c c1 c2 then v1 else v2])
  | INDEX_op_add t, [a; b], [] => Some [bv_add (ty_width t) a b]
  | INDEX_op_sub t, [a; b], [] => Some [bv_sub (ty_width t) a b]
  | INDEX_op_mul t, [a; b], [] => Some [bv_mul (ty_width t) a b]
  | INDEX_op_div t, [a; b], [] =>
      guard_ (sdiv_ok (ty_width t) a b) [bv_sdiv (ty_width t) a b]
  | INDEX_op_divu t, [a; b], [] => guard_ (negb (b =? 0)) [bv_udiv (ty_width t) a b]
  | INDEX_op_rem t, [a; b], [] =>
      guard_ (sdiv_ok (ty_width t) a b) [bv_srem (ty_width t) a b]
  | INDEX_op_remu t, [a; b], [] => guard_ (negb (b =? 0)) [bv_urem (ty_width t) a b]
  | INDEX_op_div2 t, [lo; hi; d], [] =>
      let w := ty_width t in
      let n := sgn (2 * w) (join w lo hi) in
      let d := sgn w d in
      guard_ (negb (d =? 0) && (- 2 ^ (w - 1) <=? Z.quot n d) && (Z.quot n d <? 2 ^ (w - 1)))
        [wrap w (Z.quot n d); wrap w (Z.rem n d)]
  | INDEX_op_divu2 t, [lo; hi; d], [] =>
      let w := ty_width t in
      let n := join w lo hi in
      guard_ (negb (d =? 0) && (n / d <? 2 ^ w)) [n / d; n mod d]
  | INDEX_op_and t, [a; b], [] => Some [Z.land a b]
  | INDEX_op_or t, [a; b], [] => Some [Z.lor a b]
  | INDEX_op_xor t, [a; b], [] => Some [Z.lxor a b]
  | INDEX_op_shl t, [a; b], [] => guard_ (b <? ty_width t) [bv_shl (ty_width t) a b]
  | INDEX_op_shr t, [a; b], [] => guard_ (b <? ty_width t) [bv_lshr (ty_width t) a b]
  | INDEX_op_sar t, [a; b], [] => guard_ (b <? ty_width t) [bv_ashr (ty_width t) a b]
  | INDEX_op_rotl t, [a; b], [] => guard_ (b <? ty_width t) [rol (ty_width t) a b]
  | INDEX_op_rotr t, [a; b], [] => guard_ (b <? ty_width t) [ror (ty_width t) a b]
  | INDEX_op_deposit t, [a; b], [ofs; len] =>
      guard_ (field_ok (ty_width t) ofs len) [put_field a ofs len b]
  | INDEX_op_extract t, [a], [ofs; len] =>
      guard_ (field_ok (ty_width t) ofs len) [wrap len (Z.shiftr a ofs)]
  | INDEX_op_sextract t, [a], [ofs; len] =>
      guard_ (field_ok (ty_width t) ofs len)
        [wrap (ty_width t) (sgn len (Z.shiftr a ofs))]
  | INDEX_op_extract2 t, [al; ah], [ofs] =>
      guard_ ((0 <=? ofs) && (ofs <=? ty_width t)) [extract2_val (ty_width t) ah al ofs]
  | INDEX_op_add2 t, [al; ah; bl; bh], [] =>
      let w := ty_width t in Some (split2 w (wrap (2 * w) (join w al ah + join w bl bh)))
  | INDEX_op_sub2 t, [al; ah; bl; bh], [] =>
      let w := ty_width t in Some (split2 w (wrap (2 * w) (join w al ah - join w bl bh)))
  | INDEX_op_mulu2 t, [a; b], [] => Some (split2 (ty_width t) (a * b))
  | INDEX_op_muls2 t, [a; b], [] =>
      let w := ty_width t in Some (split2 w (sgn w a * sgn w b))
  | INDEX_op_muluh t, [a; b], [] =>
      let w := ty_width t in Some [wrap w (Z.shiftr (a * b) w)]
  | INDEX_op_mulsh t, [a; b], [] =>
      let w := ty_width t in Some [wrap w (Z.shiftr (sgn w a * sgn w b) w)]
  | INDEX_op_ext8s t, [a], [] => Some [wrap (ty_width t) (sgn 8 a)]
  | INDEX_op_ext16s t, [a], [] => Some [wrap (ty_width t) (sgn 16 a)]
  | INDEX_op_ext8u t, [a], [] => Some [wrap 8 a]
  | INDEX_op_ext16u t, [a], [] => Some [wrap 16 a]
  | INDEX_op_ext32s_i64, [a], [] => Some [wrap 64 (sgn 32 a)]
  | INDEX_op_ext32u_i64, [a], [] => Some [wrap 32 a]
  | INDEX_op_bswap16 t, [a], [flags] => Some [bswap_flags (ty_width t) 2 flags a]
  | INDEX_op_bswap32 I32, [a], [flags] => Some [bswap32 a]
  | INDEX_op_bswap32 I64, [a], [flags] => Some [bswap_flags 64 4 flags a]
  | INDEX_op_bswap64_i64, [a], [flags] => Some [bswap64 a]
  | INDEX_op_not t, [a], [] => Some [bv_not (ty_width t) a]
  | INDEX_op_neg t, [a], [] => Some [bv_neg (ty_width t) a]
  | INDEX_op_andc t, [a; b], [] => Some [Z.land a (bv_not (ty_width t) b)]
  | INDEX_op_orc t, [a; b], [] => Some [Z.lor a (bv_not (ty_width t) b)]
  | INDEX_op_eqv t, [a; b], [] => Some [bv_not (ty_width t) (Z.lxor a b)]
  | INDEX_op_nand t, [a; b], [] => Some [bv_not (ty_width t) (Z.land a b)]
  | INDEX_op_nor t, [a; b], [] => Some [bv_not (ty_width t) (Z.lor a b)]
  | INDEX_op_clz t, [a; b], [] => Some [if a =? 0 then b else builtin_clz (ty_width t) a]
  | INDEX_op_ctz t, [a; b], [] => Some [if a =? 0 then b else builtin_ctz a]
  | INDEX_op_ctpop t, [a], [] => Some [popcount (Z.to_nat (ty_width t)) a]
  | INDEX_op_ext_i32_i64, [a], [] => Some [wrap 64 (sgn 32 a)]
  | INDEX_op_extu_i32_i64, [a], [] => Some [a]
  | INDEX_op_extrl_i64_i32, [a], [] => Some [wrap 32 a]
  | INDEX_op_extrh_i64_i32, [a], [] => Some [Z.shiftr a 32]
  | _, _, _ => None
  end.

(** ** The interpreter

    Registers are 64-bit; a C conversion to a narrower unsigned type is
    [wrap], to a signed one [sgn], and storing a signed value back is
    [wrap 64]. *)

Definition to_reg (z : Z) : Res (list Z) := Ok [wrap 64 z].

(** tci_uint64 and tci_write_reg64. *)
Definition tci_uint64 (high low : Z) : Z := Z.shiftl (wrap 32 high) 32 + wrap 32 low.
Definition tci_write_reg64 (value : Z) : Res (list Z) :=
  let value := wrap 64 value in Ok [wrap 32 value; Z.shiftr value 32].

(** Signed division traps on a zero divisor and on overflow. *)
Definition c_sdiv (w a b : Z) : Res Z :=
  assert_ (sdiv_ok w a b);; Ok (Z.quot (sgn w a) (sgn w b)).
Definition c_srem (w a b : Z) : Res Z :=
  assert_ (sdiv_ok w a b);; Ok (Z.rem (sgn w a) (sgn w b)).

Definition tci_cond (code : Z) : Res TCGCond :=
  match cond_of_code code with Some c => Ok c | None => Abort end.

(** The arithmetic shared by both types (the [CASE_32_64] cases) and the
    comparisons. *)
Definition tci_mixed (opc : TCGOpcode) (r imms : list Z) : Res (list Z) :=
  match opc, r, imms with
  | INDEX_op_setcond I32, [r1; r2], [c] =>
      c ← tci_cond c; b ← tci_compare32 (wrap 32 r1) (wrap 32 r2) c; Ok [Z.b2z b]
  | INDEX_op_movcond I32, [r1; r2; r3; r4], [c] =>
      c ← tci_cond c; b ← tci_compare32 (wrap 32 r1) (wrap 32 r2) c;
      Ok [if b : bool then r3 else r4]
  | INDEX_op_setcond I64, [r1; r2], [c] =>
      c ← tci_cond c; b ← tci_compare64 r1 r2 c; Ok [Z.b2z b]
  | INDEX_op_movcond I64, [r1; r2; r3; r4], [c] =>
      c ← tci_cond c; b ← tci_compare64 r1 r2 c; Ok [if b : bool then r3 else r4]
  | INDEX_op_mov _, [r1], [] => Ok [r1]
  | INDEX_op_add _, [r1; r2], [] => to_reg (r1 + r2)
  | INDEX_op_sub _, [r1; r2], [] => to_reg (r1 - r2)
  | INDEX_op_mul _, [r1; r2], [] => to_reg (r1 * r2)
  | INDEX_op_and _, [r1; r2], [] => Ok [Z.land r1 r2]
  | INDEX_op_or _, [r1; r2], [] => Ok [Z.lor r1 r2]
  | INDEX_op_xor _, [r1; r2], [] => Ok [Z.lxor r1 r2]
  | INDEX_op_andc _, [r1; r2], [] => Ok [Z.land r1 (wrap 64 (Z.lnot r2))]
  | INDEX_op_orc _, [r1; r2], [] => Ok [Z.lor r1 (wrap 64 (Z.lnot r2))]
  | INDEX_op_eqv _, [r1; r2], [] => to_reg (Z.lnot (Z.lxor r1 r2))
  | INDEX_op_nand _, [r1; r2], [] => to_reg (Z.lnot (Z.land r1 r2))
  | INDEX_op_nor _, [r1; r2], [] => to_reg (Z.lnot (Z.lor r1 r2))
  | _, _, _ => Abort
  end.

(** "Arithmetic operations (32 bit)" up to "Load/store operations (64 bit)". *)
Definition tci_i32 (opc : TCGOpcode) (r imms : list Z) : Res (list Z) :=
  match opc, r, imms with
  | INDEX_op_div I32, [r1; r2], [] => q ← c_sdiv 32 (wrap 32 r1) (wrap 32 r2); to_reg q
  | INDEX_op_divu I32, [r1; r2], [] =>
      assert_ (negb (wrap 32 r2 =? 0));; Ok [wrap 32 r1 / wrap 32 r2]
  | INDEX_op_rem I32, [r1; r2], [] => q ← c_srem 32 (wrap 32 r1) (wrap 32 r2); to_reg q
  | INDEX_op_remu I32, [r1; r2], [] =>
      assert_ (negb (wrap 32 r2 =? 0));; Ok [wrap 32 r1 mod wrap 32 r2]
  | INDEX_op_clz I32, [r1; r2], [] =>
      let tmp32 := wrap 32 r1 in Ok [if tmp32 =? 0 then r2 else clz32 tmp32]
  | INDEX_op_ctz I32, [r1; r2], [] =>
      let tmp32 := wrap 32 r1 in Ok [if tmp32 =? 0 then r2 else ctz32 tmp32]
  | INDEX_op_ctpop I32, [r1], [] => Ok [ctpop32 (wrap 32 r1)]
  | INDEX_op_shl I32, [r1; r2], [] => Ok [wrap 32 (Z.shiftl (wrap 32 r1) (Z.land r2 31))]
  | INDEX_op_shr I32, [r1; r2], [] => Ok [Z.shiftr (wrap 32 r1) (Z.land r2 31)]
  | INDEX_op_sar I32, [r1; r2], [] => to_reg (Z.shiftr (sgn 32 r1) (Z.land r2 31))
  | INDEX_op_rotl I32, [r1; r2], [] => Ok [rol32 (wrap 32 r1) (Z.land r2 31)]
  | INDEX_op_rotr I32, [r1; r2], [] => Ok [ror32 (wrap 32 r1) (Z.land r2 31)]
  | INDEX_op_deposit I32, [r1; r2], [pos; len] =>
      v ← deposit32 (wrap 32 r1) pos len (wrap 32 r2); Ok [v]
  | INDEX_op_extract I32, [r1], [pos; len] => v ← extract32 (wrap 32 r1) pos len; Ok [v]
  | INDEX_op_sextract I32, [r1], [pos; len] => v ← sextract32 (wrap 32 r1) pos len; to_reg v
  | INDEX_op_add2 I32, [r2; r3; r4; r5], [] =>
      tci_write_reg64 (tci_uint64 r3 r2 + tci_uint64 r5 r4)
  | INDEX_op_sub2 I32, [r2; r3; r4; r5], [] =>
      tci_write_reg64 (tci_uint64 r3 r2 - tci_uint64 r5 r4)
  | INDEX_op_mulu2 I32, [r2; r3], [] => tci_write_reg64 (wrap 32 r2 * wrap 32 r3)
  | INDEX_op_muls2 I32, [r2; r3], [] => tci_write_reg64 (sgn 32 r2 * sgn 32 r3)
  | INDEX_op_ext8s _, [r1], [] => to_reg (sgn 8 r1)
  | INDEX_op_ext16s _, [r1], [] => to_reg (sgn 16 r1)
  | INDEX_op_ext8u _, [r1], [] => Ok [wrap 8 r1]
  | INDEX_op_ext16u _, [r1], [] => Ok [wrap 16 r1]
  | INDEX_op_bswap16 _, [r1], [flags] => Ok [bswap_flags 64 2 flags r1]
  | INDEX_op_bswap32 I32, [r1], [flags] => Ok [bswap32 r1]
  | INDEX_op_bswap32 I64, [r1], [flags] => Ok [bswap_flags 64 4 flags r1]
  | INDEX_op_not _, [r1], [] => to_reg (Z.lnot r1)
  | INDEX_op_neg _, [r1], [] => to_reg (- r1)
  | _, _, _ => Abort
  end.

(** "Arithmetic operations (64 bit)" and what follows. *)
Definition tci_i64 (opc : TCGOpcode) (r imms : list Z) : Res (list Z) :=
  match opc, r, imms with
  | INDEX_op_div I64, [r1; r2], [] => q ← c_sdiv 64 r1 r2; to_reg q
  | INDEX_op_divu I64, [r1; r2], [] => assert_ (negb (r2 =? 0));; Ok [r1 / r2]
  | INDEX_op_rem I64, [r1; r2], [] => q ← c_srem 64 r1 r2; to_reg q
  | INDEX_op_remu I64, [r1; r2], [] => assert_ (negb (r2 =? 0));; Ok [r1 mod r2]
  | INDEX_op_clz I64, [r1; r2], [] => Ok [if r1 =? 0 then r2 else clz64 r1]
  | INDEX_op_ctz I64, [r1; r2], [] => Ok [if r1 =? 0 then r2 else ctz64 r1]
  | INDEX_op_ctpop I64, [r1], [] => Ok [ctpop64 r1]
  | INDEX_op_mulu2 I64, [r2; r3], [] => let '(l, h) := mulu64 r2 r3 in Ok [l; h]
  | INDEX_op_muls2 I64, [r2; r3], [] => let '(l, h) := muls64 r2 r3 in Ok [l; h]
  | INDEX_op_add2 I64, [r2; r3; r4; r5], [] =>
      let T1 := wrap 64 (r2 + r4) in
      let T2 := wrap 64 (r3 + r5 + Z.b2z (T1 <? r2)) in Ok [T1; T2]
  | INDEX_op_sub2 I64, [r2; r3; r4; r5], [] =>
      let T1 := wrap 64 (r2 - r4) in
      let T2 := wrap 64 (r3 - r5 - Z.b2z (r2 <? r4)) in Ok [T1; T2]
  | INDEX_op_shl I64, [r1; r2], [] => to_reg (Z.shiftl r1 (Z.land r2 63))
  | INDEX_op_shr I64, [r1; r2], [] => Ok [Z.shiftr r1 (Z.land r2 63)]
  | INDEX_op_sar I64, [r1; r2], [] => to_reg (Z.shiftr (sgn 64 r1) (Z.land r2 63))
  | INDEX_op_rotl I64, [r1; r2], [] => Ok [rol64 r1 (Z.land r2 63)]
  | INDEX_op_rotr I64, [r1; r2], [] => Ok [ror64 r1 (Z.land r2 63)]
  | INDEX_op_deposit I64, [r1; r2], [pos; len] => v ← deposit64 r1 pos len r2; Ok [v]
  | INDEX_op_extract I64, [r1], [pos; len] => v ← extract64 r1 pos len; Ok [v]
  | INDEX_op_sextract I64, [r1], [pos; len] => v ← sextract64 r1 pos len; to_reg v
  | INDEX_op_ext32s_i64, [r1], [] | INDEX_op_ext_i32_i64, [r1], [] => to_reg (sgn 32 r1)
  | INDEX_op_ext32u_i64, [r1], [] | INDEX_op_extu_i32_i64, [r1], [] => Ok [wrap 32 r1]
  | INDEX_op_bswap64_i64, [r1], [flags] => Ok [bswap64 r1]
  | _, _, _ => Abort
  end.

(** The operations the interpreter target does not offer
    ([TCG_TARGET_HAS_*] is 0 for it) have the documented result. *)
Definition documented (opc : TCGOpcode) (r imms : list Z) : Res (list Z) :=
  let ins := zip_with (λ t z, wrap (ty_width t) z) (op_def opc).1.2 r in
  match op_val opc ins imms with Some outs => Ok outs | None => Abort end.

Definition tci_op (opc : TCGOpcode) (r imms : list Z) : Res (list Z) :=
  match opc with
  | INDEX_op_setcond _ | INDEX_op_movcond _ | INDEX_op_mov _ | INDEX_op_add _
  | INDEX_op_sub _ | INDEX_op_mul _ | INDEX_op_and _ | INDEX_op_or _ | INDEX_op_xor _
  | INDEX_op_andc _ | INDEX_op_orc _ | INDEX_op_eqv _ | INDEX_op_nand _ | INDEX_op_nor _ =>
      tci_mixed opc r imms
  | INDEX_op_div I32 | INDEX_op_divu I32 | INDEX_op_rem I32 | INDEX_op_remu I32
  | INDEX_op_clz I32 | INDEX_op_ctz I32 | INDEX_op_ctpop I32
  | INDEX_op_shl I32 | INDEX_op_shr I32 | INDEX_op_sar I32 | INDEX_op_rotl I32 | INDEX_op_rotr I32
  | INDEX_op_deposit I32 | INDEX_op_extract I32 | INDEX_op_sextract I32
  | INDEX_op_add2 I32 | INDEX_op_sub2 I32 | INDEX_op_mulu2 I32 | INDEX_op_muls2 I32
  | INDEX_op_ext8s _ | INDEX_op_ext16s _ | INDEX_op_ext8u _ | INDEX_op_ext16u _
  | INDEX_op_bswap16 _ | INDEX_op_bswap32 _ | INDEX_op_not _ | INDEX_op_neg _ =>
      tci_i32 opc r imms
  | INDEX_op_negsetcond _ | INDEX_op_div2 _ | INDEX_op_divu2 _ | INDEX_op_extract2 _
  | INDEX_op_muluh _ | INDEX_op_mulsh _ | INDEX_op_extrl_i64_i32 | INDEX_op_extrh_i64_i32 =>
      documented opc r imms
  | _ => tci_i64 opc r imms
  end.

(** ** The interpreter computes the documented results *)

Definition read_as (ts : list RegType) (r : list Z) : list Z :=
  zip_with (λ t z, wrap (ty_width t) z) ts r.

Definition refines (opc : TCGOpcode) : Prop :=
  ∀ r imms outs,
    length r = length (op_def opc).1.2 → Forall (in_range 64) r →
    op_val opc (read_as (op_def opc).1.2 r) imms = Some outs →
    ∃ r', tci_op opc r imms = Ok r' ∧ Forall (in_range 64) r' ∧
          length r' = length (op_def opc).1.1 ∧ read_as (op_def opc).1.1 r' = outs.

(** Input registers and constants by name. *)
Ltac op_args :=
  let r := fresh "r" in let imms := fresh "imms" in let outs := fresh "outs" in
  let Hlen := fresh in let Hr := fresh in let Hop := fresh "Hop" in
  intros r imms outs Hlen Hr Hop; cbn in Hlen;
  repeat (destruct r as [|? r]; cbn in Hlen; try discriminate Hlen);
  repeat match type of Hr with
    | Forall _ (_ :: _) => apply Forall_cons_1 in Hr; destruct Hr as [? Hr]
    end; clear Hr Hlen;
  unfold read_as in Hop; cbn [zip_with ty_width op_def fst snd op_val] in Hop;
  repeat (destruct imms as [|? imms]; try discriminate Hop).

Ltac small64 :=
  repeat match goal with
    | H : in_range 64 ?x |- context [wrap 64 ?x] => rewrite (wrap_small 64 x H)
    end.

Ltac op_simple :=
  op_args; match goal with H : Some _ = Some _ |- _ => injection H as <- end; eexists;
  split; [reflexivity|]; split; [repeat (apply List.Forall_nil || apply List.Forall_cons); auto with range|];
  split; [reflexivity|]; unfold read_as; cbn [zip_with op_def ty_width fst snd].

(** From an equality of one-element lists to that of the elements. *)
Ltac one := apply (f_equal (λ x : Z, [x])).

Lemma refines_arith t :
  refines (INDEX_op_add t) ∧ refines (INDEX_op_sub t) ∧ refines (INDEX_op_mul t) ∧
  refines (INDEX_op_neg t).
Proof.
  repeat split; destruct t; op_simple; one; unfold bv_add, bv_sub, bv_mul, bv_neg;
    rewrite ?wrap_add, ?wrap_sub, ?wrap_mul, ?wrap_opp, ?wrap_wrap_le, ?wrap_wrap by lia; done.
Qed.

Lemma refines_logic t :
  refines (INDEX_op_mov t) ∧ refines (INDEX_op_and t) ∧ refines (INDEX_op_or t) ∧
  refines (INDEX_op_xor t) ∧ refines (INDEX_op_andc t) ∧ refines (INDEX_op_orc t) ∧
  refines (INDEX_op_eqv t) ∧ refines (INDEX_op_nand t) ∧ refines (INDEX_op_nor t) ∧
  refines (INDEX_op_not t).
Proof.
  repeat split; destruct t; op_simple; one; unfold bv_not; zbits.
Qed.

Lemma refines_ext t :
  refines (INDEX_op_ext8s t) ∧ refines (INDEX_op_ext16s t) ∧ refines (INDEX_op_ext8u t) ∧
  refines (INDEX_op_ext16u t).
Proof. repeat split; destruct t; op_simple; one; zbits. Qed.

Lemma refines_ext64 :
  refines INDEX_op_ext32s_i64 ∧ refines INDEX_op_ext32u_i64 ∧ refines INDEX_op_ext_i32_i64 ∧
  refines INDEX_op_extu_i32_i64.
Proof. repeat split; op_simple; one; zbits. Qed.

Lemma land_lt w b : is_width w → wrap w b < w → Z.land b (w - 1) = wrap w b.
Proof.
  intros Hw Hb. rewrite land_width by done. pose proof (width_pos w Hw).
  pose proof (wrap_range w b) as [? ?]; [lia|].
  rewrite <- (Z.mod_small (wrap w b) w) by lia. unfold wrap. symmetry. apply Z.mod_mod_divide.
  destruct Hw as [-> | [-> | [-> | ->]]];
    [exists (2 ^ 5) | exists (2 ^ 12) | exists (2 ^ 27) | exists (2 ^ 58)]; done.
Qed.

Lemma guard_some b r outs : guard_ b r = Some outs → b = true ∧ r = outs.
Proof. destruct b; cbn; intros; by simplify_eq. Qed.

Ltac op_guarded :=
  op_args;
  match goal with H : guard_ _ _ = Some _ |- _ =>
    apply guard_some in H; destruct H as [?Hg <-] end.
Ltac op_result :=
  eexists; split; [reflexivity|]; split;
  [repeat (apply List.Forall_nil || apply List.Forall_cons); auto with range|];
  split; [reflexivity|]; unfold read_as; cbn [zip_with op_def ty_width fst snd].

Lemma land_31 b : wrap 32 b < 32 → Z.land b 31 = wrap 32 b.
Proof. apply (land_lt 32). unfold is_width. lia. Qed.
Lemma land_63 b : wrap 64 b < 64 → Z.land b 63 = wrap 64 b.
Proof. apply (land_lt 64). unfold is_width. lia. Qed.

(** Shift counts of the interpreter, once known to be below the width. *)
Ltac shift_count :=
  match goal with H : (wrap ?w ?b <? ?w) = true |- _ =>
    apply Z.ltb_lt in H; destruct (wrap_range w b ltac:(lia)) as [? _];
    cbn [tci_op tci_i32 tci_i64]; rewrite ?land_31, ?land_63 by done;
    generalize dependent (wrap w b); intros
  end.

Lemma refines_shift t :
  refines (INDEX_op_shl t) ∧ refines (INDEX_op_shr t) ∧ refines (INDEX_op_sar t).
Proof.
  repeat split; destruct t; op_guarded; shift_count; op_result; one;
    unfold bv_shl, bv_lshr, bv_ashr; zbits.
Qed.

Lemma rotate_range64 w x s : 0 ≤ w ≤ 64 → in_range 64 (rol w x s) ∧ in_range 64 (ror w x s).
Proof. intros. split; apply (in_range_le w); auto with range. Qed.

Lemma refines_rotate t : refines (INDEX_op_rotl t) ∧ refines (INDEX_op_rotr t).
Proof.
  repeat split; destruct t; op_guarded; shift_count; eexists; (split; [reflexivity|]);
    (split; [repeat constructor; apply rotate_range64; lia|]); (split; [reflexivity|]);
    unfold read_as; cbn; one; small64; apply wrap_small; auto with range.
Qed.

Lemma refines_sdiv t : refines (INDEX_op_div t) ∧ refines (INDEX_op_rem t).
Proof.
  repeat split; destruct t; op_guarded; cbn [tci_op tci_i32 tci_i64];
    unfold c_sdiv, c_srem; rewrite ?(wrap_small 64) in Hg by done; rewrite ?assert_true by done;
    op_result; one; unfold bv_sdiv, bv_srem; small64; by rewrite ?wrap_wrap_le, ?wrap_wrap by lia.
Qed.

(** One output register: as the interpreter leaves it, or fitting its type. *)
Lemma refine_raw opc r imms t v outs :
  (op_def opc).1.1 = [t] → tci_op opc r imms = Ok [v] → in_range 64 v →
  [wrap (ty_width t) v] = outs →
  ∃ r', tci_op opc r imms = Ok r' ∧ Forall (in_range 64) r' ∧
        length r' = length (op_def opc).1.1 ∧ read_as (op_def opc).1.1 r' = outs.
Proof. intros -> -> Hv <-. exists [v]. rewrite Forall_singleton. done. Qed.

Lemma refine_one opc r imms t v outs :
  (op_def opc).1.1 = [t] → tci_op opc r imms = Ok [v] → in_range (ty_width t) v → [v] = outs →
  ∃ r', tci_op opc r imms = Ok r' ∧ Forall (in_range 64) r' ∧
        length r' = length (op_def opc).1.1 ∧ read_as (op_def opc).1.1 r' = outs.
Proof.
  intros Ht Ho Hv Hs. eapply refine_raw; [done|done| |].
  - apply (in_range_le (ty_width t)); [destruct t; cbn; lia|done].
  - by rewrite wrap_small.
Qed.

Lemma refines_udiv t : refines (INDEX_op_divu t) ∧ refines (INDEX_op_remu t).
Proof.
  repeat split; op_guarded; assert (wrap (ty_width t) z0 ≠ 0) by lia;
    (eapply (refine_one _ _ _ t); [done| | |reflexivity]).
  1, 3: destruct t; cbn [tci_op tci_i32 tci_i64 ty_width] in *; small64;
    by rewrite ?(wrap_small 64) in * by done; rewrite assert_true by lia.
  all: first [apply udiv_range | apply urem_range]; try done; apply wrap_range; destruct t; done.
Qed.

Lemma ty_reg_width t : reg_width (ty_width t).
Proof. destruct t; [by left|by right]. Qed.

Lemma ty_width_pos t : 0 < ty_width t ≤ 64.
Proof. destruct t; cbn; lia. Qed.

Lemma read_range t z : in_range (ty_width t) (wrap (ty_width t) z).
Proof. apply wrap_range. destruct t; cbn; lia. Qed.

Lemma count_fits t k : 0 ≤ k ≤ ty_width t → in_range (ty_width t) k.
Proof. apply width_fits, ty_reg_width. Qed.

Lemma refines_zeros t : refines (INDEX_op_clz t) ∧ refines (INDEX_op_ctz t).
Proof.
  split; op_args; injection Hop as <-; pose proof (read_range t z) as Hz;
    destruct (Z.eqb_spec (wrap (ty_width t) z) 0) as [E|E].
  1, 3: eapply (refine_raw _ _ _ t z0); [done| |done|done];
    destruct t; cbn [ty_width tci_op tci_i32 tci_i64] in *;
    rewrite ?(wrap_small 64) in E by done; by rewrite E.
  all: eapply (refine_one _ _ _ t); [done| | |reflexivity].
  1, 3: destruct t; cbn [ty_width tci_op tci_i32 tci_i64] in *; small64;
    rewrite ?(wrap_small 64) in E by done; rewrite (proj2 (Z.eqb_neq _ _) E);
    unfold clz32, clz64, ctz32, ctz64; by rewrite (proj2 (Z.eqb_neq _ _) E).
  all: apply count_fits; pose proof (clz_bound _ _ Hz E); pose proof (ctz_bound _ _ Hz E); lia.
Qed.

Lemma refines_ctpop t : refines (INDEX_op_ctpop t).
Proof.
  op_args; injection Hop as <-. eapply (refine_one _ _ _ t); [done| | |reflexivity].
  - destruct t; cbn [ty_width tci_op tci_i32 tci_i64]; small64; done.
  - apply count_fits. pose proof (popcount_bounds (Z.to_nat (ty_width t)) (wrap (ty_width t) z)).
    destruct t; cbn in *; lia.
Qed.

Lemma refines_field t : refines (INDEX_op_deposit t) ∧ refines (INDEX_op_extract t).
Proof.
  split; op_guarded; pose proof (read_range t z); pose proof (ty_width_pos t);
    pose proof (proj1 (field_ok_spec _ _ _) Hg) as (? & ? & ?);
    (eapply (refine_one _ _ _ t); [done| | |reflexivity]).
  - destruct t; cbn [ty_width tci_op tci_i32 tci_i64] in *; small64; rewrite ?(wrap_small 64) in * by done;
      unfold deposit32, deposit64; rewrite deposit_eq by done; cbn; do 2 f_equal; unfold put_field; zbits.
  - apply put_field_range; lia || done.
  - destruct t; cbn [ty_width tci_op tci_i32 tci_i64] in *; small64;
      unfold extract32, extract64; by rewrite extract_eq by done.
  - apply wrap_range_le; lia.
Qed.

Lemma refines_sextract t : refines (INDEX_op_sextract t).
Proof.
  op_guarded. pose proof (proj1 (field_ok_spec _ _ _) Hg) as (? & ? & ?).
  destruct t; cbn [ty_width] in *; small64;
    (eapply refine_raw; [reflexivity
      |cbn [tci_op tci_i32 tci_i64]; unfold sextract32, sextract64; rewrite sextract_eq by done; reflexivity
      |by apply wrap_range|]); cbn [ty_width]; one; by rewrite wrap_wrap_le by lia.
Qed.

Lemma bswap_flags_range w n flags x :
  0 ≤ w → 8 * Z.of_nat n ≤ w → in_range w (bswap_flags w n flags x).
Proof.
  intros. unfold bswap_flags. destruct (_ =? 0); [|by apply wrap_range].
  apply (in_range_le (8 * Z.of_nat n)); [lia|apply bswap_range].
Qed.

(** The interpreter swaps at 64 bits; the [w] bits of the result depend only
    on the [w] bits of the operand. *)
Lemma bswap_flags_narrow w n flags z :
  0 ≤ w ≤ 64 → 8 * Z.of_nat n ≤ w →
  wrap w (bswap_flags 64 n flags z) = bswap_flags w n flags (wrap w z).
Proof.
  intros. unfold bswap_flags. rewrite bswap_wrap by lia. destruct (_ =? 0).
  - apply wrap_small. apply (in_range_le (8 * Z.of_nat n)); [lia|apply bswap_range].
  - by rewrite wrap_wrap_le.
Qed.

Lemma refines_bswap t : refines (INDEX_op_bswap16 t) ∧ refines (INDEX_op_bswap32 t).
Proof.
  split; destruct t; op_args; injection Hop as <-.
  1, 2, 4: eapply refine_raw; [reflexivity|reflexivity|by apply bswap_flags_range; [lia|cbn; lia]|];
    cbn [ty_width]; one; apply bswap_flags_narrow; cbn; lia.
  eapply refine_one; [reflexivity|reflexivity|apply (bswap_range 4)|]. one.
  symmetry. by apply (bswap_wrap 4).
Qed.

Lemma refines_bswap64 : refines INDEX_op_bswap64_i64.
Proof.
  op_args; injection Hop as <-. eapply refine_one; [reflexivity|reflexivity|apply (bswap_range 8)|].
  by small64.
Qed.

Lemma with_cond_some code k outs :
  with_cond code k = Some outs →
  ∃ c, cond_of_code code = Some c ∧ cond_proper c = true ∧ outs = k c.
Proof.
  unfold with_cond. destruct (cond_of_code code) as [c|]; [|done].
  intros [? <-]%guard_some. by exists c.
Qed.

Lemma refines_cond t : refines (INDEX_op_setcond t) ∧ refines (INDEX_op_movcond t).
Proof.
  split; op_args; apply with_cond_some in Hop as (c & Hc & Hp & ->).
  - eapply (refine_one _ _ _ t); [done| | |reflexivity].
    + destruct t; cbn [tci_op tci_mixed ty_width]; unfold tci_cond; rewrite Hc; cbn [mbind res_bind];
        unfold tci_compare32, tci_compare64; rewrite tci_compare_holds by done; by small64.
    + apply count_fits. pose proof (ty_width_pos t). destruct (cond_holds _ _ _ _); cbn; lia.
  - set (b := cond_holds _ _ _ _). eapply (refine_raw _ _ _ t (if b then z1 else z2)).
    + done.
    + destruct t; cbn [tci_op tci_mixed ty_width]; unfold tci_cond; rewrite Hc; cbn [mbind res_bind];
        unfold tci_compare32, tci_compare64; rewrite tci_compare_holds by done;
        unfold b; cbn [ty_width]; by small64.
    + by destruct b.
    + by destruct b.
Qed.

Lemma refine_two opc r imms t lo hi outs :
  (op_def opc).1.1 = [t; t] → tci_op opc r imms = Ok [lo; hi] →
  in_range (ty_width t) lo → in_range (ty_width t) hi → [lo; hi] = outs →
  ∃ r', tci_op opc r imms = Ok r' ∧ Forall (in_range 64) r' ∧
        length r' = length (op_def opc).1.1 ∧ read_as (op_def opc).1.1 r' = outs.
Proof.
  intros -> -> Hl Hh <-. exists [lo; hi]. split; [done|].
  assert (ty_width t ≤ 64) by (destruct t; cbn; lia). pose proof (ty_width_pos t).
  split; [|split; [done|unfold read_as; cbn; by rewrite !wrap_small]].
  constructor; [|constructor; [|constructor]]; (apply (in_range_le (ty_width t)); [lia|done]).
Qed.

Lemma split2_wrap w v : 0 < w → split2 w (wrap (2 * w) v) = split2 w v.
Proof. intros. unfold split2. rewrite wrap_wrap_le by lia. f_equal. one. zbits. Qed.

Lemma split2_join w h l : 0 < w →
  split2 w (wrap (2 * w) (h * 2 ^ w + l)) = [wrap w l; wrap w (h + l / 2 ^ w)].
Proof.
  intros. rewrite split2_wrap by done. unfold split2. pose proof (pow2_pos w).
  rewrite Z.shiftr_div_pow2, Z.div_add_l by lia. f_equal.
  unfold wrap. by rewrite Z.add_comm, Z.mod_add by lia.
Qed.

Lemma carry a b w : in_range w a → in_range w b →
  (a + b) / 2 ^ w = Z.b2z (wrap w (a + b) <? a).
Proof.
  unfold in_range. intros ? ?. unfold wrap.
  destruct (Z_lt_le_dec (a + b) (2 ^ w)).
  - rewrite Z.div_small, Z.mod_small by lia. by replace (a + b <? a) with false by lia.
  - rewrite <- (Z.div_unique (a + b) (2 ^ w) 1 (a + b - 2 ^ w)) by lia.
    rewrite <- (Z.mod_unique (a + b) (2 ^ w) 1 (a + b - 2 ^ w)) by lia.
    by replace (_ <? a) with true by lia.
Qed.

Lemma borrow a b w : in_range w a → in_range w b →
  (a - b) / 2 ^ w = - Z.b2z (a <? b).
Proof.
  unfold in_range. intros ? ?. destruct (Z.ltb_spec a b); cbn.
  - by rewrite <- (Z.div_unique (a - b) (2 ^ w) (-1) (a - b + 2 ^ w)) by lia.
  - rewrite Z.div_small; lia.
Qed.

Lemma tci_uint64_join high low : tci_uint64 high low = join 32 (wrap 32 low) (wrap 32 high).
Proof. unfold tci_uint64, join. by rewrite Z.shiftl_mul_pow2. Qed.

Lemma tci_write_split v : tci_write_reg64 v = Ok (split2 32 (wrap 64 v)).
Proof.
  unfold tci_write_reg64, split2. do 3 f_equal. symmetry. apply wrap_small.
  pose proof (wrap_range 64 v ltac:(lia)). zrange.
Qed.

Lemma refine_split opc r imms t v outs :
  (op_def opc).1.1 = [t; t] → tci_op opc r imms = Ok (split2 (ty_width t) v) →
  split2 (ty_width t) v = outs →
  ∃ r', tci_op opc r imms = Ok r' ∧ Forall (in_range 64) r' ∧
        length r' = length (op_def opc).1.1 ∧ read_as (op_def opc).1.1 r' = outs.
Proof.
  intros Ht Ho Hs. pose proof (ty_width_pos t).
  eapply refine_two; [done|done| | |done]; apply wrap_range; lia.
Qed.

Lemma refines_wide_i32 :
  refines (INDEX_op_add2 I32) ∧ refines (INDEX_op_sub2 I32) ∧ refines (INDEX_op_mulu2 I32) ∧
  refines (INDEX_op_muls2 I32).
Proof.
  repeat split; op_args; injection Hop as <-;
    (eapply (refine_split _ _ _ I32); [reflexivity
      |cbn [tci_op tci_i32]; rewrite tci_write_split, ?tci_uint64_join; reflexivity|]);
    cbn [ty_width]; try reflexivity; rewrite (split2_wrap 32) by done; try done.
  unfold split2. by rewrite !sgn_wrap by lia.
Qed.

Lemma refines_wide_i64 :
  refines (INDEX_op_add2 I64) ∧ refines (INDEX_op_sub2 I64) ∧ refines (INDEX_op_mulu2 I64) ∧
  refines (INDEX_op_muls2 I64).
Proof.
  repeat split; op_args; injection Hop as <-;
    (eapply (refine_two _ _ _ I64); [reflexivity|reflexivity|by apply wrap_range|by apply wrap_range|]);
    cbn [ty_width]; small64; try reflexivity; symmetry; unfold join.
  - replace (z0 * 2 ^ 64 + z + (z2 * 2 ^ 64 + z1)) with ((z0 + z2) * 2 ^ 64 + (z + z1)) by lia.
    change 128 with (2 * 64). rewrite split2_join, carry by done. done.
  - replace (z0 * 2 ^ 64 + z - (z2 * 2 ^ 64 + z1)) with ((z0 - z2) * 2 ^ 64 + (z - z1)) by lia.
    change 128 with (2 * 64). by rewrite split2_join, borrow by done.
Qed.

(** A documented result that fits its registers is what [documented]
    returns. *)
Lemma refines_documented opc :
  (∀ r imms, tci_op opc r imms = documented opc r imms) →
  (∀ r imms outs, length r = length (op_def opc).1.2 →
     op_val opc (read_as (op_def opc).1.2 r) imms = Some outs →
     Forall2 (λ t v, in_range (ty_width t) v) (op_def opc).1.1 outs) →
  refines opc.
Proof.
  intros Hd Hfit r imms outs Hlen Hr Hop. specialize (Hfit r imms outs Hlen Hop).
  exists outs. rewrite Hd. unfold documented. change (zip_with _ _ _) with (read_as (op_def opc).1.2 r).
  rewrite Hop. split; [done|].
  clear -Hfit. induction Hfit as [|t v ts vs Hv Hvs (IH1 & IH2 & IH3)].
  - repeat split; constructor.
  - pose proof (ty_width_pos t). split; [constructor; [|done]|split; [cbn; lia|]].
    + apply (in_range_le (ty_width t)); [lia|done].
    + unfold read_as in *. cbn. by rewrite IH3, wrap_small.
Qed.

Ltac doc_fits :=
  apply refines_documented; [done|];
  let r := fresh "r" in let imms := fresh "imms" in let outs := fresh "outs" in
  let Hlen := fresh in let Hop := fresh "Hop" in
  intros r imms outs Hlen Hop; cbn in Hlen;
  repeat (destruct r as [|? r]; cbn in Hlen; try discriminate Hlen); clear Hlen;
  unfold read_as in Hop; cbn [zip_with op_def fst snd op_val] in Hop;
  repeat (destruct imms as [|? imms]; try discriminate Hop).

Lemma refines_rest t :
  refines (INDEX_op_negsetcond t) ∧ refines (INDEX_op_extract2 t) ∧ refines (INDEX_op_muluh t) ∧
  refines (INDEX_op_mulsh t) ∧ refines (INDEX_op_div2 t) ∧ refines (INDEX_op_divu2 t).
Proof.
  assert (W : ∀ z, in_range (ty_width t) (wrap (ty_width t) z)) by apply read_range.
  repeat split; doc_fits.
  - apply with_cond_some in Hop as (c & _ & _ & ->). constructor; [apply W|constructor].
  - apply guard_some in Hop as [_ <-]. constructor; [apply W|constructor].
  - injection Hop as <-. constructor; [apply W|constructor].
  - injection Hop as <-. constructor; [apply W|constructor].
  - apply guard_some in Hop as [_ <-]. constructor; [apply W|constructor; [apply W|constructor]].
  - apply guard_some in Hop as [Hg <-]. pose proof (W z) as [? ?]. pose proof (W z0) as [? ?].
    pose proof (W z1) as [? ?]. unfold in_range. set (n := join _ _ _) in *.
    assert (0 ≤ n) by (unfold n, join; nia).
    pose proof (Z.mod_pos_bound n (wrap (ty_width t) z1)).
    assert (0 ≤ n / wrap (ty_width t) z1) by (apply Z.div_pos; lia).
    constructor; [lia|constructor; [lia|constructor]].
Qed.

Lemma refines_extr : refines INDEX_op_extrl_i64_i32 ∧ refines INDEX_op_extrh_i64_i32.
Proof.
  split; doc_fits; injection Hop as <-; (constructor; [|constructor]); cbn [ty_width].
  - by apply wrap_range.
  - pose proof (wrap_range 64 z ltac:(lia)). zrange.
Qed.

(** Every opcode, at both types. *)
Lemma tci_op_refines opc : refines opc.
Proof.
  destruct opc; try (destruct t);
    first [ apply refines_arith | apply refines_logic | apply refines_ext | apply refines_ext64
          | apply refines_shift | apply refines_rotate | apply refines_sdiv | apply refines_udiv
          | apply refines_zeros | apply refines_ctpop | apply refines_field | apply refines_sextract
          | apply refines_bswap | apply refines_bswap64 | apply refines_cond
          | apply refines_wide_i32 | apply refines_wide_i64 | apply refines_rest | apply refines_extr ].
Qed.
