(* ===== verification/MemOp.v ===== *)
(** Memory operations: the codes of [include/exec/memop.h], their packing with an
    MMU index ([include/exec/memopidx.h]), and the canonical forms that the
    generators of guest accesses use ([tcg/tcg-op-ldst.c]).  The host is
    little-endian. *)
From S2P Require Import Prelude Bitops Ops.

(** ** Codes *)

Definition MO_8 : Z := 0.
Definition MO_16 : Z := 1.
Definition MO_32 : Z := 2.
Definition MO_64 : Z := 3.
Definition MO_128 : Z := 4.
Definition MO_SIZE : Z := 0x07.
Definition MO_SIGN : Z := 0x08.
Definition MO_BSWAP : Z := 0x10.
Definition MO_LE : Z := 0.
Definition MO_BE : Z := MO_BSWAP.
Definition MO_SSIZE : Z := Z.lor MO_SIZE MO_SIGN.

Definition MO_ASHIFT : Z := 5.
Definition MO_AMASK : Z := Z.shiftl 0x7 MO_ASHIFT.
Definition MO_UNALN : Z := 0.
Definition MO_ALIGN_2 : Z := Z.shiftl 1 MO_ASHIFT.
Definition MO_ALIGN_4 : Z := Z.shiftl 2 MO_ASHIFT.
Definition MO_ALIGN_8 : Z := Z.shiftl 3 MO_ASHIFT.
Definition MO_ALIGN_16 : Z := Z.shiftl 4 MO_ASHIFT.
Definition MO_ALIGN_32 : Z := Z.shiftl 5 MO_ASHIFT.
Definition MO_ALIGN_64 : Z := Z.shiftl 6 MO_ASHIFT.
Definition MO_ALIGN : Z := MO_AMASK.

Definition MO_ATOM_SHIFT : Z := 8.
Definition MO_ATOM_NONE : Z := Z.shiftl 5 MO_ATOM_SHIFT.
Definition MO_ATOM_MASK : Z := Z.shiftl 7 MO_ATOM_SHIFT.

(** [op & mask] as a truth value, and [op & ~mask]. *)
Definition has (op mask : Z) : bool := negb (Z.land op mask =? 0).
Definition without (op mask : Z) : Z := Z.ldiff op mask.

Definition memop_size (op : Z) : Z := Z.shiftl 1 (Z.land op MO_SIZE).
Definition memop_big_endian (op : Z) : bool := Z.land op MO_BSWAP =? MO_BE.

Definition get_alignment_bits (memop : Z) : Z :=
  let a := Z.land memop MO_AMASK in
  if a =? MO_UNALN then 0
  else if a =? MO_ALIGN then Z.land memop MO_SIZE
  else Z.shiftr a MO_ASHIFT.

(** With the MMU index in the low four bits. *)
Definition make_memop_idx (op idx : Z) : Z := Z.lor (Z.shiftl op 4) idx.
Definition get_memop (oi : Z) : Z := Z.shiftr oi 4.
Definition get_mmuidx (oi : Z) : Z := Z.land oi 15.

(** The kinds of access ([include/exec/mmu-access-type.h]). *)
Inductive MMUAccessType : Set := MMU_DATA_LOAD | MMU_DATA_STORE | MMU_INST_FETCH.

(** ** Canonical forms *)

(** What the translation context says of the guest: the type of its addresses,
    [tcg_use_softmmu] and [page_bits], [CF_PARALLEL] of the block, and the memory
    order [guest_mo]. *)
Record GuestTb := mkGuestTb {
  addr_type : RegType;
  CONFIG_USER_ONLY : bool;
  tcg_use_softmmu : bool;
  page_bits : Z;
  CF_PARALLEL : bool;
  guest_mo : Z;
}.

Definition check_max_alignment (tb : GuestTb) (a_bits : Z) : bool :=
  if tcg_use_softmmu tb then a_bits + 5 <=? page_bits tb else true.

Definition reduce_atomicity (tb : GuestTb) (op : Z) : Z :=
  if CF_PARALLEL tb then op else Z.lor (without op MO_ATOM_MASK) MO_ATOM_NONE.

Definition tcg_canonicalize_memop (tb : GuestTb) (op : Z) (is64 st : bool) : Res Z :=
  let a_bits := get_alignment_bits op in
  assert_ (check_max_alignment tb a_bits);;
  let op := if a_bits =? Z.land op MO_SIZE then Z.lor (without op MO_AMASK) MO_ALIGN else op in
  let size := Z.land op MO_SIZE in
  op ← (if size =? MO_8 then Ok (without op MO_BSWAP)
        else if size =? MO_16 then Ok op
        else if size =? MO_32 then Ok (if is64 : bool then op else without op MO_SIGN)
        else if (size =? MO_64) && is64 then Ok (without op MO_SIGN)
        else Abort);
  let op := if st : bool then without op MO_SIGN else op in
  Ok (reduce_atomicity tb op).

(** A 128-bit access as two of 64 bits. *)
Definition canonicalize_memop_i128_as_i64 (tcg_target_has_memory_bswap : Z → bool) (orig : Z) : Res (Z * Z) :=
  let mop_1 := Z.lor (without orig MO_SIZE) MO_64 in
  let a := Z.land orig MO_AMASK in
  '(mop_1, mop_2) ←
    (if (a =? MO_UNALN) || (a =? MO_ALIGN_2) || (a =? MO_ALIGN_4) then Ok (mop_1, mop_1)
     else if a =? MO_ALIGN_8 then
       let mop_1 := Z.lor (without mop_1 MO_AMASK) MO_ALIGN in Ok (mop_1, mop_1)
     else if a =? MO_ALIGN then Ok (Z.lor (without mop_1 MO_AMASK) MO_ALIGN_16, mop_1)
     else if (a =? MO_ALIGN_16) || (a =? MO_ALIGN_32) || (a =? MO_ALIGN_64) then
       Ok (mop_1, Z.lor (without mop_1 MO_AMASK) MO_ALIGN)
     else Abort);
  Ok (if has orig MO_BSWAP && negb (tcg_target_has_memory_bswap mop_1)
      then (without mop_1 MO_BSWAP, without mop_2 MO_BSWAP) else (mop_1, mop_2)).

(** ** What the canonical forms keep *)

Lemma memop_idx_roundtrip op idx :
  0 ≤ idx < 16 → get_memop (make_memop_idx op idx) = op ∧ get_mmuidx (make_memop_idx op idx) = idx.
Proof.
  intros H. unfold get_memop, get_mmuidx, make_memop_idx. split.
  - rewrite Z.shiftr_lor, Z.shiftr_shiftl_l, (Z.shiftr_div_pow2 idx), Z.div_small by lia.
    rewrite Z.sub_diag. apply Z.lor_0_r.
  - change 15 with (Z.ones 4). rewrite Z.land_lor_distr_l, !Z.land_ones, Z.shiftl_mul_pow2 by lia.
    by rewrite Z.mod_mul, Z.lor_0_l, Z.mod_small by lia.
Qed.

(** A property of all codes is decided by looking at them. *)
Lemma forall_memop (P : Z → bool) :
  forallb (λ n, P (Z.of_nat n)) (seq 0 2048) = true → ∀ op, 0 ≤ op < 2048 → P op = true.
Proof.
  rewrite forallb_forall. intros H op Hop. rewrite <- (Z2Nat.id op) by lia. apply H, in_seq. lia.
Qed.

(** The canonical form of an access by a generator of a type ([is64]) and
    direction ([st]): which codes have one, and what it keeps. *)
Definition canonical_of (is64 st parallel : bool) (op op' : Z) : bool :=
  (Z.land op' MO_SIZE =? Z.land op MO_SIZE) &&
  (get_alignment_bits op' =? get_alignment_bits op) &&
  Bool.eqb (has op' MO_BSWAP) (has op MO_BSWAP && negb (Z.land op MO_SIZE =? MO_8)) &&
  Bool.eqb (has op' MO_SIGN)
    (has op MO_SIGN && negb st && (Z.land op MO_SIZE <? (if is64 : bool then MO_64 else MO_32))) &&
  (if parallel : bool then Z.land op' MO_ATOM_MASK =? Z.land op MO_ATOM_MASK
   else Z.land op' MO_ATOM_MASK =? MO_ATOM_NONE).

(** Without the check of the alignment, which depends on the page size. *)
Definition unchecked (parallel : bool) : GuestTb := mkGuestTb I64 true false 0 parallel 0.
Lemma canonicalize_unchecked tb op is64 st :
  check_max_alignment tb (get_alignment_bits op) = true →
  tcg_canonicalize_memop tb op is64 st = tcg_canonicalize_memop (unchecked (CF_PARALLEL tb)) op is64 st.
Proof. intros H. unfold tcg_canonicalize_memop. by rewrite H. Qed.

Definition canonical_ok (is64 st parallel : bool) (op : Z) : bool :=
  let fits := Z.land op MO_SIZE <=? (if is64 : bool then MO_64 else MO_32) in
  match tcg_canonicalize_memop (unchecked parallel) op is64 st with
  | Ok op' =>
      fits && (0 <=? op') && (op' <? 2048) && canonical_of is64 st parallel op op' &&
      match tcg_canonicalize_memop (unchecked parallel) op' is64 st with Ok op'' => op'' =? op' | Abort => false end
  | Abort => negb fits
  end.
Lemma canonical_all is64 st parallel op : 0 ≤ op < 2048 → canonical_ok is64 st parallel op = true.
Proof. revert op. apply forall_memop. by destruct is64, st, parallel; vm_compute. Qed.

Lemma canonicalize_spec tb op is64 st :
  0 ≤ op < 2048 → check_max_alignment tb (get_alignment_bits op) = true →
  if Z.land op MO_SIZE <=? (if is64 : bool then MO_64 else MO_32) then
    ∃ op', tcg_canonicalize_memop tb op is64 st = Ok op' ∧ 0 ≤ op' < 2048 ∧
      canonical_of is64 st (CF_PARALLEL tb) op op' = true ∧
      tcg_canonicalize_memop tb op' is64 st = Ok op'
  else tcg_canonicalize_memop tb op is64 st = Abort.
Proof.
  intros Hop Hc. pose proof (canonical_all is64 st (CF_PARALLEL tb) op Hop) as H.
  unfold canonical_ok in H. rewrite <- (canonicalize_unchecked tb) in H by done.
  destruct (tcg_canonicalize_memop tb op is64 st) as [op'|]; [|by destruct (_ <=? _)].
  destruct (Z.land op MO_SIZE <=? _); [|done]. rewrite andb_true_l in H. exists op'. split; [done|].
  apply andb_prop in H as [H H4]. apply andb_prop in H as [H H3]. apply andb_prop in H as [H1 H2].
  split; [lia|]. split; [done|].
  rewrite canonicalize_unchecked.
  - destruct (tcg_canonicalize_memop (unchecked (CF_PARALLEL tb)) op' is64 st); [|done]. by apply Z.eqb_eq in H4 as ->.
  - unfold canonical_of in H3. do 3 apply andb_prop in H3 as [H3 _]. apply andb_prop in H3 as [_ H3].
    by apply Z.eqb_eq in H3 as ->.
Qed.

(** The halves of a 128-bit access: the first keeps the alignment, the second has
    what of it holds eight bytes further. *)
Definition halves_of (bswap : bool) (op : Z) (h : Z * Z) : bool :=
  let '(m1, m2) := h in
  (Z.land m1 MO_SIZE =? MO_64) && (Z.land m2 MO_SIZE =? MO_64) &&
  (get_alignment_bits m1 =? get_alignment_bits op) && (get_alignment_bits m2 =? Z.min 3 (get_alignment_bits op)) &&
  Bool.eqb (has m1 MO_BSWAP) (has op MO_BSWAP && bswap) && Bool.eqb (has m2 MO_BSWAP) (has op MO_BSWAP && bswap) &&
  (Z.land m1 MO_ATOM_MASK =? Z.land op MO_ATOM_MASK) && (Z.land m2 MO_ATOM_MASK =? Z.land op MO_ATOM_MASK).
Lemma halves_spec bswap op :
  0 ≤ op < 2048 → Z.land op MO_SIZE = MO_128 →
  ∃ h, canonicalize_memop_i128_as_i64 (λ _, bswap) op = Ok h ∧ halves_of bswap op h = true.
Proof.
  intros Hop Hs.
  assert (H : (if Z.land op MO_SIZE =? MO_128 then
    match canonicalize_memop_i128_as_i64 (λ _, bswap) op with Ok h => halves_of bswap op h | Abort => false end
    else true) = true).
  { clear Hs. revert op Hop. apply forall_memop. by destruct bswap; vm_compute. }
  rewrite Hs, Z.eqb_refl in H. destruct (canonicalize_memop_i128_as_i64 _ op) as [h|]; [|done]. by exists h.
Qed.
