(* ===== verification/LdstAtomicity.v ===== *)
(** Loads and stores that honour the atomicity of a memory operation
    ([accel/tcg/ldst_atomicity.c.inc], with the generic versions of
    [host/include/generic/host/]).

    A function runs on the host's memory and gives its result together with the
    host accesses it made, in order; it may also leave the CPU loop to run the
    instruction serially, or break an assumption (an assertion, or the alignment
    that [__builtin_assume_aligned] promises).  The loops around compare-and-swap
    are those of a CPU that runs alone; [Atomics] treats interference.  The host is
    little-endian. *)
From S2P Require Import Prelude Bitops Backend SymMemory MemOp.

Definition MO_ATOM_IFALIGN : Z := Z.shiftl 0 MO_ATOM_SHIFT.
Definition MO_ATOM_IFALIGN_PAIR : Z := Z.shiftl 1 MO_ATOM_SHIFT.
Definition MO_ATOM_WITHIN16 : Z := Z.shiftl 2 MO_ATOM_SHIFT.
Definition MO_ATOM_WITHIN16_PAIR : Z := Z.shiftl 3 MO_ATOM_SHIFT.
Definition MO_ATOM_SUBALIGN : Z := Z.shiftl 4 MO_ATOM_SHIFT.

(** What the host can do in one access. *)
Record HostAtomics := mkHostAtomics {
  HAVE_al8 : bool;
  HAVE_al8_fast : bool;
  HAVE_ATOMIC128_RO : bool;
  HAVE_ATOMIC128_RW : bool;
  HAVE_CMPXCHG128 : bool;
}.
(** What the CPU is doing: [cpu_in_serial_context], [page_check_range] for
    [PAGE_WRITE_ORG], which user emulation asks, and the page size. *)
Record LdstCpu := mkLdstCpu {
  cpu_in_serial_context : bool;
  user_only : bool;
  page_writable : Z → Z → bool;
  ldst_page_bits : Z;
}.

(** ** The monad *)

Definition HostAccess : Type := Z * Z.
Inductive Acc (A : Type) : Type :=
| AOk (a : A) (m : Mem) (log : list HostAccess)
| AExit
| AAbort.
Arguments AOk {A} _ _ _.
Arguments AExit {A}.
Arguments AAbort {A}.
Definition Host (A : Type) : Type := Mem → Acc A.
#[export] Instance host_ret : MRet Host := λ A a m, AOk a m [].
#[export] Instance host_bind : MBind Host := λ A B f x m,
  match x m with
  | AOk a m' l => match f a m' with AOk b m'' l' => AOk b m'' (l ++ l') | AExit => AExit | AAbort => AAbort end
  | AExit => AExit
  | AAbort => AAbort
  end.
Definition abort {A} : Host A := λ _, AAbort.
(** [cpu_loop_exit_atomic] *)
Definition exit_atomic {A} : Host A := λ _, AExit.
Definition host_assert (b : bool) : Host unit := if b then mret tt else abort.

(** One access to [n] bytes, and a copy byte by byte. *)
Definition read (n : Z) (p : Z) : Host Z := λ m, AOk (le_join (Z.to_nat n) m p) m [(p, n)].
Definition write (n : Z) (p v : Z) : Host unit := λ m, AOk tt (store_bytes m p n v) [(p, n)].
Definition byte_log (n p : Z) : list HostAccess := (λ j, (p + Z.of_nat j, 1)) <$> seq 0 (Z.to_nat n).
Definition copy_from (n p : Z) : Host Z := λ m, AOk (le_join (Z.to_nat n) m p) m (byte_log n p).
Definition copy_to (n p v : Z) : Host unit := λ m, AOk tt (store_bytes m p n v) (byte_log n p).

Definition aligned (n p : Z) : bool := Z.land p (n - 1) =? 0.

Section Ldst.
Context (H : HostAtomics) (cpu : LdstCpu).

(** ** What is required *)

Definition required_atomicity (p memop : Z) : Host Z :=
  let atom := Z.land memop MO_ATOM_MASK in
  let size := Z.land memop MO_SIZE in
  let half := if size =? 0 then 0 else size - 1 in
  let if_align size := if negb (Z.land p (Z.shiftl 1 size - 1) =? 0) then MO_8 else size in
  atmax ←
    (if atom =? MO_ATOM_NONE then mret MO_8
     else if atom =? MO_ATOM_IFALIGN_PAIR then mret (if_align half)
     else if atom =? MO_ATOM_IFALIGN then mret (if_align size)
     else if atom =? MO_ATOM_WITHIN16 then
       let tmp := Z.land p 15 in mret (if tmp + Z.shiftl 1 size <=? 16 then size else MO_8)
     else if atom =? MO_ATOM_WITHIN16_PAIR then
       let tmp := Z.land p 15 in
       mret (if tmp + Z.shiftl 1 size <=? 16 then size else if tmp + Z.shiftl 1 half =? 16 then half else - half)
     else if atom =? MO_ATOM_SUBALIGN then mret (Z.min size (ctz32 (wrap 32 p)))
     else abort);
  mret (if cpu_in_serial_context cpu then MO_8 else atmax).

(** ** Loads *)

Definition load_atomic2 (pv : Z) : Host Z := host_assert (aligned 2 pv);; read 2 pv.
Definition load_atomic4 (pv : Z) : Host Z := host_assert (aligned 4 pv);; read 4 pv.
Definition load_atomic8 (pv : Z) : Host Z := host_assert (HAVE_al8 H);; host_assert (aligned 8 pv);; read 8 pv.
Definition atomic16_read_ro (pv : Z) : Host Z :=
  host_assert (HAVE_ATOMIC128_RO H);; host_assert (aligned 16 pv);; read 16 pv.
Definition atomic16_read_rw (pv : Z) : Host Z :=
  host_assert (HAVE_ATOMIC128_RW H);; host_assert (aligned 16 pv);; read 16 pv.

(** A page that cannot be written is taken to be immutable. *)
Definition load_atomic8_or_exit (pv : Z) : Host Z :=
  if HAVE_al8 H then load_atomic8 pv
  else if user_only cpu && negb (page_writable cpu pv 8) then host_assert (aligned 8 pv);; read 8 pv
  else exit_atomic.
Definition load_atomic16_or_exit (pv : Z) : Host Z :=
  host_assert (aligned 16 pv);;
  if HAVE_ATOMIC128_RO H then atomic16_read_ro pv
  else if user_only cpu && negb (page_writable cpu pv 16) then read 16 pv
  else if HAVE_ATOMIC128_RW H then atomic16_read_rw pv
  else exit_atomic.

Definition load_atom_extract_al4x2 (pv : Z) : Host Z :=
  let sh := Z.land pv 3 * 8 in
  let pv := without pv 3 in
  a ← load_atomic4 pv;
  b ← load_atomic4 (pv + 4);
  mret (Z.lor (Z.shiftr a sh) (wrap 32 (Z.shiftl b (Z.land (- sh) 31)))).
Definition load_atom_extract_al8x2 (pv : Z) : Host Z :=
  let sh := Z.land pv 7 * 8 in
  let pv := without pv 7 in
  a ← load_atomic8 pv;
  b ← load_atomic8 (pv + 8);
  mret (Z.lor (Z.shiftr a sh) (wrap 64 (Z.shiftl b (Z.land (- sh) 63)))).
Definition load_atom_extract_al8_or_exit (pv s : Z) : Host Z :=
  let o := Z.land pv 7 in
  r ← load_atomic8_or_exit (without pv 7);
  mret (wrap 32 (Z.shiftr r (o * 8))).
Definition load_atom_extract_al16_or_exit (pv s : Z) : Host Z :=
  let o := Z.land pv 7 in
  r ← load_atomic16_or_exit (without pv 7);
  mret (wrap 64 (Z.shiftr r (o * 8))).
(** [host/load-extract-al16-al8.h.inc] *)
Definition load_atom_extract_al16_or_al8 (pv s : Z) : Host Z :=
  let o := Z.land pv 7 in
  let pv' := without pv 7 in
  r ← (if negb (Z.land pv 8 =? 0) then
         host_assert (Z.land pv' 15 =? 8);;
         a ← read 8 pv'; b ← read 8 (pv' + 8);
         mret (Z.lor a (Z.shiftl b 64))
       else atomic16_read_ro pv');
  mret (wrap 64 (Z.shiftr r (o * 8))).

Definition load_atom_4_by_2 (pv : Z) : Host Z :=
  a ← load_atomic2 pv; b ← load_atomic2 (pv + 2); mret (Z.lor (Z.shiftl b 16) a).
Definition load_atom_8_by_2 (pv : Z) : Host Z :=
  a ← load_atom_4_by_2 pv; b ← load_atom_4_by_2 (pv + 4); mret (Z.lor (Z.shiftl b 32) a).
Definition load_atom_8_by_4 (pv : Z) : Host Z :=
  a ← load_atomic4 pv; b ← load_atomic4 (pv + 4); mret (Z.lor (Z.shiftl b 32) a).

Definition left_in_page (pi : Z) : Z := - Z.lor pi (- 2 ^ ldst_page_bits cpu).

Definition load_atom_2 (pv memop : Z) : Host Z :=
  if Z.land pv 1 =? 0 then load_atomic2 pv
  else if HAVE_ATOMIC128_RO H && (8 <? left_in_page pv) then
    r ← load_atom_extract_al16_or_al8 pv 2; mret (wrap 16 r)
  else
    atmax ← required_atomicity pv memop;
    if atmax =? MO_8 then copy_from 2 pv
    else if atmax =? MO_16 then
      if negb (HAVE_al8_fast H) && (Z.land pv 3 =? 1) then
        r ← load_atomic4 (pv - 1); mret (wrap 16 (Z.shiftr r 8))
      else if negb (Z.land pv 15 =? 7) then r ← load_atom_extract_al8_or_exit pv 2; mret (wrap 16 r)
      else r ← load_atom_extract_al16_or_exit pv 2; mret (wrap 16 r)
    else abort.

Definition load_atom_4 (pv memop : Z) : Host Z :=
  if Z.land pv 3 =? 0 then load_atomic4 pv
  else if HAVE_ATOMIC128_RO H && (8 <? left_in_page pv) then
    r ← load_atom_extract_al16_or_al8 pv 4; mret (wrap 32 r)
  else
    atmax ← required_atomicity pv memop;
    if (atmax =? MO_8) || (atmax =? MO_16) || (atmax =? - MO_16) then load_atom_extract_al4x2 pv
    else if atmax =? MO_32 then
      if Z.land pv 4 =? 0 then load_atom_extract_al8_or_exit pv 4
      else r ← load_atom_extract_al16_or_exit pv 4; mret (wrap 32 r)
    else abort.

Definition load_atom_8 (pv memop : Z) : Host Z :=
  if HAVE_al8 H && (Z.land pv 7 =? 0) then load_atomic8 pv
  else if HAVE_ATOMIC128_RO H then load_atom_extract_al16_or_al8 pv 8
  else
    atmax ← required_atomicity pv memop;
    if atmax =? MO_64 then
      (if negb (HAVE_al8 H) && (Z.land pv 7 =? 0) then load_atomic8_or_exit pv;; mret tt else mret tt);;
      load_atom_extract_al16_or_exit pv 8
    else if HAVE_al8_fast H then load_atom_extract_al8x2 pv
    else if atmax =? MO_8 then copy_from 8 pv
    else if atmax =? MO_16 then load_atom_8_by_2 pv
    else if atmax =? MO_32 then load_atom_8_by_4 pv
    else if atmax =? - MO_32 then
      if HAVE_al8 H then load_atom_extract_al8x2 pv else exit_atomic
    else abort.

Definition load_atom_16 (pv memop : Z) : Host Z :=
  let pair (f : Z → Host Z) : Host Z := a ← f pv; b ← f (pv + 8); mret (Z.lor a (Z.shiftl b 64)) in
  if HAVE_ATOMIC128_RO H && (Z.land pv 15 =? 0) then atomic16_read_ro pv
  else
    atmax ← required_atomicity pv memop;
    if atmax =? MO_8 then copy_from 16 pv
    else if atmax =? MO_16 then pair load_atom_8_by_2
    else if atmax =? MO_32 then pair load_atom_8_by_4
    else if atmax =? MO_64 then
      if negb (HAVE_al8 H) then exit_atomic else pair load_atomic8
    else if atmax =? - MO_64 then
      if negb (HAVE_al8 H) then exit_atomic else pair load_atom_extract_al8x2
    else if atmax =? MO_128 then load_atomic16_or_exit pv
    else abort.

(** ** Stores *)

Definition store_atomic2 (pv val : Z) : Host unit := host_assert (aligned 2 pv);; write 2 pv (wrap 16 val).
Definition store_atomic4 (pv val : Z) : Host unit := host_assert (aligned 4 pv);; write 4 pv (wrap 32 val).
Definition store_atomic8 (pv val : Z) : Host unit :=
  host_assert (HAVE_al8 H);; host_assert (aligned 8 pv);; write 8 pv val.
Definition atomic16_set (pv val : Z) : Host unit :=
  host_assert (HAVE_ATOMIC128_RW H);; host_assert (aligned 16 pv);; write 16 pv val.

Definition store_atom_4_by_2 (pv val : Z) : Host unit :=
  store_atomic2 pv val;; store_atomic2 (pv + 2) (Z.shiftr val 16).
Definition store_atom_8_by_2 (pv val : Z) : Host unit :=
  store_atom_4_by_2 pv (wrap 32 val);; store_atom_4_by_2 (pv + 4) (Z.shiftr val 32).
Definition store_atom_8_by_4 (pv val : Z) : Host unit :=
  store_atomic4 pv val;; store_atomic4 (pv + 4) (Z.shiftr val 32).

(** Replaces the bits of [msk] in the word of [n] bytes, by a compare-and-swap that
    succeeds. *)
Definition insert_al (n p val msk : Z) : Host unit := λ m,
  let old := le_join (Z.to_nat n) m p in
  AOk tt (store_bytes m p n (Z.lor (Z.ldiff old msk) val)) [(p, n)].
Definition store_atom_insert_al4 (p val msk : Z) : Host unit :=
  host_assert (aligned 4 p);; insert_al 4 p (wrap 32 val) (wrap 32 msk).
Definition store_atom_insert_al8 (p val msk : Z) : Host unit :=
  host_assert (HAVE_al8 H);; host_assert (aligned 8 p);; insert_al 8 p (wrap 64 val) (wrap 64 msk).
(** [host/store-insert-al16.h.inc] *)
Definition store_atom_insert_al16 (p val msk : Z) : Host unit :=
  host_assert (HAVE_CMPXCHG128 H);; host_assert (aligned 16 p);; insert_al 16 p (wrap 128 val) (wrap 128 msk).

Definition MAKE_64BIT_MASK (shift length : Z) : Z := Z.shiftl (Z.ones length) shift.

Fixpoint store_bytes_leN (pv : Z) (size : nat) (val_le : Z) : Host Z :=
  match size with
  | O => mret val_le
  | S size => write 1 pv (wrap 8 val_le);; store_bytes_leN (pv + 1) size (Z.shiftr val_le 8)
  end.

(** As [store_bytes_leN], atomically on each aligned part; every round stores at least
    one byte, so [size] rounds are enough. *)
Fixpoint store_parts_rec (fuel : nat) (pv size val_le : Z) : Host Z :=
  match fuel with
  | O => abort
  | S fuel =>
      let c := Z.land (Z.lor pv size) 7 in
      '(n, val_le) ←
        (if c =? 4 then store_atomic4 pv val_le;; mret (4, Z.shiftr val_le 32)
         else if (c =? 2) || (c =? 6) then store_atomic2 pv val_le;; mret (2, Z.shiftr val_le 16)
         else if c =? 0 then abort
         else write 1 pv (wrap 8 val_le);; mret (1, Z.shiftr val_le 8));
      let size := size - n in
      if size =? 0 then mret val_le else store_parts_rec fuel (pv + n) size val_le
  end.
Definition store_parts_leN (pv size val_le : Z) : Host Z := store_parts_rec (Z.to_nat size) pv size val_le.

Definition store_whole_le4 (pv size val_le : Z) : Host Z :=
  let sz := size * 8 in
  let o := Z.land pv 3 in
  let sh := o * 8 in
  store_atom_insert_al4 (pv - o) (Z.shiftl val_le sh) (Z.shiftl (MAKE_64BIT_MASK 0 sz) sh);;
  mret (Z.shiftr val_le sz).
Definition store_whole_le8 (pv size val_le : Z) : Host Z :=
  let sz := size * 8 in
  let o := Z.land pv 7 in
  let sh := o * 8 in
  store_atom_insert_al8 (pv - o) (Z.shiftl val_le sh) (Z.shiftl (MAKE_64BIT_MASK 0 sz) sh);;
  mret (Z.shiftr val_le sz).
Definition store_whole_le16 (pv size val_le : Z) : Host Z :=
  let sz := size * 8 in
  let o := Z.land pv 15 in
  let sh := o * 8 in
  let m := if sz <=? 64 then MAKE_64BIT_MASK 0 sz
           else Z.lor (Z.ones 64) (Z.shiftl (MAKE_64BIT_MASK 0 (sz - 64)) 64) in
  store_atom_insert_al16 (pv - o) (Z.shiftl val_le sh) (Z.shiftl m sh);;
  mret (if sz <=? 64 then 0 else Z.shiftr (Z.shiftr val_le 64) (sz - 64)).

Definition store_atom_2 (pv memop val : Z) : Host unit :=
  if Z.land pv 1 =? 0 then store_atomic2 pv val
  else
    atmax ← required_atomicity pv memop;
    if atmax =? MO_8 then copy_to 2 pv val
    else if Z.land pv 3 =? 1 then store_atom_insert_al4 (pv - 1) (Z.shiftl val 8) (MAKE_64BIT_MASK 8 16)
    else if Z.land pv 7 =? 3 then
      if HAVE_al8 H then store_atom_insert_al8 (pv - 3) (Z.shiftl val 24) (MAKE_64BIT_MASK 24 16) else exit_atomic
    else if Z.land pv 15 =? 7 then
      if HAVE_CMPXCHG128 H then store_atom_insert_al16 (pv - 7) (Z.shiftl val 56) (Z.shiftl 0xffff 56) else exit_atomic
    else abort.

Definition store_atom_4 (pv memop val : Z) : Host unit :=
  if Z.land pv 3 =? 0 then store_atomic4 pv val
  else
    atmax ← required_atomicity pv memop;
    if atmax =? MO_8 then copy_to 4 pv val
    else if atmax =? MO_16 then store_atom_4_by_2 pv val
    else if atmax =? - MO_16 then
      let s2 := Z.land pv 3 in
      let s1 := 4 - s2 in
      if s2 =? 1 then val_le ← store_whole_le4 pv s1 val; write 1 (pv + 3) (wrap 8 val_le)
      else if s2 =? 3 then write 1 pv (wrap 8 val);; store_whole_le4 (pv + 1) s2 (Z.shiftr val 8);; mret tt
      else abort
    else if atmax =? MO_32 then
      if Z.land pv 7 <? 4 then
        if HAVE_al8 H then store_whole_le8 pv 4 val;; mret tt else exit_atomic
      else
        if HAVE_CMPXCHG128 H then store_whole_le16 pv 4 val;; mret tt else exit_atomic
    else abort.

Definition store_atom_8 (pv memop val : Z) : Host unit :=
  if HAVE_al8 H && (Z.land pv 7 =? 0) then store_atomic8 pv val
  else
    atmax ← required_atomicity pv memop;
    if atmax =? MO_8 then copy_to 8 pv val
    else if atmax =? MO_16 then store_atom_8_by_2 pv val
    else if atmax =? MO_32 then store_atom_8_by_4 pv val
    else if atmax =? - MO_32 then
      if HAVE_al8 H then
        let s2 := Z.land pv 7 in
        let s1 := 8 - s2 in
        if (1 <=? s2) && (s2 <=? 3) then
          val_le ← store_whole_le8 pv s1 val; store_bytes_leN (pv + s1) (Z.to_nat s2) val_le;; mret tt
        else if (5 <=? s2) && (s2 <=? 7) then
          val_le ← store_bytes_leN pv (Z.to_nat s1) val; store_whole_le8 (pv + s1) s2 val_le;; mret tt
        else abort
      else exit_atomic
    else if atmax =? MO_64 then
      if HAVE_CMPXCHG128 H then store_whole_le16 pv 8 val;; mret tt else exit_atomic
    else abort.

Definition store_atom_16 (pv memop val : Z) : Host unit :=
  let a := wrap 64 val in
  let b := Z.shiftr val 64 in
  if HAVE_ATOMIC128_RW H && (Z.land pv 15 =? 0) then atomic16_set pv val
  else
    atmax ← required_atomicity pv memop;
    if atmax =? MO_8 then copy_to 16 pv val
    else if atmax =? MO_16 then store_atom_8_by_2 pv a;; store_atom_8_by_2 (pv + 8) b
    else if atmax =? MO_32 then store_atom_8_by_4 pv a;; store_atom_8_by_4 (pv + 8) b
    else if atmax =? MO_64 then
      if HAVE_al8 H then store_atomic8 pv a;; store_atomic8 (pv + 8) b else exit_atomic
    else if atmax =? - MO_64 then
      if HAVE_CMPXCHG128 H then
        let s2 := Z.land pv 15 in
        let s1 := 16 - s2 in
        if (1 <=? s2) && (s2 <=? 7) then
          val_le ← store_whole_le16 pv s1 val; store_bytes_leN (pv + s1) (Z.to_nat s2) val_le;; mret tt
        else if (9 <=? s2) && (s2 <=? 15) then
          store_bytes_leN pv (Z.to_nat s1) a;;
          store_whole_le16 (pv + s1) s2 (Z.shiftr val (s1 * 8));; mret tt
        else abort
      else exit_atomic
    else if atmax =? MO_128 then exit_atomic
    else abort.
End Ldst.
