(* ===== verification/LdstAtomicitySpec.v ===== *)
(** The loads and stores of [LdstAtomicity] read and write the bytes they are meant to,
    and honour the atomicity that is required. *)
From S2P Require Import Prelude Bitops Backend SymMemory MemOp LdstAtomicity.

(** ** Runs *)

(** [x] keeps its assumptions; it may leave only if [E]; its result satisfies [Q]. *)
Definition hwp {A} (E : Prop) (x : Host A) (m : Mem) (Q : A → Mem → list HostAccess → Prop) : Prop :=
  match x m with AOk a m' l => Q a m' l | AExit => E | AAbort => False end.

Section Runs.
Context {E : Prop}.
Implicit Types (m : Mem) (l : list HostAccess).

Lemma hwp_ret {A} (a : A) m Q : Q a m [] → hwp E (mret a) m Q.
Proof. done. Qed.
Lemma hwp_bind {A B} (x : Host A) (f : A → Host B) m Q :
  hwp E x m (λ a m1 l1, hwp E (f a) m1 (λ b m2 l2, Q b m2 (l1 ++ l2))) → hwp E (x ≫= f) m Q.
Proof. unfold hwp, mbind, host_bind. destruct (x m); [|done..]. by destruct (f a m0). Qed.
Lemma hwp_mono {A} (x : Host A) m (Q R : A → Mem → list HostAccess → Prop) :
  (∀ a m' l, Q a m' l → R a m' l) → hwp E x m Q → hwp E x m R.
Proof. unfold hwp. intros H. destruct (x m); auto. Qed.
Lemma hwp_assert (b : bool) m (Q : unit → Mem → list HostAccess → Prop) :
  b = true → Q tt m [] → hwp E (host_assert b) m Q.
Proof. by intros ->. Qed.
Lemma hwp_assert_bind {B} (b : bool) (f : Host B) m Q :
  b = true → hwp E f m Q → hwp E (host_assert b;; f) m Q.
Proof. intros -> Hf. unfold hwp in *. unfold mbind, host_bind. cbn. by destruct (f m). Qed.
Lemma hwp_exit {A} m (Q : A → Mem → list HostAccess → Prop) : E → hwp E exit_atomic m Q.
Proof. done. Qed.
End Runs.

(** ** Addresses *)

Definition floor (n p : Z) : Z := p - p mod n.
Lemma land_mask k p : 0 ≤ k → Z.land p (2 ^ k - 1) = p mod 2 ^ k.
Proof. intros. rewrite Z.sub_1_r, <- Z.ones_equiv. by apply Z.land_ones. Qed.
Lemma land_1 p : Z.land p 1 = p mod 2. Proof. by apply (land_mask 1). Qed.
Lemma land_3 p : Z.land p 3 = p mod 4. Proof. by apply (land_mask 2). Qed.
Lemma land_7 p : Z.land p 7 = p mod 8. Proof. by apply (land_mask 3). Qed.
Lemma land_15 p : Z.land p 15 = p mod 16. Proof. by apply (land_mask 4). Qed.
Lemma ldiff_mask k p : 0 ≤ k → Z.ldiff p (2 ^ k - 1) = floor (2 ^ k) p.
Proof.
  intros Hk. unfold floor. rewrite <- (land_mask k) by done. rewrite Z.sub_1_r, <- Z.ones_equiv.
  symmetry. rewrite Z.sub_nocarry_ldiff.
  - rewrite Z.land_comm. zbits.
  - zbits.
Qed.
Lemma without_3 p : without p 3 = floor 4 p. Proof. by apply (ldiff_mask 2). Qed.
Lemma without_7 p : without p 7 = floor 8 p. Proof. by apply (ldiff_mask 3). Qed.

Ltac mlia := unfold floor in *; Z.div_mod_to_equations; lia.

Lemma aligned_2 p : p mod 2 = 0 → aligned 2 p = true.
Proof. intros Hp. unfold aligned. change (2 - 1) with 1. rewrite land_1. lia. Qed.
Lemma aligned_4 p : p mod 4 = 0 → aligned 4 p = true.
Proof. intros Hp. unfold aligned. change (4 - 1) with 3. rewrite land_3. lia. Qed.
Lemma aligned_8 p : p mod 8 = 0 → aligned 8 p = true.
Proof. intros Hp. unfold aligned. change (8 - 1) with 7. rewrite land_7. lia. Qed.
Lemma aligned_16 p : p mod 16 = 0 → aligned 16 p = true.
Proof. intros Hp. unfold aligned. change (16 - 1) with 15. rewrite land_15. lia. Qed.
Lemma below_16 (P : Z → bool) : forallb (λ n, P (Z.of_nat n)) (seq 0 16) = true → ∀ o, 0 ≤ o < 16 → P o = true.
Proof. rewrite forallb_forall. intros H o Ho. rewrite <- (Z2Nat.id o) by lia. apply H, in_seq. lia. Qed.
Lemma land_4 p : (Z.land p 4 =? 0) = (p mod 8 <? 4).
Proof.
  replace (Z.land p 4) with (Z.land (Z.land p 15) 4) by (by rewrite <- Z.land_assoc). rewrite land_15.
  replace (p mod 8) with ((p mod 16) mod 8) by mlia. apply eqb_prop.
  apply (below_16 (λ o, Bool.eqb (Z.land o 4 =? 0) (o mod 8 <? 4))); [done|]. apply Z.mod_pos_bound. lia.
Qed.
Lemma land_8 p : (Z.land p 8 =? 0) = (p mod 16 <? 8).
Proof.
  replace (Z.land p 8) with (Z.land (Z.land p 15) 8) by (by rewrite <- Z.land_assoc). rewrite land_15. apply eqb_prop.
  apply (below_16 (λ o, Bool.eqb (Z.land o 8 =? 0) (o <? 8))); [done|]. apply Z.mod_pos_bound. lia.
Qed.

(** ** Loads *)

Section Loads.
Context (H : HostAtomics) (cpu : LdstCpu) {E : Prop}.
Implicit Types (m : Mem) (l : list HostAccess) (Q : Z → Mem → list HostAccess → Prop).

(** The capabilities that imply others. *)
Record host_ok : Prop := {
  al8_of_fast : HAVE_al8_fast H = true → HAVE_al8 H = true;
  rw_of_ro : HAVE_ATOMIC128_RO H = true → HAVE_ATOMIC128_RW H = true;
  cas_of_rw : HAVE_ATOMIC128_RW H = true → HAVE_CMPXCHG128 H = true;
  al8_of_cas : HAVE_CMPXCHG128 H = true → HAVE_al8 H = true;
}.

Lemma hwp_read n p m Q : Q (le_join (Z.to_nat n) m p) m [(p, n)] → hwp E (read n p) m Q.
Proof. done. Qed.
Lemma hwp_load2 p m Q : p mod 2 = 0 → Q (le_join 2 m p) m [(p, 2)] → hwp E (load_atomic2 p) m Q.
Proof. intros Hp HQ. apply hwp_assert_bind; [by apply aligned_2|done]. Qed.
Lemma hwp_load4 p m Q : p mod 4 = 0 → Q (le_join 4 m p) m [(p, 4)] → hwp E (load_atomic4 p) m Q.
Proof. intros Hp HQ. apply hwp_assert_bind; [by apply aligned_4|done]. Qed.
Lemma hwp_load8 p m Q :
  HAVE_al8 H = true → p mod 8 = 0 → Q (le_join 8 m p) m [(p, 8)] → hwp E (load_atomic8 H p) m Q.
Proof. intros Ha Hp HQ. do 2 (apply hwp_assert_bind; [by (apply aligned_8 || done)|]). done. Qed.
Lemma hwp_read16_ro p m Q :
  HAVE_ATOMIC128_RO H = true → p mod 16 = 0 → Q (le_join 16 m p) m [(p, 16)] → hwp E (atomic16_read_ro H p) m Q.
Proof. intros Ha Hp HQ. do 2 (apply hwp_assert_bind; [by (apply aligned_16 || done)|]). done. Qed.
Lemma hwp_load8_or_exit p m Q :
  (HAVE_al8 H = false → E) → p mod 8 = 0 → Q (le_join 8 m p) m [(p, 8)] → hwp E (load_atomic8_or_exit H cpu p) m Q.
Proof.
  intros HE Hp HQ. unfold load_atomic8_or_exit. destruct (HAVE_al8 H) eqn:Ha; [by apply hwp_load8|].
  destruct (user_only cpu && _); [|by apply hwp_exit, HE]. apply hwp_assert_bind; [by apply aligned_8|done].
Qed.
Lemma hwp_load16_or_exit p m Q :
  (HAVE_ATOMIC128_RW H = false → E) → p mod 16 = 0 → Q (le_join 16 m p) m [(p, 16)] → hwp E (load_atomic16_or_exit H cpu p) m Q.
Proof.
  intros HE Hp HQ. apply hwp_assert_bind; [by apply aligned_16|].
  destruct (HAVE_ATOMIC128_RO H) eqn:Ha; [by apply hwp_read16_ro|]. destruct (user_only cpu && _); [done|].
  destruct (HAVE_ATOMIC128_RW H) eqn:Hw; [|by apply hwp_exit, HE].
  do 2 (apply hwp_assert_bind; [by (apply aligned_16 || done)|]). done.
Qed.

(** Two adjacent words, from the byte [o] of the first. *)
Lemma join_shifted n o m p :
  bytes m → (0 < o < n)%nat →
  let w := 8 * Z.of_nat n in let sh := Z.of_nat o * 8 in
  Z.lor (Z.shiftr (le_join n m p) sh) (wrap w (Z.shiftl (le_join n m (p + Z.of_nat n)) (w - sh)))
  = le_join n m (p + Z.of_nat o).
Proof.
  intros Hm Ho w sh. rewrite <- (le_join_piece (n + n) o n m p) by (done || lia). rewrite <- le_join_pair by done.
  pose proof (le_join_range n m p Hm). pose proof (le_join_range n m (p + Z.of_nat n) Hm).
  replace (8 * Z.of_nat o) with sh by lia. fold w. fold w in H0, H1.
  assert (0 < sh < w) by lia. generalize dependent (le_join n m p). generalize dependent (le_join n m (p + Z.of_nat n)).
  intros b Hb a Ha. zbits.
Qed.

Lemma hwp_al4x2 p m Q :
  bytes m → p mod 4 ≠ 0 → Q (le_join 4 m p) m [(floor 4 p, 4); (floor 4 p + 4, 4)] →
  hwp E (load_atom_extract_al4x2 p) m Q.
Proof.
  intros Hm Hp HQ. unfold load_atom_extract_al4x2. rewrite without_3, land_3.
  apply hwp_bind, hwp_load4; [mlia|]. apply hwp_bind, hwp_load4; [mlia|]. apply hwp_ret.
  assert (Ho : (0 < Z.to_nat (p mod 4) < 4)%nat) by mlia.
  pose proof (join_shifted 4 (Z.to_nat (p mod 4)) m (floor 4 p) Hm Ho) as J. cbv zeta in J.
  rewrite Z2Nat.id in J by mlia. replace (floor 4 p + p mod 4) with p in J by mlia.
  change (8 * Z.of_nat 4) with 32 in J. change (Z.of_nat 4) with 4 in J.
  replace (Z.land (- (p mod 4 * 8)) 31) with (32 - p mod 4 * 8); [by rewrite J|].
  change 31 with (Z.ones 5). rewrite Z.land_ones by lia. change (2 ^ 5) with 32. mlia.
Qed.
Lemma hwp_al8x2 p m Q :
  HAVE_al8 H = true → bytes m → p mod 8 ≠ 0 → Q (le_join 8 m p) m [(floor 8 p, 8); (floor 8 p + 8, 8)] →
  hwp E (load_atom_extract_al8x2 H p) m Q.
Proof.
  intros Ha Hm Hp HQ. unfold load_atom_extract_al8x2. rewrite without_7, land_7.
  apply hwp_bind, hwp_load8; [done|mlia|]. apply hwp_bind, hwp_load8; [done|mlia|]. apply hwp_ret.
  assert (Ho : (0 < Z.to_nat (p mod 8) < 8)%nat) by mlia.
  pose proof (join_shifted 8 (Z.to_nat (p mod 8)) m (floor 8 p) Hm Ho) as J. cbv zeta in J.
  rewrite Z2Nat.id in J by mlia. replace (floor 8 p + p mod 8) with p in J by mlia.
  change (8 * Z.of_nat 8) with 64 in J. change (Z.of_nat 8) with 8 in J.
  replace (Z.land (- (p mod 8 * 8)) 63) with (64 - p mod 8 * 8); [by rewrite J|].
  change 63 with (Z.ones 6). rewrite Z.land_ones by lia. change (2 ^ 6) with 64. mlia.
Qed.

(** [s] bytes of a word of [W], which is then cut to [k] bits. *)
Lemma piece_cut W s k m p b :
  bytes m → 0 ≤ b → 0 < s → b + s ≤ Z.of_nat W → 8 * s ≤ k →
  wrap (8 * s) (wrap k (Z.shiftr (le_join W m p) (b * 8))) = le_join (Z.to_nat s) m (p + b).
Proof.
  intros Hm Hb Hs HW Hk. rewrite wrap_wrap_le by lia.
  pose proof (le_join_piece W (Z.to_nat b) (Z.to_nat s) m p Hm) as J. rewrite !Z2Nat.id in J by lia.
  rewrite <- J by lia. do 2 f_equal. lia.
Qed.

Lemma hwp_al8_or_exit s p m Q :
  (HAVE_al8 H = false → E) → bytes m → 0 < s ≤ 4 → p mod 8 + s ≤ 8 →
  (∀ r, in_range 32 r → wrap (8 * s) r = le_join (Z.to_nat s) m p → Q r m [(floor 8 p, 8)]) →
  hwp E (load_atom_extract_al8_or_exit H cpu p s) m Q.
Proof.
  intros HE Hm Hs Hp HQ. unfold load_atom_extract_al8_or_exit. rewrite without_7, land_7.
  apply hwp_bind, hwp_load8_or_exit; [done|mlia|]. apply hwp_ret, HQ; [by apply wrap_range|].
  rewrite piece_cut by (done || mlia). f_equal. mlia.
Qed.
Lemma hwp_al16_or_exit s p m Q :
  E → bytes m → 0 < s ≤ 8 → p mod 16 < 8 →
  (∀ r, in_range 64 r → wrap (8 * s) r = le_join (Z.to_nat s) m p → Q r m [(floor 16 p, 16)]) →
  hwp E (load_atom_extract_al16_or_exit H cpu p s) m Q.
Proof.
  intros HE Hm Hs Hp HQ. unfold load_atom_extract_al16_or_exit. rewrite without_7, land_7.
  replace (floor 8 p) with (floor 16 p) by mlia.
  apply hwp_bind, hwp_load16_or_exit; [done|mlia|]. apply hwp_ret, HQ; [by apply wrap_range|].
  rewrite piece_cut by (done || mlia). f_equal. mlia.
Qed.
(** The host accesses of [load_atom_extract_al16_or_al8]. *)
Definition al16_or_al8_log (p : Z) : list HostAccess :=
  if p mod 16 <? 8 then [(floor 8 p, 16)] else [(floor 8 p, 8); (floor 8 p + 8, 8)].
Lemma hwp_al16_or_al8 s p m Q :
  HAVE_ATOMIC128_RO H = true → bytes m → 0 < s ≤ 8 →
  (∀ r, in_range 64 r → wrap (8 * s) r = le_join (Z.to_nat s) m p → Q r m (al16_or_al8_log p)) →
  hwp E (load_atom_extract_al16_or_al8 H p s) m Q.
Proof.
  intros HR Hm Hs HQ. unfold load_atom_extract_al16_or_al8. rewrite without_7, land_7, land_8.
  unfold al16_or_al8_log in HQ. apply hwp_bind. destruct (Z.ltb_spec (p mod 16) 8) as [Hp|Hp]; cbn [negb].
  - apply hwp_read16_ro; [done|mlia|]. apply hwp_ret, HQ; [by apply wrap_range|].
    rewrite piece_cut by (done || mlia). f_equal. mlia.
  - apply hwp_assert_bind; [rewrite land_15; mlia|].
    apply hwp_bind. cbn [hwp read]. apply hwp_bind. cbn [hwp read]. apply hwp_ret, hwp_ret, HQ; [by apply wrap_range|].
    rewrite (le_join_pair 8 8) by done. rewrite piece_cut by (done || mlia). f_equal. mlia.
Qed.

Lemma hwp_4_by_2 p m Q :
  bytes m → p mod 2 = 0 → Q (le_join 4 m p) m [(p, 2); (p + 2, 2)] → hwp E (load_atom_4_by_2 p) m Q.
Proof.
  intros Hm Hp HQ. apply hwp_bind, hwp_load2; [done|]. apply hwp_bind, hwp_load2; [mlia|]. apply hwp_ret.
  by rewrite Z.lor_comm, (le_join_pair 2 2).
Qed.
Lemma hwp_8_by_2 p m Q :
  bytes m → p mod 2 = 0 → Q (le_join 8 m p) m [(p, 2); (p + 2, 2); (p + 4, 2); (p + 4 + 2, 2)] →
  hwp E (load_atom_8_by_2 p) m Q.
Proof.
  intros Hm Hp HQ. apply hwp_bind, hwp_4_by_2; [done..|]. apply hwp_bind, hwp_4_by_2; [done|mlia|]. apply hwp_ret.
  by rewrite Z.lor_comm, (le_join_pair 4 4).
Qed.
Lemma hwp_8_by_4 p m Q :
  bytes m → p mod 4 = 0 → Q (le_join 8 m p) m [(p, 4); (p + 4, 4)] → hwp E (load_atom_8_by_4 p) m Q.
Proof.
  intros Hm Hp HQ. apply hwp_bind, hwp_load4; [done|]. apply hwp_bind, hwp_load4; [mlia|]. apply hwp_ret.
  by rewrite Z.lor_comm, (le_join_pair 4 4).
Qed.
End Loads.

(** ** What is required *)

(** An access of [n] bytes at [a] is one host access. *)
Definition within (l : list HostAccess) (a n : Z) : Prop := Exists (λ '(b, k), b ≤ a ∧ a + n ≤ b + k) l.

(** The units of [2 ^ atmax] bytes of an access of [2 ^ s] bytes are atomic; for a negative
    number, the half of the pair that does not cross a 16-byte boundary is. *)
Definition honours (s atmax p : Z) (l : list HostAccess) : Prop :=
  if 0 <=? atmax then
    ∀ j, 0 ≤ j → (j + 1) * 2 ^ atmax ≤ 2 ^ s → within l (p + j * 2 ^ atmax) (2 ^ atmax)
  else
    let h := 2 ^ (- atmax) in
    (p mod 16 + h ≤ 16 → within l p h) ∧ (16 < p mod 16 + h → within l (p + h) h).

(** What [required_atomicity] can ask for, and where. *)
Definition may_require (s p atmax : Z) : Prop :=
  (0 ≤ atmax ≤ s ∧ p mod 2 ^ atmax = 0) ∨ (atmax = s ∧ p mod 16 + 2 ^ s ≤ 16) ∨
  (atmax = - (s - 1) ∧ 16 < p mod 16 + 2 ^ s ∧ p mod 16 + 2 ^ (s - 1) ≠ 16).

(** The code of an access of [2 ^ s] bytes with a defined atomicity. *)
Definition atomic_code (s memop : Z) : Prop :=
  Z.land memop MO_SIZE = s ∧ 0 ≤ Z.land memop MO_ATOM_MASK ≤ MO_ATOM_NONE.

Section Required.
Context (cpu : LdstCpu) {E : Prop}.

Lemma ctz_divides p k : 0 ≤ k ≤ 32 → k ≤ ctz32 (wrap 32 p) → p mod 2 ^ k = 0.
Proof.
  intros Hk Hc. change (wrap k p = 0). apply Z.bits_inj'. intros j Hj. rewrite testbit_wrap, Z.bits_0 by lia.
  destruct (Z.ltb_spec j k); [|done]. cbn.
  replace (Z.testbit p j) with (Z.testbit (wrap 32 p) j)
    by (rewrite testbit_wrap by lia; by replace (j <? 32) with true by lia).
  unfold ctz32 in Hc. destruct (Z.eqb_spec (wrap 32 p) 0) as [->|Hne]; [by rewrite Z.bits_0|].
  pose proof (wrap_range 32 p ltac:(lia)) as [? _]. apply ctz_below; lia.
Qed.
Lemma ctz32_nonneg p : 0 ≤ ctz32 (wrap 32 p).
Proof.
  unfold ctz32. destruct (Z.eqb_spec (wrap 32 p) 0) as [|Hne]; [lia|].
  pose proof (ctz_bound 32 (wrap 32 p) (wrap_range 32 p ltac:(lia)) Hne). lia.
Qed.

Lemma may_byte s p : 1 ≤ s → may_require s p MO_8.
Proof. left. unfold MO_8. split; [lia|]. apply Z.mod_1_r. Qed.
Lemma may_aligned s p k :
  1 ≤ s → 0 ≤ k ≤ s → may_require s p (if negb (Z.land p (2 ^ k - 1) =? 0) then MO_8 else k).
Proof.
  intros Hs Hk. rewrite land_mask by lia.
  destruct (Z.eqb_spec (p mod 2 ^ k) 0); cbn; [by left|by apply may_byte].
Qed.
Lemma may_pair s p :
  1 ≤ s ≤ 4 → 16 < p mod 16 + 2 ^ s →
  may_require s p (if p mod 16 + 2 ^ (s - 1) =? 16 then s - 1 else - (s - 1)).
Proof.
  intros Hs Hp. destruct (Z.eqb_spec (p mod 16 + 2 ^ (s - 1)) 16) as [Eq|]; [|by right; right].
  left. split; [lia|]. assert (s = 1 ∨ s = 2 ∨ s = 3 ∨ s = 4) as [->|[->|[->| ->]]] by lia; cbn in Eq |- *; mlia.
Qed.
Lemma atom_codes s memop (P : Z → Prop) :
  atomic_code s memop → P MO_ATOM_NONE → P MO_ATOM_IFALIGN_PAIR → P MO_ATOM_IFALIGN → P MO_ATOM_WITHIN16 →
  P MO_ATOM_WITHIN16_PAIR → P MO_ATOM_SUBALIGN → P (Z.land memop MO_ATOM_MASK).
Proof.
  intros [_ Ha] H5 H1 H0 H2 H3 H4. set (atom := Z.land memop MO_ATOM_MASK) in *.
  assert (Hm : atom mod 256 = 0).
  { change 256 with (2 ^ 8). rewrite <- Z.land_ones by lia. unfold atom. rewrite <- Z.land_assoc. apply Z.land_0_r. }
  change MO_ATOM_NONE with 1280 in Ha.
  assert (atom = 0 ∨ atom = 256 ∨ atom = 512 ∨ atom = 768 ∨ atom = 1024 ∨ atom = 1280) as Hc by mlia.
  by destruct Hc as [->|[->|[->|[->|[->| ->]]]]].
Qed.

Lemma hwp_required s p memop m (Q : Z → Mem → list HostAccess → Prop) :
  1 ≤ s ≤ 4 → atomic_code s memop →
  (∀ atmax, may_require s p atmax → (cpu_in_serial_context cpu = true → atmax = 0) → Q atmax m []) →
  hwp E (required_atomicity cpu p memop) m Q.
Proof.
  intros Hs Hc HQ. unfold required_atomicity. pose proof Hc as [-> _]. replace (s =? 0) with false by lia.
  assert (HQ' : ∀ a, may_require s p a → Q (if cpu_in_serial_context cpu then MO_8 else a) m []).
  { intros a Hr. apply HQ; destruct (cpu_in_serial_context cpu); try done. apply may_byte. lia. }
  rewrite land_15, !Z.shiftl_1_l. apply hwp_bind. pattern (Z.land memop MO_ATOM_MASK).
  apply (atom_codes s memop _ Hc); apply hwp_ret, hwp_ret, HQ'.
  - apply may_byte. lia.
  - apply may_aligned; lia.
  - apply may_aligned; lia.
  - destruct (Z.leb_spec (p mod 16 + 2 ^ s) 16); [by right; left|]. apply may_byte. lia.
  - destruct (Z.leb_spec (p mod 16 + 2 ^ s) 16); [by right; left|]. by apply may_pair.
  - left. pose proof (ctz32_nonneg p). split; [lia|]. apply ctz_divides; lia.
Qed.
End Required.

(** ** Tiles *)

(** Every piece of the [len] bytes at [lo] that lies in one aligned block of [W] bytes is
    one host access. *)
Definition within_words (W : Z) (l : list HostAccess) (lo len : Z) : Prop :=
  ∀ a n, 0 < n → lo ≤ a → a + n ≤ lo + len → a mod W + n ≤ W → within l a n.

Definition tiles (W p : Z) (k : nat) : list HostAccess := (λ j, (p + Z.of_nat j * W, W)) <$> seq 0 k.

Lemma tiles_S p n : tiles 1 p (S n) = (p, 1) :: tiles 1 (p + 1) n.
Proof.
  unfold tiles. cbn [seq]. rewrite <- fmap_S_seq, fmap_cons, <- list_fmap_compose. cbn. f_equal; [f_equal; lia|].
  apply list_fmap_ext. intros _ j _. cbn. f_equal. lia.
Qed.
Lemma within_words_sub W l lo len lo' len' :
  within_words W l lo len → lo ≤ lo' → lo' + len' ≤ lo + len → within_words W l lo' len'.
Proof. intros Hw H1 H2 a n Hn Ha Hl Hm. apply Hw; lia. Qed.
Lemma within_sub l p len a n : within l p len → p ≤ a → a + n ≤ p + len → within l a n.
Proof. intros Hw Ha Hl. eapply Exists_impl; [|exact Hw]. intros [b k] [? ?]. lia. Qed.
Lemma tiles_within W p k : 0 < W → p mod W = 0 → within_words W (tiles W p k) p (Z.of_nat k * W).
Proof.
  intros HW Hp a n Hn Ha Hl Hm. apply Exists_exists. exists (p + (a - p) / W * W, W).
  assert (Hr : a = p + (a - p) / W * W + a mod W).
  { assert (Hd : (a - p) mod W = a mod W) by (rewrite Zminus_mod, Hp, Z.sub_0_r; apply Z.mod_mod; lia).
    rewrite Z.mod_eq in Hd by lia. lia. }
  pose proof (Z.mod_pos_bound a W HW). split; [|split; lia].
  apply in_map_iff. exists (Z.to_nat ((a - p) / W)).
  assert (0 ≤ (a - p) / W) by (apply Z.div_pos; lia). rewrite Z2Nat.id by lia. split; [done|].
  apply in_seq. assert ((a - p) / W < Z.of_nat k); [|lia]. apply Z.div_lt_upper_bound; lia.
Qed.
Lemma byte_log_tiles n p : byte_log n p = tiles 1 p (Z.to_nat n).
Proof. unfold byte_log, tiles. apply list_fmap_ext. intros _ j _. f_equal. lia. Qed.

(** What the tiles give: units that are aligned fit them, and so does the half of a pair
    of at most their size that does not cross a 16-byte boundary. *)
Lemma honours_words w s atmax p l :
  1 ≤ s ≤ 4 → 0 ≤ w ≤ 4 → within_words (2 ^ w) l p (2 ^ s) → may_require s p atmax →
  (0 ≤ atmax → atmax ≤ w ∧ (p mod 2 ^ atmax ≠ 0 → w = 4)) → (atmax < 0 → s ≤ w) → honours s atmax p l.
Proof.
  intros Hs Hw Hl Hr Hpos Hneg. unfold honours. destruct (Z.leb_spec 0 atmax) as [Ha|Ha].
  - intros j Hj Hjs. destruct (Hpos Ha) as [Hle Hal]. assert (0 < 2 ^ atmax) by (apply Z.pow_pos_nonneg; lia).
    apply Hl; [done|nia|nia|]. destruct (Z.eq_dec (p mod 2 ^ atmax) 0) as [E|N].
    + assert (atmax = 0 ∨ atmax = 1 ∨ atmax = 2 ∨ atmax = 3 ∨ atmax = 4) as Hc by lia.
      assert (w = 0 ∨ w = 1 ∨ w = 2 ∨ w = 3 ∨ w = 4) as Hc' by lia.
      destruct Hc as [->|[->|[->|[->| ->]]]]; destruct Hc' as [->|[->|[->|[->| ->]]]]; try lia; cbn in *; mlia.
    + rewrite (Hal N). destruct Hr as [[_ Hr]|[[-> Hr]|[-> _]]]; [done| |].
      2: { replace s with 1 in N by lia. by rewrite Z.mod_1_r in N. }
      assert (j = 0) as -> by nia. rewrite Z.mul_0_l, Z.add_0_r. exact Hr.
  - specialize (Hneg Ha). destruct Hr as [Hr|[[-> _]|(-> & H1 & H2)]]; [lia|lia|].
    assert (s = 2 ∨ s = 3 ∨ s = 4) as Hc by lia. assert (w = 2 ∨ w = 3 ∨ w = 4) as Hc' by lia.
    split; intros H3; (apply Hl;
      [apply Z.pow_pos_nonneg; lia|..]; destruct Hc as [->|[->| ->]]; destruct Hc' as [->|[->| ->]]; try lia; cbn in *; mlia).
Qed.
Lemma honours_whole s atmax p l : 1 ≤ s ≤ 4 → may_require s p atmax → within l p (2 ^ s) → honours s atmax p l.
Proof.
  intros Hs Hr Hl. unfold honours. destruct (Z.leb_spec 0 atmax) as [Ha|Ha].
  - intros j Hj Hjs. assert (0 < 2 ^ atmax) by (apply Z.pow_pos_nonneg; lia).
    eapply within_sub; [exact Hl|nia|nia].
  - destruct Hr as [Hr|[[-> _]|(-> & _)]]; [lia|lia|]. assert (Hd : 2 ^ s = 2 * 2 ^ (- - (s - 1))).
    { rewrite <- Z.pow_succ_r by lia. f_equal. lia. }
    assert (0 < 2 ^ (- - (s - 1))) by (apply Z.pow_pos_nonneg; lia).
    split; intros _; (eapply within_sub; [exact Hl|lia|lia]).
Qed.

(** ** The loads *)

(** The page of the access, by its first byte and the one after its last; it is a
    multiple of 16 bytes. *)
Record in_page (cpu : LdstCpu) (p n F L : Z) : Prop := {
  page_start : F mod 16 = 0 ∧ F ≤ p;
  page_end : L mod 16 = 0 ∧ p + n ≤ L;
  page_left : left_in_page cpu p = L - p;
}.
Lemma page_bounds cpu p n :
  4 ≤ ldst_page_bits cpu → 0 < n → let P := 2 ^ ldst_page_bits cpu in
  p mod P + n ≤ P → in_page cpu p n (floor P p) (floor P p + P).
Proof.
  intros Hb Hn P Hp. set (b := ldst_page_bits cpu) in *.
  assert (HP : 0 < P) by (apply Z.pow_pos_nonneg; lia). pose proof (Z.mod_pos_bound p P HP).
  assert (Hf : floor P p = P * (p / P)) by (unfold floor; rewrite Z.mod_eq by lia; lia).
  assert (H16 : P = 2 ^ (b - 4) * 16) by (change 16 with (2 ^ 4); rewrite <- Z.pow_add_r by lia; f_equal; lia).
  assert (E1 : floor P p mod 16 = 0) by (rewrite Hf, H16; rewrite <- Z.mul_assoc, (Z.mul_comm 16), Z.mul_assoc; apply Z_mod_mult).
  split.
  - split; [done|]. unfold floor. lia.
  - split; [|unfold floor; lia]. rewrite Zplus_mod, E1, H16, Z_mod_mult. done.
  - unfold left_in_page. fold b P. assert (E : Z.lor p (- P) = p mod P - P); [|unfold floor; lia].
    assert (Hm : - P = Z.lnot (Z.ones b)) by (unfold Z.lnot; rewrite Z.ones_equiv; unfold P; lia).
    change (p mod P) with (wrap b p). rewrite <- Z.add_opp_r, Hm, Z.add_nocarry_lxor; zbits.
Qed.

(** A list of accesses is one of tiles. *)
Ltac tile_eq := unfold tiles; cbn; repeat (apply f_equal2; [apply f_equal2; [lia|done]|]); done.

Section Main.
Context (H : HostAtomics) (cpu : LdstCpu) (HH : host_ok H).

Abbreviation parallel := (cpu_in_serial_context cpu = false).
Definition inside (F L : Z) (l : list HostAccess) : Prop := Forall (λ '(b, k), F ≤ b ∧ b + k ≤ L) l.

(** The access [r] is honoured for an access of [2 ^ s] bytes and stays in its page. *)
Definition kept_atomic (s p memop : Z) (m : Mem) (F L : Z) (l : list HostAccess) : Prop :=
  (∀ atmax, required_atomicity cpu p memop m = AOk atmax m [] → honours s atmax p l) ∧ inside F L l.
Definition loaded_ok (s p memop : Z) (m : Mem) (F L : Z) (v : Z) (m' : Mem) (l : list HostAccess) : Prop :=
  v = le_join (Z.to_nat (2 ^ s)) m p ∧ m' = m ∧ kept_atomic s p memop m F L l.

Lemma required_known s p memop m :
  1 ≤ s ≤ 4 → atomic_code s memop →
  ∃ atmax, required_atomicity cpu p memop m = AOk atmax m [] ∧ may_require s p atmax ∧
    (cpu_in_serial_context cpu = true → atmax = 0).
Proof.
  intros Hs Hc. pose proof (hwp_required cpu (E := False) s p memop m (λ a m' l, m' = m ∧ l = [] ∧ may_require s p a ∧
    (cpu_in_serial_context cpu = true → a = 0)) Hs Hc) as Hr. unfold hwp in Hr.
  destruct (required_atomicity cpu p memop m) as [a m' l| |]; [|by destruct Hr..].
  destruct Hr as (-> & -> & Hr); [done|]. by exists a.
Qed.
Lemma hwp_known {A B} E (x : Host A) (f : A → Host B) m a Q :
  x m = AOk a m [] → hwp E (f a) m Q → hwp E (x ≫= f) m Q.
Proof. intros Hx Hf. unfold hwp, mbind, host_bind in *. rewrite Hx. by destruct (f a m). Qed.

(** It is enough to honour the atomicity that is required, and any that may be. *)
Lemma kept_of s p memop m F L l atmax :
  required_atomicity cpu p memop m = AOk atmax m [] → honours s atmax p l → inside F L l → kept_atomic s p memop m F L l.
Proof. intros Hr Hh Hi. split; [|done]. intros a Ha. rewrite Hr in Ha. by injection Ha as <-. Qed.
Lemma kept_any s p memop m F L l :
  1 ≤ s ≤ 4 → atomic_code s memop → (∀ atmax, may_require s p atmax → honours s atmax p l) → inside F L l →
  kept_atomic s p memop m F L l.
Proof.
  intros Hs Hc Hh Hi. destruct (required_known s p memop m Hs Hc) as (a & Ha & Hm & _). by eapply kept_of; [|apply Hh|].
Qed.
Lemma kept_whole s p memop m F L b k :
  1 ≤ s ≤ 4 → atomic_code s memop → b ≤ p → p + 2 ^ s ≤ b + k → F ≤ b → b + k ≤ L →
  kept_atomic s p memop m F L [(b, k)].
Proof.
  intros Hs Hc H1 H2 H3 H4. apply kept_any; [done|done| |by constructor].
  intros a Ha. apply honours_whole; [done|done|]. by left.
Qed.

(** Unaligned, from words of eight or sixteen bytes. *)
Lemma al16_or_al8_honours s p atmax :
  1 ≤ s ≤ 3 → p mod 2 ^ s ≠ 0 → may_require s p atmax → honours s atmax p (al16_or_al8_log p).
Proof.
  intros Hs Hp Hr. unfold al16_or_al8_log. destruct (Z.ltb_spec (p mod 16) 8) as [Ho|Ho].
  - apply honours_whole; [lia|done|]. left. assert (s = 1 ∨ s = 2 ∨ s = 3) as [->|[->| ->]] by lia; cbn; mlia.
  - assert (Ht : [(floor 8 p, 8); (floor 8 p + 8, 8)] = tiles 8 (floor 8 p) 2)
      by (unfold tiles; cbn; repeat f_equal; lia).
    rewrite Ht. pose proof (tiles_within 8 (floor 8 p) 2 ltac:(lia) ltac:(mlia)) as Hw.
    destruct (Z.le_gt_cases (p mod 8 + 2 ^ s) 8) as [Hin|Hout].
    + apply honours_whole; [lia|done|]. apply Hw; [apply Z.pow_pos_nonneg; lia|mlia|mlia|done].
    + apply (honours_words 3); [lia|lia| |done| |lia].
      * eapply within_words_sub; [exact Hw|mlia|]. assert (2 ^ s ≤ 2 ^ 3) by (apply Z.pow_le_mono_r; lia). mlia.
      * intros Ha. destruct Hr as [[Hr Hm]|[[-> Hm]|[-> Hm]]].
        -- split; [lia|]. done.
        -- exfalso. mlia.
        -- assert (s = 1) as -> by lia. split; [lia|]. intros N. by rewrite Z.mod_1_r in N.
Qed.

Lemma al16_or_al8_inside s p F L :
  1 ≤ s ≤ 3 → p mod 2 ^ s ≠ 0 → in_page cpu p (2 ^ s) F L → 8 < L - p ∨ s = 3 → inside F L (al16_or_al8_log p).
Proof.
  intros Hs Hp [[P1 P2] [P3 P4] _] Hl. unfold al16_or_al8_log.
  destruct (Z.ltb_spec (p mod 16) 8) as [Ho|Ho]; repeat (constructor; [mlia|]); try apply Forall_nil_2;
    (constructor; [|apply Forall_nil_2]); destruct Hl as [Hl| ->]; cbn in *; mlia.
Qed.

(** The tiles of an unaligned access that is read from two words. *)
Lemma pair_tiles W p : [(floor W p, W); (floor W p + W, W)] = tiles W (floor W p) 2.
Proof. unfold tiles. cbn. repeat f_equal; lia. Qed.
Lemma pair_honours w s p atmax :
  1 ≤ s ≤ w → w ≤ 3 → may_require s p atmax → atmax ≠ s ∨ p mod 2 ^ atmax = 0 →
  honours s atmax p [(floor (2 ^ w) p, 2 ^ w); (floor (2 ^ w) p + 2 ^ w, 2 ^ w)].
Proof.
  intros Hs Hw Hr Hns. rewrite pair_tiles. assert (0 < 2 ^ w) by (apply Z.pow_pos_nonneg; lia).
  assert (2 ^ s ≤ 2 ^ w) by (apply Z.pow_le_mono_r; lia). pose proof (Z.mod_pos_bound p (2 ^ w)).
  assert (Hf : floor (2 ^ w) p mod 2 ^ w = 0).
  { unfold floor. rewrite Zminus_mod, Z.mod_mod, Z.sub_diag by lia. apply Z.mod_0_l. lia. }
  apply (honours_words w); [lia|lia| |done| |lia].
  - eapply within_words_sub; [by apply tiles_within|unfold floor; lia|unfold floor; lia].
  - intros Ha. destruct Hr as [[Hr Hm]|[[-> Hm]|[-> Hm]]].
    + by split; [lia|].
    + split; [lia|]. by destruct Hns.
    + assert (s = 1) as -> by lia. split; [lia|]. intros N. by rewrite Z.mod_1_r in N.
Qed.
Lemma bytes_honour s p n : 0 ≤ s → n = 2 ^ s → honours s MO_8 p (byte_log n p).
Proof.
  intros Hs ->. rewrite byte_log_tiles. intros j Hj Hjs. change (2 ^ MO_8) with 1 in *.
  apply (tiles_within 1 p (Z.to_nat (2 ^ s))); rewrite ?Z.mod_1_r; lia.
Qed.
Lemma bytes_inside n p F L : F ≤ p → p + n ≤ L → inside F L (byte_log n p).
Proof.
  intros HF HL. apply Forall_fmap, Forall_forall. intros j Hj%in_seq. cbn. lia.
Qed.

Lemma pair_ok s a p memop m F L :
  2 ≤ s ≤ 3 → required_atomicity cpu p memop m = AOk a m [] → may_require s p a → a ≠ s → p mod 2 ^ s ≠ 0 →
  in_page cpu p (2 ^ s) F L →
  kept_atomic s p memop m F L [(floor (2 ^ s) p, 2 ^ s); (floor (2 ^ s) p + 2 ^ s, 2 ^ s)].
Proof.
  intros Hs Ha Hr Hns Hp [[P1 P2] [P3 P4] _]. eapply kept_of; [done|apply pair_honours; [lia|lia|done|by left]|].
  assert (s = 2 ∨ s = 3) as [-> | ->] by lia; cbn in *; (constructor; [mlia|]; constructor; [mlia|]; by constructor).
Qed.
Lemma parallel_of a : (cpu_in_serial_context cpu = true → a = 0) → a ≠ MO_8 → parallel.
Proof. intros Hs Ha. destruct (cpu_in_serial_context cpu); [by destruct Ha; apply Hs|done]. Qed.

(** A value that was read in one access that covers it. *)
Ltac one_access := split; [done|]; split; [done|]; rewrite ?app_nil_r; apply kept_whole; cbn; [lia|done|mlia..].

Theorem load_atom_2_ok p memop m F L :
  bytes m → atomic_code 1 memop → in_page cpu p 2 F L →
  hwp parallel (load_atom_2 H cpu p memop) m (loaded_ok 1 p memop m F L).
Proof.
  intros Hm Hc Hpg. pose proof Hpg as [[P1 P2] [P3 P4] Hleft]. unfold load_atom_2. rewrite land_1, land_3, land_15, Hleft.
  destruct (Z.eqb_spec (p mod 2) 0) as [Hal|Hal].
  { apply hwp_load2; [done|]. one_access. }
  destruct (HAVE_ATOMIC128_RO H && (8 <? L - p)) eqn:EF.
  { apply andb_prop in EF as [Hro Hlp]. apply hwp_bind, hwp_al16_or_al8; [done|done|lia|]. intros r _ Hr. apply hwp_ret.
    split; [done|]. split; [done|]. rewrite app_nil_r. apply kept_any; [lia|done|by intros; apply al16_or_al8_honours; [lia|..]|].
    apply (al16_or_al8_inside 1); [lia|done|done|lia]. }
  clear EF. destruct (required_known 1 p memop m ltac:(lia) Hc) as (a & Ha & Hr & Hser). eapply hwp_known; [exact Ha|].
  destruct (Z.eqb_spec a MO_8) as [->|Na].
  { split; [done|]. split; [done|]. eapply kept_of; [done|by apply bytes_honour|by apply bytes_inside]. }
  pose proof (parallel_of a Hser Na) as Hb.
  assert (a = 1 ∧ p mod 16 + 2 ≤ 16) as [-> Ho].
  { destruct Hr as [[Hr1 Hr2]|[[-> Hr]|[-> Hr]]]; [|done|done]. assert (a = 1) as -> by (unfold MO_8 in Na; lia). done. }
  cbn [Z.eqb MO_16 Pos.eqb]. destruct (negb (HAVE_al8_fast H) && (p mod 4 =? 1)) eqn:EQ.
  { apply andb_prop in EQ as [_ EQ]. apply hwp_bind, hwp_load4; [mlia|]. apply hwp_ret. split; [|split; [done|]].
    - pose proof (le_join_piece 4 1 2 m (p - 1) Hm ltac:(lia)) as J. change (Z.of_nat 1) with 1 in J.
      replace (p - 1 + 1) with p in J by lia. exact J.
    - rewrite app_nil_r. apply kept_whole; cbn; [lia|done|mlia..]. }
  destruct (Z.eqb_spec (p mod 16) 7) as [H7|H7]; cbn [negb].
  - apply hwp_bind, hwp_al16_or_exit; [done|done|lia|mlia|]. intros r _ Hv. apply hwp_ret. one_access.
  - apply hwp_bind, hwp_al8_or_exit; [done|done|lia|mlia|]. intros r _ Hv. apply hwp_ret. one_access.
Qed.

Theorem load_atom_4_ok p memop m F L :
  bytes m → atomic_code 2 memop → in_page cpu p 4 F L →
  hwp parallel (load_atom_4 H cpu p memop) m (loaded_ok 2 p memop m F L).
Proof.
  intros Hm Hc Hpg. pose proof Hpg as [[P1 P2] [P3 P4] Hleft]. unfold load_atom_4. rewrite land_3, land_4, Hleft.
  destruct (Z.eqb_spec (p mod 4) 0) as [Hal|Hal]; [apply hwp_load4; [done|]; one_access|].
  destruct (HAVE_ATOMIC128_RO H && (8 <? L - p)) eqn:EF.
  { apply andb_prop in EF as [Hro Hlp]. apply hwp_bind, hwp_al16_or_al8; [done|done|lia|]. intros r _ Hr. apply hwp_ret.
    split; [done|]. split; [done|]. rewrite app_nil_r. apply kept_any; [lia|done|by intros; apply al16_or_al8_honours; [lia|..]|].
    apply (al16_or_al8_inside 2); [lia|done|done|lia]. }
  clear EF. destruct (required_known 2 p memop m ltac:(lia) Hc) as (a & Ha & Hr & Hser). eapply hwp_known; [exact Ha|].
  destruct ((a =? MO_8) || (a =? MO_16) || (a =? - MO_16)) eqn:EA.
  { apply hwp_al4x2; [done|done|]. split; [done|]. split; [done|]. apply (pair_ok 2 a); try done. unfold MO_8, MO_16 in EA. lia. }
  assert (a = 2 ∧ p mod 16 + 4 ≤ 16) as [-> Ho].
  { unfold MO_8, MO_16 in EA. destruct Hr as [[Hr1 Hr2]|[[-> Hr]|[-> Hr]]]; [|done|lia].
    assert (a = 2) as -> by lia. done. }
  pose proof (parallel_of 2 Hser ltac:(done)) as Hb. cbn [Z.eqb MO_32 Pos.eqb].
  destruct (Z.ltb_spec (p mod 8) 4).
  - apply hwp_al8_or_exit; [done|done|lia|mlia|]. intros r Hr32 Hv.
    rewrite (wrap_small (8 * 4)) in Hv by done. one_access.
  - apply hwp_bind, hwp_al16_or_exit; [done|done|lia|mlia|]. intros r _ Hv. apply hwp_ret. one_access.
Qed.

(** Values read from tiles. *)
Lemma tiles_ok s w a p memop m F L k l :
  1 ≤ s ≤ 4 → 0 ≤ w ≤ 3 → required_atomicity cpu p memop m = AOk a m [] → may_require s p a →
  p mod 2 ^ w = 0 → 0 ≤ a ≤ w → l = tiles (2 ^ w) p k → Z.of_nat k * 2 ^ w = 2 ^ s → F ≤ p → p + 2 ^ s ≤ L →
  kept_atomic s p memop m F L l.
Proof.
  intros Hs Hw Ha Hr Hp Haw -> Hk HF HL. assert (0 < 2 ^ w) by (apply Z.pow_pos_nonneg; lia).
  eapply kept_of; [done| |].
  - apply (honours_words w); [done|lia| |done| |lia].
    + rewrite <- Hk. by apply tiles_within.
    + intros _. split; [lia|]. intros N. destruct N. assert (2 ^ a ≠ 0) by (apply Z.pow_nonzero; lia).
      apply Z.mod_divide; [done|]. apply Z.mod_divide in Hp; [|lia]. etrans; [|exact Hp].
      exists (2 ^ (w - a)). rewrite <- Z.pow_add_r by lia. f_equal. lia.
  - apply Forall_fmap, Forall_forall. intros j Hj%in_seq. cbn. nia.
Qed.

(** Where neither half nor eighth bytes of a host without 64-bit atomics are in the way. *)
Theorem load_atom_8_ok p memop m F L :
  bytes m → atomic_code 3 memop → in_page cpu p 8 F L → HAVE_al8 H = true ∨ user_only cpu = false →
  hwp parallel (load_atom_8 H cpu p memop) m (loaded_ok 3 p memop m F L).
Proof.
  intros Hm Hc Hpg Hu. pose proof Hpg as [[P1 P2] [P3 P4] Hleft]. unfold load_atom_8. rewrite land_7.
  destruct (HAVE_al8 H && (p mod 8 =? 0)) eqn:EA.
  { apply andb_prop in EA as [Ha Hal]. apply hwp_load8; [done|lia|]. one_access. }
  destruct (HAVE_ATOMIC128_RO H) eqn:EF.
  { assert (HAVE_al8 H = true) as Ha by (by apply al8_of_cas, cas_of_rw, rw_of_ro). rewrite Ha in EA. cbn in EA.
    assert (p mod 8 ≠ 0) by lia. eapply hwp_al16_or_al8; [done|done|lia|]. intros r Hr64 Hr.
    rewrite (wrap_small (8 * 8)) in Hr by done. split; [done|]. split; [done|].
    apply kept_any; [lia|done|by intros; apply al16_or_al8_honours; [lia|..]|]. apply (al16_or_al8_inside 3); [lia|done|done|by right]. }
  destruct (required_known 3 p memop m ltac:(lia) Hc) as (a & Ha & Hr & Hser). eapply hwp_known; [exact Ha|].
  destruct (Z.eqb_spec a MO_64) as [->|N64].
  { pose proof (parallel_of _ Hser ltac:(done)) as Hb. apply hwp_bind.
    destruct (HAVE_al8 H) eqn:E8; [|destruct (Z.eqb_spec (p mod 8) 0)]; cbn [negb andb] in EA |- *.
    2: { destruct Hu as [|Hu]; [done|]. unfold load_atomic8_or_exit. rewrite E8, Hu. by apply hwp_bind, hwp_exit. }
    all: assert (p mod 8 ≠ 0) by lia; assert (p mod 16 < 8) by (destruct Hr as [[_ Hr]|[[_ Hr]|[Hr _]]]; unfold MO_64 in Hr; cbn in Hr; mlia).
    all: apply hwp_ret, hwp_al16_or_exit; [done|done|lia|done|]; intros r Hr64 Hv;
      rewrite (wrap_small (8 * 8)) in Hv by done; one_access. }
  destruct (HAVE_al8_fast H) eqn:Efast.
  { pose proof (al8_of_fast _ HH Efast) as E8. rewrite E8 in EA. cbn in EA.
    assert (p mod 8 ≠ 0) by lia. apply hwp_al8x2; [done..|]. split; [done|]. split; [done|]. by apply (pair_ok 3 a). }
  destruct (Z.eqb_spec a MO_8) as [->|N8].
  { split; [done|]. split; [done|]. eapply kept_of; [done|by apply bytes_honour|by apply bytes_inside]. }
  destruct (Z.eqb_spec a MO_16) as [->|N16].
  { assert (p mod 2 = 0) by (by destruct Hr as [[_ Hr]|[[Hr _]|[Hr _]]]). apply hwp_8_by_2; [done|done|].
    split; [done|]. split; [done|]. apply (tiles_ok 3 1 MO_16 p memop m F L 4); try (done || lia). tile_eq. }
  destruct (Z.eqb_spec a MO_32) as [->|N32].
  { assert (p mod 4 = 0) by (by destruct Hr as [[_ Hr]|[[Hr _]|[Hr _]]]). apply hwp_8_by_4; [done|done|].
    split; [done|]. split; [done|]. apply (tiles_ok 3 2 MO_32 p memop m F L 2); try (done || lia). tile_eq. }
  assert (a = - MO_32) as ->.
  { unfold MO_8, MO_16, MO_32, MO_64 in *. destruct Hr as [[Hr _]|[[-> _]|[-> _]]]; [lia|done|done]. }
  cbn [Z.eqb Z.opp MO_32 Pos.eqb]. pose proof (parallel_of _ Hser ltac:(done)) as Hb.
  destruct (HAVE_al8 H) eqn:E8; [|by apply hwp_exit]. cbn in EA.
  assert (p mod 8 ≠ 0) by lia. apply hwp_al8x2; [done..|]. split; [done|]. split; [done|]. by apply (pair_ok 3 (- MO_32)).
Qed.

(** A pair of 64-bit values, of which one crosses a 16-byte boundary, is read without
    regard to the other one's atomicity. *)
Definition loaded16_ok (p memop : Z) (m : Mem) (F L : Z) (v : Z) (m' : Mem) (l : list HostAccess) : Prop :=
  v = le_join 16 m p ∧ m' = m ∧ inside F L l ∧
  (∀ atmax, required_atomicity cpu p memop m = AOk atmax m [] → 0 ≤ atmax → honours 4 atmax p l).
Lemma loaded16_of p memop m F L l : kept_atomic 4 p memop m F L l → loaded16_ok p memop m F L (le_join 16 m p) m l.
Proof. intros [Hh Hi]. split; [done|]. split; [done|]. split; [done|]. intros a Ha _. by apply Hh. Qed.
Lemma pair64 m p : bytes m → Z.lor (le_join 8 m p) (Z.shiftl (le_join 8 m (p + 8)) 64) = le_join 16 m p.
Proof. apply (le_join_pair 8 8). Qed.

Theorem load_atom_16_ok p memop m F L :
  bytes m → atomic_code 4 memop → in_page cpu p 16 F L →
  hwp parallel (load_atom_16 H cpu p memop) m (loaded16_ok p memop m F L).
Proof.
  intros Hm Hc Hpg. pose proof Hpg as [[P1 P2] [P3 P4] Hleft]. unfold load_atom_16. rewrite land_15.
  destruct (HAVE_ATOMIC128_RO H && (p mod 16 =? 0)) eqn:EA.
  { apply andb_prop in EA as [Ha Hal]. apply hwp_read16_ro; [done|lia|].
    apply loaded16_of, kept_whole; cbn; [lia|done|lia..]. }
  destruct (required_known 4 p memop m ltac:(lia) Hc) as (a & Ha & Hr & Hser). eapply hwp_known; [exact Ha|].
  destruct (Z.eqb_spec a MO_8) as [->|N8].
  { apply loaded16_of. eapply kept_of; [done|by apply bytes_honour|by apply bytes_inside]. }
  pose proof (parallel_of _ Hser N8) as Hb.
  destruct (Z.eqb_spec a MO_16) as [->|N16].
  { assert (p mod 2 = 0) by (by destruct Hr as [[_ Hr]|[[Hr _]|[Hr _]]]). apply hwp_bind, hwp_8_by_2; [done|done|].
    apply hwp_bind, hwp_8_by_2; [done|mlia|]. apply hwp_ret. rewrite pair64 by done.
    apply loaded16_of, (tiles_ok 4 1 MO_16 p memop m F L 8); try (done || lia). tile_eq. }
  destruct (Z.eqb_spec a MO_32) as [->|N32].
  { assert (p mod 4 = 0) by (by destruct Hr as [[_ Hr]|[[Hr _]|[Hr _]]]). apply hwp_bind, hwp_8_by_4; [done|done|].
    apply hwp_bind, hwp_8_by_4; [done|mlia|]. apply hwp_ret. rewrite pair64 by done.
    apply loaded16_of, (tiles_ok 4 2 MO_32 p memop m F L 4); try (done || lia). tile_eq. }
  destruct (Z.eqb_spec a MO_64) as [->|N64].
  { assert (p mod 8 = 0) by (by destruct Hr as [[_ Hr]|[[Hr _]|[Hr _]]]).
    destruct (HAVE_al8 H) eqn:E8; cbn [negb]; [|by apply hwp_exit].
    apply hwp_bind, hwp_load8; [done|done|]. apply hwp_bind, hwp_load8; [done|mlia|]. apply hwp_ret. rewrite pair64 by done.
    apply loaded16_of, (tiles_ok 4 3 MO_64 p memop m F L 2); try (done || lia). tile_eq. }
  destruct (Z.eqb_spec a (- MO_64)) as [->|Np].
  { assert (16 < p mod 16 + 16 ∧ p mod 16 + 8 ≠ 16) as [? ?] by (destruct Hr as [[Hr _]|[[Hr _]|(_ & Hr)]]; [by destruct Hr|done|exact Hr]).
    assert (p mod 8 ≠ 0) by mlia. destruct (HAVE_al8 H) eqn:E8; cbn [negb]; [|by apply hwp_exit].
    apply hwp_bind, hwp_al8x2; [done..|]. apply hwp_bind, hwp_al8x2; [done|done|mlia|]. apply hwp_ret. rewrite pair64 by done.
    split; [done|]. split; [done|]. split; [|intros a' Ha'; rewrite Ha in Ha'; by injection Ha' as <-].
    repeat (constructor; [mlia|]). by constructor. }
  assert (a = MO_128 ∧ p mod 16 = 0) as [-> Hal].
  { unfold MO_8, MO_16, MO_32, MO_64, MO_128 in *. destruct Hr as [[Hr1 Hr]|[[-> Hr]|[-> Hr]]]; [|split; [done|mlia]|done].
    assert (a = 4) as -> by lia. done. }
  cbn [Z.eqb MO_128 Pos.eqb]. apply hwp_load16_or_exit; [done|done|]. apply loaded16_of, kept_whole; cbn; [lia|done|lia..].
Qed.
End Main.

(** ** Stores *)

Lemma byte_of_shiftr v i j : 0 ≤ i → 0 ≤ j → byte_of (Z.shiftr v (8 * j)) i = byte_of v (i + j).
Proof. intros. unfold byte_of. rewrite Z.shiftr_shiftr by lia. do 2 f_equal. lia. Qed.
Lemma store_split m p a b v k :
  0 ≤ a → 0 ≤ b →
  store_bytes (store_bytes m p a v) (p + a) b (Z.shiftr v (8 * a)) k = store_bytes m p (a + b) v k.
Proof.
  intros Ha Hb. unfold store_bytes.
  destruct ((p + a <=? k) && (k <? p + a + b)) eqn:E1.
  - replace ((p <=? k) && (k <? p + (a + b))) with true by lia. rewrite byte_of_shiftr by lia. f_equal. lia.
  - destruct ((p <=? k) && (k <? p + a)) eqn:E2.
    + by replace ((p <=? k) && (k <? p + (a + b))) with true by lia.
    + by replace ((p <=? k) && (k <? p + (a + b))) with false by lia.
Qed.
(** The masked store of a shifted value. *)
Lemma store_inserted W b o s v m k :
  bytes m → 0 ≤ o → 0 < s → o + s ≤ Z.of_nat W → in_range (8 * s) v ∨ o + s = Z.of_nat W →
  let w := 8 * Z.of_nat W in
  store_bytes m b (Z.of_nat W)
    (Z.lor (Z.ldiff (le_join W m b) (wrap w (Z.shiftl (Z.ones (8 * s)) (8 * o)))) (wrap w (Z.shiftl v (8 * o)))) k
  = store_bytes m (b + o) s v k.
Proof.
  intros Hm Ho Hs HW Hv w. unfold store_bytes at 1.
  destruct ((b <=? k) && (k <? b + Z.of_nat W)) eqn:E.
  2: { unfold store_bytes. by replace ((b + o <=? k) && (k <? b + o + s)) with false by lia. }
  unfold store_bytes. destruct ((b + o <=? k) && (k <? b + o + s)) eqn:E2.
  - unfold byte_of. zbits.
  - replace (m k) with (byte_of (le_join W m b) (k - b)) by (rewrite join_byte by (done || lia); f_equal; lia).
    unfold byte_of. destruct Hv as [Hv|Hv]; zbits.
Qed.

(** [m'] is [m] with [n] bytes of [v] at [p]. *)
Definition stored (m : Mem) (p n v : Z) (m' : Mem) : Prop := ∀ k, m' k = store_bytes m p n v k.

Lemma stored_bytes m p n v m' : bytes m → stored m p n v m' → bytes m'.
Proof. intros Hm Hs k. rewrite Hs. by apply store_bytes_range. Qed.
Lemma stored_app m p a b v m1 m2 :
  0 ≤ a → 0 ≤ b → stored m p a v m1 → stored m1 (p + a) b (Z.shiftr v (8 * a)) m2 → stored m p (a + b) v m2.
Proof. intros Ha Hb H1 H2 k. rewrite H2, <- store_split by lia. apply store_bytes_ext, H1. Qed.
Lemma stored_wrap m p n v w m' : 0 < n → 8 * n ≤ w → stored m p n (wrap w v) m' ↔ stored m p n v m'.
Proof. intros Hn Hw. split; intros Hs k; rewrite Hs; [|symmetry]; by apply store_bytes_wrap. Qed.
Lemma stored_low m p n v v' m' :
  0 < n → wrap (8 * n) v = wrap (8 * n) v' → stored m p n v m' → stored m p n v' m'.
Proof. intros Hn Hv Hs. apply (stored_wrap _ _ _ _ (8 * n)); [done|lia|]. rewrite <- Hv. apply stored_wrap; [done|lia|done]. Qed.

Lemma within_left l l' a n : within l a n → within (l ++ l') a n.
Proof. intros Hw. apply Exists_app. by left. Qed.
Lemma within_right l l' a n : within l' a n → within (l ++ l') a n.
Proof. intros Hw. apply Exists_app. by right. Qed.
Lemma within_one b k a n : b ≤ a → a + n ≤ b + k → within [(b, k)] a n.
Proof. by left. Qed.
Lemma tiles_inside F L p k : F ≤ p → p + Z.of_nat k ≤ L → inside F L (tiles 1 p k).
Proof. intros HF HL. apply Forall_fmap, Forall_forall. intros j Hj%in_seq. cbn. lia. Qed.
Lemma inside_app F L l l' : inside F L l → inside F L l' → inside F L (l ++ l').
Proof. intros. by apply Forall_app. Qed.
Lemma inside_one F L b k : F ≤ b → b + k ≤ L → inside F L [(b, k)].
Proof. intros. by constructor. Qed.

Section Stores.
Context (H : HostAtomics) {E : Prop}.
Implicit Types (m : Mem) (Q : unit → Mem → list HostAccess → Prop).

Lemma hwp_write n p v w m Q :
  0 < n → 8 * n ≤ w → (∀ m', stored m p n v m' → Q tt m' [(p, n)]) → hwp E (write n p (wrap w v)) m Q.
Proof. intros Hn Hw HQ. apply HQ, (stored_wrap _ _ _ _ w); done. Qed.
Lemma hwp_store2 p v m Q :
  p mod 2 = 0 → (∀ m', stored m p 2 v m' → Q tt m' [(p, 2)]) → hwp E (store_atomic2 p v) m Q.
Proof. intros Hp HQ. apply hwp_assert_bind; [by apply aligned_2|]. by apply hwp_write. Qed.
Lemma hwp_store4 p v m Q :
  p mod 4 = 0 → (∀ m', stored m p 4 v m' → Q tt m' [(p, 4)]) → hwp E (store_atomic4 p v) m Q.
Proof. intros Hp HQ. apply hwp_assert_bind; [by apply aligned_4|]. by apply hwp_write. Qed.
Lemma hwp_store8 p v m Q :
  HAVE_al8 H = true → p mod 8 = 0 → (∀ m', stored m p 8 v m' → Q tt m' [(p, 8)]) → hwp E (store_atomic8 H p v) m Q.
Proof. intros Ha Hp HQ. do 2 (apply hwp_assert_bind; [by (apply aligned_8 || done)|]). by apply HQ. Qed.
Lemma hwp_set16 p v m Q :
  HAVE_ATOMIC128_RW H = true → p mod 16 = 0 → (∀ m', stored m p 16 v m' → Q tt m' [(p, 16)]) →
  hwp E (atomic16_set H p v) m Q.
Proof. intros Ha Hp HQ. do 2 (apply hwp_assert_bind; [by (apply aligned_16 || done)|]). by apply HQ. Qed.

Lemma hwp_st_4_by_2 p v m Q :
  p mod 2 = 0 → (∀ m', stored m p 4 v m' → Q tt m' [(p, 2); (p + 2, 2)]) → hwp E (store_atom_4_by_2 p v) m Q.
Proof.
  intros Hp HQ. apply hwp_bind, hwp_store2; [done|]. intros m1 S1. apply hwp_store2; [mlia|]. intros m2 S2.
  apply HQ. by apply (stored_app m p 2 2 v m1).
Qed.
Lemma hwp_st_8_by_2 p v m Q :
  p mod 2 = 0 → (∀ m', stored m p 8 v m' → Q tt m' [(p, 2); (p + 2, 2); (p + 4, 2); (p + 4 + 2, 2)]) →
  hwp E (store_atom_8_by_2 p v) m Q.
Proof.
  intros Hp HQ. apply hwp_bind, hwp_st_4_by_2; [done|]. intros m1 S1. apply hwp_st_4_by_2; [mlia|]. intros m2 S2.
  apply HQ, (stored_app m p 4 4 v m1); [lia|lia| |done]. by apply stored_wrap in S1.
Qed.
Lemma hwp_st_8_by_4 p v m Q :
  p mod 4 = 0 → (∀ m', stored m p 8 v m' → Q tt m' [(p, 4); (p + 4, 4)]) → hwp E (store_atom_8_by_4 p v) m Q.
Proof.
  intros Hp HQ. apply hwp_bind, hwp_store4; [done|]. intros m1 S1. apply hwp_store4; [mlia|]. intros m2 S2.
  apply HQ. by apply (stored_app m p 4 4 v m1).
Qed.

(** A masked store puts [s] bytes of [v] at the byte [o] of the word. *)
Definition fits (W o s v : Z) : Prop := 0 ≤ o ∧ 0 < s ∧ o + s ≤ W ∧ (in_range (8 * s) v ∨ o + s = W).
Lemma insert_stored W b o s v m :
  bytes m → fits (Z.of_nat W) o s v → let w := 8 * Z.of_nat W in
  stored m (b + o) s v (store_bytes m b (Z.of_nat W)
    (Z.lor (Z.ldiff (le_join W m b) (wrap w (Z.shiftl (Z.ones (8 * s)) (8 * o)))) (wrap w (Z.shiftl v (8 * o))))).
Proof. intros Hm (Ho & Hs & HW & Hv) w k. by apply store_inserted. Qed.

Lemma hwp_insert4 b o s v m Q :
  b mod 4 = 0 → bytes m → fits 4 o s v → (∀ m', stored m (b + o) s v m' → Q tt m' [(b, 4)]) →
  hwp E (store_atom_insert_al4 b (Z.shiftl v (8 * o)) (Z.shiftl (Z.ones (8 * s)) (8 * o))) m Q.
Proof.
  intros Hb Hm Hf HQ. apply hwp_assert_bind; [by apply aligned_4|]. apply HQ. by apply (insert_stored 4).
Qed.
Lemma hwp_insert8 b o s v m Q :
  HAVE_al8 H = true → b mod 8 = 0 → bytes m → fits 8 o s v → (∀ m', stored m (b + o) s v m' → Q tt m' [(b, 8)]) →
  hwp E (store_atom_insert_al8 H b (Z.shiftl v (8 * o)) (Z.shiftl (Z.ones (8 * s)) (8 * o))) m Q.
Proof.
  intros Ha Hb Hm Hf HQ. do 2 (apply hwp_assert_bind; [by (apply aligned_8 || done)|]).
  apply HQ. by apply (insert_stored 8).
Qed.
Lemma hwp_insert16 b o s v m Q :
  HAVE_CMPXCHG128 H = true → b mod 16 = 0 → bytes m → fits 16 o s v →
  (∀ m', stored m (b + o) s v m' → Q tt m' [(b, 16)]) →
  hwp E (store_atom_insert_al16 H b (Z.shiftl v (8 * o)) (Z.shiftl (Z.ones (8 * s)) (8 * o))) m Q.
Proof.
  intros Ha Hb Hm Hf HQ. do 2 (apply hwp_assert_bind; [by (apply aligned_16 || done)|]).
  apply HQ. by apply (insert_stored 16).
Qed.

Lemma mask_whole n : MAKE_64BIT_MASK 0 n = Z.ones n.
Proof. apply Z.shiftl_0_r. Qed.
Lemma hwp_whole4 p s v m (Q : Z → Mem → list HostAccess → Prop) :
  bytes m → fits 4 (p mod 4) s v → (∀ m', stored m p s v m' → Q (Z.shiftr v (8 * s)) m' [(floor 4 p, 4)]) →
  hwp E (store_whole_le4 p s v) m Q.
Proof.
  intros Hm Hf HQ. unfold store_whole_le4. rewrite land_3, mask_whole, (Z.mul_comm s 8), (Z.mul_comm (p mod 4) 8).
  apply hwp_bind. change (p - p mod 4) with (floor 4 p). apply hwp_insert4; [mlia|done|done|]. intros m' Hs.
  apply hwp_ret, HQ. by replace (floor 4 p + p mod 4) with p in Hs by mlia.
Qed.
Lemma hwp_whole8 p s v m (Q : Z → Mem → list HostAccess → Prop) :
  HAVE_al8 H = true → bytes m → fits 8 (p mod 8) s v →
  (∀ m', stored m p s v m' → Q (Z.shiftr v (8 * s)) m' [(floor 8 p, 8)]) → hwp E (store_whole_le8 H p s v) m Q.
Proof.
  intros Ha Hm Hf HQ. unfold store_whole_le8. rewrite land_7, mask_whole, (Z.mul_comm s 8), (Z.mul_comm (p mod 8) 8).
  apply hwp_bind. change (p - p mod 8) with (floor 8 p). apply hwp_insert8; [done|mlia|done|done|]. intros m' Hs.
  apply hwp_ret, HQ. by replace (floor 8 p + p mod 8) with p in Hs by mlia.
Qed.
Lemma mask_16 n : 64 < n → Z.lor (Z.ones 64) (Z.shiftl (MAKE_64BIT_MASK 0 (n - 64)) 64) = Z.ones n.
Proof. intros Hn. rewrite (mask_whole (n - 64)). zbits. Qed.
Lemma hwp_whole16 p s v m (Q : Z → Mem → list HostAccess → Prop) :
  HAVE_CMPXCHG128 H = true → bytes m → fits 16 (p mod 16) s v →
  (∀ m', stored m p s v m' → Q (if s <=? 8 then 0 else Z.shiftr v (8 * s)) m' [(floor 16 p, 16)]) →
  hwp E (store_whole_le16 H p s v) m Q.
Proof.
  intros Ha Hm Hf HQ. unfold store_whole_le16. rewrite land_15, (Z.mul_comm s 8), (Z.mul_comm (p mod 16) 8).
  assert (Em : (if 8 * s <=? 64 then MAKE_64BIT_MASK 0 (8 * s)
    else Z.lor (Z.ones 64) (Z.shiftl (MAKE_64BIT_MASK 0 (8 * s - 64)) 64)) = Z.ones (8 * s)).
  { destruct (Z.leb_spec (8 * s) 64); [apply mask_whole|by apply mask_16]. }
  rewrite Em. apply hwp_bind. change (p - p mod 16) with (floor 16 p). apply hwp_insert16; [done|mlia|done|done|].
  intros m' Hs. replace (floor 16 p + p mod 16) with p in Hs by mlia. specialize (HQ m' Hs). apply hwp_ret.
  replace (8 * s <=? 64) with (s <=? 8) by lia. destruct (Z.leb_spec s 8); [done|].
  rewrite Z.shiftr_shiftr by lia. by replace (64 + (8 * s - 64)) with (8 * s) by lia.
Qed.

Lemma hwp_bytes n p v m (Q : Z → Mem → list HostAccess → Prop) :
  (∀ m', stored m p (Z.of_nat n) v m' → Q (Z.shiftr v (8 * Z.of_nat n)) m' (tiles 1 p n)) →
  hwp E (store_bytes_leN p n v) m Q.
Proof.
  revert p v m Q. induction n as [|n IH]; intros p v m Q HQ; cbn [store_bytes_leN].
  - apply hwp_ret. apply HQ. intros k. unfold store_bytes.
    by replace ((p <=? k) && (k <? p + Z.of_nat 0)) with false by lia.
  - apply hwp_bind, hwp_write; [lia|done|]. intros m1 S1. apply IH. intros m2 S2.
    rewrite tiles_S in HQ. rewrite Z.shiftr_shiftr by lia. replace (8 + 8 * Z.of_nat n) with (8 * Z.of_nat (S n)) by lia. apply HQ.
    replace (Z.of_nat (S n)) with (1 + Z.of_nat n) by lia. by apply (stored_app m p 1 (Z.of_nat n) v m1); [lia|lia|..].
Qed.
(** The rounds of [store_parts_leN]: each writes at least one byte, so as many rounds as
    bytes are enough, unless the part left is eight bytes at an aligned address. *)
Lemma part_code p n :
  0 < n ≤ 8 → (n = 8 → p mod 8 ≠ 0) → let c := Z.land (Z.lor p n) 7 in
  (c = 4 ∧ p mod 4 = 0 ∧ n mod 4 = 0) ∨ ((c = 2 ∨ c = 6) ∧ p mod 2 = 0 ∧ n mod 2 = 0 ∧ (p mod 4 ≠ 0 ∨ n mod 4 ≠ 0)) ∨
  (c ≠ 0 ∧ c ≠ 2 ∧ c ≠ 4 ∧ c ≠ 6 ∧ (p mod 2 ≠ 0 ∨ n mod 2 ≠ 0)).
Proof.
  intros Hn H8 c. unfold c. rewrite Z.land_lor_distr_l, !land_7.
  assert (E4 : p mod 4 = (p mod 8) mod 4) by mlia. assert (E2 : p mod 2 = (p mod 8) mod 2) by mlia.
  rewrite E4, E2. assert (0 ≤ p mod 8 < 8) by (by apply Z.mod_pos_bound).
  assert (n = 1 ∨ n = 2 ∨ n = 3 ∨ n = 4 ∨ n = 5 ∨ n = 6 ∨ n = 7 ∨ n = 8) as Hns by lia.
  assert (p mod 8 = 0 ∨ p mod 8 = 1 ∨ p mod 8 = 2 ∨ p mod 8 = 3 ∨ p mod 8 = 4 ∨ p mod 8 = 5 ∨ p mod 8 = 6 ∨ p mod 8 = 7) as Hps by lia.
  destruct Hns as [->|[->|[->|[->|[->|[->|[->| ->]]]]]]];
  destruct Hps as [Hp|[Hp|[Hp|[Hp|[Hp|[Hp|[Hp|Hp]]]]]]]; rewrite Hp in *; first [by destruct (H8 eq_refl)|clear; vm_compute; intuition discriminate].
Qed.

(** Each aligned part of the bytes from [p] on is inside one access. *)
Definition parts_within (l : list HostAccess) (p n : Z) : Prop := ∀ w j,
  w = 1 ∨ w = 2 ∨ w = 4 → p mod w = 0 → n mod w = 0 → 0 ≤ j → (j + 1) * w ≤ n → within l (p + j * w) w.

Lemma parts_step p n k l :
  0 < k ≤ n → (∀ w, w = 1 ∨ w = 2 ∨ w = 4 → p mod w = 0 → n mod w = 0 → k mod w = 0) →
  parts_within l (p + k) (n - k) → parts_within ((p, k) :: l) p n.
Proof.
  intros Hk Hw Hl w j Hv Hp Hn Hj Hjn. pose proof (Hw w Hv Hp Hn) as Hkw.
  destruct (Z.lt_ge_cases (j * w) k) as [Hlt|Hge].
  - left. destruct Hv as [->|[->| ->]]; mlia.
  - right. replace (p + j * w) with (p + k + (j - k / w) * w) by (destruct Hv as [->|[->| ->]]; mlia).
    apply Hl; destruct Hv as [->|[->| ->]]; try lia; mlia.
Qed.

Lemma hwp_parts fuel p n v m (Q : Z → Mem → list HostAccess → Prop) :
  0 < n ≤ 8 → (n = 8 → p mod 8 ≠ 0) → n ≤ Z.of_nat fuel →
  (∀ m' l, stored m p n v m' → parts_within l p n → inside p (p + n) l → Q (Z.shiftr v (8 * n)) m' l) →
  hwp E (store_parts_rec fuel p n v) m Q.
Proof.
  revert p n v m Q. induction fuel as [|fuel IH]; intros p n v m Q Hn H8 Hf HQ; [lia|].
  assert (Hrest : ∀ k m1, 0 < k ≤ n → (∀ w, w = 1 ∨ w = 2 ∨ w = 4 → p mod w = 0 → n mod w = 0 → k mod w = 0) →
    stored m p k v m1 →
    hwp E (if n - k =? 0 then mret (Z.shiftr v (8 * k)) else store_parts_rec fuel (p + k) (n - k) (Z.shiftr v (8 * k)))
      m1 (λ r m' l, Q r m' ((p, k) :: l))).
  { intros k m1 Hk Hw S1. destruct (Z.eqb_spec (n - k) 0) as [En|En].
    - assert (n = k) as -> by lia. apply hwp_ret, HQ; [done| |by apply inside_one; lia].
      apply parts_step; [lia|done|]. intros w j Hv _ _ Hj Hjn. nia.
    - apply IH; [lia|lia|lia|]. intros m2 l S2 Hl Hi. rewrite Z.shiftr_shiftr by lia.
      replace (8 * k + 8 * (n - k)) with (8 * n) by lia. apply HQ; [|by apply parts_step|].
      + replace n with (k + (n - k)) by lia. by eapply stored_app; [lia|lia|..].
      + constructor; [lia|]. revert Hi. apply List.Forall_impl. intros [b q]. lia. }
  cbn [store_parts_rec]. pose proof (part_code p n Hn H8) as Hc. cbv zeta in Hc.
  set (c := Z.land (Z.lor p n) 7) in *. clearbody c.
  destruct (Z.eqb_spec c 4) as [->|N4].
  { destruct Hc as [Hc|[Hc|Hc]]; [|lia|lia]. apply hwp_bind, hwp_bind, hwp_store4; [lia|]. intros m1 S1.
    apply hwp_ret. apply (Hrest 4 m1); [mlia| |done]. intros w [->|[->| ->]] _ _; done. }
  destruct (decide (c = 2 ∨ c = 6)) as [N2|N2].
  { replace ((c =? 2) || (c =? 6)) with true by lia. destruct Hc as [Hc|[Hc|Hc]]; [lia| |lia].
    apply hwp_bind, hwp_bind, hwp_store2; [lia|]. intros m1 S1. apply hwp_ret. apply (Hrest 2 m1); [mlia| |done].
    intros w [->|[->| ->]]; [done|done|lia]. }
  replace ((c =? 2) || (c =? 6)) with false by lia. replace (c =? 0) with false by lia.
  apply hwp_bind, hwp_bind, hwp_write; [lia|lia|]. intros m1 S1. apply hwp_ret. apply (Hrest 1 m1); [lia| |done].
  intros w [->|[->| ->]] Hp Hq; [done|lia|mlia].
Qed.
End Stores.

Section MainStores.
Context (H : HostAtomics) (cpu : LdstCpu) (HH : host_ok H).

Abbreviation parallel := (cpu_in_serial_context cpu = false).
Definition stored_ok (s p memop : Z) (m : Mem) (F L v : Z) (_ : unit) (m' : Mem) (l : list HostAccess) : Prop :=
  stored m p (2 ^ s) v m' ∧ kept_atomic cpu s p memop m F L l.

(** The half of a pair that does not cross the boundary. *)
Lemma kept_half s p memop m F L l :
  2 ≤ s ≤ 4 → required_atomicity cpu p memop m = AOk (- (s - 1)) m [] →
  (p mod 16 + 2 ^ (s - 1) ≤ 16 → within l p (2 ^ (s - 1))) →
  (16 < p mod 16 + 2 ^ (s - 1) → within l (p + 2 ^ (s - 1)) (2 ^ (s - 1))) → inside F L l →
  kept_atomic cpu s p memop m F L l.
Proof.
  intros Hs Ha H1 H2 Hi. eapply kept_of; [done| |done]. unfold honours.
  replace (0 <=? - (s - 1)) with false by lia. by rewrite Z.opp_involutive.
Qed.
Lemma shiftr_fits w k v : 0 ≤ k ≤ w → in_range w v → in_range (w - k) (Z.shiftr v k).
Proof.
  intros Hk Hv. apply in_range_wrap; [lia|]. zbits.
Qed.
Ltac one_store := split; [try done|]; rewrite ?app_nil_r; apply kept_whole; cbn; [lia|done|mlia..].
Ltac byte_store := split; [done|]; eapply kept_of; [done|by apply bytes_honour|by apply bytes_inside].

Theorem store_atom_2_ok p memop m v F L :
  bytes m → in_range 16 v → atomic_code 1 memop → in_page cpu p 2 F L →
  hwp parallel (store_atom_2 H cpu p memop v) m (stored_ok 1 p memop m F L v).
Proof.
  intros Hm Hv Hc [[P1 P2] [P3 P4] _]. unfold store_atom_2. rewrite land_1, land_3, land_7, land_15.
  destruct (Z.eqb_spec (p mod 2) 0) as [Hal|Hal]; [apply hwp_store2; [done|]; intros m' S; one_store|].
  destruct (required_known cpu 1 p memop m ltac:(lia) Hc) as (a & Ha & Hr & Hser). eapply hwp_known; [exact Ha|].
  destruct (Z.eqb_spec a MO_8) as [->|Na]; [byte_store|].
  pose proof (parallel_of cpu a Hser Na) as Hb.
  assert (p mod 16 + 2 ≤ 16) as Ho.
  { unfold MO_8 in Na. destruct Hr as [[Hr1 Hr2]|[[-> Hr]|[-> Hr]]]; [|done|done]. by replace a with 1 in Hr2 by lia. }
  destruct (Z.eqb_spec (p mod 4) 1) as [H4|H4].
  { apply (hwp_insert4 (p - 1) 1 2); [mlia|done|by split; [lia|]; split; [lia|]; split; [lia|]; left|].
    intros m' S. replace (p - 1 + 1) with p in S by lia. one_store. }
  destruct (Z.eqb_spec (p mod 8) 3) as [H8|H8].
  { destruct (HAVE_al8 H) eqn:E8; [|by apply hwp_exit].
    apply (hwp_insert8 H (p - 3) 3 2); [done|mlia|done|by split; [lia|]; split; [lia|]; split; [lia|]; left|].
    intros m' S. replace (p - 3 + 3) with p in S by lia. one_store. }
  destruct (Z.eqb_spec (p mod 16) 7) as [H16|H16]; [|exfalso; mlia].
  destruct (HAVE_CMPXCHG128 H) eqn:E16; [|by apply hwp_exit].
  apply (hwp_insert16 H (p - 7) 7 2); [done|mlia|done|by split; [lia|]; split; [lia|]; split; [lia|]; left|].
  intros m' S. replace (p - 7 + 7) with p in S by lia. one_store.
Qed.

Theorem store_atom_4_ok p memop m v F L :
  bytes m → in_range 32 v → atomic_code 2 memop → in_page cpu p 4 F L →
  hwp parallel (store_atom_4 H cpu p memop v) m (stored_ok 2 p memop m F L v).
Proof.
  intros Hm Hv Hc [[P1 P2] [P3 P4] _]. unfold store_atom_4. rewrite land_3, land_7.
  destruct (Z.eqb_spec (p mod 4) 0) as [Hal|Hal]; [apply hwp_store4; [done|]; intros m' S; one_store|].
  destruct (required_known cpu 2 p memop m ltac:(lia) Hc) as (a & Ha & Hr & Hser). eapply hwp_known; [exact Ha|].
  destruct (Z.eqb_spec a MO_8) as [->|Na]; [byte_store|].
  pose proof (parallel_of cpu a Hser Na) as Hb.
  destruct (Z.eqb_spec a MO_16) as [->|N16].
  { assert (p mod 2 = 0) by (by destruct Hr as [[_ Hr]|[[Hr _]|[Hr _]]]). apply hwp_st_4_by_2; [done|]. intros m' S.
    split; [done|]. apply (tiles_ok cpu 2 1 MO_16 p memop m F L 2); try (done || lia). tile_eq. }
  destruct (Z.eqb_spec a (- MO_16)) as [->|Np].
  { assert (16 < p mod 16 + 4 ∧ p mod 16 + 2 ≠ 16) as [? ?] by (destruct Hr as [[Hr _]|[[Hr _]|(_ & Hr)]]; [by destruct Hr|done|exact Hr]).
    destruct (Z.eqb_spec (p mod 4) 1) as [O1|O1]; [|destruct (Z.eqb_spec (p mod 4) 3) as [O3|O3]; [|exfalso; mlia]].
    - apply hwp_bind, hwp_whole4; [done|split; [lia|]; split; [lia|]; split; [lia|]; right; lia|]. intros m1 S1.
      replace (4 - p mod 4) with 3 in * by lia. apply hwp_write; [lia|done|]. intros m2 S2. split.
      + by apply (stored_app m p 3 1 v m1).
      + apply kept_half; [lia|done|intros _; apply within_left, within_one; cbn; mlia|cbn; intros; exfalso; mlia|].
        apply inside_app; apply inside_one; mlia.
    - apply hwp_bind, hwp_write; [lia|done|]. intros m1 S1. rewrite O3. apply hwp_bind.
      assert (E0 : (p + 1) mod 4 = 0) by mlia.
      apply hwp_whole4; [by eapply stored_bytes|rewrite E0; split; [lia|]; split; [lia|]; split; [lia|]; left; by apply (shiftr_fits 32)|].
      intros m2 S2. apply hwp_ret. split.
      + by apply (stored_app m p 1 3 v m1).
      + rewrite app_nil_r. apply kept_half; [lia|done|cbn; intros; exfalso; mlia|intros _; apply within_right, within_one; cbn; mlia|].
        apply inside_app; apply inside_one; mlia. }
  assert (a = MO_32 ∧ p mod 16 + 4 ≤ 16) as [-> Ho].
  { unfold MO_8, MO_16, MO_32 in *. destruct Hr as [[Hr1 Hr]|[[-> Hr]|[-> Hr]]]; [|done|done].
    assert (a = 2) as -> by lia. done. }
  cbn [Z.eqb MO_32 Pos.eqb]. destruct (Z.ltb_spec (p mod 8) 4).
  - destruct (HAVE_al8 H) eqn:E8; [|by apply hwp_exit]. apply hwp_bind.
    apply hwp_whole8; [done|done|split; [mlia|]; split; [lia|]; split; [lia|]; by left|]. intros m' S. apply hwp_ret. one_store.
  - destruct (HAVE_CMPXCHG128 H) eqn:E16; [|by apply hwp_exit]. apply hwp_bind.
    apply hwp_whole16; [done|done|split; [mlia|]; split; [lia|]; split; [lia|]; by left|]. intros m' S. apply hwp_ret. one_store.
Qed.

(** The two orders of a store that crosses a boundary: the part before it as a whole and
    the rest by bytes, or the other way round. *)
Lemma hwp_cross8 p v m (Q : unit → Mem → list HostAccess → Prop) :
  HAVE_al8 H = true → bytes m → in_range 64 v → let s2 := p mod 8 in let s1 := 8 - s2 in
  s2 ≠ 0 → s2 ≠ 4 →
  (∀ m' l, stored m p 8 v m' →
     l = (if s2 <? 4 then [(floor 8 p, 8)] ++ tiles 1 (p + s1) (Z.to_nat s2)
          else tiles 1 p (Z.to_nat s1) ++ [(p + s1, 8)]) → Q tt m' l) →
  hwp parallel
    (if (1 <=? s2) && (s2 <=? 3) then
       val_le ← store_whole_le8 H p s1 v; store_bytes_leN (p + s1) (Z.to_nat s2) val_le;; mret tt
     else if (5 <=? s2) && (s2 <=? 7) then
       val_le ← store_bytes_leN p (Z.to_nat s1) v; store_whole_le8 H (p + s1) s2 val_le;; mret tt
     else abort) m Q.
Proof.
  intros Ha Hm Hv s2 s1 H0 H4 HQ. assert (0 ≤ s2 < 8) by (apply Z.mod_pos_bound; lia).
  assert (E2 : s2 = p mod 8) by done. assert (E1 : s1 = 8 - s2) by done. clearbody s1 s2.
  destruct (Z.ltb_spec s2 4) as [Hlt|Hge].
  - replace ((1 <=? s2) && (s2 <=? 3)) with true by lia. apply hwp_bind.
    apply hwp_whole8; [done|done|rewrite <- E2; split; [lia|]; split; [lia|]; split; [lia|]; right; lia|]. intros m1 S1.
    apply hwp_bind, hwp_bytes. intros m2 S2. apply hwp_ret. rewrite app_nil_r. apply HQ; [|done].
    rewrite Z2Nat.id in S2 by lia. replace 8 with (s1 + s2) by lia. by eapply stored_app; [lia|lia|..].
  - replace ((1 <=? s2) && (s2 <=? 3)) with false by lia. replace ((5 <=? s2) && (s2 <=? 7)) with true by lia.
    apply hwp_bind, hwp_bytes. intros m1 S1. rewrite Z2Nat.id in * by lia. assert (E0 : (p + s1) mod 8 = 0) by mlia.
    apply hwp_bind, hwp_whole8; [done|by eapply stored_bytes| |].
    { rewrite E0. split; [lia|]. split; [lia|]. split; [lia|]. left.
      replace (8 * s2) with (64 - 8 * s1) by lia. apply shiftr_fits; [lia|done]. }
    intros m2 S2. apply hwp_ret. apply HQ.
    + replace 8 with (s1 + s2) by lia. by eapply stored_app; [lia|lia|..].
    + rewrite app_nil_r. do 3 f_equal. mlia.
Qed.

Theorem store_atom_8_ok p memop m v F L :
  bytes m → in_range 64 v → atomic_code 3 memop → in_page cpu p 8 F L →
  hwp parallel (store_atom_8 H cpu p memop v) m (stored_ok 3 p memop m F L v).
Proof.
  intros Hm Hv Hc [[P1 P2] [P3 P4] _]. unfold store_atom_8. rewrite land_7.
  destruct (HAVE_al8 H && (p mod 8 =? 0)) eqn:EA.
  { apply andb_prop in EA as [Ha Hal]. apply hwp_store8; [done|lia|]. intros m' S. one_store. }
  destruct (required_known cpu 3 p memop m ltac:(lia) Hc) as (a & Ha & Hr & Hser). eapply hwp_known; [exact Ha|].
  destruct (Z.eqb_spec a MO_8) as [->|Na]; [byte_store|]. pose proof (parallel_of cpu a Hser Na) as Hb.
  destruct (Z.eqb_spec a MO_16) as [->|N16].
  { assert (p mod 2 = 0) by (by destruct Hr as [[_ Hr]|[[Hr _]|[Hr _]]]). apply hwp_st_8_by_2; [done|]. intros m' S.
    split; [done|]. apply (tiles_ok cpu 3 1 MO_16 p memop m F L 4); try (done || lia). tile_eq. }
  destruct (Z.eqb_spec a MO_32) as [->|N32].
  { assert (p mod 4 = 0) by (by destruct Hr as [[_ Hr]|[[Hr _]|[Hr _]]]). apply hwp_st_8_by_4; [done|]. intros m' S.
    split; [done|]. apply (tiles_ok cpu 3 2 MO_32 p memop m F L 2); try (done || lia). tile_eq. }
  destruct (Z.eqb_spec a (- MO_32)) as [->|Np].
  { assert (16 < p mod 16 + 8 ∧ p mod 16 + 4 ≠ 16) as [? ?] by (destruct Hr as [[Hr _]|[[Hr _]|(_ & Hr)]]; [by destruct Hr|done|exact Hr]).
    destruct (HAVE_al8 H) eqn:E8; [|by apply hwp_exit]. cbn in EA. apply hwp_cross8; [done|done|done|lia|mlia|].
    intros m' l S El. split; [done|]. rewrite El. destruct (Z.ltb_spec (p mod 8) 4).
    - apply kept_half; [lia|done|intros _; apply within_left, within_one; cbn; mlia|cbn; intros; exfalso; mlia|].
      apply inside_app; [apply inside_one; mlia|apply tiles_inside; mlia].
    - apply kept_half; [lia|done|cbn; intros; exfalso; mlia|intros _; apply within_right, within_one; cbn; mlia|].
      apply inside_app; [apply tiles_inside; mlia|apply inside_one; mlia]. }
  assert (a = MO_64) as ->.
  { unfold MO_8, MO_16, MO_32, MO_64 in *. destruct Hr as [[Hr _]|[[-> _]|[-> _]]]; [lia|done|done]. }
  cbn [Z.eqb MO_64 Pos.eqb]. destruct (HAVE_CMPXCHG128 H) eqn:E16; [|by apply hwp_exit].
  rewrite (al8_of_cas _ HH E16) in EA. cbn in EA.
  assert (p mod 16 < 8) by (destruct Hr as [[_ Hr]|[[_ Hr]|[Hr _]]]; unfold MO_64 in Hr; cbn in Hr; mlia).
  apply hwp_bind, hwp_whole16; [done|done|split; [mlia|]; split; [lia|]; split; [lia|]; by left|].
  intros m' S. apply hwp_ret. one_store.
Qed.

Lemma stored_halves m p v m1 m2 :
  stored m p 8 (wrap 64 v) m1 → stored m1 (p + 8) 8 (Z.shiftr v 64) m2 → stored m p 16 v m2.
Proof. intros S1 S2. apply (stored_app m p 8 8 v m1); [lia|lia| |done]. by apply stored_wrap in S1. Qed.

Lemma hwp_cross16 p v m (Q : unit → Mem → list HostAccess → Prop) :
  HAVE_CMPXCHG128 H = true → bytes m → in_range 128 v → let s2 := p mod 16 in let s1 := 16 - s2 in
  s2 ≠ 0 → s2 ≠ 8 →
  (∀ m' l, stored m p 16 v m' →
     l = (if s2 <? 8 then [(floor 16 p, 16)] ++ tiles 1 (p + s1) (Z.to_nat s2)
          else tiles 1 p (Z.to_nat s1) ++ [(p + s1, 16)]) → Q tt m' l) →
  hwp parallel
    (if (1 <=? s2) && (s2 <=? 7) then
       val_le ← store_whole_le16 H p s1 v; store_bytes_leN (p + s1) (Z.to_nat s2) val_le;; mret tt
     else if (9 <=? s2) && (s2 <=? 15) then
       store_bytes_leN p (Z.to_nat s1) (wrap 64 v);; store_whole_le16 H (p + s1) s2 (Z.shiftr v (s1 * 8));; mret tt
     else abort) m Q.
Proof.
  intros Ha Hm Hv s2 s1 H0 H8 HQ. assert (0 ≤ s2 < 16) by (apply Z.mod_pos_bound; lia).
  assert (E2 : s2 = p mod 16) by done. assert (E1 : s1 = 16 - s2) by done. clearbody s1 s2.
  destruct (Z.ltb_spec s2 8) as [Hlt|Hge].
  - replace ((1 <=? s2) && (s2 <=? 7)) with true by lia. apply hwp_bind.
    apply hwp_whole16; [done|done|rewrite <- E2; split; [lia|]; split; [lia|]; split; [lia|]; right; lia|]. intros m1 S1.
    replace (s1 <=? 8) with false by lia.
    apply hwp_bind, hwp_bytes. intros m2 S2. apply hwp_ret. rewrite app_nil_r. apply HQ; [|done].
    rewrite Z2Nat.id in S2 by lia. replace 16 with (s1 + s2) by lia. by eapply stored_app; [lia|lia|..].
  - replace ((1 <=? s2) && (s2 <=? 7)) with false by lia. replace ((9 <=? s2) && (s2 <=? 15)) with true by lia.
    apply hwp_bind, hwp_bytes. intros m1 S1. rewrite Z2Nat.id in * by lia. assert (E0 : (p + s1) mod 16 = 0) by mlia.
    apply stored_wrap in S1; [|lia|lia]. rewrite (Z.mul_comm s1 8).
    apply hwp_bind, hwp_whole16; [done|by eapply stored_bytes| |].
    { rewrite E0. split; [lia|]. split; [lia|]. split; [lia|]. left.
      replace (8 * s2) with (128 - 8 * s1) by lia. apply shiftr_fits; [lia|done]. }
    intros m2 S2. apply hwp_ret. apply HQ.
    + replace 16 with (s1 + s2) by lia. by eapply stored_app; [lia|lia|..].
    + rewrite app_nil_r. do 3 f_equal. mlia.
Qed.

Theorem store_atom_16_ok p memop m v F L :
  bytes m → in_range 128 v → atomic_code 4 memop → in_page cpu p 16 F L →
  hwp parallel (store_atom_16 H cpu p memop v) m (stored_ok 4 p memop m F L v).
Proof.
  intros Hm Hv Hc [[P1 P2] [P3 P4] _]. unfold store_atom_16. rewrite land_15.
  destruct (HAVE_ATOMIC128_RW H && (p mod 16 =? 0)) eqn:EA.
  { apply andb_prop in EA as [Ha Hal]. apply hwp_set16; [done|lia|]. intros m' S. one_store. }
  destruct (required_known cpu 4 p memop m ltac:(lia) Hc) as (a & Ha & Hr & Hser). eapply hwp_known; [exact Ha|].
  destruct (Z.eqb_spec a MO_8) as [->|Na]; [byte_store|]. pose proof (parallel_of cpu a Hser Na) as Hb.
  destruct (Z.eqb_spec a MO_16) as [->|N16].
  { assert (p mod 2 = 0) by (by destruct Hr as [[_ Hr]|[[Hr _]|[Hr _]]]). apply hwp_bind, hwp_st_8_by_2; [done|]. intros m1 S1.
    apply hwp_st_8_by_2; [mlia|]. intros m' S. split; [by eapply stored_halves|].
    apply (tiles_ok cpu 4 1 MO_16 p memop m F L 8); try (done || lia). tile_eq. }
  destruct (Z.eqb_spec a MO_32) as [->|N32].
  { assert (p mod 4 = 0) by (by destruct Hr as [[_ Hr]|[[Hr _]|[Hr _]]]). apply hwp_bind, hwp_st_8_by_4; [done|]. intros m1 S1.
    apply hwp_st_8_by_4; [mlia|]. intros m' S. split; [by eapply stored_halves|].
    apply (tiles_ok cpu 4 2 MO_32 p memop m F L 4); try (done || lia). tile_eq. }
  destruct (Z.eqb_spec a MO_64) as [->|N64].
  { assert (p mod 8 = 0) by (by destruct Hr as [[_ Hr]|[[Hr _]|[Hr _]]]). destruct (HAVE_al8 H) eqn:E8; [|by apply hwp_exit].
    apply hwp_bind, hwp_store8; [done|done|]. intros m1 S1. apply hwp_store8; [done|mlia|]. intros m' S.
    split; [by eapply stored_halves|]. apply (tiles_ok cpu 4 3 MO_64 p memop m F L 2); try (done || lia). tile_eq. }
  destruct (Z.eqb_spec a (- MO_64)) as [->|Np].
  { assert (16 < p mod 16 + 16 ∧ p mod 16 + 8 ≠ 16) as [? ?] by (destruct Hr as [[Hr _]|[[Hr _]|(_ & Hr)]]; [by destruct Hr|done|exact Hr]).
    destruct (HAVE_CMPXCHG128 H) eqn:E16; [|by apply hwp_exit]. apply hwp_cross16; [done|done|done|lia|lia|].
    intros m' l S El. split; [done|]. rewrite El. destruct (Z.ltb_spec (p mod 16) 8).
    - apply kept_half; [lia|done|intros _; apply within_left, within_one; cbn; mlia|cbn; intros; exfalso; mlia|].
      apply inside_app; [apply inside_one; mlia|apply tiles_inside; mlia].
    - apply kept_half; [lia|done|cbn; intros; exfalso; mlia|intros _; apply within_right, within_one; cbn; mlia|].
      apply inside_app; [apply tiles_inside; mlia|apply inside_one; mlia]. }
  assert (a = MO_128) as ->.
  { unfold MO_8, MO_16, MO_32, MO_64, MO_128 in *. destruct Hr as [[Hr _]|[[-> _]|[-> _]]]; [lia|done|done]. }
  by apply hwp_exit.
Qed.

End MainStores.
