(* ===== verification/SoftTlb.v ===== *)
(** The software TLB of system emulation ([accel/tcg/cputlb.c]): for each MMU mode a
    direct-mapped table and a victim table of eight entries, the region of the large
    pages that were entered, the bookkeeping by which the table grows and shrinks, and
    the jump cache that is cleared with the pages.  Addresses are 64-bit. *)
From S2P Require Import Prelude Bitops MemOp.

(** ** Pages and flags *)

(** The page size of the guest, the smallest it can be, and the largest table. *)
Class Pages := mkPages {
  TARGET_PAGE_BITS : Z;
  TARGET_PAGE_BITS_MIN : Z;
  CPU_TLB_DYN_MAX_BITS : Z;
}.

Definition minus1 : Z := Z.ones 64.
Definition CPU_TLB_ENTRY_BITS : Z := 5.
Definition CPU_TLB_DYN_MIN_BITS : Z := 6.
Definition CPU_TLB_DYN_DEFAULT_BITS : Z := 8.
Definition CPU_VTLB_SIZE : nat := 8.
Definition NB_MMU_MODES : nat := 16.
Definition ALL_MMUIDX_BITS : Z := Z.ones (Z.of_nat NB_MMU_MODES).

Definition PAGE_READ : Z := 0x0001.
Definition PAGE_WRITE : Z := 0x0002.
Definition PAGE_EXEC : Z := 0x0004.
Definition PAGE_WRITE_INV : Z := 0x0020.
Definition BP_MEM_READ : Z := 0x01.
Definition BP_MEM_WRITE : Z := 0x02.

Definition TLB_BSWAP : Z := 1.
Definition TLB_WATCHPOINT : Z := 2.
Definition TLB_CHECK_ALIGNED : Z := 4.
Definition TLB_SLOW_FLAGS_MASK : Z := Z.lor (Z.lor TLB_BSWAP TLB_WATCHPOINT) TLB_CHECK_ALIGNED.

Section Flags.
Context {P : Pages}.
Definition TARGET_PAGE_SIZE : Z := Z.shiftl 1 TARGET_PAGE_BITS.
Definition TARGET_PAGE_MASK : Z := wrap 64 (Z.shiftl (-1) TARGET_PAGE_BITS).
Definition TLB_INVALID_MASK : Z := Z.shiftl 1 (TARGET_PAGE_BITS_MIN - 1).
Definition TLB_NOTDIRTY : Z := Z.shiftl 1 (TARGET_PAGE_BITS_MIN - 2).
Definition TLB_MMIO : Z := Z.shiftl 1 (TARGET_PAGE_BITS_MIN - 3).
Definition TLB_DISCARD_WRITE : Z := Z.shiftl 1 (TARGET_PAGE_BITS_MIN - 4).
Definition TLB_FORCE_SLOW : Z := Z.shiftl 1 (TARGET_PAGE_BITS_MIN - 5).
Definition TLB_FLAGS_MASK : Z :=
  Z.lor (Z.lor (Z.lor (Z.lor TLB_INVALID_MASK TLB_NOTDIRTY) TLB_MMIO) TLB_FORCE_SLOW) TLB_DISCARD_WRITE.

Definition tlb_hit_page (tlb_addr addr : Z) : bool :=
  addr =? Z.land tlb_addr (Z.lor TARGET_PAGE_MASK TLB_INVALID_MASK).
Definition tlb_hit (tlb_addr addr : Z) : bool := tlb_hit_page tlb_addr (Z.land addr TARGET_PAGE_MASK).
End Flags.

(** ** State *)

Record CPUTLBEntry := mkEntry { addr_read : Z; addr_write : Z; addr_code : Z; addend : Z }.
Definition tlb_read_idx (entry : CPUTLBEntry) (access_type : MMUAccessType) : Z :=
  match access_type with
  | MMU_DATA_LOAD => addr_read entry
  | MMU_DATA_STORE => addr_write entry
  | MMU_INST_FETCH => addr_code entry
  end.
(** [memset(entry, -1, sizeof(entry))] *)
Definition empty_entry : CPUTLBEntry := mkEntry minus1 minus1 minus1 minus1.
#[export] Instance entry_inhabited : Inhabited CPUTLBEntry := populate empty_entry.

Record CPUTLBEntryFull := mkFull {
  xlat_section : Z;
  phys_addr : Z;
  attrs : Z;
  prot : Z;
  lg_page_size : Z;
  tlb_fill_flags : Z;
  slow_flags : MMUAccessType → Z;
}.
#[export] Instance full_inhabited : Inhabited CPUTLBEntryFull := populate (mkFull 0 0 0 0 0 0 (λ _, 0)).

(** One MMU mode: the fields of [CPUTLBDesc] and of [CPUTLBDescFast]. *)
Record Tlb := mkTlb {
  large_page_addr : Z;
  large_page_mask : Z;
  window_begin_ns : Z;
  window_max_entries : Z;
  n_used_entries : Z;
  vindex : Z;
  vtable : list CPUTLBEntry;
  vfulltlb : list CPUTLBEntryFull;
  fulltlb : list CPUTLBEntryFull;
  mask : Z;
  table : list CPUTLBEntry;
}.
#[export] Instance tlb_inhabited : Inhabited Tlb := populate (mkTlb 0 0 0 0 0 0 [] [] [] 0 []).

Definition with_large (a m : Z) (t : Tlb) : Tlb :=
  mkTlb a m (window_begin_ns t) (window_max_entries t) (n_used_entries t) (vindex t) (vtable t) (vfulltlb t) (fulltlb t)
    (mask t) (table t).
Definition with_window (ns n : Z) (t : Tlb) : Tlb :=
  mkTlb (large_page_addr t) (large_page_mask t) ns n (n_used_entries t) (vindex t) (vtable t) (vfulltlb t) (fulltlb t)
    (mask t) (table t).
Definition with_used (n : Z) (t : Tlb) : Tlb :=
  mkTlb (large_page_addr t) (large_page_mask t) (window_begin_ns t) (window_max_entries t) n (vindex t) (vtable t)
    (vfulltlb t) (fulltlb t) (mask t) (table t).
Definition with_victims (n : Z) (l : list CPUTLBEntry) (fs : list CPUTLBEntryFull) (t : Tlb) : Tlb :=
  mkTlb (large_page_addr t) (large_page_mask t) (window_begin_ns t) (window_max_entries t) (n_used_entries t) n l fs
    (fulltlb t) (mask t) (table t).
Definition with_table (m : Z) (l : list CPUTLBEntry) (fs : list CPUTLBEntryFull) (t : Tlb) : Tlb :=
  mkTlb (large_page_addr t) (large_page_mask t) (window_begin_ns t) (window_max_entries t) (n_used_entries t) (vindex t)
    (vtable t) (vfulltlb t) fs m l.

Definition tlb_n_entries (t : Tlb) : Z := Z.shiftr (mask t) CPU_TLB_ENTRY_BITS + 1.
Definition tlb_window_reset (t : Tlb) (ns max_entries : Z) : Tlb := with_window ns max_entries t.
Definition tlb_n_used_entries_inc (t : Tlb) : Tlb := with_used (wrap 64 (n_used_entries t + 1)) t.
Definition tlb_n_used_entries_dec (t : Tlb) : Tlb := with_used (wrap 64 (n_used_entries t - 1)) t.

(** ** Flushing a mode *)

Definition pow2ceil (value : Z) : Z :=
  let n := clz64 (wrap 64 (value - 1)) in
  if n =? 0 then (if value =? 0 then 1 else 0) else Z.shiftr 0x8000000000000000 (n - 1).

Section Resize.
Context {P : Pages}.
(** Whether both tables of a size can be allocated, and what fresh memory holds. *)
Context (alloc : Z → bool) (junk : CPUTLBEntry) (junk_full : CPUTLBEntryFull).

Definition resize_to (t : Tlb) (now : Z) : Z :=
  let old_size := tlb_n_entries t in
  let window_expired := window_begin_ns t + 100 * 1000 * 1000 <? now in
  let most := if window_max_entries t <? n_used_entries t then n_used_entries t else window_max_entries t in
  let rate := wrap 64 (most * 100) / old_size in
  if 70 <? rate then Z.min (wrap 64 (Z.shiftl old_size 1)) (Z.shiftl 1 CPU_TLB_DYN_MAX_BITS)
  else if (rate <? 30) && window_expired then
    let ceil := pow2ceil most in
    let expected_rate := wrap 64 (most * 100) / ceil in
    let ceil := if 70 <? expected_rate then wrap 64 (ceil * 2) else ceil in
    Z.max ceil (Z.shiftl 1 CPU_TLB_DYN_MIN_BITS)
  else old_size.

(** The size that can be allocated, halving after each failure. *)
Fixpoint alloc_from (fuel : nat) (new_size : Z) : Res Z :=
  match fuel with
  | O => Abort
  | S fuel =>
      if alloc new_size then Ok new_size
      else if new_size =? Z.shiftl 1 CPU_TLB_DYN_MIN_BITS then Abort
      else alloc_from fuel (Z.max (Z.shiftr new_size 1) (Z.shiftl 1 CPU_TLB_DYN_MIN_BITS))
  end.

Definition tlb_mmu_resize_locked (t : Tlb) (now : Z) : Res Tlb :=
  let old_size := tlb_n_entries t in
  let window_expired := window_begin_ns t + 100 * 1000 * 1000 <? now in
  let most := if window_max_entries t <? n_used_entries t then n_used_entries t else window_max_entries t in
  let new_size := resize_to t now in
  let t := with_window (window_begin_ns t) most t in
  if new_size =? old_size then
    Ok (if window_expired then tlb_window_reset t now (n_used_entries t) else t)
  else
    let t := tlb_window_reset t now 0 in
    new_size ← alloc_from 64 new_size;
    Ok (with_table (Z.shiftl (new_size - 1) CPU_TLB_ENTRY_BITS) (replicate (Z.to_nat new_size) junk)
          (replicate (Z.to_nat new_size) junk_full) t).

Definition tlb_mmu_flush_locked (t : Tlb) : Tlb :=
  with_table (mask t) (replicate (Z.to_nat (tlb_n_entries t)) empty_entry) (fulltlb t)
    (with_victims 0 (replicate CPU_VTLB_SIZE empty_entry) (vfulltlb t)
       (with_large minus1 minus1 (with_used 0 t))).

Definition tlb_flush_one_mmuidx_locked (t : Tlb) (now : Z) : Res Tlb :=
  t ← tlb_mmu_resize_locked t now; Ok (tlb_mmu_flush_locked t).

Definition tlb_mmu_init (now : Z) : Tlb :=
  let n_entries := Z.shiftl 1 CPU_TLB_DYN_DEFAULT_BITS in
  tlb_mmu_flush_locked
    (mkTlb 0 0 now 0 0 0 (replicate CPU_VTLB_SIZE junk) (replicate CPU_VTLB_SIZE junk_full)
       (replicate (Z.to_nat n_entries) junk_full) (Z.shiftl (n_entries - 1) CPU_TLB_ENTRY_BITS)
       (replicate (Z.to_nat n_entries) junk)).
End Resize.

(** ** Lookup, flushing of pages and filling *)

(** What the memory API says of a physical page: [address_space_translate_for_iotlb] and
    the [memory_region_*] functions on its section, [cpu_physical_memory_is_clean], and
    [cpu_watchpoint_address_matches]. *)
Record IoSection := mkIoSection {
  sec_ram_ptr : Z;
  sec_xlat : Z;
  sec_sz : Z;
  sec_prot : Z;
  sec_is_ram : bool;
  sec_is_romd : bool;
  sec_readonly : bool;
  sec_ram_addr : Z;
  sec_iotlb : Z;
}.
Record Memory := mkMemory {
  translate_for_iotlb : Z → Z → Z → Z → IoSection;
  is_clean : Z → bool;
  watchpoint_matches : Z → Z → Z;
}.

Section Lookup.
Context {P : Pages}.
Implicit Types (t : Tlb) (entry e : CPUTLBEntry) (full : CPUTLBEntryFull).

Definition tlb_index t (addr : Z) : Z :=
  Z.land (Z.shiftr addr TARGET_PAGE_BITS) (Z.shiftr (mask t) CPU_TLB_ENTRY_BITS).
Definition tlb_entry t (addr : Z) : CPUTLBEntry := table t !!! Z.to_nat (tlb_index t addr).

Definition tlb_hit_page_mask_anyprot e (page m : Z) : bool :=
  let page := Z.land page m in
  let m := Z.land m (Z.lor TARGET_PAGE_MASK TLB_INVALID_MASK) in
  (page =? Z.land (addr_read e) m) || (page =? Z.land (addr_write e) m) || (page =? Z.land (addr_code e) m).
Definition tlb_hit_page_anyprot e (page : Z) : bool := tlb_hit_page_mask_anyprot e page minus1.
Definition tlb_entry_is_empty e : bool :=
  (addr_read e =? minus1) && (addr_write e =? minus1) && (addr_code e =? minus1).

Definition tlb_flush_entry_mask_locked e (page m : Z) : CPUTLBEntry * bool :=
  if tlb_hit_page_mask_anyprot e page m then (empty_entry, true) else (e, false).
Definition tlb_flush_entry_locked e (page : Z) : CPUTLBEntry * bool := tlb_flush_entry_mask_locked e page minus1.

(** The entries of the victim table, each with its own decrement of the counter. *)
Fixpoint flush_victims (l : list CPUTLBEntry) (page m : Z) (used : Z) : list CPUTLBEntry * Z :=
  match l with
  | [] => ([], used)
  | e :: l =>
      let '(e, flushed) := tlb_flush_entry_mask_locked e page m in
      let '(l, used) := flush_victims l page m (if flushed then wrap 64 (used - 1) else used) in
      (e :: l, used)
  end.
Definition tlb_flush_vtlb_page_mask_locked t (page m : Z) : Tlb :=
  let '(l, used) := flush_victims (vtable t) page m (n_used_entries t) in
  with_used used (with_victims (vindex t) l (vfulltlb t) t).
Definition tlb_flush_vtlb_page_locked t (page : Z) : Tlb := tlb_flush_vtlb_page_mask_locked t page minus1.

(** The main entry of a page, with a decrement of the counter. *)
Definition flush_main t (page m : Z) : Tlb :=
  let '(e, flushed) := tlb_flush_entry_mask_locked (tlb_entry t page) page m in
  let t := with_table (mask t) (<[Z.to_nat (tlb_index t page) := e]> (table t)) (fulltlb t) t in
  if flushed then tlb_n_used_entries_dec t else t.

Definition tlb_reset_dirty_range_locked e (start length : Z) : CPUTLBEntry :=
  let addr := addr_write e in
  if Z.land addr (Z.lor (Z.lor (Z.lor TLB_INVALID_MASK TLB_MMIO) TLB_DISCARD_WRITE) TLB_NOTDIRTY) =? 0 then
    let addr := wrap 64 (Z.land addr TARGET_PAGE_MASK + addend e) in
    if wrap 64 (addr - start) <? length then
      mkEntry (addr_read e) (Z.lor (addr_write e) TLB_NOTDIRTY) (addr_code e) (addend e)
    else e
  else e.
Definition reset_dirty_mode (start1 length : Z) t : Tlb :=
  with_table (mask t) ((λ e, tlb_reset_dirty_range_locked e start1 length) <$> table t) (fulltlb t)
    (with_victims (vindex t) ((λ e, tlb_reset_dirty_range_locked e start1 length) <$> vtable t) (vfulltlb t) t).
Definition tlb_set_dirty1_locked e (addr : Z) : CPUTLBEntry :=
  if addr_write e =? Z.lor addr TLB_NOTDIRTY then mkEntry (addr_read e) addr (addr_code e) (addend e) else e.
Definition set_dirty_mode (addr : Z) t : Tlb :=
  with_table (mask t)
    (<[Z.to_nat (tlb_index t addr) := tlb_set_dirty1_locked (tlb_entry t addr) addr]> (table t)) (fulltlb t)
    (with_victims (vindex t) ((λ e, tlb_set_dirty1_locked e addr) <$> vtable t) (vfulltlb t) t).

(** The mask is shifted until the region covers both addresses; after 64 shifts it is 0. *)
Fixpoint cover (fuel : nat) (lp_addr addr lp_mask : Z) : Z :=
  match fuel with
  | O => lp_mask
  | S fuel => if Z.land (Z.lxor lp_addr addr) lp_mask =? 0 then lp_mask else cover fuel lp_addr addr (wrap 64 (Z.shiftl lp_mask 1))
  end.
Definition tlb_add_large_page t (addr size : Z) : Tlb :=
  let lp_addr := large_page_addr t in
  let lp_mask := wrap 64 (Z.lnot (size - 1)) in
  if lp_addr =? minus1 then with_large (Z.land addr lp_mask) lp_mask t
  else
    let lp_mask := cover 64 lp_addr addr (Z.land lp_mask (large_page_mask t)) in
    with_large (Z.land lp_addr lp_mask) lp_mask t.

(** The comparator and the slow flags. *)
Definition tlb_set_compare (address flags : Z) (enable : bool) : Z * Z :=
  if enable then
    let address := Z.lor address (Z.land flags TLB_FLAGS_MASK) in
    let flags := Z.land flags TLB_SLOW_FLAGS_MASK in
    (if flags =? 0 then address else Z.lor address TLB_FORCE_SLOW, flags)
  else (minus1, 0).

Context (M : Memory).

(** The flags of reads and writes, the address in host memory, and the [iotlb] value. *)
Definition page_flags full (s : IoSection) : Res (Z * Z * Z * Z) :=
  let read_flags := Z.lor (tlb_fill_flags full)
    (if lg_page_size full <? TARGET_PAGE_BITS then TLB_INVALID_MASK else 0) in
  let addend := if sec_is_ram s || sec_is_romd s then wrap 64 (sec_ram_ptr s + sec_xlat s) else 0 in
  if sec_is_ram s then
    let iotlb := wrap 64 (sec_ram_addr s + sec_xlat s) in
    assert_ (Z.land iotlb (Z.lnot TARGET_PAGE_MASK) =? 0);;
    let write_flags :=
      if has (sec_prot s) PAGE_WRITE then
        if sec_readonly s then Z.lor read_flags TLB_DISCARD_WRITE
        else if is_clean M iotlb then Z.lor read_flags TLB_NOTDIRTY else read_flags
      else read_flags in
    Ok (read_flags, write_flags, addend, iotlb)
  else
    let iotlb := wrap 64 (sec_iotlb s + sec_xlat s) in
    let write_flags := Z.lor read_flags TLB_MMIO in
    Ok (if sec_is_romd s then read_flags else write_flags, write_flags, addend, iotlb).

(** The entry of a page and the full entry that goes with it. *)
Definition new_entry (addr_page paddr_page : Z) full (s : IoSection) : Res (CPUTLBEntry * CPUTLBEntryFull) :=
  '(read_flags, write_flags, addend, iotlb) ← page_flags full s;
  let wp_flags := watchpoint_matches M addr_page TARGET_PAGE_SIZE in
  let '(code, scode) := tlb_set_compare addr_page read_flags (has (sec_prot s) PAGE_EXEC) in
  let read_flags := if has wp_flags BP_MEM_READ then Z.lor read_flags TLB_WATCHPOINT else read_flags in
  let '(rd, sread) := tlb_set_compare addr_page read_flags (has (sec_prot s) PAGE_READ) in
  let write_flags := if has (sec_prot s) PAGE_WRITE_INV then Z.lor write_flags TLB_INVALID_MASK else write_flags in
  let write_flags := if has wp_flags BP_MEM_WRITE then Z.lor write_flags TLB_WATCHPOINT else write_flags in
  let '(wr, swrite) := tlb_set_compare addr_page write_flags (has (sec_prot s) PAGE_WRITE) in
  Ok (mkEntry rd wr code (wrap 64 (addend - addr_page)),
      mkFull (wrap 64 (iotlb - addr_page)) paddr_page (attrs full) (prot full) (lg_page_size full) (tlb_fill_flags full)
        (λ a, match a with MMU_DATA_LOAD => sread | MMU_DATA_STORE => swrite | MMU_INST_FETCH => scode end)).

(** The entry of another page that the new one displaces goes to the victim table. *)
Definition evict t (addr_page : Z) : Tlb :=
  let te := tlb_entry t addr_page in
  if negb (tlb_hit_page_anyprot te addr_page) && negb (tlb_entry_is_empty te) then
    let vidx := Z.to_nat (vindex t mod Z.of_nat CPU_VTLB_SIZE) in
    tlb_n_used_entries_dec
      (with_victims (wrap 64 (vindex t + 1)) (<[vidx := te]> (vtable t))
         (<[vidx := fulltlb t !!! Z.to_nat (tlb_index t addr_page)]> (vfulltlb t)) t)
  else t.

Definition set_page_mode t (addr : Z) full : Res Tlb :=
  let '(sz, t) :=
    if lg_page_size full <=? TARGET_PAGE_BITS then (TARGET_PAGE_SIZE, t)
    else (wrap 64 (Z.shiftl 1 (lg_page_size full)), tlb_add_large_page t addr (wrap 64 (Z.shiftl 1 (lg_page_size full)))) in
  let addr_page := Z.land addr TARGET_PAGE_MASK in
  let paddr_page := Z.land (phys_addr full) TARGET_PAGE_MASK in
  let s := translate_for_iotlb M (attrs full) paddr_page sz (prot full) in
  assert_ (TARGET_PAGE_SIZE <=? sec_sz s);;
  '(tn, full) ← new_entry addr_page paddr_page full s;
  let t := tlb_flush_vtlb_page_locked t addr_page in
  let t := evict t addr_page in
  let index := Z.to_nat (tlb_index t addr_page) in
  Ok (tlb_n_used_entries_inc (with_table (mask t) (<[index := tn]> (table t)) (<[index := full]> (fulltlb t)) t)).

(** [None] when the page is not in the victim table. *)
Definition victim_tlb_hit t (index : nat) (access_type : MMUAccessType) (page : Z) : option Tlb :=
  '(vidx, vtlb) ← list_find (λ e, tlb_read_idx e access_type = page) (vtable t);
  Some (with_table (mask t) (<[index := vtlb]> (table t)) (<[index := vfulltlb t !!! vidx]> (fulltlb t))
    (with_victims (vindex t) (<[vidx := table t !!! index]> (vtable t)) (<[vidx := fulltlb t !!! index]> (vfulltlb t)) t)).
End Lookup.

(** ** Flushing of pages and ranges in one mode *)

Section Flush.
Context {P : Pages}.
Context (alloc : Z → bool) (junk : CPUTLBEntry) (junk_full : CPUTLBEntryFull).

Definition tlb_flush_page_locked (now : Z) (page : Z) (t : Tlb) : Res Tlb :=
  if Z.land page (large_page_mask t) =? large_page_addr t then
    tlb_flush_one_mmuidx_locked alloc junk junk_full t now
  else Ok (tlb_flush_vtlb_page_locked (flush_main t page minus1) page).

(** The pages from [page] on. *)
Fixpoint flush_pages (n : nat) (page m : Z) (t : Tlb) : Tlb :=
  match n with
  | O => t
  | S n => flush_pages n (wrap 64 (page + TARGET_PAGE_SIZE)) m (tlb_flush_vtlb_page_mask_locked (flush_main t page m) page m)
  end.
Definition tlb_flush_range_locked (now : Z) (addr len bits : Z) (t : Tlb) : Res Tlb :=
  let m := Z.shiftr minus1 (64 - bits) in
  if (m <? mask t) || (mask t <? len) then tlb_flush_one_mmuidx_locked alloc junk junk_full t now
  else if Z.land (wrap 64 (addr + len - 1)) (large_page_mask t) =? large_page_addr t then
    tlb_flush_one_mmuidx_locked alloc junk junk_full t now
  else Ok (flush_pages (Z.to_nat ((len + TARGET_PAGE_SIZE - 1) / TARGET_PAGE_SIZE)) addr m t).
End Flush.

(** ** The jump cache ([accel/tcg/tb-hash.h], [tb-jmp-cache.h]) *)

Definition TB_JMP_CACHE_BITS : Z := 12.
Definition TB_JMP_CACHE_SIZE : Z := Z.shiftl 1 TB_JMP_CACHE_BITS.
Definition TB_JMP_PAGE_BITS : Z := TB_JMP_CACHE_BITS / 2.
Definition TB_JMP_PAGE_SIZE : Z := Z.shiftl 1 TB_JMP_PAGE_BITS.
Definition TB_JMP_ADDR_MASK : Z := TB_JMP_PAGE_SIZE - 1.
Definition TB_JMP_PAGE_MASK : Z := TB_JMP_CACHE_SIZE - TB_JMP_PAGE_SIZE.

Section JumpCache.
Context {P : Pages}.
Definition tb_jmp_cache_hash_page (pc : Z) : Z :=
  let tmp := Z.lxor pc (Z.shiftr pc (TARGET_PAGE_BITS - TB_JMP_PAGE_BITS)) in
  Z.land (Z.shiftr tmp (TARGET_PAGE_BITS - TB_JMP_PAGE_BITS)) TB_JMP_PAGE_MASK.
Definition tb_jmp_cache_hash_func (pc : Z) : Z :=
  let tmp := Z.lxor pc (Z.shiftr pc (TARGET_PAGE_BITS - TB_JMP_PAGE_BITS)) in
  Z.lor (Z.land (Z.shiftr tmp (TARGET_PAGE_BITS - TB_JMP_PAGE_BITS)) TB_JMP_PAGE_MASK) (Z.land tmp TB_JMP_ADDR_MASK).

(** The [pc] of the block in each slot. *)
Definition CPUJumpCache : Type := Z → option Z.
Definition tb_jmp_cache_clear_page (jc : CPUJumpCache) (page_addr : Z) : CPUJumpCache := λ i,
  let i0 := tb_jmp_cache_hash_page page_addr in
  if (i0 <=? i) && (i <? i0 + TB_JMP_PAGE_SIZE) then None else jc i.
Definition tcg_flush_jmp_cache : CPUJumpCache := λ _, None.
End JumpCache.

(** ** The TLB of a CPU *)

Record CPUTLB := mkCPUTLB {
  dirty : Z;
  full_flush_count : Z;
  part_flush_count : Z;
  elide_flush_count : Z;
  modes : list Tlb;
  tb_jmp_cache : CPUJumpCache;
}.
Definition with_modes (l : list Tlb) (c : CPUTLB) : CPUTLB :=
  mkCPUTLB (dirty c) (full_flush_count c) (part_flush_count c) (elide_flush_count c) l (tb_jmp_cache c).
Definition with_jumps (jc : CPUJumpCache) (c : CPUTLB) : CPUTLB :=
  mkCPUTLB (dirty c) (full_flush_count c) (part_flush_count c) (elide_flush_count c) (modes c) jc.

Section Cpu.
Context {P : Pages}.
Context (alloc : Z → bool) (junk : CPUTLBEntry) (junk_full : CPUTLBEntryFull) (M : Memory).

Definition tlb_init (now : Z) (c : CPUTLB) : CPUTLB :=
  mkCPUTLB 0 (full_flush_count c) (part_flush_count c) (elide_flush_count c)
    (replicate NB_MMU_MODES (tlb_mmu_init junk junk_full now)) (tb_jmp_cache c).

(** The modes of the set bits of [work], from the lowest on. *)
Fixpoint flush_work (fuel : nat) (now work : Z) (l : list Tlb) : Res (list Tlb) :=
  match fuel with
  | O => Ok l
  | S fuel =>
      if work =? 0 then Ok l
      else
        let mmu_idx := Z.to_nat (ctz32 work) in
        t ← tlb_flush_one_mmuidx_locked alloc junk junk_full (l !!! mmu_idx) now;
        flush_work fuel now (Z.land work (work - 1)) (<[mmu_idx := t]> l)
  end.
Definition tlb_flush_by_mmuidx_async_work (now asked : Z) (c : CPUTLB) : Res CPUTLB :=
  let all_dirty := dirty c in
  let to_clean := Z.land asked all_dirty in
  let all_dirty := Z.land all_dirty (Z.lnot to_clean) in
  l ← flush_work NB_MMU_MODES now to_clean (modes c);
  Ok (mkCPUTLB all_dirty
        (if to_clean =? ALL_MMUIDX_BITS then wrap 64 (full_flush_count c + 1) else full_flush_count c)
        (if to_clean =? ALL_MMUIDX_BITS then part_flush_count c else wrap 64 (part_flush_count c + ctpop16 to_clean))
        (if (to_clean =? ALL_MMUIDX_BITS) || (to_clean =? asked) then elide_flush_count c
         else wrap 64 (elide_flush_count c + ctpop16 (Z.land asked (Z.lnot to_clean))))
        l tcg_flush_jmp_cache).
Definition tlb_flush_by_mmuidx := tlb_flush_by_mmuidx_async_work.
Definition tlb_flush (now : Z) (c : CPUTLB) : Res CPUTLB := tlb_flush_by_mmuidx now ALL_MMUIDX_BITS c.

(** [op] on the modes from [k] on whose bit of [idxmap] is set. *)
Fixpoint each_mode (op : Tlb → Res Tlb) (idxmap : Z) (k : Z) (l : list Tlb) : Res (list Tlb) :=
  match l with
  | [] => Ok []
  | t :: l => t ← (if Z.testbit idxmap k then op t else Ok t); l ← each_mode op idxmap (k + 1) l; Ok (t :: l)
  end.
Definition tlb_flush_page_by_mmuidx_async_0 (now addr idxmap : Z) (c : CPUTLB) : Res CPUTLB :=
  l ← each_mode (tlb_flush_page_locked alloc junk junk_full now addr) idxmap 0 (modes c);
  Ok (with_jumps
        (tb_jmp_cache_clear_page (tb_jmp_cache_clear_page (tb_jmp_cache c) (wrap 64 (addr - TARGET_PAGE_SIZE))) addr)
        (with_modes l c)).
Definition tlb_flush_page_by_mmuidx_async_1 (now addr_and_idxmap : Z) (c : CPUTLB) : Res CPUTLB :=
  tlb_flush_page_by_mmuidx_async_0 now (Z.land addr_and_idxmap TARGET_PAGE_MASK)
    (wrap 16 (Z.land addr_and_idxmap (Z.lnot TARGET_PAGE_MASK))) c.
Definition tlb_flush_page_by_mmuidx (now addr idxmap : Z) (c : CPUTLB) : Res CPUTLB :=
  tlb_flush_page_by_mmuidx_async_0 now (Z.land addr TARGET_PAGE_MASK) idxmap c.
Definition tlb_flush_page (now addr : Z) (c : CPUTLB) : Res CPUTLB := tlb_flush_page_by_mmuidx now addr ALL_MMUIDX_BITS c.

(** The pages of the jump cache from [addr] on. *)
Fixpoint clear_pages (n : nat) (addr : Z) (jc : CPUJumpCache) : CPUJumpCache :=
  match n with
  | O => jc
  | S n => clear_pages n (wrap 64 (addr + TARGET_PAGE_SIZE)) (tb_jmp_cache_clear_page jc addr)
  end.
Definition tlb_flush_range_by_mmuidx_async_0 (now addr len idxmap bits : Z) (c : CPUTLB) : Res CPUTLB :=
  l ← each_mode (tlb_flush_range_locked alloc junk junk_full now addr len bits) idxmap 0 (modes c);
  let c := with_modes l c in
  if TARGET_PAGE_SIZE * TB_JMP_CACHE_SIZE <=? len then Ok (with_jumps tcg_flush_jmp_cache c)
  else Ok (with_jumps (clear_pages (Z.to_nat (len / TARGET_PAGE_SIZE + 1)) (wrap 64 (addr - TARGET_PAGE_SIZE)) (tb_jmp_cache c)) c).
Definition tlb_flush_range_by_mmuidx (now addr len idxmap bits : Z) (c : CPUTLB) : Res CPUTLB :=
  if (64 <=? bits) && (len <=? TARGET_PAGE_SIZE) then tlb_flush_page_by_mmuidx now addr idxmap c
  else if bits <? TARGET_PAGE_BITS then tlb_flush_by_mmuidx now idxmap c
  else tlb_flush_range_by_mmuidx_async_0 now (Z.land addr TARGET_PAGE_MASK) len idxmap bits c.

Definition tlb_reset_dirty (start1 length : Z) (c : CPUTLB) : CPUTLB :=
  with_modes (reset_dirty_mode start1 length <$> modes c) c.
Definition tlb_set_dirty (addr : Z) (c : CPUTLB) : CPUTLB :=
  with_modes (set_dirty_mode (Z.land addr TARGET_PAGE_MASK) <$> modes c) c.

Definition tlb_set_page_full (mmu_idx : nat) (addr : Z) (full : CPUTLBEntryFull) (c : CPUTLB) : Res CPUTLB :=
  t ← set_page_mode M (modes c !!! mmu_idx) addr full;
  Ok (mkCPUTLB (Z.lor (dirty c) (Z.shiftl 1 (Z.of_nat mmu_idx))) (full_flush_count c) (part_flush_count c)
        (elide_flush_count c) (<[mmu_idx := t]> (modes c)) (tb_jmp_cache c)).
Definition tlb_set_page_with_attrs (mmu_idx : nat) (addr paddr at_ pr size : Z) (c : CPUTLB) : Res CPUTLB :=
  assert_ (is_power_of_2 size);;
  tlb_set_page_full mmu_idx addr (mkFull 0 paddr at_ pr (ctz64 size) 0 (λ _, 0)) c.
End Cpu.
