(* ===== verification/SoftTlbSpec.v ===== *)
(** What the software TLB guarantees: no page is cached twice, an entry is found where it
    was put, and what is cached agrees with the translations that were entered and not
    flushed since. *)
From S2P Require Import Prelude Bitops MemOp SoftTlb.

(** The flags are below the page offset and above the slow flags. *)
Record pages_ok `{Pages} : Prop := {
  min_bits : 8 ≤ TARGET_PAGE_BITS_MIN ≤ TARGET_PAGE_BITS;
  max_bits : 6 ≤ CPU_TLB_DYN_MAX_BITS ∧ CPU_TLB_DYN_MAX_BITS + TARGET_PAGE_BITS ≤ 64 ∧ CPU_TLB_DYN_MAX_BITS ≤ 32;
}.

(** ** Pages *)

Section PageFacts.
Context {P : Pages} (HP : pages_ok).

Definition page_of (a : Z) : Z := Z.land a TARGET_PAGE_MASK.
Definition is_page (q : Z) : Prop := page_of q = q.

Lemma testbit_page_mask i : Z.testbit TARGET_PAGE_MASK i = (i <? 64) && (TARGET_PAGE_BITS <=? i).
Proof.
  unfold TARGET_PAGE_MASK. destruct HP. rewrite testbit_wrap by lia. destruct (Z.ltb_spec i 64); [|done]. cbn.
  destruct (Z.ltb_spec i 0).
  - rewrite Z.testbit_neg_r by lia. symmetry. apply Z.leb_gt. lia.
  - rewrite Z.shiftl_spec by lia. destruct (Z.leb_spec TARGET_PAGE_BITS i); [apply Z.bits_m1; lia|apply Z.testbit_neg_r; lia].
Qed.
Lemma testbit_invalid i : Z.testbit TLB_INVALID_MASK i = (i =? TARGET_PAGE_BITS_MIN - 1).
Proof.
  unfold TLB_INVALID_MASK. destruct HP. rewrite Z.shiftl_1_l, Z.pow2_bits_eqb by lia. apply Z.eqb_sym.
Qed.
Lemma page_of_page a : is_page (page_of a).
Proof. unfold is_page, page_of. by rewrite <- Z.land_assoc, Z.land_diag. Qed.
Lemma testbit_page q i : is_page q → i < TARGET_PAGE_BITS → Z.testbit q i = false.
Proof.
  intros Hq Hi. rewrite <- Hq. unfold page_of. rewrite Z.land_spec, testbit_page_mask.
  destruct (Z.leb_spec TARGET_PAGE_BITS i); [lia|]. by rewrite !andb_false_r.
Qed.
Lemma page_range q : is_page q → in_range 64 q.
Proof.
  intros Hq. apply in_range_wrap; [lia|]. apply Z.bits_inj'. intros i Hi. rewrite testbit_wrap by lia.
  rewrite <- Hq. unfold page_of. rewrite Z.land_spec, testbit_page_mask. destruct (i <? 64); cbn; [done|by rewrite andb_false_r].
Qed.
Lemma page_of_eq a : in_range 64 a → page_of a = a - a mod 2 ^ TARGET_PAGE_BITS.
Proof.
  intros Ha. destruct HP. assert (E : page_of a = Z.shiftl (Z.shiftr a TARGET_PAGE_BITS) TARGET_PAGE_BITS).
  { unfold page_of. apply Z.bits_inj'. intros i Hi. rewrite Z.land_spec, testbit_page_mask, Z.shiftl_spec by lia.
    destruct (Z.leb_spec TARGET_PAGE_BITS i); [|by rewrite !andb_false_r, Z.testbit_neg_r by lia].
    rewrite Z.shiftr_spec by lia. replace (i - TARGET_PAGE_BITS + TARGET_PAGE_BITS) with i by lia.
    destruct (Z.ltb_spec i 64); [by rewrite andb_true_r|]. by rewrite (testbit_high 64) by (done || lia). }
  rewrite E, Z.shiftl_mul_pow2, Z.shiftr_div_pow2, Z.mod_eq by lia. pose proof (Z.pow_pos_nonneg 2 TARGET_PAGE_BITS). lia.
Qed.
End PageFacts.

(** ** Hits *)

Section Hits.
Context {P : Pages} (HP : pages_ok).
Implicit Types (e : CPUTLBEntry) (q : Z).

Lemma hit_page_iff cmp q :
  is_page q → tlb_hit_page cmp q = true ↔ page_of cmp = q ∧ Z.testbit cmp (TARGET_PAGE_BITS_MIN - 1) = false.
Proof.
  intros Hq. unfold tlb_hit_page. rewrite Z.eqb_eq. destruct HP as [Hmin _]. split.
  - intros E. split.
    + transitivity (page_of q); [|exact Hq]. rewrite E. unfold page_of. rewrite <- Z.land_assoc. f_equal.
      apply Z.bits_inj_iff. intros i. rewrite Z.land_spec, Z.lor_spec. by destruct (Z.testbit TARGET_PAGE_MASK i); rewrite ?andb_false_r.
    + assert (Hb : Z.testbit q (TARGET_PAGE_BITS_MIN - 1) = false) by (apply testbit_page; (done || lia)). rewrite E in Hb.
      rewrite Z.land_spec, Z.lor_spec, testbit_invalid, Z.eqb_refl, orb_true_r, andb_true_r in Hb by done. done.
  - intros [<- Hb]. unfold page_of. apply Z.bits_inj'. intros i Hi. rewrite !Z.land_spec, Z.lor_spec, testbit_invalid by done.
    destruct (Z.eqb_spec i (TARGET_PAGE_BITS_MIN - 1)) as [->|]; [by rewrite Hb|by rewrite orb_false_r].
Qed.
Lemma hit_page_fn cmp q q' : is_page q → is_page q' → tlb_hit_page cmp q = true → tlb_hit_page cmp q' = true → q = q'.
Proof. intros Hq Hq' [<- _]%hit_page_iff [<- _]%hit_page_iff; done. Qed.

Definition hits e q : Prop := ∃ a, tlb_hit_page (tlb_read_idx e a) q = true.

Lemma anyprot_iff e q : is_page q → tlb_hit_page_anyprot e q = true ↔ hits e q.
Proof.
  intros Hq. pose proof (page_range HP q Hq) as Hr. unfold tlb_hit_page_anyprot, tlb_hit_page_mask_anyprot.
  assert (E1 : Z.land q minus1 = q) by (unfold minus1; rewrite Z.land_ones by lia; by apply wrap_small).
  assert (E2 : Z.land minus1 (Z.lor TARGET_PAGE_MASK TLB_INVALID_MASK) = Z.lor TARGET_PAGE_MASK TLB_INVALID_MASK).
  { apply Z.bits_inj'. intros i Hi. destruct HP. rewrite Z.land_spec. unfold minus1. rewrite testbit_ones by lia.
    destruct (Z.ltb_spec i 64); [done|]. rewrite Z.lor_spec, testbit_page_mask, testbit_invalid by done.
    replace (i <? 64) with false by lia. by replace (i =? TARGET_PAGE_BITS_MIN - 1) with false by lia. }
  rewrite E1, E2. rewrite !orb_true_iff. unfold hits, tlb_hit_page. split.
  - intros [[H|H]|H]; [exists MMU_DATA_LOAD|exists MMU_DATA_STORE|exists MMU_INST_FETCH]; exact H.
  - intros [[] H]; cbn in H; rewrite H; tauto.
Qed.
Lemma anyprot_false e q : is_page q → tlb_hit_page_anyprot e q = false ↔ ¬ hits e q.
Proof. intros Hq. rewrite <- anyprot_iff by done. by destruct (tlb_hit_page_anyprot e q). Qed.
Lemma empty_misses q : is_page q → ¬ hits empty_entry q.
Proof.
  intros Hq [a [_ Hb]%hit_page_iff]; [|done]. destruct HP. destruct a; cbn in Hb; unfold minus1 in Hb;
  rewrite testbit_ones in Hb by lia; lia.
Qed.
Lemma empty_entry_misses e q : is_page q → tlb_entry_is_empty e = true → ¬ hits e q.
Proof.
  intros Hq He [a Hh]. apply (empty_misses q Hq). exists MMU_DATA_LOAD. cbn. destruct e as [r w c d].
  unfold tlb_entry_is_empty in He. cbn in He. by destruct a; cbn in Hh; [replace r with minus1 in Hh by lia|
    replace w with minus1 in Hh by lia|replace c with minus1 in Hh by lia].
Qed.
Lemma flush_entry_spec e q :
  is_page q → (tlb_flush_entry_locked e q).1 = empty_entry ∨ (tlb_flush_entry_locked e q).1 = e ∧ ¬ hits e q.
Proof.
  intros Hq. unfold tlb_flush_entry_locked, tlb_flush_entry_mask_locked. fold (tlb_hit_page_anyprot e q).
  destruct (tlb_hit_page_anyprot e q) eqn:E; [by left|right]. split; [done|]. by apply anyprot_false.
Qed.
End Hits.

(** ** The invariant *)

Definition Slot : Type := CPUTLBEntry * CPUTLBEntryFull.
(** The entries of the table and those of the victim table, with their full entries. *)
Definition slot_at (t : Tlb) (x : nat + nat) : option Slot :=
  match x with
  | inl i => e ← table t !! i; f ← fulltlb t !! i; Some (e, f)
  | inr j => e ← vtable t !! j; f ← vfulltlb t !! j; Some (e, f)
  end.

Section Invariant.
Context {P : Pages} (HP : pages_ok).
Implicit Types (t : Tlb) (q : Z) (s : Slot).

Record sized t (k : Z) : Prop := {
  size_bits : CPU_TLB_DYN_MIN_BITS ≤ k ≤ 58;
  size_mask : mask t = Z.shiftl (2 ^ k - 1) CPU_TLB_ENTRY_BITS;
  size_table : length (table t) = Z.to_nat (2 ^ k) ∧ length (fulltlb t) = Z.to_nat (2 ^ k);
  size_victims : length (vtable t) = CPU_VTLB_SIZE ∧ length (vfulltlb t) = CPU_VTLB_SIZE;
}.
Record tlb_wf t : Prop := {
  wf_sized : ∃ k, sized t k;
  (** an entry of the table is where its page is looked up *)
  wf_index : ∀ i s q, slot_at t (inl i) = Some s → is_page q → hits s.1 q → i = Z.to_nat (tlb_index t q);
  (** the comparators of an entry are for one page *)
  wf_single : ∀ x s q q', slot_at t x = Some s → is_page q → is_page q' → hits s.1 q → hits s.1 q' → q = q';
  (** a page is in one entry at most *)
  wf_unique : ∀ x y s s' q, slot_at t x = Some s → slot_at t y = Some s' → is_page q → hits s.1 q → hits s'.1 q → x = y;
}.
Definition caches t q s : Prop := ∃ x, slot_at t x = Some s ∧ hits s.1 q.

(** Slots can only lose their entry. *)
Record drops t t' : Prop := {
  drop_mask : mask t' = mask t;
  drop_sized : ∀ k, sized t k → sized t' k;
  drop_slot : ∀ x s q, slot_at t' x = Some s → is_page q → hits s.1 q → slot_at t x = Some s;
}.
Lemma drops_wf t t' : tlb_wf t → drops t t' → tlb_wf t'.
Proof.
  intros [[k Hk] Hi Hs Hu] [Hm Hz Hd]. split.
  - exists k. by apply Hz.
  - intros i s q Hx Hq Hh. unfold tlb_index. rewrite Hm. eapply Hi; eauto.
  - intros x s q q' Hx Hq Hq' Hh Hh'. eapply Hs; eauto.
  - intros x y s s' q Hx Hy Hq Hh Hh'. eapply Hu; eauto.
Qed.
Lemma drops_refl t : drops t t.
Proof. by split. Qed.
Lemma drops_trans t1 t2 t3 : drops t1 t2 → drops t2 t3 → drops t1 t3.
Proof.
  intros [M1 Z1 S1] [M2 Z2 S2]. split; [congruence|eauto|]. intros x s q Hx Hq Hh. eauto.
Qed.
Lemma drops_caches t t' q s : drops t t' → is_page q → caches t' q s → caches t q s.
Proof. intros [_ _ Hd] Hq (x & Hx & Hh). exists x. eauto. Qed.
(** Changes of the other fields. *)
Lemma drops_same t t' :
  mask t' = mask t → table t' = table t → fulltlb t' = fulltlb t → vtable t' = vtable t → vfulltlb t' = vfulltlb t →
  drops t t'.
Proof.
  intros E1 E2 E3 E4 E5. split; [done| |].
  - intros k [? ? ? ?]. split; [done|congruence| |]; by rewrite ?E2, ?E3, ?E4, ?E5.
  - intros x s q Hx _ _. rewrite <- Hx. destruct x; cbn; by rewrite ?E2, ?E3, ?E4, ?E5.
Qed.

Lemma index_eq t k q : sized t k → tlb_index t q = Z.shiftr q TARGET_PAGE_BITS mod 2 ^ k.
Proof.
  intros [Hk Hm _ _]. unfold CPU_TLB_DYN_MIN_BITS, CPU_TLB_ENTRY_BITS in *. unfold tlb_index. rewrite Hm. unfold CPU_TLB_ENTRY_BITS.
  rewrite Z.shiftr_shiftl_r by lia. change (5 - 5) with 0. rewrite Z.shiftr_0_r. rewrite <- Z.land_ones by lia.
  by rewrite Z.ones_equiv, Z.sub_1_r.
Qed.
Lemma index_bound t k q : sized t k → (Z.to_nat (tlb_index t q) < Z.to_nat (2 ^ k))%nat.
Proof.
  intros Hk. rewrite (index_eq t k) by done. destruct Hk as [Hk _ _ _]. unfold CPU_TLB_DYN_MIN_BITS in Hk.
  pose proof (Z.mod_pos_bound (Z.shiftr q TARGET_PAGE_BITS) (2 ^ k) ltac:(apply Z.pow_pos_nonneg; lia)). lia.
Qed.
Lemma main_slot t k i s : sized t k → slot_at t (inl i) = Some s ↔ (i < Z.to_nat (2 ^ k))%nat ∧ s = (table t !!! i, fulltlb t !!! i).
Proof.
  intros [_ _ [L1 L2] _]. cbn. split.
  - intros (e & He & (f & Hf & [= <-])%bind_Some)%bind_Some. split; [apply lookup_lt_Some in He; lia|].
    by rewrite (list_lookup_total_correct _ _ _ He), (list_lookup_total_correct _ _ _ Hf).
  - intros [Hi ->]. destruct (lookup_lt_is_Some_2 (table t) i) as [e He]; [lia|].
    destruct (lookup_lt_is_Some_2 (fulltlb t) i) as [f Hf]; [lia|].
    rewrite He, Hf. cbn. by rewrite (list_lookup_total_correct _ _ _ He), (list_lookup_total_correct _ _ _ Hf).
Qed.
Lemma victim_slot t k j s : sized t k → slot_at t (inr j) = Some s ↔ (j < CPU_VTLB_SIZE)%nat ∧ s = (vtable t !!! j, vfulltlb t !!! j).
Proof.
  intros [_ _ _ [L1 L2]]. cbn. split.
  - intros (e & He & (f & Hf & [= <-])%bind_Some)%bind_Some. split; [apply lookup_lt_Some in He; lia|].
    by rewrite (list_lookup_total_correct _ _ _ He), (list_lookup_total_correct _ _ _ Hf).
  - intros [Hi ->]. destruct (lookup_lt_is_Some_2 (vtable t) j) as [e He]; [lia|].
    destruct (lookup_lt_is_Some_2 (vfulltlb t) j) as [f Hf]; [lia|].
    rewrite He, Hf. cbn. by rewrite (list_lookup_total_correct _ _ _ He), (list_lookup_total_correct _ _ _ Hf).
Qed.

(** ** Flushing drops entries *)

Lemma flush_victims_map l q m u : (flush_victims l q m u).1 = (λ e, (tlb_flush_entry_mask_locked e q m).1) <$> l.
Proof.
  revert u. induction l as [|e l IH]; intros u; [done|]. cbn [flush_victims fmap list_fmap].
  destruct (tlb_flush_entry_mask_locked e q m) as [e' b] eqn:E. specialize (IH (if b then wrap 64 (u - 1) else u)).
  destruct (flush_victims l q m _) as [l' u']. cbn in *. by rewrite IH.
Qed.
Lemma flush_mask_spec e q m : (tlb_flush_entry_mask_locked e q m).1 = empty_entry ∨ (tlb_flush_entry_mask_locked e q m).1 = e.
Proof. unfold tlb_flush_entry_mask_locked. destruct (tlb_hit_page_mask_anyprot e q m); auto. Qed.

Lemma flush_vtlb_mask_drops t p m : drops t (tlb_flush_vtlb_page_mask_locked t p m).
Proof.
  unfold tlb_flush_vtlb_page_mask_locked. pose proof (flush_victims_map (vtable t) p m (n_used_entries t)) as El.
  destruct (flush_victims _ _ _ _) as [l u]. cbn in El. split; [done| |].
  - intros k [? ? ? [? ?]]. split; cbn; [done|done|done|]. by rewrite El, length_fmap.
  - intros [i|j] s q; cbn; [done|]. rewrite El, list_lookup_fmap. destruct (vtable t !! j) as [e|]; [|done]. cbn.
    destruct (vfulltlb t !! j) as [f|]; [|done]. cbn. intros [= <-] Hq Hh. cbn in Hh.
    destruct (flush_mask_spec e p m) as [E|E]; rewrite E in *; [|done]. by apply empty_misses in Hh.
Qed.
Lemma flush_main_drops t p m : tlb_wf t → drops t (flush_main t p m).
Proof.
  intros [[k Hk] _ _ _]. unfold flush_main.
  destruct (tlb_flush_entry_mask_locked (tlb_entry t p) p m) as [e b] eqn:E.
  set (t1 := with_table _ _ _ _). assert (D1 : drops t t1).
  { assert (He : e = empty_entry ∨ e = tlb_entry t p) by (pose proof (flush_mask_spec (tlb_entry t p) p m) as Hs; by rewrite E in Hs).
    split; [done| |].
    - intros k' [? ? [? ?] ?]. split; cbn; [done|done|by rewrite length_insert|done].
    - intros [i|j] s q; [|done]. cbn. intros (e' & He' & (f & Hf & [= <-])%bind_Some)%bind_Some Hq Hh. cbn in Hh.
      apply list_lookup_insert_Some in He' as [(<- & -> & Hl)|(_ & He')]; [|by rewrite He', Hf].
      destruct He as [->| ->]; [by apply empty_misses in Hh|]. rewrite Hf.
      destruct (lookup_lt_is_Some_2 (table t) _ Hl) as [e2 He2]. unfold tlb_entry.
      by rewrite He2, (list_lookup_total_correct _ _ _ He2). }
  destruct b; [|done]. eapply drops_trans; [exact D1|]. by apply drops_same.
Qed.

Lemma vtlb_flushed t p j s : is_page p → slot_at (tlb_flush_vtlb_page_locked t p) (inr j) = Some s → ¬ hits s.1 p.
Proof.
  intros Hp. unfold tlb_flush_vtlb_page_locked, tlb_flush_vtlb_page_mask_locked.
  pose proof (flush_victims_map (vtable t) p minus1 (n_used_entries t)) as El.
  destruct (flush_victims _ _ _ _) as [l u]. cbn in El |- *. rewrite El, list_lookup_fmap.
  destruct (vtable t !! j) as [e|]; [|done]. cbn. destruct (vfulltlb t !! j); [|done]. intros [= <-]. cbn.
  destruct (flush_entry_spec HP e p Hp) as [E|[E Hn]]; unfold tlb_flush_entry_locked in E; rewrite E; [by apply empty_misses|done].
Qed.
Lemma main_flushed t p i s : tlb_wf t → is_page p → slot_at (flush_main t p minus1) (inl i) = Some s → ¬ hits s.1 p.
Proof.
  intros Hw Hp Hx Hh. pose proof (drop_slot _ _ (flush_main_drops t p minus1 Hw) _ _ p Hx Hp Hh) as Hx0.
  pose proof (wf_index _ Hw i s p Hx0 Hp Hh) as ->. destruct Hw as [[k Hk] _ _ _].
  unfold flush_main in Hx. destruct (tlb_flush_entry_mask_locked (tlb_entry t p) p minus1) as [e b] eqn:E.
  assert (Hs : s.1 = e).
  { assert (Hx' : <[Z.to_nat (tlb_index t p) := e]> (table t) !! Z.to_nat (tlb_index t p) = Some s.1).
    { destruct b; cbn in Hx; apply bind_Some in Hx as (e' & He' & (f & Hf & [= <-])%bind_Some); exact He'. }
    apply list_lookup_insert_Some in Hx' as [(_ & -> & _)|[Hn _]]; done. }
  destruct (flush_entry_spec HP (tlb_entry t p) p Hp) as [E'|[E' Hn]]; unfold tlb_flush_entry_locked in E'; rewrite E in E';
    cbn in E'; rewrite Hs, E' in Hh; [by apply empty_misses in Hh|done].
Qed.

(** A page is flushed, and nothing else is changed but by being dropped. *)
Definition flushed t t' (gone : Z → Prop) : Prop :=
  tlb_wf t' ∧ ∀ q s, is_page q → caches t' q s → ¬ gone q ∧ caches t q s.

Lemma flush_one_page t p :
  tlb_wf t → is_page p → flushed t (tlb_flush_vtlb_page_locked (flush_main t p minus1) p) (λ q, q = p).
Proof.
  intros Hw Hp. pose proof (flush_main_drops t p minus1 Hw) as D1. set (t1 := flush_main t p minus1) in *.
  pose proof (flush_vtlb_mask_drops t1 p minus1) as D2. fold (tlb_flush_vtlb_page_locked t1 p) in D2.
  pose proof (drops_trans _ _ _ D1 D2) as D. split; [by eapply drops_wf|]. intros q s Hq Hc.
  split; [|by eapply drops_caches]. intros ->. destruct Hc as (x & Hx & Hh). destruct x as [i|j].
  - pose proof (drop_slot _ _ D2 _ _ p Hx Hp Hh) as Hx1. by eapply main_flushed.
  - by eapply vtlb_flushed.
Qed.
End Invariant.

(** ** Resizing *)

Lemma clz64_range n : in_range 64 n → 0 ≤ clz64 n ≤ 64.
Proof.
  intros Hn. unfold clz64. destruct (Z.eqb_spec n 0); [lia|]. unfold builtin_clz.
  pose proof (Z.log2_nonneg n). assert (Z.log2 n < 64) by (apply Z.log2_lt_pow2; unfold in_range in Hn; lia). lia.
Qed.
Lemma pow2ceil_cases n : in_range 64 n → pow2ceil n = 0 ∨ ∃ j, 0 ≤ j ≤ 63 ∧ pow2ceil n = 2 ^ j.
Proof.
  intros Hn. unfold pow2ceil. pose proof (clz64_range (wrap 64 (n - 1)) ltac:(auto with range)) as Hc.
  destruct (Z.eqb_spec (clz64 (wrap 64 (n - 1))) 0) as [E|E].
  - destruct (n =? 0); [right; by exists 0|by left].
  - right. exists (64 - clz64 (wrap 64 (n - 1))). split; [lia|]. rewrite Z.shiftr_div_pow2 by lia.
    change 0x8000000000000000 with (2 ^ 63). rewrite <- Z.pow_sub_r by lia. f_equal. lia.
Qed.
Lemma max_pow2 v : v = 0 ∨ (∃ j, 0 ≤ j ≤ 64 ∧ v = 2 ^ j) → ∃ j, 6 ≤ j ≤ 64 ∧ Z.max v (2 ^ 6) = 2 ^ j.
Proof.
  intros [->|(j & Hj & ->)]; [by exists 6|]. destruct (Z.le_ge_cases j 6).
  - exists 6. split; [lia|]. apply Z.max_r, Z.pow_le_mono_r; lia.
  - exists j. split; [lia|]. apply Z.max_l, Z.pow_le_mono_r; lia.
Qed.

Section Resizing.
Context {P : Pages} (HP : pages_ok).
Implicit Types (t : Tlb).

Definition counters_ok t : Prop := in_range 64 (n_used_entries t) ∧ in_range 64 (window_max_entries t).

Lemma n_entries_eq t k : sized t k → tlb_n_entries t = 2 ^ k.
Proof.
  intros [Hk Hm _ _]. unfold tlb_n_entries. rewrite Hm. unfold CPU_TLB_ENTRY_BITS, CPU_TLB_DYN_MIN_BITS in *.
  rewrite Z.shiftr_shiftl_r by lia. rewrite Z.shiftr_0_r. lia.
Qed.
Lemma resize_pow2 t k now : sized t k → counters_ok t → ∃ j, 6 ≤ j ≤ 64 ∧ resize_to t now = 2 ^ j.
Proof.
  intros Hk [Hu Hw]. unfold resize_to. rewrite (n_entries_eq t k Hk). destruct Hk as [Hk _ _ _]. unfold CPU_TLB_DYN_MIN_BITS in *.
  destruct HP as [_ [Hmax _]]. set (most := if window_max_entries t <? n_used_entries t then _ else _).
  assert (Hm : in_range 64 most) by (unfold most; by destruct (_ <? _)). clearbody most.
  destruct (70 <? wrap 64 (most * 100) / 2 ^ k).
  { exists (Z.min (k + 1) CPU_TLB_DYN_MAX_BITS). rewrite Z.shiftl_1_l. assert (E : Z.shiftl (2 ^ k) 1 = 2 ^ (k + 1)).
    { rewrite Z.shiftl_mul_pow2, <- Z.pow_add_r by lia. done. }
    rewrite E, wrap_small by (split; [lia|apply Z.pow_lt_mono_r; lia]). split; [lia|].
    destruct (Z.le_ge_cases (k + 1) CPU_TLB_DYN_MAX_BITS).
    - rewrite (Z.min_l (k + 1)), Z.min_l; [done|apply Z.pow_le_mono_r; lia|lia].
    - rewrite (Z.min_r (k + 1)), Z.min_r; [done|apply Z.pow_le_mono_r; lia|lia]. }
  destruct ((_ <? 30) && _); [|exists k; split; [lia|done]]. apply max_pow2.
  destruct (pow2ceil_cases most Hm) as [E|(j & Hj & E)]; rewrite E.
  - left. by destruct (70 <? _).
  - destruct (70 <? _); [|right; exists j; split; [lia|done]]. destruct (Z.eq_dec j 63) as [->|].
    + left. done.
    + right. exists (j + 1). split; [lia|]. rewrite Z.mul_comm, <- Z.pow_succ_r by lia. apply wrap_small.
      split; [lia|apply Z.pow_lt_mono_r; lia].
Qed.

Context (alloc : Z → bool) (junk : CPUTLBEntry) (junk_full : CPUTLBEntryFull).
(** The smallest tables can be allocated, and no tables beyond the address space. *)
Record alloc_ok : Prop := {
  alloc_min : alloc (2 ^ CPU_TLB_DYN_MIN_BITS) = true;
  alloc_max : ∀ n, alloc n = true → n ≤ 2 ^ 58;
}.
Context (HA : alloc_ok).

Lemma alloc_from_ok fuel j :
  6 ≤ j → j - 6 < Z.of_nat fuel →
  ∃ i, 6 ≤ i ≤ j ∧ alloc_from alloc fuel (2 ^ j) = Ok (2 ^ i) ∧ alloc (2 ^ i) = true.
Proof.
  revert j. induction fuel as [|fuel IH]; intros j Hj Hf; [lia|]. cbn [alloc_from].
  destruct (alloc (2 ^ j)) eqn:E; [exists j; repeat split; (done || lia)|].
  destruct (Z.eq_dec j 6) as [->|]; [destruct HA as [H _]; unfold CPU_TLB_DYN_MIN_BITS in H; congruence|].
  assert (2 ^ 6 < 2 ^ j) by (apply Z.pow_lt_mono_r; lia).
  change (Z.shiftl 1 CPU_TLB_DYN_MIN_BITS) with (2 ^ 6). replace (2 ^ j =? 2 ^ 6) with false by lia.
  replace (Z.max (Z.shiftr (2 ^ j) 1) (2 ^ 6)) with (2 ^ (j - 1)).
  - destruct (IH (j - 1)) as (i & Hi & E1 & E2); [lia|lia|]. exists i. split; [lia|done].
  - rewrite Z.shiftr_div_pow2, <- Z.pow_sub_r by lia. symmetry. apply Z.max_l, Z.pow_le_mono_r; lia.
Qed.

(** After a flush the mode has tables of a power of two of empty entries. *)
Lemma flush_sized t k : sized t k → sized (tlb_mmu_flush_locked t) k.
Proof.
  intros Hk. pose proof (n_entries_eq t k Hk) as E. destruct Hk as [? ? [? ?] [? ?]]. split; cbn; [done|done| |done].
  by rewrite length_replicate, E.
Qed.
Lemma flush_misses t q s : is_page q → ¬ caches (tlb_mmu_flush_locked t) q s.
Proof.
  intros Hq ([i|j] & Hx & Hh); apply bind_Some in Hx as (e & He & (f & Hf & [= <-])%bind_Some);
    apply lookup_replicate in He as [-> _]; by apply empty_misses in Hh.
Qed.
Lemma misses_wf t k : sized t k → (∀ q s, is_page q → ¬ caches t q s) → tlb_wf t.
Proof.
  intros Hk Hn. assert (Hx : ∀ x s q, slot_at t x = Some s → is_page q → hits s.1 q → False).
  { intros x s q Hx Hq Hh. by eapply (Hn q s); [|exists x]. }
  split; [by exists k| | |]; intros; exfalso; eauto.
Qed.
Lemma resize_sized t k now : sized t k → counters_ok t →
  ∃ t' j, tlb_mmu_resize_locked alloc junk junk_full t now = Ok t' ∧ sized t' j ∧ counters_ok t'.
Proof.
  intros Hk Hc. destruct (resize_pow2 t k now Hk Hc) as (j & Hj & E). unfold tlb_mmu_resize_locked. rewrite E.
  pose proof (n_entries_eq t k Hk) as En. rewrite En. set (t1 := with_window _ _ t).
  assert (H1 : sized t1 k) by (destruct Hk; by split).
  assert (C1 : counters_ok t1) by (destruct Hc; split; cbn; [done|by destruct (_ <? _)]). clearbody t1. destruct (2 ^ j =? 2 ^ k).
  - exists (if window_begin_ns t + 100 * 1000 * 1000 <? now then tlb_window_reset t1 now (n_used_entries t1) else t1), k.
    split; [done|]. destruct (_ <? now); [|done]. destruct H1, C1; by split.
  - destruct (alloc_from_ok 64 j) as (i & Hi & E1 & E2); [lia|lia|]. rewrite E1. do 2 eexists. split; [done|].
    split; [|destruct C1; by split]. destruct H1 as [H1 _ _ [? ?]]. split; cbn; [|done|by rewrite !length_replicate|done].
    unfold CPU_TLB_DYN_MIN_BITS in *. destruct HA as [_ Hmax]. specialize (Hmax _ E2). split; [lia|].
    destruct (Z.le_gt_cases i 58); [lia|]. assert (2 ^ 58 < 2 ^ i) by (apply Z.pow_lt_mono_r; lia). lia.
Qed.
(** The size is the one asked for if it can be allocated. *)
Lemma resized_to t k now t' : sized t k → counters_ok t → alloc (resize_to t now) = true →
  tlb_mmu_resize_locked alloc junk junk_full t now = Ok t' → tlb_n_entries t' = resize_to t now.
Proof.
  intros Hk Hc Ha. destruct (resize_pow2 t k now Hk Hc) as (j & Hj & E). unfold tlb_mmu_resize_locked. rewrite E in *.
  destruct (Z.eqb_spec (2 ^ j) (tlb_n_entries t)) as [Es|Es].
  - intros [= <-]. rewrite Es. by destruct (_ <? now).
  - cbn [alloc_from mbind res_bind]. rewrite Ha. cbn. intros [= <-]. unfold tlb_n_entries, CPU_TLB_ENTRY_BITS. cbn [mask with_table].
    rewrite Z.shiftr_shiftl_r by lia. rewrite Z.shiftr_0_r. lia.
Qed.
Lemma flush_all t now : tlb_wf t → counters_ok t →
  ∃ t', tlb_flush_one_mmuidx_locked alloc junk junk_full t now = Ok t' ∧ tlb_wf t' ∧
    (∀ q s, is_page q → ¬ caches t' q s) ∧ counters_ok t' ∧ large_page_addr t' = minus1 ∧ large_page_mask t' = minus1.
Proof.
  intros [[k Hk] _ _ _] Hc. destruct (resize_sized t k now Hk Hc) as (t1 & j & E & H1 & C1).
  unfold tlb_flush_one_mmuidx_locked. rewrite E. cbn. exists (tlb_mmu_flush_locked t1). split; [done|].
  assert (∀ q s, is_page q → ¬ caches (tlb_mmu_flush_locked t1) q s) by (intros; by apply flush_misses).
  split; [by eapply misses_wf; [apply flush_sized|]|]. split; [done|]. split; [|done]. destruct C1. by split.
Qed.
End Resizing.

(** ** Filling *)

Section Filling.
Context {P : Pages} (HP : pages_ok).
Implicit Types (t : Tlb) (q p : Z) (s : Slot).

Lemma testbit_flag j i : 0 ≤ j → Z.testbit (Z.shiftl 1 j) i = (i =? j).
Proof. intros Hj. rewrite Z.shiftl_1_l, Z.pow2_bits_eqb by lia. apply Z.eqb_sym. Qed.
Lemma testbit_flags_mask i :
  Z.testbit TLB_FLAGS_MASK i = (TARGET_PAGE_BITS_MIN - 5 <=? i) && (i <? TARGET_PAGE_BITS_MIN).
Proof.
  destruct HP as [Hmin _]. unfold TLB_FLAGS_MASK, TLB_INVALID_MASK, TLB_NOTDIRTY, TLB_MMIO, TLB_FORCE_SLOW, TLB_DISCARD_WRITE.
  rewrite !Z.lor_spec, !testbit_flag by lia. destruct (Z.leb_spec (TARGET_PAGE_BITS_MIN - 5) i), (Z.ltb_spec i TARGET_PAGE_BITS_MIN);
    cbn; lia.
Qed.
Lemma page_of_low p z : is_page p → (∀ i, TARGET_PAGE_BITS ≤ i → Z.testbit z i = false) → page_of (Z.lor p z) = p.
Proof.
  intros Hp Hz. unfold page_of. rewrite Z.land_lor_distr_l. fold (page_of p). rewrite Hp.
  replace (Z.land z TARGET_PAGE_MASK) with 0; [by rewrite Z.lor_0_r|]. symmetry. apply Z.bits_inj'. intros i Hi.
  rewrite Z.land_spec, testbit_page_mask, Z.bits_0 by done. destruct (Z.leb_spec TARGET_PAGE_BITS i); [by rewrite Hz|by rewrite !andb_false_r].
Qed.

Lemma set_compare_page p flags : is_page p →
  let cmp := (tlb_set_compare p flags true).1 in
  page_of cmp = p ∧ Z.testbit cmp (TARGET_PAGE_BITS_MIN - 1) = Z.testbit flags (TARGET_PAGE_BITS_MIN - 1).
Proof.
  intros Hp cmp. destruct HP as [Hmin _].
  assert (E : ∃ z, cmp = Z.lor p (Z.lor (Z.land flags TLB_FLAGS_MASK) z) ∧ ∀ i, TARGET_PAGE_BITS_MIN - 4 ≤ i → Z.testbit z i = false).
  { unfold cmp, tlb_set_compare. cbn. destruct (Z.land flags TLB_SLOW_FLAGS_MASK =? 0).
    - exists 0. split; [by rewrite Z.lor_0_r|]. intros; apply Z.bits_0.
    - exists TLB_FORCE_SLOW. split; [by rewrite Z.lor_assoc|]. intros i Hi. unfold TLB_FORCE_SLOW. rewrite testbit_flag by lia. lia. }
  destruct E as (z & -> & Hz). split.
  - apply page_of_low; [done|]. intros i Hi. rewrite Z.lor_spec, Z.land_spec, testbit_flags_mask, (Hz i) by lia.
    replace (i <? TARGET_PAGE_BITS_MIN) with false by lia. by rewrite !andb_false_r.
  - rewrite !Z.lor_spec, Z.land_spec, testbit_flags_mask, Hz, (testbit_page HP p) by (done || lia).
    replace (_ && (TARGET_PAGE_BITS_MIN - 1 <? TARGET_PAGE_BITS_MIN)) with true by lia. by rewrite andb_true_r, orb_false_r.
Qed.
Lemma set_compare_hit p flags b q : is_page p → is_page q →
  tlb_hit_page (tlb_set_compare p flags b).1 q = true ↔ b = true ∧ q = p ∧ Z.testbit flags (TARGET_PAGE_BITS_MIN - 1) = false.
Proof.
  intros Hp Hq. destruct b.
  - destruct (set_compare_page p flags Hp) as [E1 E2]. rewrite hit_page_iff by done. rewrite E1, E2.
    split; [intros [<- ?]; done|intros (_ & -> & ?); done].
  - split; [|by intros [? _]]. intros Hh. exfalso. apply (empty_misses HP q Hq). by exists MMU_DATA_LOAD.
Qed.

(** The entry of a page is for that page only. *)
Definition entry_for (tn : CPUTLBEntry) p : Prop := ∀ q, is_page q → hits tn q → q = p.
Lemma new_entry_for M p paddr full sec tn f :
  is_page p → new_entry M p paddr full sec = Ok (tn, f) → entry_for tn p.
Proof.
  intros Hp Hn q Hq [a Hh]. unfold new_entry in Hn. destruct (page_flags M full sec) as [[[[rf wf'] ad] io]|]; [|done].
  cbn in Hn. destruct (tlb_set_compare p rf _) as [c1 s1] eqn:E1. destruct (tlb_set_compare p _ (has _ PAGE_READ)) as [c2 s2] eqn:E2.
  destruct (tlb_set_compare p _ (has _ PAGE_WRITE)) as [c3 s3] eqn:E3. injection Hn as <- _.
  destruct a; cbn in Hh; [pose proof (f_equal fst E2) as E|pose proof (f_equal fst E3) as E|pose proof (f_equal fst E1) as E];
    cbn in E; rewrite <- E in Hh; apply set_compare_hit in Hh as (_ & ? & _); done.
Qed.

Definition victim_index t : nat := Z.to_nat (vindex t mod Z.of_nat CPU_VTLB_SIZE).
Definition evicts t p : bool :=
  negb (tlb_hit_page_anyprot (tlb_entry t p) p) && negb (tlb_entry_is_empty (tlb_entry t p)).
Definition put t p (tn : CPUTLBEntry) (f : CPUTLBEntryFull) : Tlb :=
  let t := evict t p in
  let index := Z.to_nat (tlb_index t p) in
  tlb_n_used_entries_inc (with_table (mask t) (<[index := tn]> (table t)) (<[index := f]> (fulltlb t)) t).
(** Where the entry of a slot was before. *)
Definition origin t p (x : nat + nat) : nat + nat :=
  match x with
  | inr j => if evicts t p && (j =? victim_index t)%nat then inl (Z.to_nat (tlb_index t p)) else x
  | _ => x
  end.
Lemma put_sized t k p tn f : sized t k → sized (put t p tn f) k.
Proof.
  intros [H1 H2 [? ?] [? ?]]. unfold put, evict.
  destruct (negb _ && negb _); (split; cbn; [done|done|by rewrite !length_insert|by rewrite ?length_insert]).
Qed.
Lemma put_mask t p tn f : mask (put t p tn f) = mask t.
Proof. unfold put, evict. by destruct (negb _ && negb _). Qed.

Lemma put_slot t k p tn f x :
  sized t k →
  slot_at (put t p tn f) x =
    if decide (x = inl (Z.to_nat (tlb_index t p))) then Some (tn, f) else slot_at t (origin t p x).
Proof.
  intros Hk. pose proof (index_bound t k p Hk) as Hb. assert (Hv : (victim_index t < CPU_VTLB_SIZE)%nat).
  { unfold victim_index, CPU_VTLB_SIZE. pose proof (Z.mod_pos_bound (vindex t) (Z.of_nat 8)). lia. }
  pose proof Hk as [_ _ [L1 L2] [L3 L4]]. set (ix := Z.to_nat (tlb_index t p)) in *.
  assert (Em : table (put t p tn f) = <[ix := tn]> (table t) ∧ fulltlb (put t p tn f) = <[ix := f]> (fulltlb t)).
  { unfold put, evict. by destruct (negb _ && negb _). }
  destruct x as [i|j]; cbn [slot_at origin].
  - destruct Em as [-> ->]. destruct (decide (inl i = inl ix)) as [[= ->]|Hn].
    + rewrite !list_lookup_insert_eq by lia. done.
    + rewrite !list_lookup_insert_ne by congruence. done.
  - rewrite decide_False by done. unfold put, evict. fold (evicts t p). destruct (evicts t p) eqn:Ev.
    + cbn. fold (victim_index t). destruct (Nat.eqb_spec j (victim_index t)) as [->|Hn].
      * rewrite !list_lookup_insert_eq by lia. cbn. fold ix. unfold tlb_entry. fold ix. symmetry.
        apply (proj2 (main_slot t k ix _ Hk)). done.
      * rewrite !list_lookup_insert_ne by done. done.
    + done.
Qed.

(** No other slot has the page after it was flushed from the victim table. *)
Lemma put_others t p x s :
  tlb_wf t → is_page p → (∀ j s, slot_at t (inr j) = Some s → ¬ hits s.1 p) →
  x ≠ inl (Z.to_nat (tlb_index t p)) → slot_at t (origin t p x) = Some s → ¬ hits s.1 p.
Proof.
  intros Hw Hp Hv Hx Hs Hh. destruct x as [i|j]; cbn in Hs.
  - apply Hx. f_equal. by eapply (wf_index _ Hw).
  - destruct (evicts t p) eqn:Ev; cbn in Hs; [|by eapply Hv]. destruct (j =? victim_index t)%nat; [|by eapply Hv].
    apply andb_prop in Ev as [Ev _]. apply negb_true_iff, anyprot_false in Ev; [|done|done].
    destruct (wf_sized _ Hw) as [k Hk]. apply (main_slot t k) in Hs as [_ ->]; [|done]. done.
Qed.
Lemma origin_inj t p x y :
  x ≠ inl (Z.to_nat (tlb_index t p)) → y ≠ inl (Z.to_nat (tlb_index t p)) → origin t p x = origin t p y → x = y.
Proof.
  intros Hx Hy. destruct x as [i|j], y as [i'|j']; cbn;
    repeat match goal with |- context [if ?b then _ else _] => destruct b eqn:? end; intros E; simplify_eq; try done.
  f_equal. repeat match goal with H : _ && _ = true |- _ => apply andb_prop in H as [_ H%Nat.eqb_eq] end. congruence.
Qed.
Lemma put_wf t p tn f :
  tlb_wf t → is_page p → entry_for tn p → (∀ j s, slot_at t (inr j) = Some s → ¬ hits s.1 p) → tlb_wf (put t p tn f).
Proof.
  intros Hw Hp Ht Hv. destruct (wf_sized _ Hw) as [k Hk].
  pose proof (λ x, put_slot t k p tn f x Hk) as Hslot. split.
  - exists k. by apply put_sized.
  - intros i s q Hi Hq Hh. unfold tlb_index. rewrite put_mask. fold (tlb_index t q). rewrite Hslot in Hi.
    destruct (decide _) as [[= ->]|_]; [injection Hi as <-; by rewrite (Ht q Hq Hh)|by eapply (wf_index _ Hw)].
  - intros x s q q' Hx Hq Hq' Hh Hh'. rewrite Hslot in Hx. destruct (decide _).
    + injection Hx as <-. rewrite (Ht q), (Ht q'); done.
    + by eapply (wf_single _ Hw).
  - intros x y s s' q Hx Hy Hq Hh Hh'. rewrite Hslot in Hx, Hy.
    destruct (decide _) as [->|Nx], (decide _) as [->|Ny]; [done| | |].
    + injection Hx as <-. assert (q = p) as -> by (by apply Ht). by exfalso; eapply put_others.
    + injection Hy as <-. assert (q = p) as -> by (by apply Ht). by exfalso; eapply put_others.
    + apply (origin_inj t p); [done|done|]. by eapply (wf_unique _ Hw).
Qed.
Lemma put_caches t p tn f q s :
  tlb_wf t → is_page p → entry_for tn p → (∀ j s, slot_at t (inr j) = Some s → ¬ hits s.1 p) → is_page q →
  caches (put t p tn f) q s → if decide (q = p) then s = (tn, f) else caches t q s.
Proof.
  intros Hw Hp Ht Hv Hq (x & Hx & Hh). destruct (wf_sized _ Hw) as [k Hk]. rewrite (put_slot t k) in Hx by done.
  destruct (decide _) as [->|Nx].
  - injection Hx as <-. by rewrite decide_True by (by apply Ht).
  - rewrite decide_False; [by exists (origin t p x)|]. intros ->. by eapply put_others.
Qed.
(** What was cached stays, but for the victim that is overwritten. *)
Lemma put_keeps t p tn f q s :
  tlb_wf t → is_page p → is_page q → q ≠ p → caches t q s →
  caches (put t p tn f) q s ∨ evicts t p = true ∧ slot_at t (inr (victim_index t)) = Some s.
Proof.
  intros Hw Hp Hq Hn (x & Hx & Hh). destruct (wf_sized _ Hw) as [k Hk].
  destruct (decide (x = inl (Z.to_nat (tlb_index t p)))) as [->|Nx].
  - left. exists (inr (victim_index t)). split; [|done]. rewrite (put_slot t k), decide_False by done. cbn. rewrite Nat.eqb_refl.
    assert (evicts t p = true) as ->; [|done]. pose proof (wf_single _ Hw _ _ q p Hx Hq Hp Hh) as Hs.
    apply (main_slot t k) in Hx as [_ ->]; [|done]. unfold evicts, tlb_entry. cbn in *. apply andb_true_intro. split.
    + apply negb_true_iff, anyprot_false; [done|done|]. by intros ?%Hs.
    + apply negb_true_iff. destruct (tlb_entry_is_empty _) eqn:E; [|done]. by apply empty_entry_misses in Hh.
  - destruct (evicts t p) eqn:Ev.
    + destruct x as [i|j].
      * left. exists (inl i). split; [|done]. by rewrite (put_slot t k), decide_False.
      * destruct (Nat.eqb_spec j (victim_index t)) as [->|Nj]; [by right|]. left. exists (inr j). split; [|done].
        rewrite (put_slot t k), decide_False by done. cbn. rewrite Ev. cbn. by replace (j =? victim_index t)%nat with false by lia.
    + left. exists x. split; [|done]. rewrite (put_slot t k), decide_False by done. destruct x; [done|]. cbn. by rewrite Ev.
Qed.

(** *** The victim table *)

Definition swapped (ix vx : nat) (x : nat + nat) : nat + nat :=
  match x with
  | inl i => if (i =? ix)%nat then inr vx else x
  | inr j => if (j =? vx)%nat then inl ix else x
  end.
Lemma swapped_inj ix vx x y : swapped ix vx x = swapped ix vx y → x = y.
Proof.
  destruct x as [i|j], y as [i'|j']; cbn;
    repeat match goal with |- context [if (?a =? ?b)%nat then _ else _] => destruct (Nat.eqb_spec a b) end; intros; simplify_eq; done.
Qed.
Lemma swapped_twice ix vx x : swapped ix vx (swapped ix vx x) = x.
Proof.
  destruct x as [i|j]; cbn; repeat match goal with |- context [if (?a =? ?b)%nat then _ else _] => destruct (Nat.eqb_spec a b); cbn end; congruence.
Qed.

Lemma exact_hit e a p : is_page p → tlb_read_idx e a = p → tlb_hit_page (tlb_read_idx e a) p = true.
Proof.
  intros Hp E. apply hit_page_iff; [done|done|]. rewrite E. split; [done|]. destruct HP. apply testbit_page; [done|done|lia].
Qed.
Lemma victim_slots t k a p t' :
  sized t k → victim_tlb_hit t (Z.to_nat (tlb_index t p)) a p = Some t' →
  ∃ vx, (vx < CPU_VTLB_SIZE)%nat ∧ tlb_read_idx (vtable t !!! vx) a = p ∧ mask t' = mask t ∧ sized t' k ∧
    (∀ x, slot_at t' x = slot_at t (swapped (Z.to_nat (tlb_index t p)) vx x)) ∧ tlb_entry t' p = vtable t !!! vx.
Proof.
  intros Hk. pose proof (index_bound t k p Hk) as Hb. set (ix := Z.to_nat (tlb_index t p)) in *. unfold victim_tlb_hit.
  destruct (list_find _ (vtable t)) as [[vx ve]|] eqn:E; [|done]. cbn. intros [= <-].
  apply list_find_Some in E as (Hv & Ha & _). pose proof (lookup_lt_Some _ _ _ Hv) as Hl.
  pose proof (list_lookup_total_correct _ _ _ Hv) as Hve. pose proof Hk as [H1 H2 [L1 L2] [L3 L4]]. exists vx.
  split; [lia|]. split; [by rewrite Hve|]. split; [done|]. split; [|split].
  - split; cbn; [done|done|by rewrite !length_insert|by rewrite !length_insert].
  - intros [i|j]; cbn.
    + destruct (Nat.eqb_spec i ix) as [->|Hn]; [|by rewrite !list_lookup_insert_ne by done].
      rewrite !list_lookup_insert_eq by lia. cbn [mbind option_bind]. symmetry. rewrite <- Hve. by apply (victim_slot t k); [|split; [lia|]].
    + destruct (Nat.eqb_spec j vx) as [->|Hn]; [|by rewrite !list_lookup_insert_ne by done].
      rewrite !list_lookup_insert_eq by lia. cbn [mbind option_bind]. symmetry. by apply (main_slot t k).
  - unfold tlb_entry, tlb_index. cbn. fold (tlb_index t p). fold ix. rewrite Hve. apply list_lookup_total_insert_eq. lia.
Qed.
Lemma victim_spec t a p t' :
  tlb_wf t → is_page p → victim_tlb_hit t (Z.to_nat (tlb_index t p)) a p = Some t' →
  tlb_wf t' ∧ (∀ q s, caches t' q s ↔ caches t q s) ∧ tlb_hit_page (tlb_read_idx (tlb_entry t' p) a) p = true.
Proof.
  intros Hw Hp Hv. destruct (wf_sized _ Hw) as [k Hk].
  destruct (victim_slots t k a p t' Hk Hv) as (vx & Hvx & Ha & Hm & Hk' & Hslot & He).
  set (ix := Z.to_nat (tlb_index t p)) in *. assert (Hit : hits (vtable t !!! vx) p) by (exists a; by apply exact_hit).
  assert (Hvs : slot_at t (inr vx) = Some (vtable t !!! vx, vfulltlb t !!! vx)) by (by apply (victim_slot t k)).
  split; [|split].
  - split; [by exists k| | |].
    + intros i s q Hi Hq Hh. unfold tlb_index. rewrite Hm. fold (tlb_index t q). rewrite Hslot in Hi. cbn in Hi.
      destruct (Nat.eqb_spec i ix) as [->|_]; [|by eapply (wf_index _ Hw)].
      rewrite Hvs in Hi. injection Hi as <-. by rewrite (wf_single _ Hw _ _ q p Hvs Hq Hp Hh Hit).
    + intros x s q q' Hx. rewrite Hslot in Hx. by eapply (wf_single _ Hw).
    + intros x y s s' q Hx Hy Hq Hh Hh'. rewrite Hslot in Hx, Hy. eapply swapped_inj. by eapply (wf_unique _ Hw).
  - intros q s. split; intros (x & Hx & Hh).
    + rewrite Hslot in Hx. by eexists.
    + exists (swapped ix vx x). by rewrite Hslot, swapped_twice.
  - rewrite He. by apply exact_hit.
Qed.
End Filling.

(** ** Large pages *)

Definition region_mask (j : Z) : Z := wrap 64 (- 2 ^ j).

Lemma testbit_region j i : 0 ≤ j → Z.testbit (region_mask j) i = (i <? 64) && (j <=? i).
Proof.
  intros Hj. unfold region_mask. rewrite testbit_wrap by lia. destruct (Z.ltb_spec i 64); [|done]. cbn.
  assert (E : - 2 ^ j = Z.lnot (Z.ones j)) by (unfold Z.lnot; rewrite Z.ones_equiv; lia). rewrite E.
  destruct (Z.ltb_spec i 0); [rewrite Z.testbit_neg_r by lia; symmetry; lia|].
  rewrite Z.lnot_spec, testbit_ones by lia. destruct (Z.ltb_spec i j), (Z.leb_spec j i); (done || lia).
Qed.
Lemma region_and j k : 0 ≤ j → 0 ≤ k → Z.land (region_mask j) (region_mask k) = region_mask (Z.max j k).
Proof.
  intros. apply Z.bits_inj'. intros i Hi. rewrite Z.land_spec, !testbit_region by lia.
  destruct (Z.ltb_spec i 64), (Z.leb_spec j i), (Z.leb_spec k i), (Z.leb_spec (Z.max j k) i); (done || lia).
Qed.
Lemma region_shift j : 0 ≤ j → wrap 64 (Z.shiftl (region_mask j) 1) = region_mask (j + 1).
Proof.
  intros. apply Z.bits_inj'. intros i Hi. rewrite testbit_wrap, Z.shiftl_spec, !testbit_region by lia.
  destruct (Z.ltb_spec i 64), (Z.ltb_spec (i - 1) 64), (Z.leb_spec j (i - 1)), (Z.leb_spec (j + 1) i); (done || lia).
Qed.
Lemma region_land j k q : 0 ≤ j ≤ k → Z.land (Z.land q (region_mask j)) (region_mask k) = Z.land q (region_mask k).
Proof. intros. rewrite <- Z.land_assoc, region_and by lia. by rewrite Z.max_r by lia. Qed.
(** Addresses in one large page are in the same region. *)
Lemma region_same j k a q : 0 ≤ j ≤ k → Z.shiftr a j = Z.shiftr q j → Z.land a (region_mask k) = Z.land q (region_mask k).
Proof.
  intros Hj E. apply Z.bits_inj'. intros i Hi. rewrite !Z.land_spec, testbit_region by lia.
  destruct (Z.leb_spec k i); [|by rewrite !andb_false_r]. f_equal.
  apply (f_equal (λ z, Z.testbit z (i - j))) in E. rewrite !Z.shiftr_spec in E by lia. by replace (i - j + j) with i in E by lia.
Qed.

Lemma cover_spec fuel lp a j :
  0 ≤ j ≤ 64 → 64 ≤ j + Z.of_nat fuel →
  ∃ k, j ≤ k ≤ 64 ∧ cover fuel lp a (region_mask j) = region_mask k ∧ Z.land lp (region_mask k) = Z.land a (region_mask k).
Proof.
  revert j. induction fuel as [|fuel IH]; intros j Hj Hf; cbn [cover].
  - assert (j = 64) as -> by lia. exists 64. split; [lia|]. split; [done|]. by rewrite !Z.land_0_r.
  - destruct (Z.eqb_spec (Z.land (Z.lxor lp a) (region_mask j)) 0) as [E|E].
    + exists j. split; [lia|]. split; [done|]. apply Z.lxor_eq. rewrite <- E. zbits.
    + destruct (Z.eq_dec j 64) as [->|]; [by rewrite Z.land_0_r in E|]. rewrite region_shift by lia.
      destruct (IH (j + 1)) as (k & Hk & E1 & E2); [lia|lia|]. exists k. split; [lia|done].
Qed.

Section Large.
Context {P : Pages} (HP : pages_ok).
Implicit Types (t : Tlb) (q : Z).

Definition large_ok t : Prop := ∃ j, 0 ≤ j ≤ 64 ∧ large_page_mask t = region_mask j.
(** The address is in the region, which consists of whole pages of [2 ^ lg] bytes. *)
Definition covers t q lg : Prop := ∃ j, 0 ≤ lg ≤ j ∧ j ≤ 64 ∧ large_page_mask t = region_mask j ∧
  Z.land q (region_mask j) = large_page_addr t.

Lemma large_size lg : 0 ≤ lg ≤ 63 → wrap 64 (Z.lnot (wrap 64 (Z.shiftl 1 lg) - 1)) = region_mask lg.
Proof.
  intros. rewrite Z.shiftl_1_l, (wrap_small 64 (2 ^ lg)) by (split; [apply Z.pow_nonneg; lia|apply Z.pow_lt_mono_r; lia]). unfold region_mask, Z.lnot. f_equal. lia.
Qed.
Lemma minus1_page q m : is_page q → Z.land q m ≠ minus1.
Proof.
  intros Hq E. assert (Hb : Z.testbit (Z.land q m) 0 = false).
  { rewrite Z.land_spec, (testbit_page HP q) by (done || (destruct HP; lia)). done. }
  rewrite E in Hb. by vm_compute in Hb.
Qed.
Lemma add_large_spec t a lg :
  large_ok t → 0 ≤ lg ≤ 63 → let t' := tlb_add_large_page t a (wrap 64 (Z.shiftl 1 lg)) in
  large_ok t' ∧ covers t' a lg ∧ ∀ q l, is_page q → covers t q l → covers t' q l.
Proof.
  intros (j & Hj & Em) Hlg t'. unfold t', tlb_add_large_page. rewrite large_size by done.
  destruct (Z.eqb_spec (large_page_addr t) minus1) as [E|E].
  - split; [exists lg; split; [lia|done]|]. split; [exists lg; repeat split; (done || lia)|].
    intros q l Hq (i & _ & _ & _ & El). rewrite E in El. by apply minus1_page in El.
  - rewrite Em, region_and by lia.
    destruct (cover_spec 64 (large_page_addr t) a (Z.max lg j)) as (k & Hk & E1 & E2); [lia|lia|]. rewrite E1.
    split; [exists k; split; [lia|done]|]. split; [exists k; cbn; repeat split; (done || lia)|].
    intros q l Hq (i & Hl & Hi & Ei & El). rewrite Em in Ei.
    assert (i = j) as ->.
    { destruct (Z.lt_total i j) as [Hlt|[?|Hlt]]; [|done|]; exfalso.
      - assert (Hb : Z.testbit (region_mask j) i = Z.testbit (region_mask i) i) by (by rewrite Ei).
        rewrite !testbit_region in Hb by lia. lia.
      - assert (Hb : Z.testbit (region_mask j) j = Z.testbit (region_mask i) j) by (by rewrite Ei).
        rewrite !testbit_region in Hb by lia. lia. }
    exists k. cbn. split; [lia|]. split; [lia|]. split; [done|]. rewrite <- El. symmetry. apply region_land. lia.
Qed.
Lemma covered_hit t q p lg :
  covers t q lg → Z.shiftr p lg = Z.shiftr q lg → Z.land p (large_page_mask t) = large_page_addr t.
Proof. intros (j & Hl & Hj & -> & <-) E. by apply (region_same lg). Qed.
End Large.
