(* ===== verification/SoftTlbMachine.v ===== *)
(** The TLB of one MMU mode as a state machine beside the guest's page tables, the TLB of
    all modes with the flushes it may skip, and the jump cache. *)
From S2P Require Import Prelude Bitops MemOp SoftTlb SoftTlbSpec.

(** ** The dirty flag of entries *)

Section Dirty.
Context {P : Pages} (HP : pages_ok).
Implicit Types (t : Tlb) (q : Z) (s : Slot) (e : CPUTLBEntry).

(** Equal but for the flag of clean pages. *)
Record dirty_eq e e' : Prop := {
  de_read : addr_read e = addr_read e';
  de_code : addr_code e = addr_code e';
  de_addend : addend e = addend e';
  de_write : Z.lor (addr_write e) TLB_NOTDIRTY = Z.lor (addr_write e') TLB_NOTDIRTY;
}.
#[export] Instance dirty_eq_equiv : Equivalence dirty_eq.
Proof.
  split; [by intros e|by intros e e' [? ? ? ?]|]. intros e1 e2 e3 [? ? ? ?] [? ? ? ?]. split; congruence.
Qed.
Lemma notdirty_hit c c' q :
  is_page q → Z.lor c TLB_NOTDIRTY = Z.lor c' TLB_NOTDIRTY → tlb_hit_page c q = true → tlb_hit_page c' q = true.
Proof.
  intros Hq E. destruct HP as [Hmin _].
  assert (Hb : ∀ i, i ≠ TARGET_PAGE_BITS_MIN - 2 → Z.testbit c i = Z.testbit c' i).
  { intros i Hi. apply (f_equal (λ z, Z.testbit z i)) in E. rewrite !Z.lor_spec in E. unfold TLB_NOTDIRTY in E.
    rewrite testbit_flag in E by lia. replace (i =? TARGET_PAGE_BITS_MIN - 2) with false in E by lia. by rewrite !orb_false_r in E. }
  rewrite !hit_page_iff by done. intros [<- H2]. split; [|rewrite <- Hb; [done|lia]]. unfold page_of.
  apply Z.bits_inj'. intros i Hi. rewrite !Z.land_spec, testbit_page_mask by done.
  destruct (Z.leb_spec TARGET_PAGE_BITS i); [|by rewrite !andb_false_r]. rewrite Hb by lia. done.
Qed.
Lemma dirty_hits e e' q : is_page q → dirty_eq e e' → hits e q → hits e' q.
Proof.
  intros Hq [E1 E2 _ E3] [a Hh]. exists a. destruct a; cbn in *; [by rewrite <- E1|by eapply notdirty_hit|by rewrite <- E2].
Qed.
Lemma reset_dirty_eq e start len : dirty_eq e (tlb_reset_dirty_range_locked e start len).
Proof.
  unfold tlb_reset_dirty_range_locked. destruct (_ =? 0); [|done]. destruct (_ <? len); [|done]. split; cbn; try done.
  by rewrite <- Z.lor_assoc, Z.lor_diag.
Qed.
Lemma set_dirty_eq e a : dirty_eq e (tlb_set_dirty1_locked e a).
Proof.
  unfold tlb_set_dirty1_locked. destruct (Z.eqb_spec (addr_write e) (Z.lor a TLB_NOTDIRTY)) as [E|]; [|done].
  split; cbn; try done. by rewrite E, <- Z.lor_assoc, Z.lor_diag.
Qed.

(** Every slot keeps its entry up to the flag. *)
Record redirtied t t' : Prop := {
  rd_mask : mask t' = mask t;
  rd_sized : ∀ k, sized t k → sized t' k;
  rd_slot : ∀ x s', slot_at t' x = Some s' → ∃ s, slot_at t x = Some s ∧ dirty_eq s.1 s'.1 ∧ s.2 = s'.2;
  rd_large : large_page_addr t' = large_page_addr t ∧ large_page_mask t' = large_page_mask t;
  rd_counters : n_used_entries t' = n_used_entries t ∧ window_max_entries t' = window_max_entries t;
}.
Lemma redirtied_wf t t' : tlb_wf t → redirtied t t' → tlb_wf t'.
Proof.
  intros [[k Hk] Hi Hs Hu] [Hm Hz Hx _ _]. split.
  - exists k. by apply Hz.
  - intros i s q (s0 & H0 & Hd & _)%Hx Hq Hh. unfold tlb_index. rewrite Hm. eapply Hi; [done|done|]. by eapply dirty_hits.
  - intros x s q q' (s0 & H0 & Hd & _)%Hx Hq Hq' Hh Hh'. eapply Hs; [exact H0|done|done|by eapply dirty_hits|by eapply dirty_hits].
  - intros x y s s' q (s0 & H0 & Hd & _)%Hx (s1 & H1 & Hd1 & _)%Hx Hq Hh Hh'.
    eapply Hu; [exact H0|exact H1|done|by eapply dirty_hits|by eapply dirty_hits].
Qed.
Lemma redirtied_caches t t' q s' :
  redirtied t t' → is_page q → caches t' q s' → ∃ s, caches t q s ∧ dirty_eq s.1 s'.1 ∧ s.2 = s'.2.
Proof.
  intros [_ _ Hx _ _] Hq (x & (s & Hs & Hd & He)%Hx & Hh). exists s. split; [|done]. exists x. split; [done|]. by eapply dirty_hits.
Qed.
Lemma reset_dirty_redirtied t start len : redirtied t (reset_dirty_mode start len t).
Proof.
  split; [done| | |done|done].
  - intros k [? ? [? ?] [? ?]]. split; cbn; [done|done|by rewrite length_fmap|by rewrite length_fmap].
  - intros [i|j] s'; cbn; rewrite list_lookup_fmap; intros (e' & He' & (f & Hf & [= <-])%bind_Some)%bind_Some;
      apply fmap_Some in He' as (e & He & ->); exists (e, f); rewrite He, Hf; (split; [done|]); by split; [apply reset_dirty_eq|].
Qed.
Lemma set_dirty_redirtied t a : redirtied t (set_dirty_mode a t).
Proof.
  split; [done| | |done|done].
  - intros k [? ? [? ?] [? ?]]. split; cbn; [done|done|by rewrite length_insert|by rewrite length_fmap].
  - intros [i|j] s'; cbn; intros (e' & He' & (f & Hf & [= <-])%bind_Some)%bind_Some.
    + apply list_lookup_insert_Some in He' as [(<- & <- & Hl)|(_ & He')].
      * destruct (lookup_lt_is_Some_2 (table t) _ Hl) as [e He]. exists (e, f). rewrite He, Hf. cbn. split; [done|].
        unfold tlb_entry. rewrite (list_lookup_total_correct _ _ _ He). split; [apply set_dirty_eq|done].
      * exists (e', f). rewrite He', Hf. done.
    + rewrite list_lookup_fmap in He'. apply fmap_Some in He' as (e & He & ->). exists (e, f). rewrite He, Hf. cbn.
      split; [done|]. split; [apply set_dirty_eq|done].
Qed.
End Dirty.

(** ** The machine of one mode *)

(** The guest's page tables: what a walk finds for a page, [None] where it faults. *)
Definition Walk : Type := Z → option CPUTLBEntryFull.
Definition with_clean (clean : Z → bool) (M : Memory) : Memory :=
  mkMemory (translate_for_iotlb M) clean (watchpoint_matches M).

Section Machine.
Context {P : Pages} (HP : pages_ok) (M : Memory).
Context (junk : CPUTLBEntry) (junk_full : CPUTLBEntryFull).
Implicit Types (t : Tlb) (q : Z) (s : Slot) (w : Walk) (full : CPUTLBEntryFull).

Definition fill_size full : Z :=
  if lg_page_size full <=? TARGET_PAGE_BITS then TARGET_PAGE_SIZE else wrap 64 (Z.shiftl 1 (lg_page_size full)).
Definition section_of full : IoSection :=
  translate_for_iotlb M (attrs full) (page_of (phys_addr full)) (fill_size full) (prot full).
(** The slot holds the translation of the page. *)
Definition agrees full q s : Prop :=
  ∃ clean tn, new_entry (with_clean clean M) q (page_of (phys_addr full)) full (section_of full) = Ok (tn, s.2) ∧ dirty_eq tn s.1.

(** The pages that share the mapping of an address. *)
Definition mapping_bits w (a : Z) : Z :=
  match w (page_of a) with Some full => Z.max TARGET_PAGE_BITS (lg_page_size full) | None => TARGET_PAGE_BITS end.
Definition same_mapping w (a q : Z) : Prop := Z.shiftr a (mapping_bits w a) = Z.shiftr q (mapping_bits w a).
Definition walk_ok w : Prop :=
  ∀ q full, is_page q → w q = Some full → 0 ≤ lg_page_size full ≤ 63 ∧
    ∀ q', is_page q' → same_mapping w q q' → ∃ full', w q' = Some full' ∧ lg_page_size full' = lg_page_size full.

Inductive tlb_step : Walk * Tlb → Walk * Tlb → Prop :=
| step_fill w t t' a full clean :
    in_range 64 a → w (page_of a) = Some full → set_page_mode (with_clean clean M) t a full = Ok t' →
    tlb_step (w, t) (w, t')
| step_victim w t t' a access :
    in_range 64 a → victim_tlb_hit t (Z.to_nat (tlb_index t a)) access (page_of a) = Some t' → tlb_step (w, t) (w, t')
| step_reset_dirty w t start len : tlb_step (w, t) (w, reset_dirty_mode start len t)
| step_set_dirty w t a : tlb_step (w, t) (w, set_dirty_mode (page_of a) t)
| step_switch w w' t t' alloc now :
    walk_ok w' → alloc_ok alloc → tlb_flush_one_mmuidx_locked alloc junk junk_full t now = Ok t' → tlb_step (w, t) (w', t')
| step_remap w w' t t' a alloc now :
    in_range 64 a → walk_ok w' → (∀ q, is_page q → ¬ same_mapping w a q → w' q = w q) → alloc_ok alloc →
    tlb_flush_page_locked alloc junk junk_full now (page_of a) t = Ok t' → tlb_step (w, t) (w', t').

Record tlb_inv w t : Prop := {
  inv_wf : tlb_wf t;
  inv_walk : walk_ok w;
  inv_large : large_ok t;
  inv_counters : counters_ok t;
  inv_agrees : ∀ q s, is_page q → caches t q s →
    ∃ full, w q = Some full ∧ agrees full q s ∧ (TARGET_PAGE_BITS < lg_page_size full → covers t q (lg_page_size full));
}.

Lemma index_page t a : in_range 64 a → tlb_index t a = tlb_index t (page_of a).
Proof.
  intros Ha. unfold tlb_index. f_equal. apply Z.bits_inj'. intros i Hi. destruct HP as [Hmin _]. rewrite !Z.shiftr_spec by lia.
  unfold page_of. rewrite Z.land_spec, testbit_page_mask by done. replace (TARGET_PAGE_BITS <=? i + TARGET_PAGE_BITS) with true by lia.
  rewrite andb_true_r. destruct (Z.ltb_spec (i + TARGET_PAGE_BITS) 64); [by rewrite andb_true_r|].
  by rewrite (testbit_high 64) by (done || lia).
Qed.
Lemma page_bits_same q q' : is_page q → is_page q' → Z.shiftr q TARGET_PAGE_BITS = Z.shiftr q' TARGET_PAGE_BITS → q = q'.
Proof.
  intros Hq Hq' E. destruct HP as [Hmin _]. apply Z.bits_inj'. intros i Hi. destruct (Z.lt_ge_cases i TARGET_PAGE_BITS).
  - by rewrite !testbit_page.
  - apply (f_equal (λ z, Z.testbit z (i - TARGET_PAGE_BITS))) in E. rewrite !Z.shiftr_spec in E by lia.
    by replace (i - TARGET_PAGE_BITS + TARGET_PAGE_BITS) with i in E by lia.
Qed.

(** [set_page_mode] in its parts. *)
Lemma set_page_put M' t a full t' :
  set_page_mode M' t a full = Ok t' →
  ∃ tn f, new_entry M' (page_of a) (page_of (phys_addr full)) full
            (translate_for_iotlb M' (attrs full) (page_of (phys_addr full)) (fill_size full) (prot full)) = Ok (tn, f) ∧
    t' = put (tlb_flush_vtlb_page_locked
                (if lg_page_size full <=? TARGET_PAGE_BITS then t
                 else tlb_add_large_page t a (wrap 64 (Z.shiftl 1 (lg_page_size full)))) (page_of a)) (page_of a) tn f.
Proof.
  unfold set_page_mode, fill_size. fold (page_of a). fold (page_of (phys_addr full)).
  destruct (lg_page_size full <=? TARGET_PAGE_BITS); cbn [fst snd]; unfold assert_;
    (destruct (TARGET_PAGE_SIZE <=? _); [|done]); cbn;
    destruct (new_entry M' _ _ full _) as [[tn f]|] eqn:E; (done || intros [= <-]; by exists tn, f).
Qed.

(** *** What the operations do to the other fields *)

Definition same_large t t' : Prop := large_page_addr t' = large_page_addr t ∧ large_page_mask t' = large_page_mask t.
Lemma large_same t t' : same_large t t' → large_ok t → large_ok t'.
Proof. intros [_ E] (j & Hj & Em). exists j. split; [done|congruence]. Qed.
Lemma covers_same t t' q (lg : Z) : same_large t t' → covers t q lg → covers t' q lg.
Proof. intros [E1 E2] (j & ? & ? & ? & ?). exists j. rewrite E1, E2. done. Qed.

Lemma flush_victims_counter l q m u : in_range 64 u → in_range 64 (flush_victims l q m u).2.
Proof.
  revert u. induction l as [|e l IH]; intros u Hu; [done|]. cbn [flush_victims].
  destruct (tlb_flush_entry_mask_locked e q m) as [e' b]. specialize (IH (if b then wrap 64 (u - 1) else u)).
  destruct (flush_victims l q m _) as [l' u']. apply IH. destruct b; auto with range.
Qed.
Lemma flush_vtlb_fields t q m :
  same_large t (tlb_flush_vtlb_page_mask_locked t q m) ∧ (counters_ok t → counters_ok (tlb_flush_vtlb_page_mask_locked t q m)).
Proof.
  unfold tlb_flush_vtlb_page_mask_locked. pose proof (flush_victims_counter (vtable t) q m (n_used_entries t)) as Hc.
  destruct (flush_victims _ _ _ _) as [l u]. split; [done|]. intros [H1 H2]. split; [by apply Hc|done].
Qed.
Lemma flush_main_fields t q m : same_large t (flush_main t q m) ∧ (counters_ok t → counters_ok (flush_main t q m)).
Proof.
  unfold flush_main. destruct (tlb_flush_entry_mask_locked _ _ _) as [e []]; (split; [done|]); intros [H1 H2]; split; cbn; auto with range.
Qed.
Lemma put_fields t (p : Z) (tn : CPUTLBEntry) (f : CPUTLBEntryFull) : same_large t (put t p tn f) ∧ (counters_ok t → counters_ok (put t p tn f)).
Proof.
  unfold put, evict. destruct (negb _ && negb _); (split; [done|]); intros [H1 H2]; split; cbn; auto with range.
Qed.
Lemma large_page_of t (a lg : Z) : TARGET_PAGE_BITS ≤ lg → covers t a lg → covers t (page_of a) lg.
Proof.
  intros Hlg (j & ? & ? & E1 & E2). exists j. split; [done|]. split; [done|]. split; [done|]. rewrite <- E2.
  destruct HP as [Hmin _]. apply Z.bits_inj'. intros i Hi. unfold page_of. rewrite !Z.land_spec, testbit_page_mask, testbit_region by (done || lia).
  destruct (Z.ltb_spec i 64), (Z.leb_spec j i), (Z.leb_spec TARGET_PAGE_BITS i); rewrite ?andb_true_r, ?andb_false_r; (done || lia).
Qed.

(** *** The steps keep the invariant *)

(** The mode with the region of a large page entered. *)
Definition enlarged t (a : Z) full : Tlb :=
  if lg_page_size full <=? TARGET_PAGE_BITS then t else tlb_add_large_page t a (wrap 64 (Z.shiftl 1 (lg_page_size full))).
Lemma enlarged_drops t a full : drops t (enlarged t a full) ∧ (counters_ok t → counters_ok (enlarged t a full)).
Proof.
  unfold enlarged, tlb_add_large_page. destruct (lg_page_size full <=? TARGET_PAGE_BITS); [split; [apply drops_refl|done]|].
  destruct (_ =? minus1); (split; [by apply drops_same|done]).
Qed.
(** After a fill the page has the new entry where it is looked up and nowhere else, and no
    other page has an entry that it did not have before. *)
Lemma set_page_spec M' t a full t' :
  tlb_wf t → set_page_mode M' t a full = Ok t' → let p := page_of a in
  ∃ tn f, new_entry M' p (page_of (phys_addr full)) full
            (translate_for_iotlb M' (attrs full) (page_of (phys_addr full)) (fill_size full) (prot full)) = Ok (tn, f) ∧
    tlb_wf t' ∧ (counters_ok t → counters_ok t') ∧ same_large (enlarged t a full) t' ∧
    slot_at t' (inl (Z.to_nat (tlb_index t' p))) = Some (tn, f) ∧
    ∀ q s, is_page q → caches t' q s → if decide (q = p) then s = (tn, f) else caches t q s.
Proof.
  intros Hw Hs p. apply set_page_put in Hs as (tn & f & Hn & ->). exists tn, f. split; [done|]. fold p in Hn |- *.
  fold (enlarged t a full). assert (Pp : is_page p) by apply page_of_page. destruct (enlarged_drops t a full) as [D0 C0].
  set (t0 := enlarged t a full) in *. clearbody t0. set (t1 := tlb_flush_vtlb_page_locked t0 p).
  pose proof (flush_vtlb_mask_drops HP t0 p minus1) as D1. fold (tlb_flush_vtlb_page_locked t0 p) t1 in D1.
  destruct (flush_vtlb_fields t0 p minus1) as [F1 F2]. fold (tlb_flush_vtlb_page_locked t0 p) t1 in F1, F2.
  destruct (put_fields t1 p tn f) as [G1 G2]. pose proof (drops_trans _ _ _ D0 D1) as D.
  assert (W1 : tlb_wf t1) by (by eapply drops_wf). pose proof (new_entry_for HP _ _ _ _ _ _ _ Pp Hn) as Hfor.
  assert (Hv : ∀ j s, slot_at t1 (inr j) = Some s → ¬ hits s.1 p) by (intros j s Hj; by eapply vtlb_flushed).
  split; [by apply put_wf|]. split; [auto|]. split; [destruct F1, G1; split; congruence|]. split.
  - destruct (wf_sized _ W1) as [k Hk]. rewrite (put_slot t1 k) by done. unfold tlb_index. rewrite put_mask.
    fold (tlb_index t1 p). by rewrite decide_True.
  - intros q s Hq Hcq. apply put_caches in Hcq; [|done..]. destruct (decide (q = p)); [done|by eapply drops_caches].
Qed.

Lemma vtlb_keeps t p q s : tlb_wf t → is_page p → is_page q → q ≠ p → caches t q s → caches (tlb_flush_vtlb_page_locked t p) q s.
Proof.
  intros Hw Hp Hq Hn ([i|j] & Hx & Hh).
  - exists (inl i). split; [|done]. unfold tlb_flush_vtlb_page_locked, tlb_flush_vtlb_page_mask_locked. by destruct (flush_victims _ _ _ _).
  - exists (inr j). split; [|done]. assert (Hm : ¬ hits s.1 p) by (intros Hh'; by apply Hn, (wf_single _ Hw _ _ q p Hx)).
    unfold tlb_flush_vtlb_page_locked, tlb_flush_vtlb_page_mask_locked. pose proof (flush_victims_map (vtable t) p minus1 (n_used_entries t)) as El.
    destruct (flush_victims _ _ _ _) as [l u]. cbn in El, Hx |- *. rewrite El, list_lookup_fmap. apply bind_Some in Hx as (e & He & Hx).
    rewrite He. cbn. apply bind_Some in Hx as (f & -> & [= <-]). cbn in *. do 2 f_equal. unfold tlb_flush_entry_mask_locked.
    fold (tlb_hit_page_anyprot e p). apply (anyprot_false HP) in Hm; [|done]. by rewrite Hm.
Qed.
(** The other pages keep their entries, but for that of the victim that is overwritten. *)
Lemma set_page_keeps M' t a full t' q s :
  tlb_wf t → set_page_mode M' t a full = Ok t' → is_page q → q ≠ page_of a → caches t q s →
  caches t' q s ∨ slot_at t (inr (victim_index t)) = Some s.
Proof.
  intros Hw Hs Hq Hn Hc. apply set_page_put in Hs as (tn & f & _ & ->). fold (enlarged t a full).
  assert (Pp : is_page (page_of a)) by apply page_of_page. destruct (enlarged_drops t a full) as [D0 _].
  assert (E : ∀ x, slot_at (enlarged t a full) x = slot_at t x) by (intros [i|j]; unfold enlarged, tlb_add_large_page; by repeat case_match).
  assert (Ev : vindex (enlarged t a full) = vindex t) by (unfold enlarged, tlb_add_large_page; by repeat case_match).
  set (t0 := enlarged t a full) in *. clearbody t0. pose proof (drops_wf _ _ Hw D0) as W0.
  assert (C0 : caches t0 q s) by (destruct Hc as (x & Hx & Hh); exists x; by rewrite E).
  pose proof (vtlb_keeps t0 (page_of a) q s W0 Pp Hq Hn C0) as C1. pose proof (flush_vtlb_mask_drops HP t0 (page_of a) minus1) as D1.
  assert (Ev1 : vindex (tlb_flush_vtlb_page_locked t0 (page_of a)) = vindex t0).
  { unfold tlb_flush_vtlb_page_locked, tlb_flush_vtlb_page_mask_locked. by destruct (flush_victims _ _ _ _). }
  fold (tlb_flush_vtlb_page_locked t0 (page_of a)) in D1. set (t1 := tlb_flush_vtlb_page_locked t0 (page_of a)) in *. clearbody t1.
  destruct (put_keeps HP t1 (page_of a) tn f q s) as [|[_ Hv]]; [by eapply drops_wf|done..|by left|]. right.
  unfold victim_index in *. rewrite Ev1, Ev in Hv. rewrite <- E. destruct C1 as (x & Hx & Hh). exact (drop_slot _ _ D1 _ _ q Hv Hq Hh).
Qed.

Lemma fill_inv w t t' a full clean :
  tlb_inv w t → in_range 64 a → w (page_of a) = Some full → set_page_mode (with_clean clean M) t a full = Ok t' → tlb_inv w t'.
Proof.
  intros [Hw Hwalk Hl Hc Ha] Hr Hp Hs. apply set_page_spec in Hs as (tn & f & Hn & W' & C' & SL & _ & Hcq); [|done].
  set (p := page_of a) in *. assert (Pp : is_page p) by apply page_of_page. destruct (Hwalk p full Pp Hp) as [Hlg _].
  assert (H0 : large_ok (enlarged t a full) ∧
    (TARGET_PAGE_BITS < lg_page_size full → covers (enlarged t a full) p (lg_page_size full)) ∧
    ∀ q l, is_page q → covers t q l → covers (enlarged t a full) q l).
  { unfold enlarged. destruct (Z.leb_spec (lg_page_size full) TARGET_PAGE_BITS); [split; [done|split; [lia|done]]|].
    destruct (add_large_spec HP t a (lg_page_size full) Hl Hlg) as (L1 & L2 & L3).
    split; [done|]. split; [intros _; apply large_page_of; [lia|done]|done]. }
  destruct H0 as (L0 & Cp & Cq). split; [done|done|by eapply large_same|by apply C'|]. intros q s Hq Hs. apply Hcq in Hs; [|done].
  destruct (decide (q = p)) as [->|Hn'].
  - exists full. split; [done|]. split; [|intros Hlt; by eapply covers_same; [|apply Cp]]. subst s. by exists clean, tn.
  - destruct (Ha q s Hq Hs) as (fq & ? & ? & Hcov). exists fq. split; [done|]. split; [done|].
    intros Hlt. eapply covers_same; [done|]. by apply Cq, Hcov.
Qed.
Lemma victim_inv w t t' a access :
  tlb_inv w t → in_range 64 a → victim_tlb_hit t (Z.to_nat (tlb_index t a)) access (page_of a) = Some t' → tlb_inv w t'.
Proof.
  intros [Hw Hwalk Hl Hc Ha] Hr Hv. rewrite index_page in Hv by done.
  destruct (victim_spec HP t access (page_of a) t' Hw (page_of_page a) Hv) as (W' & Hcq & _).
  assert (same_large t t' ∧ counters_ok t') as [SL C'].
  { unfold victim_tlb_hit in Hv. destruct (list_find _ _) as [[vx ve]|]; [|done]. cbn in Hv. by injection Hv as <-. }
  split; [done|done|by eapply large_same|done|]. intros q s Hq Hs. apply Hcq in Hs.
  destruct (Ha q s Hq Hs) as (fq & ? & ? & Hcov). exists fq. split; [done|]. split; [done|]. intros Hlt. eapply covers_same; eauto.
Qed.
Lemma redirtied_inv w t t' : tlb_inv w t → redirtied t t' → tlb_inv w t'.
Proof.
  intros [Hw Hwalk Hl Hc Ha] R. pose proof R as [_ _ _ RL [R1 R2]].
  split; [by eapply redirtied_wf|done|by eapply large_same|unfold counters_ok; by rewrite R1, R2|]. intros q s' Hq Hs.
  destruct (redirtied_caches HP t t' q s' R Hq Hs) as (s & Hcs & Hd & E2).
  destruct (Ha q s Hq Hcs) as (fq & ? & (clean & tn & Hn & Ht) & Hcov). exists fq. split; [done|]. split.
  - exists clean, tn. rewrite <- E2. split; [done|]. by etransitivity.
  - intros Hlt. eapply covers_same; eauto.
Qed.
Lemma emptied_inv w t alloc now t' :
  tlb_wf t → counters_ok t → walk_ok w → alloc_ok alloc →
  tlb_flush_one_mmuidx_locked alloc junk junk_full t now = Ok t' → tlb_inv w t'.
Proof.
  intros Hw Hc Hwalk HA Hf. destruct (flush_all HP alloc junk junk_full HA t now Hw Hc) as (t'' & E & W & Hn & C & E1 & E2).
  rewrite E in Hf. injection Hf as ->. split; [done|done| |done|].
  - exists 0. split; [lia|]. by rewrite E2.
  - intros q s Hq Hs. by apply Hn in Hs.
Qed.
Lemma mapping_page w a q : in_range 64 a → same_mapping w a q ↔ same_mapping w (page_of a) q.
Proof.
  intros Ha. unfold same_mapping, mapping_bits. rewrite (page_of_page a). set (b := match w (page_of a) with Some f => _ | None => _ end).
  assert (Hb : TARGET_PAGE_BITS ≤ b) by (unfold b; destruct (w (page_of a)); lia).
  assert (E : Z.shiftr a b = Z.shiftr (page_of a) b); [|by rewrite E]. destruct HP as [Hmin _].
  apply Z.bits_inj'. intros i Hi. unfold page_of. rewrite !Z.shiftr_spec, Z.land_spec, testbit_page_mask by (done || lia).
  replace (TARGET_PAGE_BITS <=? i + b) with true by lia. rewrite andb_true_r. destruct (Z.ltb_spec (i + b) 64); [by rewrite andb_true_r|].
  by rewrite (testbit_high 64) by (done || lia).
Qed.
Lemma remap_inv w w' t t' a alloc now :
  tlb_inv w t → in_range 64 a → walk_ok w' → (∀ q, is_page q → ¬ same_mapping w a q → w' q = w q) → alloc_ok alloc →
  tlb_flush_page_locked alloc junk junk_full now (page_of a) t = Ok t' → tlb_inv w' t'.
Proof.
  intros [Hw Hwalk Hl Hc Ha] Hr Hwalk' Hw' HA Hf. unfold tlb_flush_page_locked in Hf.
  set (p := page_of a) in *. assert (Pp : is_page p) by apply page_of_page.
  destruct (Z.eqb_spec (Z.land p (large_page_mask t)) (large_page_addr t)) as [E|E]; [by eapply emptied_inv|].
  injection Hf as <-. destruct (flush_one_page HP t p Hw Pp) as [W' Hcq].
  destruct (flush_main_fields t p minus1) as [F1 F2], (flush_vtlb_fields (flush_main t p minus1) p minus1) as [G1 G2].
  set (t' := tlb_flush_vtlb_page_locked (flush_main t p minus1) p) in *.
  assert (SL : same_large t t') by (destruct F1, G1; split; unfold t', tlb_flush_vtlb_page_locked; congruence).
  split; [done|done|by eapply large_same|by apply G2, F2|]. intros q s Hq Hs. destruct (Hcq q s Hq Hs) as [Hnp Hs0].
  destruct (Ha q s Hq Hs0) as (fq & Hfq & ? & Hcov). exists fq. rewrite Hw'; [|done|].
  { split; [done|]. split; [done|]. intros Hlt. eapply covers_same; eauto. }
  intros Hm. rewrite mapping_page in Hm by done. fold p in Hm. destruct (w p) as [fp|] eqn:Ep.
  - destruct (Hwalk p fp Pp Ep) as [Hlg Hsame]. destruct (Hsame q Hq Hm) as (f' & E' & El). rewrite Hfq in E'. injection E' as <-.
    unfold same_mapping, mapping_bits in Hm. rewrite Pp, Ep in Hm.
    destruct (Z.lt_ge_cases TARGET_PAGE_BITS (lg_page_size fp)) as [Hlt|Hge].
    + rewrite Z.max_r in Hm by lia. apply E. rewrite <- El in *. by eapply covered_hit; [apply Hcov; lia|].
    + rewrite Z.max_l in Hm by lia. by apply page_bits_same in Hm.
  - unfold same_mapping, mapping_bits in Hm. rewrite Pp, Ep in Hm. by apply page_bits_same in Hm.
Qed.

Theorem step_inv w t w' t' : tlb_inv w t → tlb_step (w, t) (w', t') → tlb_inv w' t'.
Proof.
  intros Hi Hs. inversion Hs; subst.
  - by eapply fill_inv.
  - by eapply victim_inv.
  - eapply redirtied_inv; [done|apply reset_dirty_redirtied].
  - eapply redirtied_inv; [done|apply set_dirty_redirtied].
  - destruct Hi. by eapply emptied_inv.
  - by eapply remap_inv.
Qed.

Lemma init_sized now : sized (tlb_mmu_init junk junk_full now) CPU_TLB_DYN_DEFAULT_BITS.
Proof. apply flush_sized. split; cbn; [done|done|by rewrite !length_replicate|done]. Qed.
Lemma init_inv w now : walk_ok w → tlb_inv w (tlb_mmu_init junk junk_full now).
Proof.
  intros Hw. assert (Hn : ∀ q s, is_page q → ¬ caches (tlb_mmu_init junk junk_full now) q s) by (intros; by apply flush_misses).
  split; [by eapply misses_wf; [apply init_sized|]|done| |done|].
  - exists 0. done.
  - intros q s Hq Hs. by apply Hn in Hs.
Qed.
Lemma reachable_inv w now w' t :
  walk_ok w → rtc tlb_step (w, tlb_mmu_init junk junk_full now) (w', t) → tlb_inv w' t.
Proof.
  intros Hw Hr. assert (Hg : ∀ c c', rtc tlb_step c c' → tlb_inv c.1 c.2 → tlb_inv c'.1 c'.2).
  { intros c c' Hc. induction Hc as [|[w1 t1] [w2 t2] c3 H12 _ IH]; [done|]. intros H1. apply IH. by eapply step_inv. }
  apply (Hg _ _ Hr). by apply init_inv.
Qed.

(** *** The translation that a slot gives *)

Lemma agrees_ram full q s a :
  agrees full q s → sec_is_ram (section_of full) = true →
  wrap 64 (a + addend s.1) = wrap 64 (sec_ram_ptr (section_of full) + sec_xlat (section_of full) + (a - q)) ∧
  phys_addr s.2 = page_of (phys_addr full) ∧ lg_page_size s.2 = lg_page_size full ∧ attrs s.2 = attrs full.
Proof.
  intros (clean & tn & Hn & [_ _ <- _]) Hram. unfold new_entry, page_flags in Hn. rewrite Hram in Hn. cbn in Hn. unfold assert_ in Hn.
  destruct (_ =? 0); [|done]. cbn in Hn.
  repeat match type of Hn with context [let '(_, _) := ?x in _] => destruct x end. injection Hn as <- <-. cbn.
  split; [|done]. rewrite wrap_add_r by lia. set (host := sec_ram_ptr _ + sec_xlat _).
  replace (a + (wrap 64 host - q)) with (wrap 64 host + (a - q)) by lia. apply wrap_add_l. lia.
Qed.
End Machine.

(** ** The modes of a CPU *)

(** The lowest bit of a word, and the word without it. *)
Lemma land_double a b : Z.land (2 * a) (2 * b + 1) = 2 * Z.land a b.
Proof.
  apply Z.bits_inj'. intros i Hi. rewrite Z.land_spec. destruct (Z.eq_dec i 0) as [->|].
  - by rewrite !Z.testbit_even_0.
  - replace i with (Z.succ (i - 1)) by lia. by rewrite Z.testbit_odd_succ, !Z.testbit_even_succ, Z.land_spec by lia.
Qed.
Lemma land_pred p : Z.land (Z.pos p) (Z.pos p - 1) = Z.pos p - 2 ^ ctz_pos p.
Proof.
  induction p as [p IH|p IH|]; cbn [ctz_pos]; [| |done].
  - change (Z.pos p~1) with (2 * Z.pos p + 1). rewrite Z.land_comm. replace (2 * Z.pos p + 1 - 1) with (2 * Z.pos p) by lia.
    rewrite land_double, Z.land_diag. lia.
  - change (Z.pos p~0) with (2 * Z.pos p). replace (2 * Z.pos p - 1) with (2 * (Z.pos p - 1) + 1) by lia.
    rewrite land_double, IH, Z.pow_add_r by (pose proof (ctz_pos_nonneg p); lia). lia.
Qed.
Lemma lowest_bit w : 0 < w < 2 ^ 32 → let j := ctz32 w in
  0 ≤ j < 32 ∧ Z.testbit w j = true ∧ (∀ i, 0 ≤ i < j → Z.testbit w i = false) ∧
  ∀ i, 0 ≤ i → Z.testbit (Z.land w (w - 1)) i = Z.testbit w i && negb (i =? j).
Proof.
  intros Hw. unfold ctz32. replace (w =? 0) with false by lia. cbv zeta.
  pose proof (ctz_bound 32 w ltac:(unfold in_range; lia) ltac:(lia)) as Hb. pose proof (ctz_lowest w ltac:(lia)) as Hl.
  split; [done|]. split; [done|]. split; [intros i; apply ctz_below; lia|]. intros i Hi. destruct w as [|p|p]; [lia| |lia].
  rewrite land_pred. cbn [builtin_ctz] in *. rewrite Z.sub_nocarry_ldiff.
  - by rewrite Z.ldiff_spec, Z.pow2_bits_eqb, Z.eqb_sym by lia.
  - apply Z.bits_inj'. intros k Hk. rewrite Z.ldiff_spec, Z.pow2_bits_eqb, Z.bits_0 by lia.
    destruct (Z.eqb_spec (ctz_pos p) k) as [<-|]; [by rewrite Hl|done].
Qed.

Section Modes.
Context {P : Pages} (HP : pages_ok) (M : Memory).
Context (alloc : Z → bool) (junk : CPUTLBEntry) (junk_full : CPUTLBEntryFull) (HA : alloc_ok alloc).
Implicit Types (t : Tlb) (q : Z) (c : CPUTLB) (l : list Tlb).

Definition misses t : Prop := ∀ q s, is_page q → ¬ caches t q s.
Definition mode_ok t : Prop := tlb_wf t ∧ counters_ok t.
(** Every mode is well-formed, and a mode that is not marked as dirty caches nothing. *)
Record cpu_ok c : Prop := {
  cpu_modes : length (modes c) = NB_MMU_MODES;
  cpu_mode : ∀ k t, modes c !! k = Some t → mode_ok t;
  cpu_dirty : in_range 16 (dirty c);
  cpu_clean : ∀ k t, modes c !! k = Some t → Z.testbit (dirty c) (Z.of_nat k) = false → misses t;
}.

Lemma flush_work_spec fuel now work l b :
  length l = NB_MMU_MODES → (∀ k t, l !! k = Some t → mode_ok t) → in_range 16 work →
  (∀ i, 0 ≤ i < b → Z.testbit work i = false) → 0 ≤ b → 16 ≤ b + Z.of_nat fuel →
  ∃ l', flush_work alloc junk junk_full fuel now work l = Ok l' ∧ length l' = NB_MMU_MODES ∧
    ∀ k t', l' !! k = Some t' →
      if Z.testbit work (Z.of_nat k) then mode_ok t' ∧ misses t' else l !! k = Some t'.
Proof.
  revert work l b. induction fuel as [|fuel IH]; intros work l b Hl Hm Hw Hb Hb0 Hf; cbn [flush_work].
  - exists l. split; [done|]. split; [done|]. intros k t' Hk. destruct (Z.testbit work (Z.of_nat k)) eqn:E; [|done].
    assert (Z.of_nat k < 16) by (apply lookup_lt_Some in Hk; unfold NB_MMU_MODES in *; lia). by rewrite Hb in E by lia.
  - destruct (Z.eqb_spec work 0) as [->|Hn]; [exists l; split; [done|]; split; [done|]; intros k t'; by rewrite Z.testbit_0_l|].
    destruct (lowest_bit work) as (Hj & H1 & H2 & H3); [unfold in_range in Hw; lia|]. set (j := ctz32 work) in *.
    assert (Hj16 : j < 16).
    { destruct (Z.lt_ge_cases j 16); [done|]. by rewrite (testbit_high 16) in H1 by (done || lia). }
    assert (Hjb : b ≤ j) by (destruct (Z.lt_ge_cases j b); [by rewrite Hb in H1 by lia|done]).
    destruct (lookup_lt_is_Some_2 l (Z.to_nat j)) as [t Ht]; [unfold NB_MMU_MODES in Hl; lia|].
    rewrite (list_lookup_total_correct _ _ _ Ht). destruct (Hm _ _ Ht) as [Wt Ct].
    destruct (flush_all HP alloc junk junk_full HA t now Wt Ct) as (t1 & -> & W1 & N1 & C1 & _). cbn.
    destruct (IH (Z.land work (work - 1)) (<[Z.to_nat j := t1]> l) (j + 1)) as (l' & -> & Hl' & Hs).
    + by rewrite length_insert.
    + intros k t' [(_ & <- & _)|(_ & Hk)]%list_lookup_insert_Some; [done|by eapply Hm].
    + by apply land_range.
    + intros i Hi. rewrite H3 by lia. destruct (Z.eq_dec i j) as [->|]; [by rewrite Z.eqb_refl, andb_false_r|].
      by rewrite H2 by lia.
    + lia.
    + lia.
    + exists l'. split; [done|]. split; [done|]. intros k t' Hk. specialize (Hs k t' Hk). rewrite H3 in Hs by lia.
      destruct (Z.eqb_spec (Z.of_nat k) j) as [Ek|Ek]; cbn in Hs.
      * rewrite andb_false_r in Hs. rewrite Ek, H1. replace (Z.to_nat j) with k in * by lia.
        rewrite list_lookup_insert_eq in Hs by (apply lookup_lt_Some in Hk; lia). by injection Hs as <-.
      * rewrite andb_true_r in Hs. destruct (Z.testbit work (Z.of_nat k)); [done|]. by rewrite list_lookup_insert_ne in Hs by lia.
Qed.

(** A flush of modes leaves them without entries, although those not marked as dirty are skipped. *)
Lemma flush_modes_spec now asked c :
  cpu_ok c → in_range 16 asked →
  ∃ c', tlb_flush_by_mmuidx alloc junk junk_full now asked c = Ok c' ∧ cpu_ok c' ∧
    (∀ k t', modes c' !! k = Some t' → Z.testbit asked (Z.of_nat k) = true → misses t') ∧
    (∀ k t', modes c' !! k = Some t' → Z.testbit asked (Z.of_nat k) = false → modes c !! k = Some t') ∧
    (∀ i, tb_jmp_cache c' i = None).
Proof.
  intros [Hl Hm Hd Hc] Ha. unfold tlb_flush_by_mmuidx, tlb_flush_by_mmuidx_async_work.
  destruct (flush_work_spec NB_MMU_MODES now (Z.land asked (dirty c)) (modes c) 0) as (l' & -> & Hl' & Hs);
    [done|done|by apply land_range|lia|lia|unfold NB_MMU_MODES; lia|].
  cbn. eexists. split; [done|]. split; [|split; [|split]]; cbn.
  - split; cbn; [done| | |].
    + intros k t Hk. specialize (Hs k t Hk). destruct (Z.testbit _ _); [by destruct Hs|by eapply Hm].
    + by apply land_range.
    + intros k t Hk Hb. specialize (Hs k t Hk). rewrite Z.land_spec in Hs. rewrite Z.land_spec, Z.lnot_spec, Z.land_spec in Hb by lia.
      destruct (Z.testbit (dirty c) (Z.of_nat k)) eqn:E; cbn in Hb.
      * rewrite andb_true_r in *. apply negb_false_iff in Hb. rewrite Hb in Hs. by destruct Hs.
      * rewrite andb_false_r in Hs. by eapply Hc.
  - intros k t Hk Hb. specialize (Hs k t Hk). rewrite Z.land_spec, Hb in Hs. cbn in Hs.
    destruct (Z.testbit (dirty c) (Z.of_nat k)) eqn:E; [by destruct Hs|by eapply Hc].
  - intros k t Hk Hb. specialize (Hs k t Hk). by rewrite Z.land_spec, Hb in Hs.
  - done.
Qed.

Lemma flush_page_mode now p t :
  mode_ok t → is_page p →
  ∃ t', tlb_flush_page_locked alloc junk junk_full now p t = Ok t' ∧ mode_ok t' ∧ flushed t t' (λ q, q = p).
Proof.
  intros [Hw Hc] Hp. unfold tlb_flush_page_locked. destruct (_ =? large_page_addr t).
  - destruct (flush_all HP alloc junk junk_full HA t now Hw Hc) as (t' & -> & W & N & C & _). exists t'. split; [done|].
    split; [done|]. split; [done|]. intros q s Hq Hs. by apply N in Hs.
  - eexists. split; [done|]. pose proof (flush_one_page HP t p Hw Hp) as Hf. split; [|done]. split; [apply Hf|].
    by apply flush_vtlb_fields, flush_main_fields.
Qed.
Lemma each_mode_spec (op : Tlb → Res Tlb) (Q : Tlb → Tlb → Prop) idxmap k0 l :
  (∀ k t, l !! k = Some t → ∃ t', op t = Ok t' ∧ Q t t') → 0 ≤ k0 →
  ∃ l', each_mode op idxmap k0 l = Ok l' ∧ length l' = length l ∧
    ∀ k t', l' !! k = Some t' → ∃ t, l !! k = Some t ∧ if Z.testbit idxmap (k0 + Z.of_nat k) then Q t t' else t' = t.
Proof.
  revert k0. induction l as [|t l IH]; intros k0 Hop Hk0; cbn [each_mode]; [by exists []|].
  assert (H1 : ∃ t', (if Z.testbit idxmap k0 then op t else Ok t) = Ok t' ∧ if Z.testbit idxmap k0 then Q t t' else t' = t).
  { destruct (Z.testbit idxmap k0); [by apply (Hop 0%nat)|by exists t]. }
  destruct H1 as (t' & -> & Ht'). cbn. destruct (IH (k0 + 1)) as (l' & -> & Hl' & Hs); [intros k u Hk; by apply (Hop (S k))|lia|].
  cbn. exists (t' :: l'). split; [done|]. split; [cbn; by rewrite Hl'|]. intros [|k] u; cbn.
  - intros [= <-]. exists t. split; [done|]. by rewrite Z.add_0_r.
  - intros (v & Hv & Hq)%Hs. exists v. split; [done|]. by replace (k0 + Z.of_nat (S k)) with (k0 + 1 + Z.of_nat k) by lia.
Qed.

(** ** The jump cache *)

Lemma hash_in_page a pc :
  in_range 64 pc → page_of pc = a →
  tb_jmp_cache_hash_page a ≤ tb_jmp_cache_hash_func pc < tb_jmp_cache_hash_page a + TB_JMP_PAGE_SIZE.
Proof.
  intros Hr <-. destruct HP as [Hmin _]. set (sh := TARGET_PAGE_BITS - TB_JMP_PAGE_BITS).
  assert (Hsh : sh = TARGET_PAGE_BITS - 6) by done.
  assert (Epm : ∀ i, 0 ≤ i → Z.testbit TB_JMP_PAGE_MASK i = (6 <=? i) && (i <? 12)).
  { intros i Hi. change TB_JMP_PAGE_MASK with (Z.shiftl (Z.ones 6) 6). rewrite Z.shiftl_spec by lia.
    destruct (Z.leb_spec 6 i); [|by rewrite Z.testbit_neg_r by lia]. rewrite testbit_ones by lia. cbn. lia. }
  assert (Hp : tb_jmp_cache_hash_page (page_of pc) = Z.land (Z.shiftr (Z.lxor pc (Z.shiftr pc sh)) sh) TB_JMP_PAGE_MASK).
  { unfold tb_jmp_cache_hash_page. fold sh. apply Z.bits_inj'. intros i Hi. rewrite !Z.land_spec, Epm by lia.
    destruct (Z.leb_spec 6 i); [|by rewrite !andb_false_r]. f_equal. rewrite !Z.shiftr_spec, !Z.lxor_spec, !Z.shiftr_spec by lia.
    assert (Hb : ∀ n, TARGET_PAGE_BITS ≤ n → Z.testbit (page_of pc) n = Z.testbit pc n).
    { intros n Hn. unfold page_of. rewrite Z.land_spec, testbit_page_mask by done. destruct (Z.ltb_spec n 64);
        [|by rewrite (testbit_high 64) by (done || lia)]. replace (TARGET_PAGE_BITS <=? n) with true by lia. by rewrite andb_true_r. }
    by rewrite !Hb by lia. }
  rewrite Hp. unfold tb_jmp_cache_hash_func. fold sh. set (hi := Z.land _ TB_JMP_PAGE_MASK). set (lo := Z.land _ TB_JMP_ADDR_MASK).
  assert (Hlo : 0 ≤ lo < 64).
  { unfold lo. change TB_JMP_ADDR_MASK with (Z.ones 6). rewrite Z.land_ones by lia. by apply Z.mod_pos_bound. }
  assert (E : Z.lor hi lo = hi + lo).
  { rewrite <- Z.lxor_lor, <- Z.add_nocarry_lxor; [done|..]; apply Z.bits_inj'; intros i Hi; unfold hi, lo;
    change TB_JMP_ADDR_MASK with (Z.ones 6); rewrite !Z.land_spec, Epm, testbit_ones, Z.bits_0 by lia;
    destruct (Z.leb_spec 6 i), (Z.ltb_spec i 6); rewrite ?andb_false_r; (done || lia). }
  rewrite E. change TB_JMP_PAGE_SIZE with 64. lia.
Qed.
(** A block is in the slot of its address. *)
Definition jumps_ok (jc : CPUJumpCache) : Prop := ∀ i pc, jc i = Some pc → in_range 64 pc ∧ i = tb_jmp_cache_hash_func pc.
Lemma clear_page_spec jc a :
  jumps_ok jc → jumps_ok (tb_jmp_cache_clear_page jc a) ∧
  ∀ i pc, tb_jmp_cache_clear_page jc a i = Some pc → page_of pc ≠ a ∧ jc i = Some pc.
Proof.
  intros Hj. unfold tb_jmp_cache_clear_page. split.
  - intros i pc Hi. destruct (_ && _); [done|]. by apply Hj.
  - intros i pc Hi. destruct (_ && _) eqn:E; [done|]. split; [|done]. intros Hp. destruct (Hj i pc Hi) as [Hr ->].
    pose proof (hash_in_page a pc Hr Hp). lia.
Qed.

(** A flush of a page leaves no entry of the page in the modes asked for, and no block of
    the page or of the one before it in the jump cache. *)
Lemma flush_page_spec now addr idxmap c :
  cpu_ok c → jumps_ok (tb_jmp_cache c) → in_range 64 addr →
  ∃ c', tlb_flush_page_by_mmuidx alloc junk junk_full now addr idxmap c = Ok c' ∧ cpu_ok c' ∧ jumps_ok (tb_jmp_cache c') ∧
    (∀ k t', modes c' !! k = Some t' → ∃ t, modes c !! k = Some t ∧
       if Z.testbit idxmap (Z.of_nat k) then flushed t t' (λ q, q = page_of addr) else t' = t) ∧
    (∀ i pc, tb_jmp_cache c' i = Some pc →
       page_of pc ≠ page_of addr ∧ page_of pc ≠ wrap 64 (page_of addr - TARGET_PAGE_SIZE) ∧ tb_jmp_cache c i = Some pc).
Proof.
  intros [Hl Hm Hd Hc] Hj Ha. unfold tlb_flush_page_by_mmuidx, tlb_flush_page_by_mmuidx_async_0. fold (page_of addr).
  destruct (each_mode_spec (tlb_flush_page_locked alloc junk junk_full now (page_of addr))
    (λ t t', mode_ok t' ∧ flushed t t' (λ q, q = page_of addr)) idxmap 0 (modes c)) as (l' & -> & Hl' & Hs); [|lia|].
  { intros k t Hk. apply flush_page_mode; [by eapply Hm|apply page_of_page]. }
  cbn. eexists. split; [done|].
  destruct (clear_page_spec (tb_jmp_cache c) (wrap 64 (page_of addr - TARGET_PAGE_SIZE)) Hj) as [J1 K1].
  destruct (clear_page_spec _ (page_of addr) J1) as [J2 K2]. split; [|split; [done|split]]; cbn.
  - split; cbn; [congruence| |done|].
    + intros k t' Hk. destruct (Hs k t' Hk) as (t & Ht & Hq). destruct (Z.testbit idxmap _); [by destruct Hq|subst; by eapply Hm].
    + intros k t' Hk Hb. destruct (Hs k t' Hk) as (t & Ht & Hq). pose proof (Hc k t Ht Hb) as Hn.
      destruct (Z.testbit idxmap _); [|by subst]. destruct Hq as [_ [_ Hf]]. intros q s Hq Hcq. apply Hf in Hcq as [_ Hcq]; [|done].
      by apply Hn in Hcq.
  - intros k t' Hk. destruct (Hs k t' Hk) as (t & Ht & Hq). exists t. split; [done|]. cbn in Hq.
    destruct (Z.testbit idxmap _); [by destruct Hq|done].
  - intros i pc Hi. apply K2 in Hi as [H1 Hi]. apply K1 in Hi as [H2 Hi]. done.
Qed.

(** A fill marks its mode as dirty and keeps the others. *)
Lemma set_page_cpu mmu_idx a full c c' :
  cpu_ok c → (mmu_idx < NB_MMU_MODES)%nat → tlb_set_page_full M mmu_idx a full c = Ok c' →
  cpu_ok c' ∧ ∃ t t', modes c !! mmu_idx = Some t ∧ set_page_mode M t a full = Ok t' ∧ modes c' = <[mmu_idx := t']> (modes c).
Proof.
  intros [Hl Hm Hd Hc] Hi. destruct (lookup_lt_is_Some_2 (modes c) mmu_idx) as [t Ht]; [lia|]. unfold tlb_set_page_full.
  rewrite (list_lookup_total_correct _ _ _ Ht). destruct (set_page_mode M t a full) as [t'|] eqn:E; [|done]. cbn. intros [= <-].
  split; [|by exists t, t']. destruct (Hm _ _ Ht) as [Wt Ct].
  pose proof (set_page_spec HP M t a full t' Wt E) as (tn & f & _ & W' & C' & _). unfold NB_MMU_MODES in *.
  split; cbn; [by rewrite length_insert| | |].
  - intros k u [(_ & <- & _)|(_ & Hk)]%list_lookup_insert_Some; [split; [done|by apply C']|by eapply Hm].
  - apply lor_range; [lia|done|]. rewrite Z.shiftl_1_l. split; [apply Z.pow_nonneg; lia|apply Z.pow_lt_mono_r; lia].
  - intros k u Hk Hb. rewrite Z.lor_spec, testbit_flag in Hb by lia. apply orb_false_elim in Hb as [Hb Hn].
    rewrite list_lookup_insert_ne in Hk by lia. by eapply Hc.
Qed.
End Modes.
