(* ===== verification/Atomics.v ===== *)
(** The atomic helpers ([accel/tcg/atomic_template.h]), on the word of [n] bytes they
    access; the host is little-endian, so the [_be] variants ([be]) swap bytes.

    A loop around compare-and-exchange is modelled twice: as a machine whose steps
    interleave with the writes of other CPUs, and as a function for a CPU that runs
    alone. *)
From S2P Require Import Prelude Bitops.

(** The operations, by whether they return the old or the new value. *)
Inductive AtomicRmw : Set :=
| RMW_add | RMW_and | RMW_or | RMW_xor | RMW_smin | RMW_umin | RMW_smax | RMW_umax.
Inductive AtomicOp : Set :=
| ATOMIC_fetch (o : AtomicRmw) | ATOMIC_op_fetch (o : AtomicRmw) | ATOMIC_xchg.
#[export] Instance AtomicRmw_eq_dec : EqDecision AtomicRmw.
Proof. solve_decision. Defined.

(** ** The functions *)

Definition BSWAP (be : bool) (n v : Z) : Z := if be then bswap_bytes (Z.to_nat n) v else v.

(** [DATA_TYPE] or [SDATA_TYPE]. *)
Definition signed_rmw (r : AtomicRmw) : bool := match r with RMW_smin | RMW_smax => true | _ => false end.
Definition rmw_fn (n : Z) (r : AtomicRmw) (old val : Z) : Z :=
  match r with
  | RMW_add => wrap (8 * n) (old + val)
  | RMW_and => Z.land old val
  | RMW_or => Z.lor old val
  | RMW_xor => Z.lxor old val
  | RMW_smin => wrap (8 * n) (Z.min (sgn (8 * n) old) (sgn (8 * n) val))
  | RMW_umin => Z.min old val
  | RMW_smax => wrap (8 * n) (Z.max (sgn (8 * n) old) (sgn (8 * n) val))
  | RMW_umax => Z.max old val
  end.
(** [ABI_TYPE] has at least 32 bits: a narrow signed value is extended. *)
Definition abi (n : Z) (signed : bool) (v : Z) : Z :=
  if signed then wrap (8 * Z.max 4 n) (sgn (8 * n) v) else v.

(** The value the word had, and the word after. *)
Definition qatomic_cmpxchg (w cmp new : Z) : Z * Z := (w, if w =? cmp then new else w).

Definition cpu_atomic_cmpxchg (be : bool) (n w cmpv newv : Z) : Z * Z :=
  let '(ret, w') := qatomic_cmpxchg w (BSWAP be n (wrap (8 * n) cmpv)) (BSWAP be n (wrap (8 * n) newv)) in
  (BSWAP be n ret, w').
Definition cpu_atomic_xchg (be : bool) (n w val : Z) : Z * Z :=
  (BSWAP be n w, BSWAP be n (wrap (8 * n) val)).

(** [GEN_ATOMIC_HELPER]: one instruction of the host. *)
Definition atomic_direct (be : bool) (n : Z) (r : AtomicRmw) (new_val : bool) (w val : Z) : Z * Z :=
  let w' := rmw_fn n r w (BSWAP be n (wrap (8 * n) val)) in
  (BSWAP be n (if new_val then w' else w), w').

(** [GEN_ATOMIC_HELPER_FN]: a loop; the old value, the new one, and the word. *)
Fixpoint rmw_loop (fuel : nat) (be : bool) (n : Z) (r : AtomicRmw) (val w ldn : Z) : option (Z * Z * Z) :=
  match fuel with
  | O => None
  | S fuel =>
      let ldo := ldn in
      let old := BSWAP be n ldo in
      let new := rmw_fn n r old val in
      let '(ldn, w) := qatomic_cmpxchg w ldo (BSWAP be n new) in
      if ldo =? ldn then Some (old, new, w) else rmw_loop fuel be n r val w ldn
  end.

(** Which of the two implements an operation. *)
Definition uses_loop (be : bool) (r : AtomicRmw) : bool :=
  match r with RMW_and | RMW_or | RMW_xor => false | RMW_add => be | _ => true end.
Definition cpu_atomic_rmw (be : bool) (n : Z) (r : AtomicRmw) (new_val : bool) (w xval : Z) : option (Z * Z) :=
  if uses_loop be r then
    '(old, new, w') ← rmw_loop 1 be n r (wrap (8 * n) xval) w w;
    Some (abi n (signed_rmw r) (if new_val then new else old), w')
  else Some (atomic_direct be n r new_val w xval).

Definition cpu_atomic_op (be : bool) (n : Z) (o : AtomicOp) (w val : Z) : option (Z * Z) :=
  match o with
  | ATOMIC_fetch r => cpu_atomic_rmw be n r false w val
  | ATOMIC_op_fetch r => cpu_atomic_rmw be n r true w val
  | ATOMIC_xchg => Some (cpu_atomic_xchg be n w val)
  end.

(** ** In the order of the guest *)

Section Word.
Context (n : Z) (Hn : 0 < n).

Lemma BSWAP_range be v : in_range (8 * n) v → in_range (8 * n) (BSWAP be n v).
Proof.
  destruct be; [|done]. intros _. cbn. replace (8 * n) with (8 * Z.of_nat (Z.to_nat n)) by lia. apply bswap_range.
Qed.
Lemma BSWAP_involutive be v : in_range (8 * n) v → BSWAP be n (BSWAP be n v) = v.
Proof.
  destruct be; [|done]. intros Hv. apply bswap_involutive. by replace (8 * Z.of_nat (Z.to_nat n)) with (8 * n) by lia.
Qed.
Lemma BSWAP_inj be u v : in_range (8 * n) u → in_range (8 * n) v → BSWAP be n u = BSWAP be n v → u = v.
Proof. intros Hu Hv E. by rewrite <- (BSWAP_involutive be u), E, BSWAP_involutive. Qed.

(** Bitwise operations do not mind the order of the bytes; the others use a loop. *)
Definition bitwise (f : bool → bool → bool) (op : Z → Z → Z) : Prop :=
  f false false = false ∧ ∀ a b i, Z.testbit (op a b) i = f (Z.testbit a i) (Z.testbit b i).
Lemma bswap_bitwise f op m u v : bitwise f op → bswap_bytes m (op u v) = op (bswap_bytes m u) (bswap_bytes m v).
Proof.
  intros [H0 Hf]. apply Z.bits_inj'. intros i Hi. rewrite Hf, !testbit_bswap by lia.
  destruct (i <? 8 * Z.of_nat m); cbn [andb]; [apply Hf|done].
Qed.
Lemma direct_bitwise be r :
  uses_loop be r = false → be = true → ∃ f, bitwise f (rmw_fn n r).
Proof.
  intros H ->. destruct r; try done.
  - exists andb. split; [done|]. apply Z.land_spec.
  - exists orb. split; [done|]. apply Z.lor_spec.
  - exists xorb. split; [done|]. apply Z.lxor_spec.
Qed.

Lemma rmw_fn_range r u v :
  in_range (8 * n) u → in_range (8 * n) v → in_range (8 * n) (rmw_fn n r u v).
Proof.
  intros Hu Hv. destruct r; cbn; try (apply wrap_range; lia); try (auto with range; fail); unfold in_range in *; lia.
Qed.

(** The word after the operation and the value it returns, in guest order. *)
Theorem rmw_spec be r new_val w xval :
  in_range (8 * n) w →
  let old := BSWAP be n w in let new := rmw_fn n r old (wrap (8 * n) xval) in
  cpu_atomic_rmw be n r new_val w xval =
    Some (abi n (signed_rmw r) (if new_val then new else old), BSWAP be n new).
Proof.
  intros Hw old new. assert (Hv : in_range (8 * n) (wrap (8 * n) xval)) by (apply wrap_range; lia).
  unfold cpu_atomic_rmw. destruct (uses_loop be r) eqn:E.
  - unfold rmw_loop, qatomic_cmpxchg. rewrite !Z.eqb_refl. reflexivity.
  - unfold atomic_direct. replace (signed_rmw r) with false by (by destruct r). cbn [abi].
    assert (Hc : rmw_fn n r w (BSWAP be n (wrap (8 * n) xval)) = BSWAP be n new).
    { destruct be; [|done]. destruct (direct_bitwise true r E eq_refl) as [f Hf]. unfold new, old. cbn.
      rewrite (bswap_bitwise f (rmw_fn n r)) by done. f_equal. symmetry. by apply (BSWAP_involutive true). }
    rewrite Hc. do 2 f_equal. destruct new_val; [|done].
    apply BSWAP_involutive, rmw_fn_range; [by apply BSWAP_range|done].
Qed.
Lemma cmpxchg_spec be w cmpv newv :
  in_range (8 * n) w →
  let old := BSWAP be n w in
  cpu_atomic_cmpxchg be n w cmpv newv =
    (old, BSWAP be n (if old =? wrap (8 * n) cmpv then wrap (8 * n) newv else old)).
Proof.
  intros Hw old. unfold cpu_atomic_cmpxchg, qatomic_cmpxchg. f_equal.
  assert (Hc : in_range (8 * n) (wrap (8 * n) cmpv)) by (apply wrap_range; lia).
  destruct (Z.eqb_spec w (BSWAP be n (wrap (8 * n) cmpv))) as [E|E].
  - unfold old. rewrite E, BSWAP_involutive, Z.eqb_refl by done. done.
  - destruct (Z.eqb_spec old (wrap (8 * n) cmpv)) as [E'|_].
    + exfalso. apply E. rewrite <- E'. unfold old. by rewrite BSWAP_involutive.
    + unfold old. by rewrite BSWAP_involutive.
Qed.
End Word.

(** ** With other CPUs *)

Inductive rmw_pc : Set :=
| Read
| Attempt (ldn : Z)
| Return (old new : Z).

(** What a step did to the word: our read, our attempt that failed or succeeded, a
    write by another CPU. *)
Inductive rmw_event : Set :=
| Tau
| Lost
| Own (before after : Z)
| Other (before after : Z).

Section Loop.
Context (be : bool) (n : Z) (r : AtomicRmw) (val : Z).

Inductive rmw_step : Z * rmw_pc → rmw_event → Z * rmw_pc → Prop :=
| step_read w : rmw_step (w, Read) Tau (w, Attempt w)
| step_attempt w ldo ldn w' :
    let old := BSWAP be n ldo in
    let new := rmw_fn n r old val in
    qatomic_cmpxchg w ldo (BSWAP be n new) = (ldn, w') →
    rmw_step (w, Attempt ldo) (if ldo =? ldn then Own w w' else Lost)
      (w', if ldo =? ldn then Return old new else Attempt ldn)
| step_other w w' p : rmw_step (w, p) (Other w w') (w', p).

Inductive rmw_run : Z * rmw_pc → list rmw_event → Z * rmw_pc → Prop :=
| run_nil c : rmw_run c [] c
| run_snoc c l c' e c'' : rmw_run c l c' → rmw_step c' e c'' → rmw_run c (l ++ [e]) c''.

Definition is_own (e : rmw_event) : bool := match e with Own _ _ => true | _ => false end.
Definition is_lost (e : rmw_event) : bool := match e with Lost => true | _ => false end.
Definition is_other (e : rmw_event) : bool := match e with Other _ _ => true | _ => false end.
Definition count (p : rmw_event → bool) (l : list rmw_event) : nat := length (List.filter p l).
Lemma count_snoc p l e : count p (l ++ [e]) = (count p l + if p e then 1 else 0)%nat.
Proof.
  unfold count. rewrite List.filter_app, length_app. cbn. by destruct (p e).
Qed.

(** The one write of a finished loop takes the value it found to the new one. *)
Definition wrote_once (old new : Z) (l : list rmw_event) : Prop :=
  ∃ l1 w l2, l = l1 ++ Own w (BSWAP be n new) :: l2 ∧ count is_own l1 = 0%nat ∧ count is_own l2 = 0%nat ∧
    old = BSWAP be n w ∧ new = rmw_fn n r old val.
Lemma wrote_once_snoc old new l e : is_own e = false → wrote_once old new l → wrote_once old new (l ++ [e]).
Proof.
  intros He (l1 & w & l2 & -> & H1 & H2 & H3). exists l1, w, (l2 ++ [e]). split; [by rewrite <- app_assoc|].
  rewrite count_snoc, He, H2. done.
Qed.

(** The value the last attempt expects is the one it found, unless another CPU wrote
    since; so an attempt is lost to a write only. *)
Definition rmw_inv (l : list rmw_event) (c : Z * rmw_pc) : Prop :=
  match c with
  | (w, Read) => count is_own l = 0%nat ∧ count is_lost l = 0%nat
  | (w, Attempt ldn) => count is_own l = 0%nat ∧ (count is_lost l + (if (w =? ldn)%Z then 0 else 1) ≤ count is_other l)%nat
  | (w, Return old new) => wrote_once old new l ∧ (count is_lost l ≤ count is_other l)%nat
  end.
Lemma rmw_invariant w0 l c : rmw_run (w0, Read) l c → rmw_inv l c.
Proof.
  remember (w0, Read) as c0. induction 1 as [c|c l c' e c'' _ IH Hs]; subst; [done|]. specialize (IH eq_refl).
  destruct Hs as [w|w ldo ldn w' old new E|w w' p]; cbn in IH |- *.
  - rewrite !count_snoc, Z.eqb_refl. cbn. lia.
  - unfold qatomic_cmpxchg in E. injection E as <- <-. rewrite (Z.eqb_sym ldo w). destruct (Z.eqb_spec w ldo) as [->|].
    + split; [|rewrite !count_snoc; cbn; lia]. exists l, ldo, []. split; [done|]. by destruct IH as [-> _].
    + rewrite !count_snoc, Z.eqb_refl. cbn. lia.
  - destruct p as [|ldn|old new]; rewrite ?count_snoc; cbn.
    + lia.
    + destruct (w' =? ldn); lia.
    + split; [|lia]. apply wrote_once_snoc; [done|]. apply IH.
Qed.

(** Alone, the second step returns. *)
Lemma rmw_alone w :
  ∃ old new, rmw_run (w, Read) [Tau; Own w (BSWAP be n new)] (BSWAP be n new, Return old new).
Proof.
  eexists _, _. apply (run_snoc _ [Tau] (w, Attempt w)); [apply (run_snoc _ [] (w, Read)); constructor|].
  pose proof (step_attempt w w w (BSWAP be n (rmw_fn n r (BSWAP be n w) val))) as H. cbv zeta in H.
  rewrite Z.eqb_refl in H. apply H. unfold qatomic_cmpxchg. by rewrite Z.eqb_refl.
Qed.
End Loop.
