(* ===== verification/Temps.v ===== *)
(** The translation context: temporaries, constants and the stream of emitted
    operations ([tcg/tcg.c], [include/tcg/tcg.h]).

    SymQEMU allocates, next to every temporary, a second one that holds the
    pointer to its symbolic expression.  [TCGContext] keeps the fields of the
    C structure that the code generator reads and writes; the generator runs
    in the monad [Gen], whose failures are the overflow of the temporary array
    ([tcg_raise_tb_overflow], upon which translation restarts with a shorter
    block) and a failed assertion.

    [ctx_wf] is the invariant of the context; every operation preserves it. *)
From S2P Require Import Prelude Lanes Cond Bitops Backend VecOps SymHelpers SymMemory SymVec Ops Atomics.

(** ** Types and temporaries *)

Inductive TCGType : Set :=
| TCG_TYPE_I32 | TCG_TYPE_I64 | TCG_TYPE_I128 | TCG_TYPE_V64 | TCG_TYPE_V128 | TCG_TYPE_V256.

Definition TCG_TYPE_REG : TCGType := TCG_TYPE_I64.
Definition TCG_TYPE_PTR : TCGType := TCG_TYPE_I64.

Inductive TCGTempKind : Set := TEMP_EBB | TEMP_TB | TEMP_GLOBAL | TEMP_FIXED | TEMP_CONST.

#[export] Instance TCGType_eq_dec : EqDecision TCGType.
Proof. solve_decision. Defined.
#[export] Instance TCGTempKind_eq_dec : EqDecision TCGTempKind.
Proof. solve_decision. Defined.

Definition type_code (t : TCGType) : nat :=
  match t with
  | TCG_TYPE_I32 => 0 | TCG_TYPE_I64 => 1 | TCG_TYPE_I128 => 2
  | TCG_TYPE_V64 => 3 | TCG_TYPE_V128 => 4 | TCG_TYPE_V256 => 5
  end.
#[export] Instance TCGType_countable : Countable TCGType.
Proof.
  apply (inj_countable' type_code (λ n, match n with
    | 0 => TCG_TYPE_I32 | 1 => TCG_TYPE_I64 | 2 => TCG_TYPE_I128
    | 3 => TCG_TYPE_V64 | 4 => TCG_TYPE_V128 | _ => TCG_TYPE_V256 end)%nat).
  by intros [].
Defined.

(** The types of variables: those of scalars, and of vectors. *)
Inductive VarType : Set := Reg (t : RegType) | V64 | V128 | V256.
#[global] Coercion Reg : RegType >-> VarType.
#[export] Instance var_type_eq : EqDecision VarType.
Proof. solve_decision. Defined.

Definition type_of (t : VarType) : TCGType :=
  match t with
  | Reg I32 => TCG_TYPE_I32 | Reg I64 => TCG_TYPE_I64
  | V64 => TCG_TYPE_V64 | V128 => TCG_TYPE_V128 | V256 => TCG_TYPE_V256
  end.
Lemma type_of_inj t t' : type_of t = type_of t' → t = t'.
Proof. by destruct t as [[]| | |], t' as [[]| | |]. Qed.
Definition var_width (t : VarType) : Z :=
  match t with Reg t => ty_width t | V64 => 64 | V128 => 128 | V256 => 256 end.

Record TCGTemp := mkTemp {
  base_type : TCGType;
  type : TCGType;
  kind : TCGTempKind;
  indirect_reg : bool;
  indirect_base : bool;
  mem_allocated : bool;
  temp_allocated : bool;
  temp_subindex : nat;
  temp_subindex_len : nat;
  symbolic_expression : bool;
  val : Z;
  mem_base : option nat;
  mem_offset : Z;
  sym_offset : Z;
}.

(** [memset(ts, 0, sizeof(TCGTemp))] *)
Definition zero_temp : TCGTemp :=
  mkTemp TCG_TYPE_I32 TCG_TYPE_I32 TEMP_EBB false false false false 0 0 false 0 None 0 0.

Definition TCG_MAX_TEMPS : nat := 512.

(** ** Operations *)

(** The run-time functions the generators call, by name. *)
Inductive Helper : Set :=
| HELPER_sym_binary (h : SymBinary) (t : RegType)
| HELPER_sym_neg | HELPER_sym_not | HELPER_sym_muluh_i64
| HELPER_sym_sext | HELPER_sym_zext
| HELPER_sym_sext_i32_i64 | HELPER_sym_zext_i32_i64 | HELPER_sym_trunc_i64_i32
| HELPER_sym_bswap
| HELPER_sym_extract (t : RegType) | HELPER_sym_sextract (t : RegType)
| HELPER_sym_deposit (t : RegType) | HELPER_sym_extract2 (t : RegType)
| HELPER_sym_setcond (t : RegType) | HELPER_sym_movcond (t : RegType)
| HELPER_sym_load_host (t : RegType) | HELPER_sym_store_host
| HELPER_sym_load_guest (t : RegType) | HELPER_sym_store_guest (t : RegType)
| HELPER_sym_notify_call | HELPER_sym_notify_return | HELPER_sym_notify_block
| HELPER_sym_collect_garbage
| HELPER_div (t : RegType) | HELPER_rem (t : RegType)
| HELPER_divu (t : RegType) | HELPER_remu (t : RegType)
| HELPER_muluh_i64 | HELPER_mulsh_i64
| HELPER_clz (t : RegType) | HELPER_ctz (t : RegType)
| HELPER_clrsb (t : RegType) | HELPER_ctpop (t : RegType)
| HELPER_lookup_tb_ptr | HELPER_exit_atomic
| HELPER_atomic_cmpxchg (mop : Z) | HELPER_atomic_op (o : AtomicOp) (mop : Z)
| HELPER_malloc | HELPER_free
| HELPER_sym_vec (op : SymVecOp) | HELPER_sym_vec_int32 (op : SymVecOp)
| HELPER_sym_cmp_vec | HELPER_sym_ternary_vec
| HELPER_sym_duplicate_value_into_vec | HELPER_sym_load_and_duplicate_into_vec | HELPER_sym_load_host_vec.

(** An argument of an operation: a temporary, or a constant (a condition, a
    bit position, an offset, a label). *)
Inductive TCGArg : Set :=
| temp_arg (t : nat)
| const_arg (z : Z).

(** Loads and stores of host memory. *)
Inductive LdStOpcode : Set :=
| INDEX_op_ld8u (t : RegType) | INDEX_op_ld8s (t : RegType)
| INDEX_op_ld16u (t : RegType) | INDEX_op_ld16s (t : RegType)
| INDEX_op_ld32u_i64 | INDEX_op_ld32s_i64 | INDEX_op_ld (t : RegType)
| INDEX_op_st8 (t : RegType) | INDEX_op_st16 (t : RegType)
| INDEX_op_st32_i64 | INDEX_op_st (t : RegType).

Inductive TCGOp : Set :=
| Op (opc : TCGOpcode) (args : list TCGArg)
| OpLdSt (opc : LdStOpcode) (val base : nat) (offset : Z)
(** [qemu_ld], [qemu_st] with an address of type [a] and a value of type [t], and
    [qemu_st8]. *)
| OpGuestLd (a t : RegType) (val addr : nat) (oi : Z)
| OpGuestSt (st8 : bool) (a t : RegType) (val addr : nat) (oi : Z)
| OpCall (func : Helper) (ret : option nat) (args : list nat)
(** [TCGOP_VECL] is the type, [TCGOP_VECE] the size of an element. *)
| OpVec (opc : VecOpcode) (t : TCGType) (vece : Z) (args : list TCGArg)
| OpBrcond (t : RegType) (arg1 arg2 : nat) (cond : TCGCond) (l : nat)
| OpBr (l : nat)
| OpSetLabel (l : nat)
| OpMb (mb_type : Z)
| OpDiscard (t : nat)
| OpInsnStart (params : list Z)
| OpExitTb (v : Z)
| OpGotoTb (idx : Z)
| OpGotoPtr (ptr : nat).

(** ** The context and its monad *)

Record TCGContext := mkContext {
  nb_globals : nat;
  (** [s->temps[0 .. nb_temps-1]] *)
  temps : list TCGTemp;
  (** The bitmaps of free temporaries, by type. *)
  free_temps : TCGType → nat → bool;
  const_table : gmap (TCGType * Z) nat;
  ops : list TCGOp;
  nb_labels : nat;
}.

Inductive GRes (A : Type) : Type :=
| GOk (a : A) (s : TCGContext)
| GOverflow
| GAssert.
Arguments GOk {A} a s.
Arguments GOverflow {A}.
Arguments GAssert {A}.

Definition Gen (A : Type) : Type := TCGContext → GRes A.

#[export] Instance gen_ret : MRet Gen := λ A a s, GOk a s.
#[export] Instance gen_bind : MBind Gen := λ A B k m s,
  match m s with GOk a s => k a s | GOverflow => GOverflow | GAssert => GAssert end.

Definition tcg_debug_assert (b : bool) : Gen unit := λ s, if b then GOk tt s else GAssert.
Definition g_assert_not_reached {A} : Gen A := λ _, GAssert.

Definition get_temp (n : nat) : Gen TCGTemp := λ s,
  match temps s !! n with Some ts => GOk ts s | None => GAssert end.
Definition with_temps (f : list TCGTemp → list TCGTemp) (s : TCGContext) : TCGContext :=
  mkContext (nb_globals s) (f (temps s)) (free_temps s) (const_table s) (ops s) (nb_labels s).
(** Assignments to fields of [s->temps[n]]. *)
Definition set_temp (n : nat) (f : TCGTemp → TCGTemp) : Gen unit := λ s,
  match temps s !! n with
  | Some ts => GOk tt (with_temps (λ l, <[n := f ts]> l) s)
  | None => GAssert
  end.
Definition set_free (t : TCGType) (n : nat) (b : bool) : Gen unit := λ s,
  GOk tt (mkContext (nb_globals s) (temps s)
            (λ t' n', if bool_decide (t' = t) && (n' =? n)%nat then b else free_temps s t' n')
            (const_table s) (ops s) (nb_labels s)).
Definition set_const (t : TCGType) (v : Z) (n : nat) : Gen unit := λ s,
  GOk tt (mkContext (nb_globals s) (temps s) (free_temps s) (<[(t, v) := n]> (const_table s))
            (ops s) (nb_labels s)).

(** [tcg_emit_op], with the arguments filled in. *)
Definition tcg_emit_op (o : TCGOp) : Gen unit := λ s,
  GOk tt (mkContext (nb_globals s) (temps s) (free_temps s) (const_table s) (ops s ++ [o])
            (nb_labels s)).

Definition gen_new_label : Gen nat := λ s,
  GOk (nb_labels s) (mkContext (nb_globals s) (temps s) (free_temps s) (const_table s) (ops s)
                       (S (nb_labels s))).

(** [find_first_bit(bits, size)] *)
Definition find_first_bit (bits : nat → bool) (size : nat) : nat :=
  default size (List.find bits (seq 0 size)).

(** ** Allocation *)

Definition tcg_temp_alloc : Gen nat := λ s,
  let n := length (temps s) in
  if (TCG_MAX_TEMPS <=? n)%nat then GOverflow
  else GOk n (with_temps (λ l, l ++ [zero_temp]) s).

(** Statements for [i = 1 .. n - 1]. *)
Definition for_from_1 (n : nat) (body : nat → Gen unit) : Gen unit :=
  foldr (λ i k, body i;; k) (mret tt) (seq 1 (n - 1)).

(** The fields a freshly zeroed temporary is given: part [i] of [n] of a
    value, and part [i] of its expression. *)
Definition value_temp (ty ty' : TCGType) (k : TCGTempKind) (n i : nat) : TCGTemp :=
  mkTemp ty ty' k false false false true i (n - 1) false 0 None 0 0.
Definition expr_temp (k : TCGTempKind) (i : nat) : TCGTemp :=
  mkTemp TCG_TYPE_PTR TCG_TYPE_PTR k false false false true i 0 true 0 None 0 0.

Definition set_allocated (b : bool) (ts : TCGTemp) : TCGTemp :=
  mkTemp (base_type ts) (type ts) (kind ts) (indirect_reg ts) (indirect_base ts)
    (mem_allocated ts) b (temp_subindex ts) (temp_subindex_len ts) (symbolic_expression ts)
    (val ts) (mem_base ts) (mem_offset ts) (sym_offset ts).
Definition set_symbolic (b : bool) (ts : TCGTemp) : TCGTemp :=
  mkTemp (base_type ts) (type ts) (kind ts) (indirect_reg ts) (indirect_base ts)
    (mem_allocated ts) (temp_allocated ts) (temp_subindex ts) (temp_subindex_len ts) b
    (val ts) (mem_base ts) (mem_offset ts) (sym_offset ts).

(** The part of [tcg_temp_new_internal] after the search for a free
    temporary. *)
Definition temp_new_fresh (ty : TCGType) (k : TCGTempKind) : Gen nat :=
  let n := match ty with
           | TCG_TYPE_I32 | TCG_TYPE_V64 | TCG_TYPE_V128 | TCG_TYPE_V256 => 1%nat
           | TCG_TYPE_I64 => (64 / 64)%nat
           | TCG_TYPE_I128 => (128 / 64)%nat
           end in
  ts ← tcg_temp_alloc;
  tcg_debug_assert (n - 1 <=? 1)%nat;;
  set_temp ts (λ _, value_temp ty (if (n =? 1)%nat then ty else TCG_TYPE_REG) k n 0);;
  for_from_1 n (λ i,
    ts2 ← tcg_temp_alloc;
    tcg_debug_assert (ts2 =? ts + i)%nat;;
    set_temp ts2 (λ _, value_temp ty TCG_TYPE_REG k n i));;
  ts_expr ← tcg_temp_alloc;
  set_temp ts_expr (λ _, expr_temp k 0);;
  for_from_1 n (λ i,
    ts2_expr ← tcg_temp_alloc;
    tcg_debug_assert (ts2_expr =? ts_expr + i)%nat;;
    tcg_debug_assert (ts2_expr =? ts + n + i)%nat;;
    set_temp ts2_expr (λ _, expr_temp k i));;
  mret ts.

Definition tcg_temp_new_internal (ty : TCGType) (k : TCGTempKind) : Gen nat := λ s,
  if bool_decide (k = TEMP_EBB) then
    let idx := find_first_bit (free_temps s ty) TCG_MAX_TEMPS in
    if (idx <? TCG_MAX_TEMPS)%nat then
      (set_free ty idx false;;
       set_temp idx (set_allocated true);;
       ts ← get_temp idx;
       tcg_debug_assert (bool_decide (base_type ts = ty));;
       tcg_debug_assert (bool_decide (kind ts = k));;
       set_temp (idx + 1) (λ te, set_symbolic true (set_allocated true te));;
       te ← get_temp (idx + 1);
       tcg_debug_assert (bool_decide (base_type te = TCG_TYPE_PTR));;
       tcg_debug_assert (bool_decide (kind te = k));;
       mret idx) s
    else temp_new_fresh ty k s
  else (tcg_debug_assert (bool_decide (k = TEMP_TB));; temp_new_fresh ty k) s.

Definition tcg_temp_new (t : RegType) : Gen nat := tcg_temp_new_internal (type_of t) TEMP_TB.
Definition tcg_temp_ebb_new (t : RegType) : Gen nat := tcg_temp_new_internal (type_of t) TEMP_EBB.

(** [temp_expr] and the accessors [tcgv_*_expr], [tcgv_*_expr_num]. *)
Definition temp_expr (n : nat) : Gen nat :=
  ts ← get_temp n;
  let temp_sz := temp_subindex_len ts in
  tcg_debug_assert (negb (symbolic_expression ts));;
  te ← get_temp (n + temp_sz + 1);
  tcg_debug_assert (symbolic_expression te);;
  mret (n + temp_sz + 1)%nat.

Definition tcg_temp_free_internal (n : nat) : Gen unit :=
  ts_expr ← temp_expr n;
  ts ← get_temp n;
  match kind ts with
  | TEMP_CONST | TEMP_TB => mret tt
  | TEMP_EBB =>
      tcg_debug_assert (temp_allocated ts);;
      set_temp n (set_allocated false);;
      te ← get_temp ts_expr;
      tcg_debug_assert (temp_allocated te);;
      set_temp ts_expr (set_allocated false);;
      set_free (base_type ts) n true
  | _ => g_assert_not_reached
  end.

Definition const_temp (ty : TCGType) (v : Z) : TCGTemp :=
  mkTemp ty ty TEMP_CONST false false false true 0 0 false v None 0 0.
Definition const_expr_temp : TCGTemp :=
  mkTemp TCG_TYPE_PTR TCG_TYPE_PTR TEMP_CONST false false false true 0 0 true 0 None 0 0.

(** [v] is the [int64_t] value. *)
Definition tcg_constant_internal (ty : TCGType) (v : Z) : Gen nat := λ s,
  match const_table s !! (ty, v) with
  | Some ts => GOk ts s
  | None =>
      (ts ← tcg_temp_alloc;
       set_temp ts (λ _, const_temp ty v);;
       set_const ty v ts;;
       ts_expr ← tcg_temp_alloc;
       set_temp ts_expr (λ _, const_expr_temp);;
       mret ts) s
  end.

(** [tcg_constant_i32] takes an [int32_t], [tcg_constant_i64] an [int64_t]. *)
Definition tcg_constant (t : RegType) (v : Z) : Gen nat :=
  tcg_constant_internal (type_of t) (sgn (ty_width t) v).
Definition tcg_constant_i32 : Z → Gen nat := tcg_constant I32.
Definition tcg_constant_i64 : Z → Gen nat := tcg_constant I64.

(** ** Globals *)

Definition set_kind_global (ts : TCGTemp) : TCGTemp :=
  mkTemp (base_type ts) (type ts) TEMP_GLOBAL (indirect_reg ts) (indirect_base ts)
    (mem_allocated ts) (temp_allocated ts) (temp_subindex ts) (temp_subindex_len ts)
    (symbolic_expression ts) (val ts) (mem_base ts) (mem_offset ts) (sym_offset ts).

Definition tcg_global_alloc : Gen nat := λ s,
  (tcg_debug_assert (nb_globals s =? length (temps s))%nat;;
   tcg_debug_assert (nb_globals s <? TCG_MAX_TEMPS)%nat;;
   (λ s, GOk tt (mkContext (S (nb_globals s)) (temps s) (free_temps s) (const_table s) (ops s)
                   (nb_labels s)));;
   ts ← tcg_temp_alloc;
   set_temp ts set_kind_global;;
   mret ts) s.

Definition tcg_global_reg_new_internal (ty : TCGType) (sym_ofs : Z) : Gen nat :=
  ts ← tcg_global_alloc;
  set_temp ts (λ _, mkTemp ty ty TEMP_FIXED false false false false 0 0 false 0 None 0 sym_ofs);;
  ts_expr ← tcg_global_alloc;
  set_temp ts_expr (λ _, mkTemp TCG_TYPE_PTR TCG_TYPE_PTR TEMP_GLOBAL false false true false 0 0
                           true 0 (Some ts) sym_ofs 0);;
  mret ts.

Definition set_indirect_base (ts : TCGTemp) : TCGTemp :=
  mkTemp (base_type ts) (type ts) (kind ts) (indirect_reg ts) true
    (mem_allocated ts) (temp_allocated ts) (temp_subindex ts) (temp_subindex_len ts)
    (symbolic_expression ts) (val ts) (mem_base ts) (mem_offset ts) (sym_offset ts).

Definition tcg_global_mem_new_internal (base : nat) (offset : Z) (ty : TCGType) : Gen nat := λ s,
  let expr_idx := Z.of_nat (nb_globals s / 2) in
  (base_ts ← get_temp base;
   ts ← tcg_global_alloc;
   ts_expr ← tcg_global_alloc;
   (λ s, tcg_debug_assert (Nat.even (nb_globals s)) s);;
   indirect ← match kind base_ts with
              | TEMP_FIXED => mret false
              | TEMP_GLOBAL =>
                  tcg_debug_assert (negb (indirect_reg base_ts));;
                  set_temp base set_indirect_base;;
                  mret true
              | _ => g_assert_not_reached
              end;
   set_temp ts (λ _, mkTemp ty ty TEMP_GLOBAL indirect false true false 0 0 false 0
                       (Some base) offset 0);;
   set_temp ts_expr (λ _, mkTemp TCG_TYPE_PTR TCG_TYPE_PTR TEMP_GLOBAL indirect false true false
                            0 0 true 0 (Some base) (sym_offset base_ts + expr_idx * 8) 0);;
   mret ts) s.

(** ** Start of a block *)

Definition tcg_func_start (s : TCGContext) : TCGContext :=
  mkContext (nb_globals s) (take (nb_globals s) (temps s)) (λ _ _, false) ∅ [] 0.

(** ** What the operations do *)

Lemma insert_snoc {A} (l : list A) x y : <[length l := y]> (l ++ [x]) = l ++ [y].
Proof. replace (length l) with (length l + 0)%nat by lia. by rewrite insert_app_r. Qed.

Lemma lookup_snoc {A} (l : list A) x : (l ++ [x]) !! length l = Some x.
Proof. by rewrite lookup_app_r, Nat.sub_diag by lia. Qed.

Ltac ctx_simpl := cbn [temps nb_globals free_temps const_table ops nb_labels].

(** Allocating two adjacent temporaries and giving them their fields. *)
Lemma alloc_pair (ts te : TCGTemp) (k : nat → Gen nat) s :
  (n ← tcg_temp_alloc;
   set_temp n (λ _, ts);;
   m ← tcg_temp_alloc;
   set_temp m (λ _, te);;
   k n) s
  = if (S TCG_MAX_TEMPS <=? S (S (length (temps s))))%nat then GOverflow
    else k (length (temps s)) (with_temps (λ l, l ++ [ts; te]) s).
Proof.
  destruct s as [g l f c o nl]. unfold mbind, gen_bind, tcg_temp_alloc, set_temp, with_temps.
  ctx_simpl. destruct (Nat.leb_spec TCG_MAX_TEMPS (length l)).
  { replace (_ <=? _)%nat with true; [done|]. symmetry. apply Nat.leb_le. lia. }
  ctx_simpl. rewrite lookup_snoc. ctx_simpl. rewrite insert_snoc, length_app. cbn [length].
  replace (length l + 1)%nat with (S (length l)) by lia.
  destruct (Nat.leb_spec TCG_MAX_TEMPS (S (length l))).
  { replace (_ <=? _)%nat with true; [done|]. symmetry. apply Nat.leb_le. lia. }
  replace (S TCG_MAX_TEMPS <=? S (S (length l)))%nat with false
    by (symmetry; apply Nat.leb_gt; lia).
  ctx_simpl. replace (S (length l)) with (length (l ++ [ts])) by (rewrite length_app; cbn; lia).
  rewrite lookup_snoc. ctx_simpl. rewrite insert_snoc. by rewrite <- app_assoc.
Qed.

Lemma temp_new_fresh_eq t k s :
  temp_new_fresh (type_of t) k s
  = if (S TCG_MAX_TEMPS <=? S (S (length (temps s))))%nat then GOverflow
    else GOk (length (temps s))
           (with_temps (λ l, l ++ [value_temp (type_of t) (type_of t) k 1 0; expr_temp k 0]) s).
Proof.
  transitivity ((n ← tcg_temp_alloc;
    set_temp n (λ _, value_temp (type_of t) (type_of t) k 1 0);;
    m ← tcg_temp_alloc; set_temp m (λ _, expr_temp k 0);; mret n) s).
  - unfold temp_new_fresh, for_from_1, mbind, gen_bind, tcg_debug_assert.
    destruct t as [[]| | |]; cbn [type_of foldr seq Nat.sub Nat.eqb Nat.leb Nat.div Nat.divmod fst mret gen_ret];
      destruct (tcg_temp_alloc s) as [n s1| |]; try done;
      destruct (set_temp n _ s1) as [? s2| |]; try done;
      destruct (tcg_temp_alloc s2) as [m s3| |]; try done;
      by destruct (set_temp m _ s3).
  - apply alloc_pair.
Qed.

(** [s'] differs from [s] only in the emitted operations and in which
    temporaries are in use; temporaries may have been added. *)
Definition same_static (ts ts' : TCGTemp) : Prop := ts' = set_allocated (temp_allocated ts') ts.

Definition static_ext (l l' : list TCGTemp) : Prop :=
  ∀ n ts, l !! n = Some ts → ∃ ts', l' !! n = Some ts' ∧ same_static ts ts'.

Lemma same_static_refl ts : same_static ts ts.
Proof. by destruct ts. Qed.
Lemma same_static_trans a b c : same_static a b → same_static b c → same_static a c.
Proof. unfold same_static. intros -> ->. by destruct a. Qed.

Lemma same_static_fields ts ts' : same_static ts ts' → kind ts' = kind ts ∧ val ts' = val ts ∧ base_type ts' = base_type ts.
Proof. unfold same_static. intros H. by rewrite H. Qed.

#[export] Instance static_ext_preorder : PreOrder static_ext.
Proof.
  split.
  - intros l n ts H. eauto using same_static_refl.
  - intros l1 l2 l3 H12 H23 n ts H. destruct (H12 n ts H) as (ts2 & H2 & S2).
    destruct (H23 n ts2 H2) as (ts3 & H3 & S3). eauto using same_static_trans.
Qed.

(** A value temporary, and the expression temporary next to it. *)
Definition is_value (t : VarType) (k : TCGTempKind) (ts : TCGTemp) : Prop :=
  base_type ts = type_of t ∧ type ts = type_of t ∧ kind ts = k ∧
  temp_subindex_len ts = 0%nat ∧ symbolic_expression ts = false.
Definition is_expr (k : TCGTempKind) (te : TCGTemp) : Prop :=
  base_type te = TCG_TYPE_PTR ∧ type te = TCG_TYPE_PTR ∧ kind te = k ∧
  symbolic_expression te = true.

Definition pair_at (l : list TCGTemp) (n : nat) (t : VarType) (k : TCGTempKind) (b : bool) : Prop :=
  ∃ ts te, l !! n = Some ts ∧ l !! S n = Some te ∧ is_value t k ts ∧ is_expr k te ∧
    temp_allocated ts = b ∧ temp_allocated te = b.

Record ctx_wf (s : TCGContext) : Prop := {
  wf_max : (length (temps s) ≤ TCG_MAX_TEMPS)%nat;
  (** A free temporary of a register type is a pair that is not in use. *)
  wf_free t n : free_temps s (type_of t) n = true → pair_at (temps s) n t TEMP_EBB false;
  (** A constant in the table is a pair with the constant's value and NULL. *)
  wf_const t v n : const_table s !! (type_of t, v) = Some n →
    temps s !! n = Some (const_temp (type_of t) v) ∧ temps s !! S n = Some const_expr_temp;
}.

(** ** The invariant is preserved *)

(** A value temporary is never an expression temporary, so two pairs are equal
    or disjoint. *)
Lemma pair_disjoint l n m t t' k k' b b' :
  pair_at l n t k b → pair_at l m t' k' b' → n ≠ m → n ≠ S m ∧ m ≠ S n.
Proof.
  intros (ts & te & H1 & H2 & Hv & He & _) (ts' & te' & H1' & H2' & Hv' & He' & _) Hne.
  unfold is_value, is_expr in *.
  split; intros ->; simplify_eq; destruct_and?; congruence.
Qed.

(** Mark the pair at [n] as (not) in use. *)
Definition mark (n : nat) (b : bool) (l : list TCGTemp) : list TCGTemp :=
  alter (set_allocated b) (S n) (alter (set_allocated b) n l).

Lemma mark_lookup n b l m :
  mark n b l !! m = (if (m =? n)%nat || (m =? S n)%nat then set_allocated b else id) <$> l !! m.
Proof.
  unfold mark. destruct (Nat.eqb_spec m n) as [->|]; cbn.
  { rewrite list_lookup_alter_ne by lia. by rewrite list_lookup_alter_eq. }
  destruct (Nat.eqb_spec m (S n)) as [->|]; cbn.
  { rewrite list_lookup_alter_eq. by rewrite list_lookup_alter_ne by lia. }
  rewrite !list_lookup_alter_ne by lia. by destruct (l !! m).
Qed.

Lemma mark_ne n b l m : m ≠ n → m ≠ S n → mark n b l !! m = l !! m.
Proof.
  intros. rewrite mark_lookup. destruct (Nat.eqb_spec m n), (Nat.eqb_spec m (S n)); try done.
  cbn. by destruct (l !! m).
Qed.

Lemma mark_static n b l : static_ext l (mark n b l).
Proof.
  intros m ts H. rewrite mark_lookup, H. eexists. split; [done|].
  destruct (_ || _); [|apply same_static_refl]. by destruct ts.
Qed.

Lemma mark_pair n t k b b' l : pair_at l n t k b → pair_at (mark n b' l) n t k b'.
Proof.
  intros (ts & te & H1 & H2 & Hv & He & _). exists (set_allocated b' ts), (set_allocated b' te).
  rewrite !mark_lookup, H1, H2, !Nat.eqb_refl, orb_true_r. by destruct ts, te.
Qed.

Lemma mark_pair_ne n m t t' k k' b b' b'' l :
  pair_at l n t k b → pair_at l m t' k' b' → n ≠ m → pair_at (mark n b'' l) m t' k' b'.
Proof.
  intros Hn Hm Hne. destruct (pair_disjoint _ _ _ _ _ _ _ _ _ Hn Hm Hne) as [? ?].
  destruct Hm as (ts & te & H1 & H2 & Hm). exists ts, te. rewrite !mark_ne by lia. done.
Qed.

Lemma mark_length n b l : length (mark n b l) = length l.
Proof. unfold mark. by rewrite !length_alter. Qed.

(** A constant is never marked. *)
Lemma mark_const n m t k b b' ts l :
  pair_at l n t k b → k ≠ TEMP_CONST → l !! m = Some ts → kind ts = TEMP_CONST →
  mark n b' l !! m = Some ts.
Proof.
  intros (vs & ve & H1 & H2 & (_ & _ & Hk & _) & (_ & _ & Hk' & _) & _) Hne Hm Hc.
  rewrite mark_ne; [done|..]; intros ->; simplify_eq; congruence.
Qed.

Lemma ctx_wf_mark s n t b b' (f : TCGType → nat → bool) :
  ctx_wf s → pair_at (temps s) n t TEMP_EBB b →
  (∀ t' m, f (type_of t') m = true →
     (m = n ∧ t' = t ∧ b' = false) ∨ (m ≠ n ∧ free_temps s (type_of t') m = true)) →
  ctx_wf (mkContext (nb_globals s) (mark n b' (temps s)) f (const_table s) (ops s) (nb_labels s)).
Proof.
  intros [Hm Hf Hc] Hp Hfr. split; cbn.
  - by rewrite mark_length.
  - intros t' m [(-> & -> & ->)|[Hne Hfree]]%Hfr; [by eapply mark_pair|].
    eapply mark_pair_ne; eauto.
  - intros t' v m Ht. destruct (Hc _ _ _ Ht). split; eapply mark_const; eauto; done.
Qed.

Lemma lookup_app_old {A} (l l' : list A) n x : l !! n = Some x → (l ++ l') !! n = Some x.
Proof. apply lookup_app_l_Some. Qed.

Lemma static_app l l' : static_ext l (l ++ l').
Proof. intros n ts H. exists ts. split; [by apply lookup_app_old|apply same_static_refl]. Qed.

Lemma pair_app l l' n t k b : pair_at l n t k b → pair_at (l ++ l') n t k b.
Proof.
  intros (ts & te & H1 & H2 & H). exists ts, te. split; [by apply lookup_app_old|].
  split; [by apply lookup_app_old|done].
Qed.

Lemma ctx_wf_app (s : TCGContext) (ts te : TCGTemp) (c : gmap (TCGType * Z) nat) :
  ctx_wf s → (S (S (length (temps s))) ≤ TCG_MAX_TEMPS)%nat →
  (∀ t v n, c !! (type_of t, v) = Some n →
     const_table s !! (type_of t, v) = Some n ∨
     (n = length (temps s) ∧ ts = const_temp (type_of t) v ∧ te = const_expr_temp)) →
  ctx_wf (mkContext (nb_globals s) (temps s ++ [ts; te]) (free_temps s) c (ops s) (nb_labels s)).
Proof.
  intros [Hm Hf Hc] Hl Ht. split; cbn.
  - rewrite length_app. cbn. lia.
  - intros t n H. by apply pair_app, Hf.
  - intros t v n [H|(-> & -> & ->)]%Ht.
    + destruct (Hc _ _ _ H). split; by apply lookup_app_old.
    + split; [by rewrite lookup_app_r, Nat.sub_diag by lia|].
      rewrite lookup_app_r by lia. by replace (S (length (temps s)) - length (temps s))%nat with 1%nat by lia.
Qed.

Lemma mark_insert n t k b b' l ts te :
  l !! n = Some ts → l !! S n = Some te → pair_at l n t k b' →
  <[S n := set_symbolic true (set_allocated b te)]> (<[n := set_allocated b ts]> l) = mark n b l.
Proof.
  intros H1 H2 (ts' & te' & ? & ? & _ & (_ & _ & _ & He) & _). simplify_eq.
  apply list_eq. intros m. rewrite mark_lookup.
  destruct (Nat.eqb_spec m n) as [->|]; cbn.
  { rewrite list_lookup_insert_ne, list_lookup_insert_eq by eauto using lookup_lt_Some.
    by rewrite H1. }
  destruct (Nat.eqb_spec m (S n)) as [->|]; cbn.
  { rewrite list_lookup_insert_eq by (rewrite length_insert; eauto using lookup_lt_Some).
    rewrite H2. cbn. f_equal. unfold set_symbolic, set_allocated. cbn. by rewrite He. }
  rewrite !list_lookup_insert_ne by lia. by destruct (l !! m).
Qed.

(** What is known after allocating the pair at [n]. *)
Record allocated (s s' : TCGContext) (n : nat) (t : VarType) (k : TCGTempKind) : Prop := {
  al_wf : ctx_wf s';
  al_static : static_ext (temps s) (temps s');
  al_ops : ops s' = ops s;
  al_pair : pair_at (temps s') n t k true;
  (** The pair was not in use before. *)
  al_unused m ts : m = n ∨ m = S n → temps s !! m = Some ts →
    kind ts = TEMP_EBB ∧ temp_allocated ts = false;
  al_other m ts : m ≠ n → m ≠ S n → temps s !! m = Some ts → temps s' !! m = Some ts;
}.

Lemma allocated_fresh s t k :
  ctx_wf s → (S (S (length (temps s))) ≤ TCG_MAX_TEMPS)%nat →
  allocated s (with_temps (λ l, l ++ [value_temp (type_of t) (type_of t) k 1 0; expr_temp k 0]) s)
    (length (temps s)) t k.
Proof.
  intros Hwf Hl. split; unfold with_temps; cbn.
  - apply ctx_wf_app; eauto.
  - apply static_app.
  - done.
  - eexists _, _. split; [by rewrite lookup_app_r, Nat.sub_diag by lia|].
    split; [rewrite lookup_app_r by lia;
      by replace (S (length (temps s)) - length (temps s))%nat with 1%nat by lia|].
    by destruct t.
  - intros m ts Hm H. apply lookup_lt_Some in H. lia.
  - intros m ts _ _. apply lookup_app_old.
Qed.

Lemma find_first_bit_spec f size :
  (find_first_bit f size < size)%nat → f (find_first_bit f size) = true.
Proof.
  unfold find_first_bit. destruct (List.find f (seq 0 size)) eqn:E; cbn; [|lia].
  intros _. by apply find_some in E as [_ ?].
Qed.

(** A free pair is taken again. *)
Definition taken (s : TCGContext) (n : nat) (t : VarType) : TCGContext :=
  mkContext (nb_globals s) (mark n true (temps s))
    (λ t' n', if bool_decide (t' = type_of t) && (n' =? n)%nat then false else free_temps s t' n')
    (const_table s) (ops s) (nb_labels s).
Lemma temp_new_reuse t s :
  let idx := find_first_bit (free_temps s (type_of t)) TCG_MAX_TEMPS in
  pair_at (temps s) idx t TEMP_EBB false → (idx < TCG_MAX_TEMPS)%nat →
  tcg_temp_new_internal (type_of t) TEMP_EBB s = GOk idx (taken s idx t).
Proof.
  intros idx Hp Hlt. unfold tcg_temp_new_internal, taken. cbn [bool_decide decide decide_rel].
  rewrite bool_decide_true by done. fold idx. rewrite (proj2 (Nat.ltb_lt _ _) Hlt). clearbody idx.
  pose proof Hp as (ts & te & H1 & H2 & (Hb & _ & Hkd & _) & (Hb' & _ & Hkd' & _) & Ha & Ha').
  unfold mbind, gen_bind, set_free, set_temp, get_temp, tcg_debug_assert, with_temps. ctx_simpl.
  rewrite H1. ctx_simpl. rewrite list_lookup_insert_eq by eauto using lookup_lt_Some.
  rewrite !bool_decide_true by (destruct ts; done). ctx_simpl.
  replace (idx + 1)%nat with (S idx) by lia. rewrite list_lookup_insert_ne, H2 by lia. ctx_simpl.
  rewrite list_lookup_insert_eq by (rewrite length_insert; eauto using lookup_lt_Some).
  rewrite !bool_decide_true by (destruct te; done).
  by rewrite (mark_insert idx t TEMP_EBB true false).
Qed.
Lemma allocated_reuse s t n :
  ctx_wf s → free_temps s (type_of t) n = true → allocated s (taken s n t) n t TEMP_EBB.
Proof.
  intros Hwf Hfree. pose proof (wf_free s Hwf _ _ Hfree) as Hp.
  pose proof Hp as (ts & te & H1 & H2 & (Hb & _ & Hkd & _) & (Hb' & _ & Hkd' & _) & Ha & Ha').
  split; unfold taken; ctx_simpl.
  - apply (ctx_wf_mark s n t false true); [done..|]. intros t' m.
    destruct (Nat.eqb_spec m n) as [->|]; [|rewrite andb_false_r; auto].
    rewrite andb_true_r. case_bool_decide as Ht; [done|]. intros Hf.
    pose proof (wf_free s Hwf _ _ Hf) as (ts' & ? & ? & _ & (Hb2 & _) & _). simplify_eq.
    exfalso. apply Ht. congruence.
  - apply mark_static.
  - done.
  - by eapply mark_pair.
  - intros m ts' [-> | ->] H; simplify_eq; done.
  - intros m ts' ? ? H. by rewrite mark_ne.
Qed.

(** Allocation returns a pair that was not in use, or overflows. *)
Lemma tcg_temp_new_spec t k s :
  ctx_wf s → k = TEMP_EBB ∨ k = TEMP_TB →
  match tcg_temp_new_internal (type_of t) k s with
  | GOk n s' => allocated s s' n t k
  | GOverflow => True
  | GAssert => False
  end.
Proof.
  intros Hwf Hk. assert (Hfresh : match temp_new_fresh (type_of t) k s with
    | GOk n s' => allocated s s' n t k | GOverflow => True | GAssert => False end).
  { rewrite temp_new_fresh_eq. destruct (Nat.leb_spec (S TCG_MAX_TEMPS) (S (S (length (temps s)))));
      [done|]. apply allocated_fresh; [done|lia]. }
  destruct Hk as [-> | ->]; [|done].
  destruct (Nat.ltb_spec (find_first_bit (free_temps s (type_of t)) TCG_MAX_TEMPS) TCG_MAX_TEMPS)
    as [Hlt|Hge].
  - pose proof (find_first_bit_spec _ _ Hlt) as Hfree.
    rewrite temp_new_reuse by (done || by apply wf_free). by apply allocated_reuse.
  - unfold tcg_temp_new_internal. rewrite bool_decide_true by done.
    by rewrite (proj2 (Nat.ltb_ge _ _) Hge).
Qed.

Lemma temp_expr_spec t k s n b :
  pair_at (temps s) n t k b → temp_expr n s = GOk (S n) s.
Proof.
  intros (ts & te & H1 & H2 & (_ & _ & _ & Hl & Hs) & (_ & _ & _ & He) & _).
  unfold temp_expr, mbind, gen_bind, get_temp, tcg_debug_assert. rewrite H1, Hs, Hl. cbn.
  replace (n + 0 + 1)%nat with (S n) by lia. by rewrite H2, He.
Qed.

(** Freeing a constant or a temporary of the whole block does nothing. *)
Lemma tcg_temp_free_ignored t k s n b :
  pair_at (temps s) n t k b → k = TEMP_CONST ∨ k = TEMP_TB → tcg_temp_free_internal n s = GOk tt s.
Proof.
  intros Hp Hk. unfold tcg_temp_free_internal, mbind, gen_bind.
  rewrite (temp_expr_spec _ _ _ _ _ Hp). destruct Hp as (ts & te & H1 & _ & (_ & _ & Hkd & _) & _).
  unfold get_temp. rewrite H1, Hkd. by destruct Hk as [-> | ->].
Qed.

Definition freed (s : TCGContext) (n : nat) (t : VarType) : TCGContext :=
  mkContext (nb_globals s) (mark n false (temps s))
    (λ t' n', if bool_decide (t' = type_of t) && (n' =? n)%nat then true else free_temps s t' n')
    (const_table s) (ops s) (nb_labels s).

Lemma mark_false_insert n t k b l ts te :
  l !! n = Some ts → l !! S n = Some te → pair_at l n t k b →
  <[S n := set_allocated false te]> (<[n := set_allocated false ts]> l) = mark n false l.
Proof.
  intros H1 H2 Hp. rewrite <- (mark_insert n t k false b l ts te H1 H2 Hp). do 2 f_equal.
  destruct Hp as (ts' & te' & ? & ? & _ & (_ & _ & _ & He) & _). simplify_eq.
  unfold set_symbolic, set_allocated. cbn. by rewrite He.
Qed.

Lemma tcg_temp_free_spec t s n :
  pair_at (temps s) n t TEMP_EBB true → tcg_temp_free_internal n s = GOk tt (freed s n t).
Proof.
  intros Hp. unfold tcg_temp_free_internal, mbind, gen_bind.
  rewrite (temp_expr_spec _ _ _ _ _ Hp).
  pose proof Hp as (ts & te & H1 & H2 & (Hb & _ & Hkd & _) & _ & Ha & Ha').
  unfold get_temp at 1. rewrite H1, Hkd. unfold tcg_debug_assert, set_temp at 1. rewrite Ha, H1.
  unfold get_temp, set_temp, set_free, with_temps. ctx_simpl.
  rewrite list_lookup_insert_ne, H2, Ha' by lia. ctx_simpl.
  rewrite list_lookup_insert_ne, H2 by lia. ctx_simpl.
  rewrite (mark_false_insert n t TEMP_EBB true) by done. unfold freed. by rewrite Hb.
Qed.

Lemma freed_wf t s n : ctx_wf s → pair_at (temps s) n t TEMP_EBB true → ctx_wf (freed s n t).
Proof.
  intros Hwf Hp. apply (ctx_wf_mark s n t true false); [done..|]. intros t' m.
  case_bool_decide as Ht; cbn.
  - destruct (Nat.eqb_spec m n); [|auto]. left. repeat split; [done|by apply type_of_inj].
  - intros Hf. right. split; [|done]. intros ->.
    pose proof (wf_free s Hwf _ _ Hf) as (ts' & ? & ? & _ & _ & _ & ? & _).
    destruct Hp as (ts & ? & ? & _ & _ & _ & ? & _). simplify_eq. congruence.
Qed.

(** A constant is found in the table or allocated. *)
Record constant_at (s s' : TCGContext) (n : nat) (ty : TCGType) (v : Z) : Prop := {
  ca_wf : ctx_wf s';
  ca_static : static_ext (temps s) (temps s');
  ca_ops : ops s' = ops s;
  ca_value : temps s' !! n = Some (const_temp ty v);
  ca_expr : temps s' !! S n = Some const_expr_temp;
  ca_other m ts : temps s !! m = Some ts → temps s' !! m = Some ts;
}.

Lemma alloc_const (ty : TCGType) (v : Z) s :
  (ts ← tcg_temp_alloc; set_temp ts (λ _, const_temp ty v);; set_const ty v ts;;
   ts_expr ← tcg_temp_alloc; set_temp ts_expr (λ _, const_expr_temp);; mret ts) s
  = if (S TCG_MAX_TEMPS <=? S (S (length (temps s))))%nat then GOverflow
    else GOk (length (temps s))
      (mkContext (nb_globals s) (temps s ++ [const_temp ty v; const_expr_temp]) (free_temps s)
         (<[(ty, v) := length (temps s)]> (const_table s)) (ops s) (nb_labels s)).
Proof.
  rewrite <- (alloc_pair (const_temp ty v) const_expr_temp
    (λ n s', GOk n (mkContext (nb_globals s') (temps s') (free_temps s')
       (<[(ty, v) := n]> (const_table s')) (ops s') (nb_labels s')))).
  destruct s as [g l f c o nl]. unfold mbind, gen_bind, tcg_temp_alloc, set_temp, set_const, with_temps.
  ctx_simpl. destruct (_ <=? _)%nat; [done|]. ctx_simpl. rewrite lookup_snoc. ctx_simpl.
  destruct (_ <=? _)%nat; [done|]. ctx_simpl. rewrite lookup_snoc. done.
Qed.

Lemma constant_internal_spec t c s :
  ctx_wf s →
  match tcg_constant_internal (type_of t) c s with
  | GOk n s' => constant_at s s' n (type_of t) c
  | GOverflow => True
  | GAssert => False
  end.
Proof.
  intros Hwf. unfold tcg_constant_internal.
  destruct (const_table s !! (type_of t, c)) as [n|] eqn:E.
  { destruct (wf_const s Hwf _ _ _ E). by split; [|reflexivity| | | |]. }
  rewrite alloc_const. destruct (Nat.leb_spec (S TCG_MAX_TEMPS) (S (S (length (temps s))))); [done|].
  split; ctx_simpl.
  - apply ctx_wf_app; [done|lia|]. intros t' v' n.
    destruct (decide ((type_of t, c) = (type_of t', v'))) as [Heq|Hne].
    + rewrite Heq, lookup_insert_eq. injection Heq as -> ->. intros [= <-]. by right.
    + rewrite lookup_insert_ne by done. auto.
  - apply static_app.
  - done.
  - by rewrite lookup_app_r, Nat.sub_diag by lia.
  - rewrite lookup_app_r by lia. by replace (S (length (temps s)) - length (temps s))%nat with 1%nat by lia.
  - intros m ts. apply lookup_app_old.
Qed.

Lemma tcg_constant_spec (t : RegType) v s :
  ctx_wf s →
  match tcg_constant t v s with
  | GOk n s' => constant_at s s' n (type_of t) (sgn (ty_width t) v)
  | GOverflow => True
  | GAssert => False
  end.
Proof. apply (constant_internal_spec t). Qed.

Lemma tcg_func_start_wf s : (length (temps s) ≤ TCG_MAX_TEMPS)%nat → ctx_wf (tcg_func_start s).
Proof.
  intros. split; cbn; [|done|].
  - rewrite length_take. lia.
  - intros t v n H'. by rewrite lookup_empty in H'.
Qed.

(** The same constant is the same temporary. *)
Lemma constant_memo t v s :
  match tcg_constant t v s with GOk n s' => tcg_constant t v s' = GOk n s' | _ => True end.
Proof.
  unfold tcg_constant, tcg_constant_internal. set (c := sgn _ _).
  destruct (const_table s !! (type_of t, c)) as [n|] eqn:E; [by rewrite E|].
  rewrite alloc_const. destruct (_ <=? _)%nat; [done|]. ctx_simpl. by rewrite lookup_insert_eq.
Qed.

(** The pair just freed is the next one of its type. *)
Lemma find_single n size f :
  (n < size)%nat → f n = true → (∀ m, m ≠ n → f m = false) → find_first_bit f size = n.
Proof.
  intros Hn Hf Ho. unfold find_first_bit. destruct (List.find f (seq 0 size)) as [m|] eqn:E; cbn.
  - apply find_some in E as [_ E]. destruct (decide (m = n)); [done|]. by rewrite Ho in E.
  - apply find_none with (x := n) in E; [congruence|]. apply in_seq. lia.
Qed.
Lemma reuse_freed t s n :
  ctx_wf s → pair_at (temps s) n t TEMP_EBB true → (∀ m, free_temps s (type_of t) m = false) →
  ∃ s', tcg_temp_new_internal (type_of t) TEMP_EBB (freed s n t) = GOk n s'.
Proof.
  intros Hs Hp Hf.
  assert (Hn : (n < TCG_MAX_TEMPS)%nat).
  { destruct Hp as (ts & _ & H & _). apply lookup_lt_Some in H. pose proof (wf_max s Hs). lia. }
  assert (Hi : find_first_bit (free_temps (freed s n t) (type_of t)) TCG_MAX_TEMPS = n).
  { apply find_single; [done|cbn; rewrite bool_decide_true, Nat.eqb_refl by done; done|].
    intros m Hm. cbn. rewrite (proj2 (Nat.eqb_neq _ _) Hm), andb_false_r. apply Hf. }
  exists (taken (freed s n t) n t). pose proof (temp_new_reuse t (freed s n t)) as H. rewrite Hi in H.
  apply H; [|done]. by apply (mark_pair n t TEMP_EBB true false).
Qed.
