(* ===== verification/Exec.v ===== *)
(** Executing emitted operations.

    The state of a run of generated code: a register for every temporary (a
    64-bit number or a pointer to an expression), the trace of notifications to
    the symbolic backend, host memory and its shadow.  Arithmetic is
    interpreted as [tci_op] does; a call runs the helper, concrete
    ([accel/tcg/tcg-runtime.c]) or symbolic.

    Constants are not registers: a temporary of kind [TEMP_CONST] reads as the
    value in the table [Γ] of temporaries, and cannot be written. *)
From S2P Require Import Prelude Lanes Cond Bitops Backend VecOps SymHelpers SymMemory SymVec Ops MemOp Atomics Temps.

(** ** Concrete helpers (accel/tcg/tcg-runtime.c)

    [t] selects the [_i32] or the [_i64] function; the arguments and the
    result are the bit patterns.  A signed division that traps aborts. *)

Definition helper_div (t : RegType) (arg1 arg2 : Z) : Res Z :=
  q ← c_sdiv (ty_width t) arg1 arg2; Ok (wrap (ty_width t) q).
Definition helper_rem (t : RegType) (arg1 arg2 : Z) : Res Z :=
  q ← c_srem (ty_width t) arg1 arg2; Ok (wrap (ty_width t) q).
Definition helper_divu (t : RegType) (arg1 arg2 : Z) : Res Z :=
  assert_ (negb (arg2 =? 0));; Ok (arg1 / arg2).
Definition helper_remu (t : RegType) (arg1 arg2 : Z) : Res Z :=
  assert_ (negb (arg2 =? 0));; Ok (arg1 mod arg2).
Definition helper_muluh_i64 (arg1 arg2 : Z) : Z := let '(l, h) := mulu64 arg1 arg2 in h.
Definition helper_mulsh_i64 (arg1 arg2 : Z) : Z := let '(l, h) := muls64 arg1 arg2 in h.
Definition helper_clz (t : RegType) (arg zero_val : Z) : Z :=
  if arg =? 0 then zero_val else match t with I32 => clz32 arg | I64 => clz64 arg end.
Definition helper_ctz (t : RegType) (arg zero_val : Z) : Z :=
  if arg =? 0 then zero_val else match t with I32 => ctz32 arg | I64 => ctz64 arg end.
Definition helper_clrsb (t : RegType) (arg : Z) : Z :=
  match t with I32 => wrap 32 (clrsb32 arg) | I64 => wrap 64 (clrsb64 arg) end.
Definition helper_ctpop (t : RegType) (arg : Z) : Z :=
  match t with I32 => ctpop32 arg | I64 => ctpop64 arg end.

(** ** State *)

Section Exec.
Context {B : SymBackend} {SM : ShadowMemory B}.

Inductive rval : Type :=
| VNum (z : Z)
| VPtr (e : SymExpr)
(** The start of a block of the heap. *)
| VBuf (b : nat).

(** A block that [malloc] returned: its size and its bytes, of which those that were
    never written have no value. *)
Record Block := mkBlock { block_size : Z; block_bytes : Z → option Z }.

(** The guest's memory map: the host address of a guest address for an access of
    a kind and an MMU index, [None] where the access raises an exception or goes
    to a device; the width of [target_ulong]. *)
Record Guest := mkGuest {
  tlb_vaddr_to_host : MMUAccessType → Z → Z → option Z;
  target_long_bits : Z;
  (** What [lookup_tb_ptr] finds: the code of the next block. *)
  next_tb : Z;
}.

Record State := mkState {
  regs : nat → rval;
  trace : Trace;
  mem : Mem;
  shadow : Shadow;
  (** [get_pc(env)] *)
  env_pc : Z;
  guest : Guest;
  (** The blocks allocated so far; [None] after [free].  Blocks are disjoint from each
      other and from [mem]. *)
  heap : list (option Block);
}.

Definition set_reg (st : State) (t : nat) (v : rval) : State :=
  mkState (λ n, if (n =? t)%nat then v else regs st n) (trace st) (mem st) (shadow st) (env_pc st) (guest st) (heap st).
Definition set_trace (st : State) (t : Trace) : State :=
  mkState (regs st) t (mem st) (shadow st) (env_pc st) (guest st) (heap st).
Definition set_mem (st : State) (m : Mem) : State :=
  mkState (regs st) (trace st) m (shadow st) (env_pc st) (guest st) (heap st).
Definition set_shadow (st : State) (sh : Shadow) : State :=
  mkState (regs st) (trace st) (mem st) sh (env_pc st) (guest st) (heap st).
Definition set_heap (st : State) (h : list (option Block)) : State :=
  mkState (regs st) (trace st) (mem st) (shadow st) (env_pc st) (guest st) h.

(** What a register holds for a constant: a vector has its 64 bits in each word. *)
Definition const_reg (ty : TCGType) (v : Z) : Z :=
  match ty with
  | TCG_TYPE_V128 => vdup 2 64 v
  | TCG_TYPE_V256 => vdup 4 64 v
  | _ => wrap 64 v
  end.

Definition rd (Γ : list TCGTemp) (st : State) (t : nat) : Res rval :=
  match Γ !! t with
  | Some ts => Ok (if bool_decide (kind ts = TEMP_CONST) then VNum (const_reg (base_type ts) (val ts)) else regs st t)
  | None => Abort
  end.

Definition wr (Γ : list TCGTemp) (st : State) (t : nat) (v : rval) : Res State :=
  match Γ !! t with
  | Some ts =>
      match kind ts with
      | TEMP_CONST | TEMP_FIXED => Abort
      | _ => Ok (set_reg st t v)
      end
  | None => Abort
  end.

(** Reading a value as a number of a type, as a whole register, as an
    expression. *)
Definition raw (v : rval) : Res Z := match v with VNum z => Ok z | _ => Abort end.
Definition num (t : RegType) (v : rval) : Res Z := z ← raw v; Ok (wrap (ty_width t) z).
Definition as_expr (v : rval) : Res (option SymExpr) :=
  match v with
  | VPtr e => Ok (Some e)
  | VNum z => if z =? 0 then Ok None else Abort
  | VBuf _ => Abort
  end.
Definition of_expr (o : option SymExpr) : rval :=
  match o with Some e => VPtr e | None => VNum 0 end.

(** ** The heap *)

Definition live_block (st : State) (b : nat) : Res Block :=
  match heap st !! b with Some (Some k) => Ok k | _ => Abort end.
(** The first [n] bytes of a block, all of which must have been written. *)
Definition read_block (st : State) (n : Z) (v : rval) : Res Mem :=
  match v with
  | VBuf b =>
      k ← live_block st b;
      assert_ (n <=? block_size k);;
      assert_ (forallb (λ j, bool_decide (is_Some (block_bytes k j))) (below n));;
      Ok (λ j, default 0 (block_bytes k j))
  | _ => Abort
  end.
Definition write_block (st : State) (b : nat) (ofs n z : Z) : Res State :=
  k ← live_block st b;
  assert_ ((0 <=? ofs) && (ofs + n <=? block_size k));;
  Ok (set_heap st (<[b := Some (mkBlock (block_size k)
        (λ j, if (ofs <=? j) && (j <? ofs + n) then Some (byte_of z (j - ofs)) else block_bytes k j))]> (heap st))).
Definition malloc (st : State) (n : Z) : rval * State :=
  (VBuf (length (heap st)), set_heap st (heap st ++ [Some (mkBlock n (λ _, None))])).
Definition free (st : State) (v : rval) : Res State :=
  match v with
  | VBuf b => _ ← live_block st b; Ok (set_heap st (<[b := None]> (heap st)))
  | _ => Abort
  end.

(** ** Calls *)

Definition ret_expr (r : Res (option SymExpr)) (st : State) : Res (option rval * State) :=
  o ← r; Ok (Some (of_expr o), st).
Definition ret_num (r : Res Z) (st : State) : Res (option rval * State) :=
  z ← r; Ok (Some (VNum z), st).
Definition ret_traced (r : Trace → Res (option SymExpr * Trace)) (st : State)
    : Res (option rval * State) :=
  '(o, t) ← r (trace st); Ok (Some (of_expr o), set_trace st t).

Definition cond_arg (v : rval) : Res TCGCond := c ← num I32 v; tci_cond c.

(** The pointer that [tlb_vaddr_to_host] returns, NULL where there is no host
    memory. *)
Definition host_of (g : Guest) (a : MMUAccessType) (mmu_idx vaddr : Z) : Z :=
  default 0 (tlb_vaddr_to_host g a mmu_idx vaddr).

(** The host address of an aligned word that can be read and written. *)
Definition atomic_mmu_lookup (g : Guest) (addr oi size : Z) : option Z :=
  if negb (Z.land addr (Z.ones (get_alignment_bits (get_memop oi))) =? 0) then None
  else if negb (Z.land addr (size - 1) =? 0) then None
  else
    h ← tlb_vaddr_to_host g MMU_DATA_STORE (get_mmuidx oi) addr;
    _ ← tlb_vaddr_to_host g MMU_DATA_LOAD (get_mmuidx oi) addr;
    Some h.

(** [f] on the word of [n] bytes: the result and the word after; no result when the
    CPU loop is left. *)
Definition run_atomic (n : Z) (f : Z → option (Z * Z)) (addr oi : Z) (st : State) : Res (option rval * State) :=
  match atomic_mmu_lookup (guest st) addr oi n with
  | Some h =>
      match f (le_join (Z.to_nat n) (mem st) h) with
      | Some (ret, w) => Ok (Some (VNum ret), set_mem st (store_bytes (mem st) h n w))
      | None => Abort
      end
  | None => Ok (None, st)
  end.

(** The 128-bit compare-and-exchange is not executed. *)
Definition run_helper (h : Helper) (vs : list rval) (st : State) : Res (option rval * State) :=
  match h, vs with
  | HELPER_sym_binary b t, [v1; e1; v2; e2] =>
      a1 ← num t v1; o1 ← as_expr e1; a2 ← num t v2; o2 ← as_expr e2;
      ret_expr (helper_sym_binary b a1 o1 a2 o2) st
  | HELPER_sym_neg, [e] => o ← as_expr e; ret_expr (helper_sym_neg o) st
  | HELPER_sym_not, [e] => o ← as_expr e; ret_expr (helper_sym_not o) st
  | HELPER_sym_muluh_i64, [v1; e1; v2; e2] =>
      a1 ← num I64 v1; o1 ← as_expr e1; a2 ← num I64 v2; o2 ← as_expr e2;
      ret_expr (helper_sym_muluh_i64 a1 o1 a2 o2) st
  | HELPER_sym_sext, [e; l] => o ← as_expr e; l ← num I64 l; ret_expr (helper_sym_sext o l) st
  | HELPER_sym_zext, [e; l] => o ← as_expr e; l ← num I64 l; ret_expr (helper_sym_zext o l) st
  | HELPER_sym_sext_i32_i64, [e] => o ← as_expr e; ret_expr (helper_sym_sext_i32_i64 o) st
  | HELPER_sym_zext_i32_i64, [e] => o ← as_expr e; ret_expr (helper_sym_zext_i32_i64 o) st
  | HELPER_sym_trunc_i64_i32, [e] => o ← as_expr e; ret_expr (helper_sym_trunc_i64_i32 o) st
  | HELPER_sym_bswap, [e; l] => o ← as_expr e; l ← num I64 l; ret_expr (helper_sym_bswap o l) st
  | HELPER_sym_extract t, [e; ofs; len] =>
      o ← as_expr e; ofs ← num t ofs; len ← num t len;
      ret_expr (helper_sym_extract o ofs len) st
  | HELPER_sym_sextract t, [e; ofs; len] =>
      o ← as_expr e; ofs ← num t ofs; len ← num t len;
      ret_expr (helper_sym_sextract o ofs len) st
  | HELPER_sym_deposit t, [v1; e1; v2; e2; ofs; len] =>
      a1 ← num t v1; o1 ← as_expr e1; a2 ← num t v2; o2 ← as_expr e2;
      ofs ← num t ofs; len ← num t len;
      ret_expr (helper_sym_deposit (ty_width t) a1 o1 a2 o2 ofs len) st
  | HELPER_sym_extract2 t, [vh; eh; vl; el; ofs] =>
      ah ← num t vh; oh ← as_expr eh; al ← num t vl; ol ← as_expr el; ofs ← num I64 ofs;
      ret_expr (helper_sym_extract2 (ty_width t) ah oh al ol ofs) st
  | HELPER_sym_setcond t, [env; v1; e1; v2; e2; c; taken] =>
      a1 ← num t v1; o1 ← as_expr e1; a2 ← num t v2; o2 ← as_expr e2;
      c ← cond_arg c; taken ← num t taken;
      ret_traced (sym_setcond_internal (env_pc st) a1 o1 a2 o2 c taken (ty_width t)) st
  | HELPER_sym_movcond t, [env; v1; e1; v2; e2; v3; e3; v4; e4; c; taken] =>
      a1 ← num t v1; o1 ← as_expr e1; a2 ← num t v2; o2 ← as_expr e2;
      a3 ← num t v3; o3 ← as_expr e3; a4 ← num t v4; o4 ← as_expr e4;
      c ← cond_arg c; taken ← num t taken;
      ret_traced (sym_movcond_internal (env_pc st) a1 o1 a2 o2 a3 o3 a4 o4 c taken (ty_width t)) st
  | HELPER_sym_load_host t, [addr; ofs; len] =>
      addr ← num I64 addr; ofs ← num I64 ofs; len ← num I64 len;
      ret_expr (Ok (sym_load_host_internal (shadow st) (mem st) addr ofs len (ty_width t / 8))) st
  | HELPER_sym_store_host, [e; addr; ofs; len] =>
      o ← as_expr e; addr ← num I64 addr; ofs ← num I64 ofs; len ← num I64 len;
      Ok (None, set_shadow st (helper_sym_store_host (shadow st) o addr ofs len))
  | HELPER_sym_load_guest t, [env; addr; ea; len; mmu] =>
      addr ← num I64 addr; o ← as_expr ea; len ← num I64 len; mmu ← num I64 mmu;
      let '(r, tr) := sym_load_guest_internal (host_of (guest st) MMU_DATA_LOAD mmu) (env_pc st)
        (target_long_bits (guest st)) (shadow st) (mem st) (wrap (target_long_bits (guest st)) addr) o len
        (ty_width t / 8) (trace st) in
      Ok (Some (of_expr r), set_trace st tr)
  | HELPER_sym_store_guest t, [env; v; ev; addr; ea; len; mmu] =>
      v ← num t v; o ← as_expr ev; addr ← num I64 addr; oa ← as_expr ea; len ← num I64 len; mmu ← num I64 mmu;
      let '(sh, tr) := sym_store_guest_internal (host_of (guest st) MMU_DATA_STORE mmu) (env_pc st) (shadow st) o
        addr oa len (trace st) in
      Ok (None, set_trace (set_shadow st sh) tr)
  | HELPER_sym_notify_call, [a] =>
      a ← num I64 a; Ok (None, set_trace st (helper_sym_notify_call a (trace st)))
  | HELPER_sym_notify_return, [a] =>
      a ← num I64 a; Ok (None, set_trace st (helper_sym_notify_return a (trace st)))
  | HELPER_sym_notify_block, [a] =>
      a ← num I64 a; Ok (None, set_trace st (helper_sym_notify_block a (trace st)))
  | HELPER_sym_collect_garbage, [] =>
      Ok (None, set_trace st (helper_sym_collect_garbage (trace st)))
  | HELPER_div t, [v1; v2] => a ← num t v1; b ← num t v2; ret_num (helper_div t a b) st
  | HELPER_rem t, [v1; v2] => a ← num t v1; b ← num t v2; ret_num (helper_rem t a b) st
  | HELPER_divu t, [v1; v2] => a ← num t v1; b ← num t v2; ret_num (helper_divu t a b) st
  | HELPER_remu t, [v1; v2] => a ← num t v1; b ← num t v2; ret_num (helper_remu t a b) st
  | HELPER_muluh_i64, [v1; v2] =>
      a ← num I64 v1; b ← num I64 v2; ret_num (Ok (helper_muluh_i64 a b)) st
  | HELPER_mulsh_i64, [v1; v2] =>
      a ← num I64 v1; b ← num I64 v2; ret_num (Ok (helper_mulsh_i64 a b)) st
  | HELPER_clz t, [v1; v2] => a ← num t v1; b ← num t v2; ret_num (Ok (helper_clz t a b)) st
  | HELPER_ctz t, [v1; v2] => a ← num t v1; b ← num t v2; ret_num (Ok (helper_ctz t a b)) st
  | HELPER_clrsb t, [v] => a ← num t v; ret_num (Ok (helper_clrsb t a)) st
  | HELPER_ctpop t, [v] => a ← num t v; ret_num (Ok (helper_ctpop t a)) st
  | HELPER_lookup_tb_ptr, [env] => ret_num (Ok (next_tb (guest st))) st
  | HELPER_atomic_cmpxchg mop, [env; addr; c; v; oi] =>
      addr ← num I64 addr; c ← raw c; v ← raw v; oi ← num I32 oi;
      let n := memop_size mop in
      assert_ (n <=? 8);;
      run_atomic n (λ w, Some (cpu_atomic_cmpxchg (has mop MO_BSWAP) n w c v)) addr oi st
  | HELPER_atomic_op o mop, [env; addr; v; oi] =>
      addr ← num I64 addr; v ← raw v; oi ← num I32 oi;
      let n := memop_size mop in
      assert_ (n <=? 8);;
      run_atomic n (λ w, cpu_atomic_op (has mop MO_BSWAP) n o w v) addr oi st
  | HELPER_malloc, [n] => n ← num I64 n; let '(p, st) := malloc st n in Ok (Some p, st)
  | HELPER_free, [p] => st ← free st p; Ok (None, st)
  | HELPER_sym_vec op, [p1; e1; p2; e2; size; vece] =>
      size ← num I64 size; vece ← num I64 vece;
      b1 ← read_block st (size / 8) p1; o1 ← as_expr e1; b2 ← read_block st (size / 8) p2; o2 ← as_expr e2;
      ret_expr (helper_sym_vec op b1 o1 b2 o2 size vece) st
  | HELPER_sym_vec_int32 op, [p1; e1; v2; e2; size; vece] =>
      size ← num I64 size; vece ← num I64 vece;
      b1 ← read_block st (size / 8) p1; o1 ← as_expr e1; a2 ← num I32 v2; o2 ← as_expr e2;
      ret_expr (helper_sym_vec_int32 op b1 o1 a2 o2 size vece) st
  | HELPER_sym_cmp_vec, [env; p1; e1; p2; e2; c; r; size; vece] =>
      size ← num I64 size; vece ← num I64 vece;
      b1 ← read_block st (size / 8) p1; o1 ← as_expr e1; b2 ← read_block st (size / 8) p2; o2 ← as_expr e2;
      c ← cond_arg c; br ← read_block st (size / 8) r;
      ret_traced (helper_sym_cmp_vec (env_pc st) b1 o1 b2 o2 c br size vece) st
  | HELPER_sym_ternary_vec, [env; p1; e1; p2; e2; c; r; size; vece] =>
      size ← num I64 size; vece ← num I64 vece;
      b1 ← read_block st (size / 8) p1; o1 ← as_expr e1; b2 ← read_block st (size / 8) p2; o2 ← as_expr e2;
      c ← cond_arg c; br ← read_block st (size / 8) r;
      ret_traced (helper_sym_ternary_vec (env_pc st) b1 o1 b2 o2 c br size vece) st
  | HELPER_sym_duplicate_value_into_vec, [e; size; vece] =>
      o ← as_expr e; size ← num I64 size; vece ← num I64 vece;
      ret_expr (helper_sym_duplicate_value_into_vec o size vece) st
  | HELPER_sym_load_and_duplicate_into_vec, [addr; ofs; size; vece] =>
      addr ← num I64 addr; ofs ← num I64 ofs; size ← num I64 size; vece ← num I64 vece;
      ret_expr (helper_sym_load_and_duplicate_into_vec (shadow st) (mem st) addr ofs size vece) st
  | HELPER_sym_load_host_vec, [addr; ofs; len] =>
      addr ← num I64 addr; ofs ← num I64 ofs; len ← num I64 len;
      ret_expr (Ok (helper_sym_load_host_vec (shadow st) (mem st) addr ofs len)) st
  | _, _ => Abort
  end.

(** ** Operations *)

Inductive Outcome : Type :=
| Fall (st : State)
| Jump (l : nat) (st : State)
| Leave (o : TCGOp) (st : State).

Definition temp_of (a : TCGArg) : Res nat := match a with temp_arg t => Ok t | const_arg _ => Abort end.
Definition const_of (a : TCGArg) : Res Z := match a with const_arg z => Ok z | temp_arg _ => Abort end.

Fixpoint write_all (Γ : list TCGTemp) (st : State) (outs : list nat) (vs : list Z) : Res State :=
  match outs, vs with
  | [], [] => Ok st
  | t :: outs, v :: vs => st ← wr Γ st t (VNum v); write_all Γ st outs vs
  | _, _ => Abort
  end.

(** The arguments are output temporaries, input temporaries and constants, as
    many as [op_def] says; a move, conditional or not, copies whatever the
    register holds. *)
Definition exec_pure (Γ : list TCGTemp) (opc : TCGOpcode) (args : list TCGArg) (st : State)
    : Res State :=
  let '(to, ti, nc) := op_def opc in
  let no := length to in
  let ni := length ti in
  assert_ (length args =? no + ni + nc)%nat;;
  outs ← mapR temp_of (take no args);
  ins ← mapR temp_of (take ni (drop no args));
  imms ← mapR const_of (drop (no + ni) args);
  vs ← mapR (rd Γ st) ins;
  match opc, outs, vs with
  | INDEX_op_mov _, [t], [v] => wr Γ st t v
  | INDEX_op_movcond I64, [t], [c1; c2; v1; v2] =>
      c1 ← raw c1; c2 ← raw c2;
      c ← match imms with [c] => tci_cond c | _ => Abort end;
      taken ← tci_compare 64 c1 c2 c;
      wr Γ st t (if taken : bool then v1 else v2)
  | _, _, _ =>
      zs ← mapR raw vs;
      rs ← tci_op opc zs imms;
      write_all Γ st outs rs
  end.

(** Host loads and stores: length in bytes, signedness, and direction. *)
Definition ldst_def (opc : LdStOpcode) : Z * bool * bool :=
  match opc with
  | INDEX_op_ld8u _ => (1, false, true)
  | INDEX_op_ld8s _ => (1, true, true)
  | INDEX_op_ld16u _ => (2, false, true)
  | INDEX_op_ld16s _ => (2, true, true)
  | INDEX_op_ld32u_i64 => (4, false, true)
  | INDEX_op_ld32s_i64 => (4, true, true)
  | INDEX_op_ld I32 => (4, false, true)
  | INDEX_op_ld I64 => (8, false, true)
  | INDEX_op_st8 _ => (1, false, false)
  | INDEX_op_st16 _ => (2, false, false)
  | INDEX_op_st32_i64 => (4, false, false)
  | INDEX_op_st I32 => (4, false, false)
  | INDEX_op_st I64 => (8, false, false)
  end.

Definition exec_ldst (Γ : list TCGTemp) (opc : LdStOpcode) (v base : nat) (ofs : Z) (st : State)
    : Res State :=
  let '(n, signed, load) := ldst_def opc in
  b ← rd Γ st base; b ← raw b;
  let addr := wrap 64 (b + ofs) in
  if load : bool then
    let z := le_join (Z.to_nat n) (mem st) addr in
    wr Γ st v (VNum (if signed : bool then wrap 64 (sgn (8 * n) z) else z))
  else
    r ← rd Γ st v; z ← raw r;
    Ok (set_mem st (store_bytes (mem st) addr n z)).

(** The size of a vector type, in bits. *)
Definition vec_bits (t : TCGType) : Z :=
  match t with TCG_TYPE_V64 => 64 | TCG_TYPE_V128 => 128 | TCG_TYPE_V256 => 256 | _ => 0 end.

(** Operations on vectors of the type [t]: an operand that is wider counts with its
    low bits.  A store may go to memory or to a block of the heap. *)
Definition exec_vec (Γ : list TCGTemp) (opc : VecOpcode) (t : TCGType) (vece : Z) (args : list TCGArg) (st : State)
    : Res State :=
  let size := vec_bits t in
  let w := vece_element_size vece in
  let '(no, ni, nc) := vec_op_def opc in
  assert_ (length args =? no + ni + nc)%nat;;
  outs ← mapR temp_of (take no args);
  ins ← mapR temp_of (take ni (drop no args));
  imms ← mapR const_of (drop (no + ni) args);
  vs ← mapR (rd Γ st) ins;
  match opc, outs, vs, imms with
  | INDEX_op_ld_vec, [r], [base], [ofs] =>
      b ← raw base; wr Γ st r (VNum (le_join (Z.to_nat (size / 8)) (mem st) (wrap 64 (b + ofs))))
  | INDEX_op_dupm_vec, [r], [base], [ofs] =>
      b ← raw base;
      wr Γ st r (VNum (vdup (lane_count size vece) w (le_join (Z.to_nat (w / 8)) (mem st) (wrap 64 (b + ofs)))))
  | INDEX_op_st_vec, [], [v; VBuf b], [ofs] => z ← raw v; write_block st b ofs (size / 8) z
  | INDEX_op_st_vec, [], [v; base], [ofs] =>
      z ← raw v; b ← raw base; Ok (set_mem st (store_bytes (mem st) (wrap 64 (b + ofs)) (size / 8) z))
  | _, [r], _, _ =>
      zs ← mapR raw vs;
      match vec_op_val opc size w (lane_count size vece) (map (wrap size) zs) imms with
      | Some z => wr Γ st r (VNum z)
      | None => Abort
      end
  | _, _, _, _ => Abort
  end.

(** Guest accesses: the host addresses of the bytes, in the order of their guest
    addresses, if the address is aligned as the operation demands and every byte
    is in memory. *)
Fixpoint host_bytes (f : Z → option Z) (bits : Z) (n : nat) (a : Z) : option (list Z) :=
  match n with
  | O => Some []
  | S n => h ← f (wrap bits a); l ← host_bytes f bits n (a + 1); Some (h :: l)
  end.
Definition guest_bytes (g : Guest) (acc : MMUAccessType) (oi taddr : Z) : option (list Z) :=
  let mop := get_memop oi in
  if Z.land taddr (Z.ones (get_alignment_bits mop)) =? 0 then
    host_bytes (tlb_vaddr_to_host g acc (get_mmuidx oi)) (target_long_bits g) (Z.to_nat (memop_size mop)) taddr
  else None.

(** The bytes as a number, the first one lowest. *)
Fixpoint load_list (m : Mem) (l : list Z) : Z :=
  match l with [] => 0 | h :: l => m h + 256 * load_list m l end.
Fixpoint store_list (m : Mem) (l : list Z) (v : Z) : Mem :=
  match l with
  | [] => m
  | h :: l => store_list (λ k, if k =? h then wrap 8 v else m k) l (Z.shiftr v 8)
  end.

(** [MO_BSWAP] is an access in the other byte order than the host's. *)
Definition in_order (mop v : Z) : Z :=
  if has mop MO_BSWAP then bswap_bytes (Z.to_nat (memop_size mop)) v else v.

Definition exec_guest_ld (Γ : list TCGTemp) (a : RegType) (v addr : nat) (oi : Z) (st : State)
    : Res (option State) :=
  b ← rd Γ st addr; taddr ← num a b;
  let mop := get_memop oi in
  match guest_bytes (guest st) MMU_DATA_LOAD oi taddr with
  | Some l =>
      let z := in_order mop (load_list (mem st) l) in
      st ← wr Γ st v (VNum (if has mop MO_SIGN then wrap 64 (sgn (8 * memop_size mop) z) else z));
      Ok (Some st)
  | None => Ok None
  end.
Definition exec_guest_st (Γ : list TCGTemp) (a : RegType) (v addr : nat) (oi : Z) (st : State)
    : Res (option State) :=
  b ← rd Γ st addr; taddr ← num a b; r ← rd Γ st v; z ← raw r;
  let mop := get_memop oi in
  match guest_bytes (guest st) MMU_DATA_STORE oi taddr with
  | Some l => Ok (Some (set_mem st (store_list (mem st) l (in_order mop (wrap (8 * memop_size mop) z)))))
  | None => Ok None
  end.

(** The block is left where the guest access raises an exception. *)
Definition or_leave (o : TCGOp) (st : State) (r : Res (option State)) : Res Outcome :=
  st' ← r; Ok (match st' with Some st' => Fall st' | None => Leave o st end).

Definition exec_op (Γ : list TCGTemp) (o : TCGOp) (st : State) : Res Outcome :=
  match o with
  | Op opc args => st ← exec_pure Γ opc args st; Ok (Fall st)
  | OpVec opc t vece args => st ← exec_vec Γ opc t vece args st; Ok (Fall st)
  | OpLdSt opc v base ofs => st ← exec_ldst Γ opc v base ofs st; Ok (Fall st)
  | OpGuestLd a _ v addr oi => or_leave o st (exec_guest_ld Γ a v addr oi st)
  | OpGuestSt _ a _ v addr oi => or_leave o st (exec_guest_st Γ a v addr oi st)
  | OpCall h ret args =>
      vs ← mapR (rd Γ st) args;
      '(r, st) ← run_helper h vs st;
      match ret, r with
      | None, None => Ok (Fall st)
      | Some t, Some v => st ← wr Γ st t v; Ok (Fall st)
      | Some _, None => Ok (Leave o st)
      | None, Some _ => Abort
      end
  | OpBrcond t a b c l =>
      va ← rd Γ st a; vb ← rd Γ st b; x ← num t va; y ← num t vb;
      taken ← tci_compare (ty_width t) x y c;
      Ok (if taken : bool then Jump l st else Fall st)
  | OpBr l => Ok (Jump l st)
  | OpSetLabel _ | OpMb _ | OpDiscard _ | OpInsnStart _ => Ok (Fall st)
  | OpExitTb _ | OpGotoTb _ | OpGotoPtr _ => Ok (Leave o st)
  end.

(** A straight run of operations, up to the first jump. *)
Fixpoint exec (Γ : list TCGTemp) (l : list TCGOp) (st : State) : Res Outcome :=
  match l with
  | [] => Ok (Fall st)
  | o :: l =>
      r ← exec_op Γ o st;
      match r with Fall st => exec Γ l st | _ => Ok r end
  end.

Lemma exec_app Γ l1 l2 st st' :
  exec Γ l1 st = Ok (Fall st') → exec Γ (l1 ++ l2) st = exec Γ l2 st'.
Proof.
  revert st. induction l1 as [|o l1 IH]; intros st H; cbn in *; [by simplify_eq|].
  destruct (exec_op Γ o st) as [[| |]|]; cbn in *; try done. by apply IH.
Qed.
End Exec.

#[global] Arguments rval {B}.
#[global] Arguments State {B SM}.
