(* ===== verification/GuestBytes.v ===== *)
(** Lists of host bytes: the bytes of a guest access in the order of their guest addresses,
    and the numbers that are read from and written to them. *)
From S2P Require Import Prelude Bitops Backend SymMemory MemOp Exec.

Fixpoint span (h : Z) (n : nat) : list Z :=
  match n with O => [] | S n => h :: span (h + 1) n end.
(** The value with the first byte highest. *)
Definition load_be (m : Mem) (l : list Z) : Z := load_list m (rev l).

Lemma host_bytes_span f bits n : ∀ a h,
  (∀ k, 0 ≤ k < Z.of_nat n → f (wrap bits (a + k)) = Some (h + k)) → host_bytes f bits n a = Some (span h n).
Proof.
  induction n as [|n IH]; intros a h H; cbn; [done|].
  rewrite <- (Z.add_0_r a) at 1. rewrite (H 0) by lia. cbn. rewrite (IH (a + 1) (h + 1)).
  - cbn. by rewrite Z.add_0_r.
  - intros k Hk. rewrite <- !Z.add_assoc. apply H. lia.
Qed.
Lemma load_list_span m n : ∀ h, load_list m (span h n) = le_join n m h.
Proof. induction n as [|n IH]; intros h; cbn; [done|]. by rewrite IH. Qed.
Lemma store_list_span n : ∀ m h v k,
  store_list m (span h n) v k = store_bytes m h (Z.of_nat n) v k.
Proof.
  induction n as [|n IH]; intros m h v k; cbn [span store_list].
  { unfold store_bytes. replace ((h <=? k) && (k <? h + Z.of_nat 0)) with false by lia. done. }
  rewrite IH. unfold store_bytes. destruct (Z.eqb_spec k h) as [->|Hne].
  - replace (h + 1 <=? h) with false by lia. replace ((h <=? h) && (h <? h + Z.of_nat (S n))) with true by lia.
    unfold byte_of. by rewrite Z.sub_diag.
  - replace ((h + 1 <=? k) && (k <? h + 1 + Z.of_nat n)) with ((h <=? k) && (k <? h + Z.of_nat (S n))) by lia.
    destruct (_ && _) eqn:E; [|done].
    unfold byte_of. rewrite Z.shiftr_shiftr by lia. do 2 f_equal. lia.
Qed.
Lemma span_S h n : span h (S n) = h :: span (h + 1) n.
Proof. done. Qed.
Lemma span_app h a b : span h (a + b) = span h a ++ span (h + Z.of_nat a) b.
Proof.
  revert h. induction a as [|a IH]; intros h; [by rewrite Z.add_0_r|]. cbn [Nat.add]. rewrite !span_S, IH. cbn. do 3 f_equal. lia.
Qed.
Lemma span_length h n : length (span h n) = n.
Proof. revert h. induction n as [|n IH]; intros h; cbn; [done|]. by rewrite IH. Qed.
Lemma load_list_app m l k : load_list m (l ++ k) = load_list m l + 2 ^ (8 * Z.of_nat (length l)) * load_list m k.
Proof.
  induction l as [|h l IH]; cbn [load_list app length]; [lia|]. rewrite IH.
  replace (8 * Z.of_nat (S (length l))) with (8 + 8 * Z.of_nat (length l)) by lia. rewrite Z.pow_add_r by lia. lia.
Qed.
Lemma load_list_range m l : bytes m → in_range (8 * Z.of_nat (length l)) (load_list m l).
Proof.
  intros Hm. induction l as [|h l [IH1 IH2]]; cbn [load_list length]; [done|]. pose proof (Hm h) as [? ?].
  replace (8 * Z.of_nat (S (length l))) with (8 + 8 * Z.of_nat (length l)) by lia. unfold in_range. rewrite Z.pow_add_r by lia. lia.
Qed.
Lemma load_be_app m l k : load_be m (l ++ k) = load_be m l * 2 ^ (8 * Z.of_nat (length k)) + load_be m k.
Proof. unfold load_be. rewrite rev_app_distr, load_list_app, length_rev. lia. Qed.
Lemma load_be_range m l : bytes m → in_range (8 * Z.of_nat (length l)) (load_be m l).
Proof. intros Hm. unfold load_be. rewrite <- length_rev. by apply load_list_range. Qed.
Lemma join_lor k x r : in_range k x → 0 ≤ k → Z.lor (Z.shiftl r k) x = r * 2 ^ k + x.
Proof.
  intros Hx Hk. rewrite <- Z.shiftl_mul_pow2 by lia. symmetry. rewrite <- Z.lxor_lor, <- Z.add_nocarry_lxor; [done|..];
    zbits; rewrite (testbit_high k x) by (done || lia); by rewrite ?andb_false_r.
Qed.
Lemma bswap_load_list m l : bytes m → bswap_bytes (length l) (load_list m l) = load_be m l.
Proof.
  intros Hm. induction l as [|h l IH]; [done|]. cbn [length bswap_bytes load_list]. pose proof (Hm h) as Hh.
  assert (E1 : wrap 8 (m h + 256 * load_list m l) = m h).
  { unfold wrap. change (2 ^ 8) with 256. rewrite Z.mul_comm, Z.mod_add by lia. by apply Z.mod_small. }
  assert (E2 : Z.shiftr (m h + 256 * load_list m l) 8 = load_list m l).
  { rewrite Z.shiftr_div_pow2 by lia. change (2 ^ 8) with 256. rewrite Z.mul_comm, Z.div_add by lia.
    rewrite Z.div_small by (destruct Hh; lia). lia. }
  rewrite E1, E2, IH. pose proof (load_be_range m l Hm). rewrite join_lor by (done || lia).
  unfold load_be. cbn [rev]. rewrite load_list_app, length_rev. cbn. lia.
Qed.
Lemma bswap_load_be m l : bytes m → bswap_bytes (length l) (load_be m l) = load_list m l.
Proof. intros Hm. rewrite <- (bswap_load_list m l Hm). apply bswap_involutive. by apply load_list_range. Qed.
Lemma load_be_span m h n : bytes m → load_be m (span h n) = bswap_bytes n (le_join n m h).
Proof. intros Hm. rewrite <- (bswap_load_list m (span h n)), span_length, load_list_span by done. done. Qed.

Lemma load_be_1 m h : load_be m (span h 1) = m h.
Proof. unfold load_be, span. cbn [seq fmap list_fmap rev app load_list]. replace (h + Z.of_nat 0) with h by lia. lia. Qed.

Lemma memop_size_pos op : 0 < memop_size op.
Proof.
  unfold memop_size. rewrite Z.shiftl_1_l. apply Z.pow_pos_nonneg; [lia|]. change MO_SIZE with (Z.ones 3).
  rewrite Z.land_ones by lia. apply Z.mod_pos_bound. lia.
Qed.

(** The size of an access and the range of its value in the order of the guest. *)
Lemma size_code n op : 0 ≤ n → Z.land op MO_SIZE = n ↔ memop_size op = 2 ^ n.
Proof.
  intros Hn. unfold memop_size. rewrite Z.shiftl_1_l.
  assert (0 ≤ Z.land op MO_SIZE) by (apply Z.land_nonneg; right; done).
  split; [by intros ->|]. intros Hp. by apply Z.pow_inj_r in Hp.
Qed.
Lemma in_order_range mop z :
  in_range (8 * memop_size mop) z → in_range (8 * memop_size mop) (in_order mop z).
Proof.
  intros Hz. unfold in_order. destruct (has mop MO_BSWAP); [|done]. pose proof (memop_size_pos mop).
  replace (8 * memop_size mop) with (8 * Z.of_nat (Z.to_nat (memop_size mop))) by lia. apply bswap_range.
Qed.
