(* ===== verification/Softmmu.v ===== *)
(** Guest accesses of system emulation ([accel/tcg/cputlb.c]): the lookup of the one or two
    pages of an access, with refills of the TLB, and the loads and stores on the pages. *)
From S2P Require Import Prelude Bitops Backend SymMemory MemOp LdstAtomicity SoftTlb.
From S2P Require Import Exec.

(** ** Lookup *)

(** A lookup finds, raises a guest exception (a [longjmp]), or fails an assertion. *)
Inductive Lookup (A : Type) : Type :=
| Found (a : A)
| Fault
| Broken.
Arguments Found {A} _.
Arguments Fault {A}.
Arguments Broken {A}.
#[export] Instance lookup_ret : MRet Lookup := λ A a, Found a.
#[export] Instance lookup_bind : MBind Lookup := λ A B f x,
  match x with Found a => f a | Fault => Fault | Broken => Broken end.

(** What the target and the rest of the machine decide: the [tlb_fill] hook, which enters a
    translation or fails; whether a watchpoint lets the access pass; whether a page is still
    clean after a write to it was recorded; and the devices behind a section. *)
Record Machine := mkMachine {
  tlb_fill_hook : Z → Z → MMUAccessType → nat → CPUTLB → option CPUTLB;
  watchpoint_passes : Z → Z → MMUAccessType → bool;
  still_clean : Z → bool;
  plugin_mem_cbs : bool;
  dispatch_read : Z → Z → Z → Host Z;
  dispatch_write : Z → Z → Z → Z → Host unit;
}.

Record MMULookupPageData := mkPageData {
  pd_full : CPUTLBEntryFull;
  pd_haddr : Z;
  pd_addr : Z;
  pd_flags : Z;
  pd_size : Z;
}.
Definition with_size (h size : Z) (p : MMULookupPageData) : MMULookupPageData :=
  mkPageData (pd_full p) h (pd_addr p) (pd_flags p) size.
Definition with_flags (fl : Z) (p : MMULookupPageData) : MMULookupPageData :=
  mkPageData (pd_full p) (pd_haddr p) (pd_addr p) fl (pd_size p).
Definition with_full (f : CPUTLBEntryFull) (p : MMULookupPageData) : MMULookupPageData :=
  mkPageData f (pd_haddr p) (pd_addr p) (pd_flags p) (pd_size p).
(** The pages, the memory operation, and the MMU index. *)
Record MMULookupLocals := mkLocals {
  page0 : MMULookupPageData;
  page1 : MMULookupPageData;
  l_memop : Z;
  l_mmu_idx : nat;
}.

Section Lookups.
Context {P : Pages} (X : Machine).

(** The entry that the lookup uses, whether [tlb_fill] was called, and the TLB after it. *)
Definition mmu_lookup1 (addr size : Z) (mmu_idx : nat) (access_type : MMUAccessType) (c : CPUTLB)
    : Lookup (MMULookupPageData * bool * CPUTLB) :=
  let t := modes c !!! mmu_idx in
  let tlb_addr := tlb_read_idx (tlb_entry t addr) access_type in
  '(c, tlb_addr, maybe_resized) ←
    (if tlb_hit tlb_addr addr then mret (c, tlb_addr, false)
     else
       match victim_tlb_hit t (Z.to_nat (tlb_index t addr)) access_type (Z.land addr TARGET_PAGE_MASK) with
       | Some t =>
           let c := with_modes (<[mmu_idx := t]> (modes c)) c in
           mret (c, without (tlb_read_idx (tlb_entry t addr) access_type) TLB_INVALID_MASK, false)
       | None =>
           match tlb_fill_hook X addr size access_type mmu_idx c with
           | Some c =>
               let t := modes c !!! mmu_idx in
               mret (c, without (tlb_read_idx (tlb_entry t addr) access_type) TLB_INVALID_MASK, true)
           | None => Fault
           end
       end);
  let t := modes c !!! mmu_idx in
  let full := fulltlb t !!! Z.to_nat (tlb_index t addr) in
  let flags := Z.lor (Z.land tlb_addr (without TLB_FLAGS_MASK TLB_FORCE_SLOW)) (slow_flags full access_type) in
  mret (mkPageData full (wrap 64 (addr + addend (tlb_entry t addr))) addr flags size, maybe_resized, c).

Definition notdirty_write (mem_vaddr : Z) (full : CPUTLBEntryFull) (c : CPUTLB) : CPUTLB :=
  let ram_addr := wrap 64 (mem_vaddr + xlat_section full) in
  if still_clean X ram_addr then c else tlb_set_dirty mem_vaddr c.

Definition mmu_watch_or_dirty (data : MMULookupPageData) (access_type : MMUAccessType) (c : CPUTLB)
    : Lookup (MMULookupPageData * CPUTLB) :=
  let flags := pd_flags data in
  flags ← (if has flags TLB_WATCHPOINT then
             if watchpoint_passes X (pd_addr data) (pd_size data) access_type then mret (without flags TLB_WATCHPOINT) else Fault
           else mret flags);
  let '(flags, c) :=
    if has flags TLB_NOTDIRTY then (without flags TLB_NOTDIRTY, notdirty_write (pd_addr data) (pd_full data) c)
    else (flags, c) in
  mret (with_flags flags data, c).

(** The size on which [TLB_CHECK_ALIGNED] checks the alignment. *)
Definition checked_size (memop : Z) : Z :=
  let size := Z.land memop MO_SIZE in
  let atom := Z.land memop MO_ATOM_MASK in
  if atom =? MO_ATOM_NONE then MO_8
  else if (atom =? MO_ATOM_IFALIGN_PAIR) || (atom =? MO_ATOM_WITHIN16_PAIR) then (if size =? 0 then 0 else size - 1)
  else size.

Definition mmu_lookup (addr oi : Z) (type : MMUAccessType) (c : CPUTLB) : Lookup (MMULookupLocals * bool * CPUTLB) :=
  let memop := get_memop oi in
  let mmu_idx := Z.to_nat (get_mmuidx oi) in
  if negb (Z.land addr (Z.ones (get_alignment_bits memop)) =? 0) then Fault
  else
    let size := memop_size memop in
    let addr1 := Z.land (wrap 64 (addr + size - 1)) TARGET_PAGE_MASK in
    let crosspage := negb (Z.land (Z.lxor addr addr1) TARGET_PAGE_MASK =? 0) in
    '(l, flags, c) ←
      (if negb crosspage then
         '(p0, _, c) ← mmu_lookup1 addr size mmu_idx type c;
         let flags := pd_flags p0 in
         '(p0, c) ← (if has flags (Z.lor TLB_WATCHPOINT TLB_NOTDIRTY) then mmu_watch_or_dirty p0 type c else mret (p0, c));
         let memop := if has flags TLB_BSWAP then Z.lxor memop MO_BSWAP else memop in
         mret (mkLocals p0 (mkPageData inhabitant 0 addr1 0 0) memop mmu_idx, flags, c)
       else
         let size0 := wrap 64 (addr1 - addr) in
         '(p0, _, c) ← mmu_lookup1 addr size0 mmu_idx type c;
         '(p1, resized, c) ← mmu_lookup1 addr1 (size - size0) mmu_idx type c;
         let t := modes c !!! mmu_idx in
         let p0 := if resized : bool then with_full (fulltlb t !!! Z.to_nat (tlb_index t addr)) p0 else p0 in
         let flags := Z.lor (pd_flags p0) (pd_flags p1) in
         '(p0, p1, c) ←
           (if has flags (Z.lor TLB_WATCHPOINT TLB_NOTDIRTY) then
              '(p0, c) ← mmu_watch_or_dirty p0 type c; '(p1, c) ← mmu_watch_or_dirty p1 type c; mret (p0, p1, c)
            else mret (p0, p1, c));
         if has flags TLB_BSWAP then Broken else mret (mkLocals p0 p1 memop mmu_idx, flags, c));
    if has flags TLB_CHECK_ALIGNED && negb (Z.land addr (Z.ones (checked_size (l_memop l))) =? 0) then Fault
    else mret (l, crosspage, c).

(** *** Probing *)

(** The flags and the host address, [None] for [NULL]. *)
Definition probe_access_internal (addr fault_size : Z) (access_type : MMUAccessType) (mmu_idx : nat) (check_mem_cbs : bool)
    (c : CPUTLB) : (Z * option Z * CPUTLBEntryFull * CPUTLB) + CPUTLB :=
  let t := modes c !!! mmu_idx in
  let tlb_addr := tlb_read_idx (tlb_entry t addr) access_type in
  let page_addr := Z.land addr TARGET_PAGE_MASK in
  let done tlb_addr allowed c :=
    let t := modes c !!! mmu_idx in
    let full := fulltlb t !!! Z.to_nat (tlb_index t addr) in
    let flags := Z.lor (Z.land allowed tlb_addr) (slow_flags full access_type) in
    if negb (without flags (Z.lor (Z.lor TLB_WATCHPOINT TLB_NOTDIRTY) TLB_CHECK_ALIGNED) =? 0)
       || (match access_type with MMU_INST_FETCH => false | _ => check_mem_cbs && plugin_mem_cbs X end)
    then inl (TLB_MMIO, None, full, c)
    else inl (flags, Some (wrap 64 (addr + addend (tlb_entry t addr))), full, c) in
  let allowed := without TLB_FLAGS_MASK TLB_FORCE_SLOW in
  if tlb_hit_page tlb_addr page_addr then done tlb_addr allowed c
  else
    match victim_tlb_hit t (Z.to_nat (tlb_index t addr)) access_type page_addr with
    | Some t => done (tlb_read_idx (tlb_entry t addr) access_type) allowed (with_modes (<[mmu_idx := t]> (modes c)) c)
    | None =>
        match tlb_fill_hook X addr fault_size access_type mmu_idx c with
        | Some c => done (tlb_read_idx (tlb_entry (modes c !!! mmu_idx) addr) access_type) (without allowed TLB_INVALID_MASK) c
        | None => inr c
        end
    end.
(** [None] for [NULL], with the TLB after the probe. *)
Definition tlb_vaddr_to_host (addr : Z) (access_type : MMUAccessType) (mmu_idx : nat) (c : CPUTLB) : option Z * CPUTLB :=
  match probe_access_internal addr 0 access_type mmu_idx false c with
  | inl (flags, host, _, c) => (if flags =? 0 then host else None, c)
  | inr c => (None, c)
  end.
End Lookups.

(** ** Loads *)

Definition bswap128 (v : Z) : Z := bswap_bytes 16 v.
(** The bytes from [h] on. *)
Definition host_byte (h : Z) : Host Z := read 1 h.

Section Accesses.
Context {P : Pages} (X : Machine) (H : HostAtomics) (cpu : LdstCpu).
Implicit Types (p : MMULookupPageData) (l : MMULookupLocals).

(** *** Devices *)

(** [io_prepare]: the section and the offset in it. *)
Definition io_prepare p (addr : Z) : Z * Z :=
  let xlat := xlat_section (pd_full p) in
  (Z.land xlat (Z.lnot TARGET_PAGE_MASK), wrap 64 (Z.land xlat TARGET_PAGE_MASK + addr)).
Fixpoint int_ld_mmio_beN (fuel : nat) (section ret_be addr size mr_offset : Z) : Host Z :=
  match fuel with
  | O => abort
  | S fuel =>
      let this_mop := ctz32 (Z.lor (Z.lor size (wrap 32 addr)) 8) in
      let this_size := Z.shiftl 1 this_mop in
      val ← dispatch_read X section mr_offset (Z.lor this_mop MO_BE);
      if this_size =? 8 then mret val
      else
        let ret_be := wrap 64 (Z.lor (Z.shiftl ret_be (this_size * 8)) val) in
        if size - this_size =? 0 then mret ret_be
        else int_ld_mmio_beN fuel section ret_be (wrap 64 (addr + this_size)) (size - this_size) (wrap 64 (mr_offset + this_size))
  end.
Definition do_ld_mmio_beN p (ret_be addr size : Z) : Host Z :=
  host_assert ((0 <? size) && (size <=? 8));;
  let '(section, mr_offset) := io_prepare p addr in
  int_ld_mmio_beN 8 section ret_be addr size mr_offset.
Definition do_ld16_mmio_beN p (ret_be addr size : Z) : Host Z :=
  host_assert ((8 <? size) && (size <=? 16));;
  let '(section, mr_offset) := io_prepare p addr in
  a ← int_ld_mmio_beN 8 section ret_be addr (size - 8) mr_offset;
  b ← int_ld_mmio_beN 8 section ret_be (wrap 64 (addr + size - 8)) 8 (wrap 64 (mr_offset + size - 8));
  mret (Z.lor b (Z.shiftl a 64)).

(** *** Memory *)

Fixpoint ld_bytes (n : nat) (h ret_be : Z) : Host Z :=
  match n with
  | O => mret ret_be
  | S n => x ← host_byte h; ld_bytes n (h + 1) (wrap 64 (Z.lor (Z.shiftl ret_be 8) x))
  end.
Definition do_ld_bytes_beN p (ret_be : Z) : Host Z := ld_bytes (Z.to_nat (pd_size p)) (pd_haddr p) ret_be.

Fixpoint ld_parts (fuel : nat) (h size ret_be : Z) : Host Z :=
  match fuel with
  | O => abort
  | S fuel =>
      let k := Z.land (Z.lor h size) 7 in
      '(n, ret_be) ←
        (if k =? 4 then x ← load_atomic4 h; mret (4, wrap 64 (Z.lor (Z.shiftl ret_be 32) (bswap32 x)))
         else if (k =? 2) || (k =? 6) then x ← load_atomic2 h; mret (2, wrap 64 (Z.lor (Z.shiftl ret_be 16) (bswap16 x)))
         else if k =? 0 then abort
         else x ← host_byte h; mret (1, wrap 64 (Z.lor (Z.shiftl ret_be 8) x)));
      if size - n =? 0 then mret ret_be else ld_parts fuel (h + n) (size - n) ret_be
  end.
Definition do_ld_parts_beN p (ret_be : Z) : Host Z := ld_parts (Z.to_nat (pd_size p)) (pd_haddr p) (pd_size p) ret_be.

Definition do_ld_whole_be4 p (ret_be : Z) : Host Z :=
  let o := Z.land (pd_addr p) 3 in
  x ← load_atomic4 (pd_haddr p - o);
  let x := wrap 32 (Z.shiftl (bswap32 x) (o * 8)) in
  let x := Z.shiftr x ((4 - pd_size p) * 8) in
  mret (wrap 64 (Z.lor (Z.shiftl ret_be (pd_size p * 8)) x)).
Definition do_ld_whole_be8 p (ret_be : Z) : Host Z :=
  let o := Z.land (pd_addr p) 7 in
  x ← load_atomic8_or_exit H cpu (pd_haddr p - o);
  let x := wrap 64 (Z.shiftl (bswap64 x) (o * 8)) in
  let x := Z.shiftr x ((8 - pd_size p) * 8) in
  mret (wrap 64 (Z.lor (Z.shiftl ret_be (pd_size p * 8)) x)).
Definition do_ld_whole_be16 p (ret_be : Z) : Host Z :=
  let o := Z.land (pd_addr p) 15 in
  y ← load_atomic16_or_exit H cpu (pd_haddr p - o);
  let y := wrap 128 (Z.shiftl (bswap128 y) (o * 8)) in
  let y := Z.shiftr y ((16 - pd_size p) * 8) in
  mret (Z.lor (wrap 128 (Z.shiftl ret_be (pd_size p * 8))) y).

(** The part of a pair that one page holds is read as a whole. *)
Definition half_size (mop : Z) : Z :=
  let tmp := Z.land mop MO_SIZE in Z.shiftl 1 (if tmp =? 0 then 0 else tmp - 1).
Definition pair_whole (atom mop size : Z) : bool :=
  if atom =? MO_ATOM_IFALIGN_PAIR then size =? half_size mop
  else if atom =? MO_ATOM_WITHIN16_PAIR then half_size mop <=? size
  else false.

Definition do_ld_beN p (ret_be mop : Z) : Host Z :=
  if has (pd_flags p) TLB_MMIO then do_ld_mmio_beN p ret_be (pd_addr p) (pd_size p)
  else
    let atom := Z.land mop MO_ATOM_MASK in
    if atom =? MO_ATOM_SUBALIGN then do_ld_parts_beN p ret_be
    else if MO_ATOM_NONE <? atom then abort
    else if pair_whole atom mop (pd_size p) then
      if negb (HAVE_al8_fast H) && (pd_size p <? 4) then do_ld_whole_be4 p ret_be else do_ld_whole_be8 p ret_be
    else do_ld_bytes_beN p ret_be.

Definition do_ld16_beN p (a mop : Z) : Host Z :=
  let size := pd_size p in
  if has (pd_flags p) TLB_MMIO then do_ld16_mmio_beN p a (pd_addr p) size
  else
    let atom := Z.land mop MO_ATOM_MASK in
    if atom =? MO_ATOM_SUBALIGN then
      a ← do_ld_parts_beN (with_size (pd_haddr p) (size - 8) p) a;
      b ← do_ld_parts_beN (with_size (pd_haddr p + (size - 8)) 8 p) 0;
      mret (Z.lor b (Z.shiftl a 64))
    else if atom =? MO_ATOM_WITHIN16_PAIR then do_ld_whole_be16 p a
    else if MO_ATOM_NONE <? atom then abort
    else
      a ← do_ld_bytes_beN (with_size (pd_haddr p) (size - 8) p) a;
      b ← copy_from 8 (pd_haddr p + size - 8);
      mret (Z.lor (bswap64 b) (Z.shiftl a 64)).

Definition do_ld_1 p : Host Z :=
  if has (pd_flags p) TLB_MMIO then v ← do_ld_mmio_beN p 0 (pd_addr p) 1; mret (wrap 8 v) else host_byte (pd_haddr p).
(** A load of [n] bytes that lie in one page, by the function for the size. *)
Definition do_ld_n (n : nat) (load : Z → Z → Host Z) p (memop : Z) : Host Z :=
  if has (pd_flags p) TLB_MMIO then
    v ← do_ld_mmio_beN p 0 (pd_addr p) (Z.of_nat n);
    let v := wrap (8 * Z.of_nat n) v in
    mret (if Z.land memop MO_BSWAP =? MO_LE then bswap_bytes n v else v)
  else
    v ← load (pd_haddr p) memop;
    mret (if has memop MO_BSWAP then bswap_bytes n v else v).
Definition do_ld_2 := do_ld_n 2 (load_atom_2 H cpu).
Definition do_ld_4 := do_ld_n 4 (load_atom_4 H cpu).
Definition do_ld_8 := do_ld_n 8 (load_atom_8 H cpu).

(** The accesses on the pages that [mmu_lookup] gave. *)
Definition do_ld1 l (crosspage : bool) : Host Z := host_assert (negb crosspage);; do_ld_1 (page0 l).
Definition do_ld2 l (crosspage : bool) : Host Z :=
  if negb crosspage then do_ld_2 (page0 l) (l_memop l)
  else
    a ← do_ld_1 (page0 l);
    b ← do_ld_1 (page1 l);
    mret (if Z.land (l_memop l) MO_BSWAP =? MO_LE then Z.lor a (Z.shiftl b 8) else Z.lor b (Z.shiftl a 8)).
Definition do_ld4 l (crosspage : bool) : Host Z :=
  if negb crosspage then do_ld_4 (page0 l) (l_memop l)
  else
    ret ← do_ld_beN (page0 l) 0 (l_memop l);
    ret ← do_ld_beN (page1 l) (wrap 32 ret) (l_memop l);
    mret (if Z.land (l_memop l) MO_BSWAP =? MO_LE then bswap32 (wrap 32 ret) else wrap 32 ret).
Definition do_ld8 l (crosspage : bool) : Host Z :=
  if negb crosspage then do_ld_8 (page0 l) (l_memop l)
  else
    ret ← do_ld_beN (page0 l) 0 (l_memop l);
    ret ← do_ld_beN (page1 l) ret (l_memop l);
    mret (if Z.land (l_memop l) MO_BSWAP =? MO_LE then bswap64 ret else ret).
Definition do_ld16 l (addr : Z) (crosspage : bool) : Host Z :=
  let le := Z.land (l_memop l) MO_BSWAP =? MO_LE in
  if negb crosspage then
    if has (pd_flags (page0 l)) TLB_MMIO then
      ret ← do_ld16_mmio_beN (page0 l) 0 addr 16; mret (if le then bswap128 ret else ret)
    else
      ret ← load_atom_16 H cpu (pd_haddr (page0 l)) (l_memop l); mret (if has (l_memop l) MO_BSWAP then bswap128 ret else ret)
  else
    let first := pd_size (page0 l) in
    if first =? 8 then
      let mop8 := Z.lor (without (l_memop l) MO_SIZE) MO_64 in
      a ← do_ld_8 (page0 l) mop8;
      b ← do_ld_8 (page1 l) mop8;
      mret (if Z.land mop8 MO_BSWAP =? MO_LE then Z.lor a (Z.shiftl b 64) else Z.lor b (Z.shiftl a 64))
    else
      ret ← (if first <? 8 then
               a ← do_ld_beN (page0 l) 0 (l_memop l);
               do_ld16_beN (page1 l) a (l_memop l)
             else
               ret ← do_ld16_beN (page0 l) 0 (l_memop l);
               let b := wrap 64 ret in
               let ret := wrap 128 (Z.shiftl ret (pd_size (page1 l) * 8)) in
               let a := Z.shiftr ret 64 in
               b ← do_ld_beN (page1 l) b (l_memop l);
               mret (Z.lor b (Z.shiftl a 64)));
      mret (if le then bswap128 ret else ret).

(** ** Stores *)

Fixpoint int_st_mmio_leN (fuel : nat) (section val_le addr size mr_offset : Z) : Host Z :=
  match fuel with
  | O => abort
  | S fuel =>
      let this_mop := ctz32 (Z.lor (Z.lor size (wrap 32 addr)) 8) in
      let this_size := Z.shiftl 1 this_mop in
      dispatch_write X section mr_offset val_le (Z.lor this_mop MO_LE);;
      if this_size =? 8 then mret 0
      else
        let val_le := Z.shiftr val_le (this_size * 8) in
        if size - this_size =? 0 then mret val_le
        else int_st_mmio_leN fuel section val_le (wrap 64 (addr + this_size)) (size - this_size) (wrap 64 (mr_offset + this_size))
  end.
Definition do_st_mmio_leN p (val_le addr size : Z) : Host Z :=
  host_assert ((0 <? size) && (size <=? 8));;
  let '(section, mr_offset) := io_prepare p addr in
  int_st_mmio_leN 8 section val_le addr size mr_offset.
Definition do_st16_mmio_leN p (val_le addr size : Z) : Host Z :=
  host_assert ((8 <? size) && (size <=? 16));;
  let '(section, mr_offset) := io_prepare p addr in
  int_st_mmio_leN 8 section (wrap 64 val_le) addr 8 mr_offset;;
  int_st_mmio_leN 8 section (Z.shiftr val_le 64) (wrap 64 (addr + 8)) (size - 8) (wrap 64 (mr_offset + 8)).

Definition do_st_leN p (val_le mop : Z) : Host Z :=
  if has (pd_flags p) TLB_MMIO then do_st_mmio_leN p val_le (pd_addr p) (pd_size p)
  else if has (pd_flags p) TLB_DISCARD_WRITE then mret (Z.shiftr val_le (pd_size p * 8))
  else
    let atom := Z.land mop MO_ATOM_MASK in
    if atom =? MO_ATOM_SUBALIGN then store_parts_leN (pd_haddr p) (pd_size p) val_le
    else if MO_ATOM_NONE <? atom then abort
    else if pair_whole atom mop (pd_size p) then
      if negb (HAVE_al8_fast H) && (pd_size p <=? 4) then store_whole_le4 (pd_haddr p) (pd_size p) val_le
      else if HAVE_al8 H then store_whole_le8 H (pd_haddr p) (pd_size p) val_le
      else exit_atomic
    else store_bytes_leN (pd_haddr p) (Z.to_nat (pd_size p)) val_le.

Definition do_st16_leN p (val_le mop : Z) : Host Z :=
  let size := pd_size p in
  if has (pd_flags p) TLB_MMIO then do_st16_mmio_leN p val_le (pd_addr p) size
  else if has (pd_flags p) TLB_DISCARD_WRITE then mret (Z.shiftr (Z.shiftr val_le 64) ((size - 8) * 8))
  else
    let atom := Z.land mop MO_ATOM_MASK in
    if atom =? MO_ATOM_SUBALIGN then
      store_parts_leN (pd_haddr p) 8 (wrap 64 val_le);;
      store_parts_leN (pd_haddr p + 8) (size - 8) (Z.shiftr val_le 64)
    else if atom =? MO_ATOM_WITHIN16_PAIR then
      if negb (HAVE_CMPXCHG128 H) then exit_atomic else store_whole_le16 H (pd_haddr p) size val_le
    else if MO_ATOM_NONE <? atom then abort
    else
      copy_to 8 (pd_haddr p) (wrap 64 val_le);;
      store_bytes_leN (pd_haddr p + 8) (Z.to_nat (size - 8)) (Z.shiftr val_le 64).

Definition do_st_1 p (val : Z) : Host unit :=
  if has (pd_flags p) TLB_MMIO then do_st_mmio_leN p val (pd_addr p) 1;; mret tt
  else if has (pd_flags p) TLB_DISCARD_WRITE then mret tt
  else write 1 (pd_haddr p) val.
(** A store of [n] bytes that lie in one page, by the function for the size. *)
Definition do_st_n (n : nat) (store : Z → Z → Z → Host unit) p (val memop : Z) : Host unit :=
  if has (pd_flags p) TLB_MMIO then
    let val := if Z.land memop MO_BSWAP =? MO_LE then val else bswap_bytes n val in
    do_st_mmio_leN p val (pd_addr p) (Z.of_nat n);; mret tt
  else if has (pd_flags p) TLB_DISCARD_WRITE then mret tt
  else store (pd_haddr p) memop (if has memop MO_BSWAP then bswap_bytes n val else val).
Definition do_st_2 := do_st_n 2 (store_atom_2 H cpu).
Definition do_st_4 := do_st_n 4 (store_atom_4 H cpu).
Definition do_st_8 := do_st_n 8 (store_atom_8 H cpu).

Definition do_st1 l (val : Z) (crosspage : bool) : Host unit := host_assert (negb crosspage);; do_st_1 (page0 l) val.
Definition do_st2 l (val : Z) (crosspage : bool) : Host unit :=
  if negb crosspage then do_st_2 (page0 l) val (l_memop l)
  else
    let '(a, b) :=
      if Z.land (l_memop l) MO_BSWAP =? MO_LE then (wrap 8 val, wrap 8 (Z.shiftr val 8)) else (wrap 8 (Z.shiftr val 8), wrap 8 val) in
    do_st_1 (page0 l) a;; do_st_1 (page1 l) b.
Definition do_st4 l (val : Z) (crosspage : bool) : Host unit :=
  if negb crosspage then do_st_4 (page0 l) val (l_memop l)
  else
    let val := if Z.land (l_memop l) MO_BSWAP =? MO_LE then val else bswap32 val in
    val ← do_st_leN (page0 l) val (l_memop l);
    do_st_leN (page1 l) (wrap 32 val) (l_memop l);; mret tt.
Definition do_st8 l (val : Z) (crosspage : bool) : Host unit :=
  if negb crosspage then do_st_8 (page0 l) val (l_memop l)
  else
    let val := if Z.land (l_memop l) MO_BSWAP =? MO_LE then val else bswap64 val in
    val ← do_st_leN (page0 l) val (l_memop l);
    do_st_leN (page1 l) val (l_memop l);; mret tt.
Definition do_st16 l (addr val : Z) (crosspage : bool) : Host unit :=
  let le := Z.land (l_memop l) MO_BSWAP =? MO_LE in
  if negb crosspage then
    if has (pd_flags (page0 l)) TLB_MMIO then
      do_st16_mmio_leN (page0 l) (if le then val else bswap128 val) addr 16;; mret tt
    else if has (pd_flags (page0 l)) TLB_DISCARD_WRITE then mret tt
    else store_atom_16 H cpu (pd_haddr (page0 l)) (l_memop l) (if has (l_memop l) MO_BSWAP then bswap128 val else val)
  else
    let first := pd_size (page0 l) in
    if first =? 8 then
      let mop8 := Z.lor (without (l_memop l) (Z.lor MO_SIZE MO_BSWAP)) MO_64 in
      let val := if has (l_memop l) MO_BSWAP then bswap128 val else val in
      do_st_8 (page0 l) (wrap 64 val) mop8;; do_st_8 (page1 l) (Z.shiftr val 64) mop8
    else
      let val := if le then val else bswap128 val in
      if first <? 8 then
        do_st_leN (page0 l) (wrap 64 val) (l_memop l);;
        do_st16_leN (page1 l) (Z.shiftr val (first * 8)) (l_memop l);; mret tt
      else
        b ← do_st16_leN (page0 l) val (l_memop l);
        do_st_leN (page1 l) b (l_memop l);; mret tt.
End Accesses.

(** ** The helpers *)

(** A lookup and the access on the pages, with the TLB after the lookup. *)
Section Helpers.
Context {P : Pages} (X : Machine) (H : HostAtomics) (cpu : LdstCpu).

Definition do_ld_mmu (access : MMULookupLocals → bool → Host Z) (addr oi : Z) (access_type : MMUAccessType) (c : CPUTLB)
    : Lookup (Host Z * CPUTLB) :=
  '(l, crosspage, c) ← mmu_lookup X addr oi access_type c; mret (access l crosspage, c).
Definition do_ld1_mmu := do_ld_mmu (do_ld1 X).
Definition do_ld2_mmu := do_ld_mmu (do_ld2 X H cpu).
Definition do_ld4_mmu := do_ld_mmu (do_ld4 X H cpu).
Definition do_ld8_mmu := do_ld_mmu (do_ld8 X H cpu).
Definition do_ld16_mmu (addr oi : Z) (c : CPUTLB) : Lookup (Host Z * CPUTLB) :=
  do_ld_mmu (λ l, do_ld16 X H cpu l addr) addr oi MMU_DATA_LOAD c.

Definition do_st_mmu (access : MMULookupLocals → Z → bool → Host unit) (addr val oi : Z) (c : CPUTLB)
    : Lookup (Host unit * CPUTLB) :=
  '(l, crosspage, c) ← mmu_lookup X addr oi MMU_DATA_STORE c; mret (access l val crosspage, c).
Definition do_st1_mmu := do_st_mmu (do_st1 X).
Definition do_st2_mmu := do_st_mmu (do_st2 X H cpu).
Definition do_st4_mmu := do_st_mmu (do_st4 X H cpu).
Definition do_st8_mmu := do_st_mmu (do_st8 X H cpu).
Definition do_st16_mmu (addr val oi : Z) (c : CPUTLB) : Lookup (Host unit * CPUTLB) :=
  do_st_mmu (λ l, do_st16 X H cpu l addr) addr val oi c.
End Helpers.
