(* ===== verification/SoftmmuSpec.v ===== *)
(** The loads and stores of [Softmmu] on pages of memory: an access that crosses a page
    reads and writes the bytes of both parts in the order of the guest. *)
From S2P Require Import Prelude Bitops Backend SymMemory MemOp LdstAtomicity LdstAtomicitySpec SoftTlb.
From S2P Require Import Exec GuestBytes Softmmu.

(** ** A piece of a word *)

(** The bytes [o] to [o + s] of a word of [W] bytes. *)
Lemma bswap_piece (W o s : nat) v :
  (o + s ≤ W)%nat → (0 < s)%nat →
  Z.shiftr (wrap (8 * Z.of_nat W) (Z.shiftl (bswap_bytes W v) (8 * Z.of_nat o))) (8 * (Z.of_nat W - Z.of_nat s))
  = bswap_bytes s (Z.shiftr v (8 * Z.of_nat o)).
Proof.
  intros HW Hs. apply Z.bits_inj'. intros i Hi. rewrite Z.shiftr_spec, testbit_wrap, testbit_bswap by lia.
  destruct (Z.ltb_spec i (8 * Z.of_nat s)); cbn.
  - replace (i + 8 * (Z.of_nat W - Z.of_nat s) <? 8 * Z.of_nat W) with true by lia. cbn.
    rewrite Z.shiftl_spec, testbit_bswap by lia. set (j := i + 8 * (Z.of_nat W - Z.of_nat s) - 8 * Z.of_nat o).
    replace (j <? 8 * Z.of_nat W) with true by lia. cbn. rewrite Z.shiftr_spec by mlia. f_equal. unfold j. mlia.
  - by replace (i + 8 * (Z.of_nat W - Z.of_nat s) <? 8 * Z.of_nat W) with false by lia.
Qed.
Lemma whole_piece (W o s : nat) m b :
  bytes m → (o + s ≤ W)%nat → (0 < s)%nat →
  Z.shiftr (wrap (8 * Z.of_nat W) (Z.shiftl (bswap_bytes W (le_join W m b)) (8 * Z.of_nat o))) (8 * (Z.of_nat W - Z.of_nat s))
  = load_be m (span (b + Z.of_nat o) s).
Proof.
  intros Hm HW Hs. rewrite bswap_piece, load_be_span by done. rewrite <- (le_join_piece W o s m b) by done.
  by rewrite bswap_wrap by lia.
Qed.

(** ** Loads of a part *)

(** The bytes of a part appended to what was read before, in 64 bits. *)
Definition joined (r : Z) (m : Mem) (h : Z) (n : nat) : Z := wrap 64 (r * 2 ^ (8 * Z.of_nat n) + load_be m (span h n)).
Lemma joined_step r m h a b : joined (joined r m h a) m (h + Z.of_nat a) b = joined r m h (a + b).
Proof.
  unfold joined. rewrite <- wrap_add_l by lia. rewrite <- (wrap_mul 64 (wrap 64 _)), wrap_wrap, wrap_mul, wrap_add_l by lia.
  rewrite span_app, load_be_app, span_length. f_equal. rewrite Nat2Z.inj_add, Z.mul_add_distr_l, Z.pow_add_r by lia. lia.
Qed.
Lemma joined_lor r m h n :
  bytes m → wrap 64 (Z.lor (Z.shiftl r (8 * Z.of_nat n)) (load_be m (span h n))) = joined r m h n.
Proof. intros Hm. pose proof (load_be_range m (span h n) Hm) as Hr. rewrite span_length in Hr. by rewrite join_lor by (done || lia). Qed.
Lemma joined_small r m h n k :
  bytes m → in_range (8 * k) r → 0 ≤ k → 8 * (k + Z.of_nat n) ≤ 64 → joined r m h n = r * 2 ^ (8 * Z.of_nat n) + load_be m (span h n).
Proof.
  intros Hm [Hr1 Hr2] Hk Hn. pose proof (load_be_range m (span h n) Hm) as [H1 H2]. rewrite span_length in H2. unfold joined.
  assert (2 ^ (8 * k) * 2 ^ (8 * Z.of_nat n) ≤ 2 ^ 64) by (rewrite <- Z.pow_add_r by lia; apply Z.pow_le_mono_r; lia).
  apply wrap_small. split; nia.
Qed.

Section Parts.
Context {P : Pages} (X : Machine) (H : HostAtomics) (cpu : LdstCpu) {E : Prop}.
Implicit Types (p : MMULookupPageData) (m : Mem) (Q : Z → Mem → list HostAccess → Prop).

Lemma hwp_ld_bytes n h r m Q :
  bytes m → Q (joined r m h n) m (tiles 1 h n) → in_range 64 r → hwp E (ld_bytes n h r) m Q.
Proof.
  intros Hm. revert h r Q. induction n as [|n IH]; intros h r Q HQ Hr; cbn [ld_bytes].
  - apply hwp_ret. unfold joined in HQ. cbn in HQ. by rewrite Z.mul_1_r, Z.add_0_r, wrap_small in HQ.
  - apply hwp_bind, hwp_read. change (le_join (Z.to_nat 1) m h) with (m h + 2 ^ 8 * 0). rewrite Z.mul_0_r, Z.add_0_r.
    apply IH; [|auto with range]. cbn [app]. rewrite <- tiles_S. pose proof (joined_lor r m h 1 Hm) as E1.
    rewrite load_be_1 in E1. change (8 * Z.of_nat 1) with 8 in E1. rewrite E1. replace (h + 1) with (h + Z.of_nat 1) by lia. by rewrite joined_step.
Qed.

(** One round of the loads by parts. *)
Lemma hwp_ld_parts fuel h n r m Q :
  bytes m → in_range 64 r → 0 < n ≤ 8 → (n = 8 → h mod 8 ≠ 0) → n ≤ Z.of_nat fuel →
  (∀ l, parts_within l h n → inside h (h + n) l → Q (joined r m h (Z.to_nat n)) m l) →
  hwp E (ld_parts fuel h n r) m Q.
Proof.
  intros Hm. revert h n r Q. induction fuel as [|fuel IH]; intros h n r Q Hr Hn H8 Hf HQ; [lia|].
  assert (Hrest : ∀ k, 0 < k ≤ n → (∀ w, w = 1 ∨ w = 2 ∨ w = 4 → h mod w = 0 → n mod w = 0 → k mod w = 0) →
    hwp E (if n - k =? 0 then mret (joined r m h (Z.to_nat k)) else ld_parts fuel (h + k) (n - k) (joined r m h (Z.to_nat k)))
      m (λ v m' l, Q v m' ((h, k) :: l))).
  { intros k Hk Hw. destruct (Z.eqb_spec (n - k) 0) as [En|En].
    - assert (n = k) as -> by lia. apply hwp_ret, HQ; [|by apply inside_one; lia].
      apply parts_step; [lia|done|]. intros w j Hv _ _ Hj Hjn. nia.
    - apply IH; [unfold joined; auto with range|lia|lia|lia|]. intros l Hl Hi.
      replace (h + k) with (h + Z.of_nat (Z.to_nat k)) by lia. rewrite joined_step.
      replace (Z.to_nat k + Z.to_nat (n - k))%nat with (Z.to_nat n) by lia. apply HQ; [by apply parts_step|].
      constructor; [lia|]. revert Hi. apply List.Forall_impl. intros [b q]. lia. }
  cbn [ld_parts]. pose proof (part_code h n Hn H8) as Hc. cbv zeta in Hc.
  set (c := Z.land (Z.lor h n) 7) in *. clearbody c.
  destruct (Z.eqb_spec c 4) as [->|N4].
  { destruct Hc as [Hc|[Hc|Hc]]; [|lia|lia]. apply hwp_bind, hwp_bind, hwp_load4; [lia|]. apply hwp_ret.
    pose proof (joined_lor r m h 4 Hm) as E1. rewrite load_be_span in E1 by done. change (8 * Z.of_nat 4) with 32 in E1. unfold bswap32.
    rewrite E1. apply (Hrest 4); [mlia|]. intros w [->|[->| ->]] _ _; done. }
  destruct (decide (c = 2 ∨ c = 6)) as [N2|N2].
  { replace ((c =? 2) || (c =? 6)) with true by lia. destruct Hc as [Hc|[Hc|Hc]]; [lia| |lia].
    apply hwp_bind, hwp_bind, hwp_load2; [lia|]. apply hwp_ret.
    pose proof (joined_lor r m h 2 Hm) as E1. rewrite load_be_span in E1 by done. change (8 * Z.of_nat 2) with 16 in E1. unfold bswap16.
    rewrite E1. apply (Hrest 2); [mlia|]. intros w [->|[->| ->]]; [done|done|lia]. }
  replace ((c =? 2) || (c =? 6)) with false by lia. replace (c =? 0) with false by lia.
  apply hwp_bind, hwp_bind, hwp_read. change (le_join (Z.to_nat 1) m h) with (m h + 2 ^ 8 * 0). rewrite Z.mul_0_r, Z.add_0_r. apply hwp_ret.
  pose proof (joined_lor r m h 1 Hm) as E1. rewrite load_be_1 in E1. change (8 * Z.of_nat 1) with 8 in E1. rewrite E1.
  apply (Hrest 1); [lia|]. intros w [->|[->| ->]] Hp Hq; [done|lia|mlia].
Qed.

(** A part in memory that starts or ends at a page boundary. *)
Record part_ok p : Prop := {
  part_ram : has (pd_flags p) TLB_MMIO = false;
  part_size : 1 ≤ pd_size p ≤ 15;
  part_offset : pd_haddr p mod 16 = pd_addr p mod 16;
  part_edge : pd_addr p mod 16 = 0 ∨ (pd_addr p + pd_size p) mod 16 = 0;
}.
(** The bytes of the part. *)
Definition part_bytes p : list Z := span (pd_haddr p) (Z.to_nat (pd_size p)).
Definition part_joined (r : Z) m p : Z := joined r m (pd_haddr p) (Z.to_nat (pd_size p)).

Lemma whole_joined (W : nat) o r m p :
  bytes m → 0 ≤ o → 1 ≤ pd_size p → o + pd_size p ≤ Z.of_nat W →
  wrap 64 (Z.lor (Z.shiftl r (pd_size p * 8))
    (Z.shiftr (wrap (8 * Z.of_nat W) (Z.shiftl (bswap_bytes W (le_join W m (pd_haddr p - o))) (o * 8))) ((Z.of_nat W - pd_size p) * 8)))
  = part_joined r m p.
Proof.
  intros Hm Ho Hs HW. rewrite (Z.mul_comm _ 8), (Z.mul_comm o), (Z.mul_comm (_ - _)).
  pose proof (whole_piece W (Z.to_nat o) (Z.to_nat (pd_size p)) m (pd_haddr p - o) Hm ltac:(lia) ltac:(lia)) as E1.
  rewrite !Z2Nat.id in E1 by lia. rewrite E1. replace (pd_haddr p - o + o) with (pd_haddr p) by lia.
  pose proof (joined_lor r m (pd_haddr p) (Z.to_nat (pd_size p)) Hm) as E2. rewrite Z2Nat.id in E2 by lia. exact E2.
Qed.
Lemma hwp_ld_whole4 r p m Q :
  bytes m → part_ok p → pd_size p ≤ 4 → Q (part_joined r m p) m [(floor 4 (pd_haddr p), 4)] → hwp E (do_ld_whole_be4 p r) m Q.
Proof.
  intros Hm [_ Hs Ho He] H4 HQ. unfold do_ld_whole_be4. rewrite land_3.
  assert (Eo : pd_addr p mod 4 = pd_haddr p mod 4) by mlia. rewrite Eo.
  apply hwp_bind, hwp_load4; [mlia|]. apply hwp_ret. unfold bswap32.
  rewrite (whole_joined 4) by (done || mlia). done.
Qed.
Lemma hwp_ld_whole8 r p m Q :
  (HAVE_al8 H = false → E) → bytes m → part_ok p → pd_size p ≤ 8 → Q (part_joined r m p) m [(floor 8 (pd_haddr p), 8)] →
  hwp E (do_ld_whole_be8 H cpu p r) m Q.
Proof.
  intros HE Hm [_ Hs Ho He] H4 HQ. unfold do_ld_whole_be8. rewrite land_7.
  assert (Eo : pd_addr p mod 8 = pd_haddr p mod 8) by mlia. rewrite Eo.
  apply hwp_bind, hwp_load8_or_exit; [done|mlia|]. apply hwp_ret. unfold bswap64.
  rewrite (whole_joined 8) by (done || mlia). done.
Qed.

(** The atomicity of a part: its aligned parts, or the half of a pair that it holds. *)
Definition part_atomic (mop : Z) p (l : list HostAccess) : Prop :=
  (Z.land mop MO_ATOM_MASK = MO_ATOM_SUBALIGN → parts_within l (pd_haddr p) (pd_size p)) ∧
  (pair_whole (Z.land mop MO_ATOM_MASK) mop (pd_size p) = true → within l (pd_haddr p) (pd_size p)).
(** The accesses stay in the 16 bytes of the part. *)
Definition part_inside p (l : list HostAccess) : Prop := inside (floor 16 (pd_haddr p)) (floor 16 (pd_haddr p) + 16) l.
Lemma part_block p : part_ok p → floor 16 (pd_haddr p) ≤ pd_haddr p ∧ pd_haddr p + pd_size p ≤ floor 16 (pd_haddr p) + 16.
Proof. intros [_ Hs Ho He]. mlia. Qed.
Lemma inside_weaken F L F' L' l : inside F L l → F' ≤ F → L ≤ L' → inside F' L' l.
Proof. intros Hi H1 H2. revert Hi. apply List.Forall_impl. intros [b k]. lia. Qed.

Lemma hwp_ld_beN r p mop m Q :
  (HAVE_al8 H = false → E) → bytes m → in_range 64 r → part_ok p → pd_size p ≤ 7 → 0 ≤ Z.land mop MO_ATOM_MASK ≤ MO_ATOM_NONE →
  (∀ l, part_atomic mop p l → part_inside p l → Q (part_joined r m p) m l) → hwp E (do_ld_beN X H cpu p r mop) m Q.
Proof.
  intros HE Hm Hr Hp H7 Ha HQ. pose proof (part_block p Hp) as [B1 B2]. pose proof Hp as [Hmm Hs Ho He]. unfold do_ld_beN. rewrite Hmm.
  destruct (Z.eqb_spec (Z.land mop MO_ATOM_MASK) MO_ATOM_SUBALIGN) as [Es|Es].
  { apply hwp_ld_parts; [done|done|lia|lia|lia|]. intros l Hl Hi. apply HQ; [|by eapply inside_weaken; [exact Hi|lia..]].
    split; [done|]. rewrite Es. by unfold pair_whole. }
  replace (MO_ATOM_NONE <? Z.land mop MO_ATOM_MASK) with false by lia.
  destruct (pair_whole (Z.land mop MO_ATOM_MASK) mop (pd_size p)) eqn:Epw.
  - destruct (negb (HAVE_al8_fast H) && (pd_size p <? 4)) eqn:Ef.
    + apply andb_prop in Ef as [_ Ef]. apply hwp_ld_whole4; [done|done|lia|]. apply HQ.
      * split; [done|]. intros _. apply within_one; mlia.
      * apply inside_one; mlia.
    + apply hwp_ld_whole8; [done|done|done|lia|]. apply HQ.
      * split; [done|]. intros _. apply within_one; mlia.
      * apply inside_one; mlia.
  - apply hwp_ld_bytes; [done| |done]. apply HQ; [split; [done|by rewrite Epw]|]. apply tiles_inside; lia.
Qed.

Lemma span_split h n k : 0 ≤ k ≤ n → span h (Z.to_nat n) = span h (Z.to_nat k) ++ span (h + k) (Z.to_nat (n - k)).
Proof.
  intros Hk. replace (Z.to_nat n) with (Z.to_nat k + Z.to_nat (n - k))%nat by lia. rewrite span_app. do 2 f_equal. lia.
Qed.
(** The two 64-bit halves of a part of more than eight bytes. *)
Lemma wide_halves a m p :
  bytes m → 8 < pd_size p ≤ 16 → in_range (8 * (16 - pd_size p)) a →
  Z.lor (load_be m (span (pd_haddr p + (pd_size p - 8)) 8)) (Z.shiftl (joined a m (pd_haddr p) (Z.to_nat (pd_size p - 8))) 64)
  = a * 2 ^ (8 * pd_size p) + load_be m (part_bytes p).
Proof.
  intros Hm Hs Ha. rewrite Z.lor_comm.
  pose proof (load_be_range m (span (pd_haddr p + (pd_size p - 8)) 8) Hm) as Hb. rewrite span_length in Hb.
  rewrite join_lor by (done || lia). rewrite (joined_small _ _ _ _ (16 - pd_size p)) by (done || lia).
  unfold part_bytes. rewrite (span_split (pd_haddr p) (pd_size p) (pd_size p - 8)) by lia.
  replace (pd_size p - (pd_size p - 8)) with 8 by lia. rewrite load_be_app, span_length, Z2Nat.id by lia.
  change (8 * Z.of_nat (Z.to_nat 8)) with 64. change (Z.to_nat 8) with 8%nat. replace (2 ^ (8 * pd_size p)) with (2 ^ (8 * (pd_size p - 8)) * 2 ^ 64); [ring|].
  rewrite <- Z.pow_add_r by lia. f_equal. lia.
Qed.
Lemma parts_app h a b l1 l2 :
  0 ≤ a → a mod 4 = 0 ∨ b mod 4 = 0 → parts_within l1 h a → parts_within l2 (h + a) b → parts_within (l1 ++ l2) h (a + b).
Proof.
  intros Ha Hb H1 H2 w j Hw Hh Hn Hj Hl.
  assert (Haw : a mod w = 0 ∧ b mod w = 0 ∧ (h + a) mod w = 0) by (destruct Hb, Hw as [->|[->| ->]]; mlia).
  destruct Haw as (Ea & Eb & Eh). destruct (Z.le_gt_cases ((j + 1) * w) a); [by apply within_left, H1|]. apply within_right.
  assert (Hk : a = a / w * w) by (destruct Hw as [->|[->| ->]]; mlia). assert (0 < w) by lia.
  replace (h + j * w) with (h + a + (j - a / w) * w) by lia. apply H2; [done|done|done|nia|nia].
Qed.
Lemma hwp_ld16_beN a p mop m Q :
  (HAVE_ATOMIC128_RW H = false → E) → bytes m → part_ok p → 8 < pd_size p → in_range (8 * (16 - pd_size p)) a → 0 ≤ Z.land mop MO_ATOM_MASK ≤ MO_ATOM_NONE →
  (Z.land mop MO_ATOM_MASK = MO_ATOM_SUBALIGN → (pd_haddr p + pd_size p) mod 8 ≠ 0) → half_size mop = 8 →
  (∀ l, part_atomic mop p l → part_inside p l → Q (a * 2 ^ (8 * pd_size p) + load_be m (part_bytes p)) m l) →
  hwp E (do_ld16_beN X H cpu p a mop) m Q.
Proof.
  intros HE Hm Hp H8 Hr Ha Hsub Hh HQ. pose proof (part_block p Hp) as [B1 B2]. pose proof Hp as [Hmm Hs Ho He]. unfold do_ld16_beN. rewrite Hmm.
  assert (Hr64 : in_range 64 a) by (eapply in_range_le; [|exact Hr]; lia).
  destruct (Z.eqb_spec (Z.land mop MO_ATOM_MASK) MO_ATOM_SUBALIGN) as [Es|Es].
  { specialize (Hsub Es). apply hwp_bind. unfold do_ld_parts_beN. cbn [pd_size pd_haddr with_size].
    apply hwp_ld_parts; [done|done|lia|lia|lia|]. intros l1 A1 I1. apply hwp_bind, hwp_ld_parts; [done|done|lia|intros _; mlia|lia|].
    intros l2 A2 I2. apply hwp_ret. rewrite app_nil_r. unfold joined at 1. cbn [Z.mul]. rewrite Z.add_0_l.
    pose proof (load_be_range m (span (pd_haddr p + (pd_size p - 8)) 8) Hm) as Hb. rewrite span_length in Hb.
    rewrite wrap_small by done. change (Z.to_nat 8) with 8%nat. rewrite wide_halves by (done || lia). apply HQ.
    { split; [intros _|by rewrite Es]. replace (pd_size p) with (pd_size p - 8 + 8) by lia. by apply parts_app; [lia|by right|..]. }
    apply inside_app; [eapply inside_weaken; [exact I1|lia..]|eapply inside_weaken; [exact I2|lia..]]. }
  destruct (Z.eqb_spec (Z.land mop MO_ATOM_MASK) MO_ATOM_WITHIN16_PAIR) as [Ew|Ew].
  { unfold do_ld_whole_be16. rewrite land_15. rewrite <- Ho. apply hwp_bind, hwp_load16_or_exit; [done|mlia|]. apply hwp_ret.
    set (o := pd_haddr p mod 16) in *. assert (Hoo : 0 ≤ o) by (apply Z.mod_pos_bound; lia).
    rewrite (Z.mul_comm _ 8), (Z.mul_comm o), (Z.mul_comm (_ - _)).
    pose proof (whole_piece 16 (Z.to_nat o) (Z.to_nat (pd_size p)) m (pd_haddr p - o) Hm ltac:(mlia) ltac:(lia)) as E1.
    rewrite !Z2Nat.id in E1 by lia. unfold bswap128. change (8 * Z.of_nat 16) with 128 in E1. change (Z.of_nat 16) with 16 in E1.
    rewrite E1. replace (pd_haddr p - o + o) with (pd_haddr p) by lia. fold (part_bytes p).
    pose proof (load_be_range m (part_bytes p) Hm) as Hb. unfold part_bytes in Hb at 1. rewrite span_length, Z2Nat.id in Hb by lia.
    rewrite wrap_small; [rewrite join_lor by (done || lia); apply HQ; [split; [done|]; intros _; apply within_one; mlia|apply inside_one; mlia]|].
    rewrite Z.shiftl_mul_pow2 by lia. destruct Hr as [R1 R2]. assert (2 ^ (8 * (16 - pd_size p)) * 2 ^ (8 * pd_size p) = 2 ^ 128).
    { rewrite <- Z.pow_add_r by lia. f_equal. lia. }
    pose proof (Z.pow_pos_nonneg 2 (8 * pd_size p)). split; nia. }
  replace (MO_ATOM_NONE <? Z.land mop MO_ATOM_MASK) with false by lia.
  apply hwp_bind. unfold do_ld_bytes_beN. cbn [pd_size pd_haddr with_size]. apply hwp_ld_bytes; [done| |done].
  apply hwp_bind. unfold copy_from, hwp at 1. apply hwp_ret. rewrite app_nil_r.
  replace (pd_haddr p + pd_size p - 8) with (pd_haddr p + (pd_size p - 8)) by lia. unfold bswap64. change (Z.to_nat 8) with 8%nat.
  rewrite <- load_be_span by done. rewrite wide_halves by (done || lia).
  assert (Hnw : pair_whole (Z.land mop MO_ATOM_MASK) mop (pd_size p) = false).
  { unfold pair_whole. rewrite Hh. destruct (_ =? MO_ATOM_IFALIGN_PAIR); [lia|]. by replace (_ =? MO_ATOM_WITHIN16_PAIR) with false by lia. }
  apply HQ; [split; [done|by rewrite Hnw]|]. apply inside_app.
  - apply tiles_inside; lia.
  - apply bytes_inside; lia.
Qed.

(** ** Loads that cross a page *)

(** The two parts of an access of [n] bytes: the first one ends where a page ends, the
    second one starts where a page starts. *)
Record split_ok (l : MMULookupLocals) (n : Z) : Prop := {
  split_first : part_ok (page0 l);
  split_second : part_ok (page1 l);
  split_end : (pd_addr (page0 l) + pd_size (page0 l)) mod 16 = 0;
  split_start : pd_addr (page1 l) mod 16 = 0;
  split_size : pd_size (page0 l) + pd_size (page1 l) = n;
  split_code : memop_size (l_memop l) = n;
  split_atom : 0 ≤ Z.land (l_memop l) MO_ATOM_MASK ≤ MO_ATOM_NONE;
}.
Definition split_bytes (l : MMULookupLocals) : list Z := part_bytes (page0 l) ++ part_bytes (page1 l).
(** Each part is read or written by accesses of its own, in its 16 bytes, which are as
    atomic as the code asks for; eight bytes are if the host has 64-bit accesses. *)
Definition part_log (mop : Z) p (log : list HostAccess) : Prop :=
  part_inside p log ∧ (pd_size p ≠ 8 ∨ HAVE_al8 H = true → part_atomic mop p log).
Definition split_log (l : MMULookupLocals) (log : list HostAccess) : Prop :=
  ∃ l0 l1, log = l0 ++ l1 ∧ part_log (l_memop l) (page0 l) l0 ∧ part_log (l_memop l) (page1 l) l1.
Definition loaded_split (l : MMULookupLocals) (m : Mem) (v : Z) (m' : Mem) (log : list HostAccess) : Prop :=
  v = in_order (l_memop l) (load_list m (split_bytes l)) ∧ m' = m ∧ split_log l log.

Lemma split_length l n : split_ok l n → length (split_bytes l) = Z.to_nat n.
Proof.
  intros [[_ S0 _ _] [_ S1 _ _] _ _ Hn _ _]. unfold split_bytes, part_bytes. rewrite length_app, !span_length. lia.
Qed.
Lemma bswap_flag mop : (Z.land mop MO_BSWAP =? MO_LE) = negb (has mop MO_BSWAP).
Proof. unfold has. by rewrite negb_involutive. Qed.
Lemma in_order_be l n m :
  bytes m → split_ok l n →
  in_order (l_memop l) (load_list m (split_bytes l)) =
    if Z.land (l_memop l) MO_BSWAP =? MO_LE then bswap_bytes (Z.to_nat n) (load_be m (split_bytes l)) else load_be m (split_bytes l).
Proof.
  intros Hm Hs. unfold in_order. rewrite (split_code _ _ Hs), bswap_flag, <- (split_length l n Hs).
  rewrite bswap_load_be, bswap_load_list by done. by destruct (has _ _).
Qed.
Lemma part_range p m : bytes m → 0 ≤ pd_size p → in_range (8 * pd_size p) (load_be m (part_bytes p)).
Proof.
  intros Hm Hs. pose proof (load_be_range m (part_bytes p) Hm) as Hr. unfold part_bytes in Hr at 1. by rewrite span_length, Z2Nat.id in Hr.
Qed.
Lemma part_joined_small r m p k :
  bytes m → 0 ≤ pd_size p → in_range (8 * k) r → 0 ≤ k → 8 * (k + pd_size p) ≤ 64 →
  part_joined r m p = r * 2 ^ (8 * pd_size p) + load_be m (part_bytes p).
Proof.
  intros Hm Hs Hr Hk Hn. unfold part_joined. rewrite (joined_small _ _ _ _ k) by (done || lia). by rewrite Z2Nat.id.
Qed.
Lemma split_load_be l n m :
  split_ok l n → load_be m (split_bytes l) = load_be m (part_bytes (page0 l)) * 2 ^ (8 * pd_size (page1 l)) + load_be m (part_bytes (page1 l)).
Proof.
  intros [_ [_ S1 _ _] _ _ _ _ _]. unfold split_bytes. rewrite load_be_app. unfold part_bytes at 2. by rewrite span_length, Z2Nat.id by lia.
Qed.

(** The two reads by which the loads of four and eight bytes gather the value. *)
Lemma hwp_split (f : Z → Z) l n m :
  (HAVE_al8 H = false → E) → bytes m → split_ok l n → n ≤ 8 → (∀ v, in_range (8 * n) v → f v = v) →
  hwp E (do_ld_beN X H cpu (page0 l) 0 (l_memop l)) m (λ r m' l0,
    hwp E (do_ld_beN X H cpu (page1 l) (f r) (l_memop l)) m' (λ v m'' l1,
      v = load_be m (split_bytes l) ∧ m'' = m ∧ split_log l (l0 ++ l1))).
Proof.
  intros HE Hm Hs Hn Hf. pose proof Hs as [P0 P1 _ _ Hsz _ Ha]. pose proof (part_size _ P0). pose proof (part_size _ P1).
  apply hwp_ld_beN; [done|done|done|done|lia|done|]. intros l0 A0 I0.
  pose proof (part_range (page0 l) m Hm ltac:(lia)) as R0.
  rewrite (part_joined_small 0 m (page0 l) 0) by (done || lia). rewrite Z.mul_0_l, Z.add_0_l.
  rewrite Hf by (eapply in_range_le; [|exact R0]; lia).
  apply hwp_ld_beN; [done|done|eapply in_range_le; [|exact R0]; lia|done|lia|done|]. intros l1 A1 I1.
  rewrite (part_joined_small _ m (page1 l) (pd_size (page0 l))) by (done || lia). rewrite <- (split_load_be l n) by done.
  split; [done|]. split; [done|]. by exists l0, l1.
Qed.

Lemma do_ld2_split l m :
  bytes m → split_ok l 2 → hwp E (do_ld2 X H cpu l true) m (loaded_split l m).
Proof.
  intros Hm Hs. pose proof Hs as [P0 P1 _ _ Hsz _ Ha]. pose proof (part_size _ P0). pose proof (part_size _ P1).
  unfold do_ld2, do_ld_1. cbn [negb]. rewrite (part_ram _ P0), (part_ram _ P1). apply hwp_bind, hwp_read, hwp_bind, hwp_read, hwp_ret.
  split; [|split; [done|]].
  - rewrite (in_order_be l 2) by done.
    assert (E0 : ∀ p, pd_size p = 1 → load_be m (part_bytes p) = m (pd_haddr p)) by (intros p E1; unfold part_bytes; rewrite E1; apply load_be_1).
    rewrite (split_load_be l 2), !E0 by (done || lia). replace (pd_size (page1 l)) with 1 by lia.
    change (Z.to_nat 1) with 1%nat. cbn [le_join]. rewrite !Z.mul_0_r, !Z.add_0_r.
    pose proof (Hm (pd_haddr (page0 l))) as R0. pose proof (Hm (pd_haddr (page1 l))) as R1.
    assert (Ej : ∀ a b, in_range 8 a → in_range 8 b → Z.lor a (Z.shiftl b 8) = bswap_bytes 2 (a * 2 ^ (8 * 1) + b)).
    { intros a b Ra Rb. rewrite <- (join_lor 8) by (done || lia). unfold bswap_bytes. zbits;
        rewrite ?(testbit_high 8 a), ?(testbit_high 8 b) by (done || lia); zbits. }
    destruct (_ =? MO_LE); [by apply Ej|]. rewrite Z.lor_comm. by apply join_lor.
  - exists [(pd_haddr (page0 l), 1)], [(pd_haddr (page1 l), 1)]. split; [by rewrite app_nil_r|].
    pose proof (part_block _ P0). pose proof (part_block _ P1).
    assert (Hlog : ∀ p, pd_size p = 1 → part_ok p → part_log (l_memop l) p [(pd_haddr p, 1)]).
    { intros p E1 Pp. pose proof (part_block _ Pp). split; [apply inside_one; lia|]. intros _. split; intros _.
      - rewrite E1. intros w j [->|[->| ->]] _ ? ? ?; [|mlia|mlia]. apply within_one; lia.
      - rewrite E1. apply within_one; lia. }
    split; apply Hlog; (done || lia).
Qed.
Lemma do_ld4_split l m :
  (HAVE_al8 H = false → E) → bytes m → split_ok l 4 → hwp E (do_ld4 X H cpu l true) m (loaded_split l m).
Proof.
  intros HE Hm Hs. unfold do_ld4. cbn [negb]. apply hwp_bind. eapply hwp_mono; [|apply (hwp_split (wrap 32) l 4); [done|done|done|lia|]].
  - intros r m' l0 Hr. apply hwp_bind. eapply hwp_mono; [|exact Hr]. intros v m'' l1 (-> & -> & Hlog). apply hwp_ret.
    rewrite app_nil_r. split; [|done]. rewrite (in_order_be l 4) by done.
    pose proof (load_be_range m (split_bytes l) Hm) as R. rewrite (split_length l 4 Hs) in R. by rewrite wrap_small.
  - intros v Hv. by apply wrap_small.
Qed.
Lemma do_ld8_split l m :
  (HAVE_al8 H = false → E) → bytes m → split_ok l 8 → hwp E (do_ld8 X H cpu l true) m (loaded_split l m).
Proof.
  intros HE Hm Hs. unfold do_ld8. cbn [negb]. apply hwp_bind. eapply hwp_mono; [|apply (hwp_split id l 8); [done|done|done|lia|done]].
  intros r m' l0 Hr. apply hwp_bind. eapply hwp_mono; [|exact Hr]. intros v m'' l1 (-> & -> & Hlog). apply hwp_ret.
  rewrite app_nil_r. split; [|done]. by rewrite (in_order_be l 8).
Qed.

(** *** Sixteen bytes *)

Lemma land_ldiff_disjoint a b c : Z.land b c = 0 → Z.land (Z.ldiff a b) c = Z.land a c.
Proof.
  intros Hd. apply Z.bits_inj'. intros i Hi. apply (f_equal (λ z, Z.testbit z i)) in Hd. rewrite Z.bits_0 in Hd.
  rewrite !Z.land_spec, Z.ldiff_spec in *. destruct (Z.testbit a i), (Z.testbit b i), (Z.testbit c i); done.
Qed.
Lemma mop8_codes memop :
  let mop8 := Z.lor (without memop MO_SIZE) MO_64 in
  Z.land mop8 MO_SIZE = 3 ∧ Z.land mop8 MO_ATOM_MASK = Z.land memop MO_ATOM_MASK ∧ Z.land mop8 MO_BSWAP = Z.land memop MO_BSWAP.
Proof.
  intros mop8. unfold mop8, without. rewrite !Z.land_lor_distr_l. split; [|split].
  - replace (Z.land (Z.ldiff memop MO_SIZE) MO_SIZE) with 0; [done|]. symmetry. apply Z.bits_inj'. intros i Hi.
    rewrite Z.land_spec, Z.ldiff_spec, Z.bits_0. by destruct (Z.testbit memop i), (Z.testbit MO_SIZE i).
  - rewrite land_ldiff_disjoint by done. apply Z.lor_0_r.
  - rewrite land_ldiff_disjoint by done. apply Z.lor_0_r.
Qed.
Lemma whole_atomic mop p : part_atomic mop p [(pd_haddr p, pd_size p)].
Proof.
  split; intros _; [|apply within_one; lia]. intros w j Hw _ _ Hj Hl. apply within_one; destruct Hw as [->|[->| ->]]; lia.
Qed.
Lemma split_list l n m :
  split_ok l n → load_list m (split_bytes l) = load_list m (part_bytes (page0 l)) + 2 ^ (8 * pd_size (page0 l)) * load_list m (part_bytes (page1 l)).
Proof.
  intros [[_ S0 _ _] _ _ _ _ _ _]. unfold split_bytes. rewrite load_list_app. unfold part_bytes at 2. by rewrite span_length, Z2Nat.id by lia.
Qed.
Lemma wide_low v b k :
  0 ≤ k ≤ 64 → in_range k b → in_range (128 - k) v →
  Z.lor (wrap 64 (Z.lor (Z.shiftl (wrap 64 v) k) b)) (Z.shiftl (Z.shiftr (wrap 128 (Z.shiftl v k)) 64) 64) = v * 2 ^ k + b.
Proof.
  intros Hk Hb Hv. rewrite <- (join_lor k) by (done || lia). apply Z.bits_inj'. intros i Hi.
  rewrite !Z.lor_spec, testbit_wrap, Z.lor_spec, !Z.shiftl_spec by lia.
  destruct (Z.ltb_spec i 64); cbn.
  - rewrite (Z.testbit_neg_r _ (i - 64)), orb_false_r by lia. f_equal. destruct (Z.ltb_spec i k); [by rewrite !Z.testbit_neg_r by lia|].
    rewrite testbit_wrap by lia. by replace (i - k <? 64) with true by lia.
  - rewrite Z.shiftr_spec, testbit_wrap, Z.shiftl_spec by lia. replace (i - 64 + 64) with i by lia.
    rewrite (testbit_high k b), orb_false_r by (done || lia). destruct (Z.ltb_spec i 128); [done|]. cbn.
    by rewrite (testbit_high (128 - k) v) by (done || lia).
Qed.
Lemma half_16 mop : memop_size mop = 16 → half_size mop = 8.
Proof.
  intros Hs. assert (E4 : Z.land mop MO_SIZE = 4); [|unfold half_size; by rewrite E4].
  unfold memop_size in Hs. rewrite Z.shiftl_1_l in Hs. change 16 with (2 ^ 4) in Hs. apply Z.pow_inj_r in Hs; [done|lia| |lia].
  change MO_SIZE with (Z.ones 3). rewrite Z.land_ones by lia. apply Z.mod_pos_bound. lia.
Qed.

Context (HH : host_ok H) (Hsys : user_only cpu = false).

(** Eight aligned bytes, in one access where the host has it. *)
Lemma hwp_load8_aligned (h memop : Z) m Q :
  (HAVE_al8 H = false → E) → h mod 8 = 0 → bytes m → atomic_code 3 memop →
  (∀ l, inside h (h + 8) l → (HAVE_al8 H = true → l = [(h, 8)]) → Q (le_join 8 m h) m l) → hwp E (load_atom_8 H cpu h memop) m Q.
Proof.
  intros HE Hp Hm Hc HQ. unfold load_atom_8. rewrite land_7. replace (h mod 8 =? 0) with true by lia. rewrite !andb_true_r.
  destruct (HAVE_al8 H) eqn:E8; cbn [negb].
  { apply hwp_load8; [done|done|]. apply HQ; [apply inside_one; lia|done]. }
  destruct (HAVE_ATOMIC128_RO H) eqn:Ro.
  { pose proof (al8_of_cas _ HH (cas_of_rw _ HH (rw_of_ro _ HH Ro))) as E8'. by rewrite E8' in E8. }
  destruct (HAVE_al8_fast H) eqn:Ef; [pose proof (al8_of_fast _ HH Ef) as E8'; by rewrite E8' in E8|].
  destruct (required_known cpu 3 h memop m ltac:(lia) Hc) as (a & Ha & Hr & _). eapply hwp_known; [exact Ha|].
  assert (Hin : ∀ k b, h ≤ b → b + k ≤ h + 8 → ∀ l, inside h (h + 8) l → inside h (h + 8) ((b, k) :: l)) by (intros; by constructor).
  destruct (Z.eqb_spec a MO_64) as [->|N64]; [unfold load_atomic8_or_exit; rewrite E8, Hsys; by apply hwp_bind, hwp_bind, hwp_exit, HE|].
  destruct (Z.eqb_spec a MO_8) as [->|N8]; [apply HQ; [apply bytes_inside; lia|done]|].
  destruct (Z.eqb_spec a MO_16) as [->|N16].
  { apply hwp_8_by_2; [done|mlia|]. apply HQ; [|done]. do 4 (apply Hin; [lia|lia|]). constructor. }
  destruct (Z.eqb_spec a MO_32) as [->|N32].
  { apply hwp_8_by_4; [done|mlia|]. apply HQ; [|done]. do 2 (apply Hin; [lia|lia|]). constructor. }
  assert (a = - MO_32) as ->.
  { unfold MO_8, MO_16, MO_32, MO_64 in *. destruct Hr as [[Hr _]|[[-> _]|[-> _]]]; [lia|done|done]. }
  by apply hwp_exit, HE.
Qed.

Lemma exit_al8 : (HAVE_ATOMIC128_RW H = false → E) → HAVE_al8 H = false → E.
Proof.
  intros HE E8. apply HE. destruct (HAVE_ATOMIC128_RW H) eqn:Ew; [|done].
  pose proof (al8_of_cas _ HH (cas_of_rw _ HH Ew)) as E8'. by rewrite E8' in E8.
Qed.
Lemma hwp_ld_8 p mop mop' m Q :
  (HAVE_al8 H = false → E) → bytes m → part_ok p → pd_size p = 8 → atomic_code 3 mop' →
  (∀ l, part_log mop p l → Q (if has mop' MO_BSWAP then load_be m (part_bytes p) else load_list m (part_bytes p)) m l) →
  hwp E (do_ld_8 X H cpu p mop') m Q.
Proof.
  intros HE Hm Hp H8 Hc HQ. pose proof (part_block p Hp) as [B1 B2]. pose proof Hp as [Hr _ Ho He].
  unfold do_ld_8, do_ld_n. rewrite Hr. apply hwp_bind, hwp_load8_aligned; [done|mlia|done|done|]. intros l Hl Hl8. apply hwp_ret.
  rewrite app_nil_r. unfold part_bytes in HQ. rewrite H8 in HQ. change (Z.to_nat 8) with 8%nat in HQ.
  rewrite load_be_span, load_list_span in HQ by done. apply HQ. split; [eapply inside_weaken; [exact Hl|lia..]|].
  intros [|Ha]; [done|]. rewrite (Hl8 Ha). pose proof (whole_atomic mop p) as A. by rewrite H8 in A.
Qed.

(** The halves of the value where the pages share it evenly. *)
Lemma do_ld16_even l a m :
  (HAVE_al8 H = false → E) → bytes m → split_ok l 16 → pd_size (page0 l) = 8 → hwp E (do_ld16 X H cpu l a true) m (loaded_split l m).
Proof.
  intros HE Hm Hs H8. pose proof Hs as [P0 P1 _ _ Hsz Hc Ha]. destruct (mop8_codes (l_memop l)) as (M1 & M2 & M3).
  unfold do_ld16. cbn [negb]. rewrite H8. cbn [Z.eqb Pos.eqb]. set (mop8 := Z.lor (without (l_memop l) MO_SIZE) MO_64) in *.
  assert (Hcode : atomic_code 3 mop8) by (split; [done|by rewrite M2]).
  apply hwp_bind, (hwp_ld_8 (page0 l) (l_memop l)); [done..|]. intros l0 L0.
  apply hwp_bind, (hwp_ld_8 (page1 l) (l_memop l)); [done|done|done|lia|done|]. intros l1 L1. apply hwp_ret. rewrite app_nil_r.
  split; [|split; [done|by exists l0, l1]]. rewrite bswap_flag. unfold has. rewrite M3. fold (has (l_memop l) MO_BSWAP).
  unfold in_order. rewrite Hc. destruct (has (l_memop l) MO_BSWAP); cbn [negb].
  - rewrite <- (split_length l 16 Hs), bswap_load_list by done. rewrite (split_load_be l 16) by done. rewrite Z.lor_comm.
    replace (pd_size (page1 l)) with 8 by lia. apply (join_lor 64); [|lia].
    pose proof (part_range (page1 l) m Hm ltac:(lia)) as R. by replace (pd_size (page1 l)) with 8 in R by lia.
  - rewrite (split_list l 16) by done. rewrite H8, Z.lor_comm. change (8 * 8) with 64. rewrite (join_lor 64); [lia| |lia].
    pose proof (load_list_range m (part_bytes (page0 l)) Hm) as R. unfold part_bytes in R at 1. by rewrite span_length, H8 in R.
Qed.

Lemma do_ld16_split l a m :
  (HAVE_ATOMIC128_RW H = false → E) → bytes m → split_ok l 16 →
  (Z.land (l_memop l) MO_ATOM_MASK = MO_ATOM_SUBALIGN → pd_size (page0 l) ≤ 8) →
  hwp E (do_ld16 X H cpu l a true) m (loaded_split l m).
Proof.
  intros HE Hm Hs Hsub. pose proof (exit_al8 HE) as HE8. pose proof Hs as [P0 P1 He0 He1 Hsz Hc Ha].
  pose proof (part_size _ P0) as S0. pose proof (part_size _ P1) as S1. pose proof (half_16 _ Hc) as Hh.
  pose proof (part_offset _ P0) as O0. pose proof (part_offset _ P1) as O1.
  destruct (Z.eq_dec (pd_size (page0 l)) 8) as [H8|N8]; [by apply do_ld16_even|]. unfold do_ld16. cbn [negb].
  replace (pd_size (page0 l) =? 8) with false by lia.
  pose proof (part_range (page0 l) m Hm ltac:(lia)) as R0. pose proof (part_range (page1 l) m Hm ltac:(lia)) as R1.
  apply hwp_bind. eapply (hwp_mono _ _ (λ v m' log, v = load_be m (split_bytes l) ∧ m' = m ∧ split_log l log)).
  { intros v m' log (-> & -> & Hlog). apply hwp_ret. rewrite app_nil_r. split; [|done]. by rewrite (in_order_be l 16). }
  destruct (Z.ltb_spec (pd_size (page0 l)) 8).
  - apply hwp_bind, hwp_ld_beN; [done|done|done|done|lia|done|]. intros l0 A0 I0.
    rewrite (part_joined_small 0 m (page0 l) 0) by (done || lia). rewrite Z.mul_0_l, Z.add_0_l.
    apply hwp_ld16_beN; [done|done|done|lia|by replace (16 - pd_size (page1 l)) with (pd_size (page0 l)) by lia|done|intros _; mlia|done|].
    intros l1 A1 I1. split; [by rewrite (split_load_be l 16)|]. split; [done|]. by exists l0, l1.
  - apply hwp_bind, hwp_ld16_beN; [done|done|done|lia|split; [lia|apply Z.pow_pos_nonneg; lia]|done|lia|done|]. intros l0 A0 I0.
    rewrite Z.mul_0_l, Z.add_0_l. set (v0 := load_be m (part_bytes (page0 l))) in *.
    apply hwp_bind, hwp_ld_beN; [done|done|auto with range|done|lia|done|]. intros l1 A1 I1. apply hwp_ret. rewrite app_nil_r.
    split; [|split; [done|by exists l0, l1]]. rewrite (split_load_be l 16) by done. fold v0.
    unfold part_joined. rewrite <- joined_lor, Z2Nat.id, (Z.mul_comm (pd_size (page1 l)) 8) by (done || lia).
    apply wide_low; [lia|done|eapply in_range_le; [|exact R0]; lia].
Qed.
End Parts.
