(* ===== verification/SoftmmuStoreSpec.v ===== *)
(** The stores of [Softmmu] that cross a page: the bytes of both parts are written in the
    order of the guest. *)
From S2P Require Import Prelude Bitops Backend SymMemory MemOp LdstAtomicity LdstAtomicitySpec SoftTlb.
From S2P Require Import Exec GuestBytes Softmmu SoftmmuSpec.

Lemma store_list_app m l k v : store_list m (l ++ k) v = store_list (store_list m l v) k (Z.shiftr v (8 * Z.of_nat (length l))).
Proof.
  revert m v. induction l as [|h l IH]; intros m v; cbn [app store_list length]; [by rewrite Z.shiftr_0_r|].
  rewrite IH, Z.shiftr_shiftr by lia. do 2 f_equal. lia.
Qed.
Lemma store_list_ext m m' l v : (∀ k, m k = m' k) → ∀ k, store_list m l v k = store_list m' l v k.
Proof.
  revert m m' v. induction l as [|h l IH]; intros m m' v He k; cbn [store_list]; [done|]. apply IH. intros j. by rewrite He.
Qed.

Section Stores.
Context {P : Pages} (X : Machine) (H : HostAtomics) (cpu : LdstCpu) {E : Prop} (HH : host_ok H).
Implicit Types (p : MMULookupPageData) (m : Mem) (Q : Z → Mem → list HostAccess → Prop) (l : MMULookupLocals).

(** A part that is not read-only memory. *)
Definition part_writable p : Prop := part_ok p ∧ has (pd_flags p) TLB_DISCARD_WRITE = false.
(** The value has no bits above the part, or the part reaches the end of its words. *)
Definition part_fits p (v : Z) : Prop := in_range (8 * pd_size p) v ∨ (pd_addr p + pd_size p) mod 16 = 0.
Definition part_stored m p (v : Z) (m' : Mem) : Prop := stored m (pd_haddr p) (pd_size p) v m'.

Lemma hwp_st_leN v p mop m Q :
  (HAVE_al8 H = false → E) → bytes m → part_writable p → part_fits p v → pd_size p ≤ 7 →
  0 ≤ Z.land mop MO_ATOM_MASK ≤ MO_ATOM_NONE →
  (∀ m' log, part_stored m p v m' → part_log H mop p log → Q (Z.shiftr v (8 * pd_size p)) m' log) →
  hwp E (do_st_leN X H p v mop) m Q.
Proof.
  intros HE Hm [Hp Hd] Hf H7 Ha HQ. pose proof (part_block p Hp) as [B1 B2]. pose proof Hp as [Hmm Hs Ho He].
  unfold do_st_leN. rewrite Hmm, Hd. destruct (Z.eqb_spec (Z.land mop MO_ATOM_MASK) MO_ATOM_SUBALIGN) as [Es|Es].
  { apply hwp_parts; [lia|lia|lia|]. intros m' log Hst Hl Hi. apply HQ; [done|]. split; [by eapply inside_weaken; [exact Hi|lia..]|].
    intros _. split; [done|]. by rewrite Es. }
  replace (MO_ATOM_NONE <? Z.land mop MO_ATOM_MASK) with false by lia.
  assert (Hfit : ∀ W, W = 4 ∨ W = 8 → pd_size p ≤ W → fits W (pd_haddr p mod W) (pd_size p) v).
  { intros W HW Hsw. unfold fits. destruct Hf as [Hf|Hf], HW as [->| ->]; (split; [mlia|]; split; [lia|]; split; [mlia|]; (by left) || (right; mlia)). }
  destruct (pair_whole (Z.land mop MO_ATOM_MASK) mop (pd_size p)) eqn:Epw.
  - destruct (negb (HAVE_al8_fast H) && (pd_size p <=? 4)) eqn:Ef.
    + apply andb_prop in Ef as [_ Ef]. apply hwp_whole4; [done|apply Hfit; lia|]. intros m' Hst. apply HQ; [done|].
      split; [apply inside_one; mlia|]. intros _. split; [done|]. intros _. apply within_one; mlia.
    + destruct (HAVE_al8 H) eqn:E8; [|by apply hwp_exit, HE]. apply hwp_whole8; [done|done|apply Hfit; lia|]. intros m' Hst. apply HQ; [done|].
      split; [apply inside_one; mlia|]. intros _. split; [done|]. intros _. apply within_one; mlia.
  - apply hwp_bytes. rewrite Z2Nat.id by lia. intros m' Hst. apply HQ; [done|]. split; [apply tiles_inside; lia|].
    intros _. split; [done|]. by rewrite Epw.
Qed.

Lemma hwp_st16_leN v p mop m Q :
  (HAVE_CMPXCHG128 H = false → E) → bytes m → part_writable p → part_fits p v → 8 < pd_size p →
  0 ≤ Z.land mop MO_ATOM_MASK ≤ MO_ATOM_NONE → half_size mop = 8 →
  (Z.land mop MO_ATOM_MASK = MO_ATOM_SUBALIGN → pd_haddr p mod 8 ≠ 0) →
  (∀ m' log, part_stored m p v m' → part_log H mop p log → Q (Z.shiftr v (8 * pd_size p)) m' log) →
  hwp E (do_st16_leN X H p v mop) m Q.
Proof.
  intros HE Hm [Hp Hd] Hf H8 Ha Hh Hsub HQ. pose proof (part_block p Hp) as [B1 B2]. pose proof Hp as [Hmm Hs Ho He].
  unfold do_st16_leN. rewrite Hmm, Hd.
  assert (Hjoin : ∀ m1 m2, stored m (pd_haddr p) 8 (wrap 64 v) m1 →
    stored m1 (pd_haddr p + 8) (pd_size p - 8) (Z.shiftr v 64) m2 → part_stored m p v m2).
  { intros m1 m2 S1 S2. unfold part_stored. replace (pd_size p) with (8 + (pd_size p - 8)) by lia.
    apply stored_wrap in S1; [|lia|lia]. by apply (stored_app m _ 8 _ v m1); [lia|lia|..]. }
  assert (Hret : Z.shiftr (Z.shiftr v 64) (8 * (pd_size p - 8)) = Z.shiftr v (8 * pd_size p)).
  { rewrite Z.shiftr_shiftr by lia. f_equal. lia. }
  destruct (Z.eqb_spec (Z.land mop MO_ATOM_MASK) MO_ATOM_SUBALIGN) as [Es|Es].
  { apply hwp_bind, hwp_parts; [lia|intros _; by apply Hsub|lia|]. intros m1 l1 S1 A1 I1. apply hwp_parts; [lia|lia|lia|].
    intros m2 l2 S2 A2 I2. rewrite Hret. apply HQ; [by eapply Hjoin|]. split.
    - apply inside_app; [eapply inside_weaken; [exact I1|lia..]|eapply inside_weaken; [exact I2|lia..]].
    - intros _. split; [intros _|by rewrite Es].
      replace (pd_size p) with (8 + (pd_size p - 8)) by lia. by apply parts_app; [lia|by left|..]. }
  destruct (Z.eqb_spec (Z.land mop MO_ATOM_MASK) MO_ATOM_WITHIN16_PAIR) as [Ew|Ew].
  { destruct (HAVE_CMPXCHG128 H) eqn:E16; cbn [negb]; [|by apply hwp_exit, HE]. apply hwp_whole16; [done|done| |].
    - split; [mlia|]. split; [lia|]. split; [mlia|]. destruct Hf as [Hf|Hf]; [by left|right; mlia].
    - intros m' S. replace (pd_size p <=? 8) with false by lia. apply HQ; [done|]. split; [apply inside_one; mlia|].
      intros _. split; [by rewrite Ew|]. intros _. apply within_one; mlia. }
  replace (MO_ATOM_NONE <? Z.land mop MO_ATOM_MASK) with false by lia.
  apply hwp_bind. unfold copy_to, hwp at 1. apply hwp_bytes. rewrite Z2Nat.id by lia. intros m2 S2. rewrite Hret.
  apply HQ; [by eapply Hjoin|]. split; [apply inside_app; [apply bytes_inside; lia|apply tiles_inside; lia]|].
  intros _. split; [done|]. unfold pair_whole. rewrite Hh. destruct (_ =? MO_ATOM_IFALIGN_PAIR); [lia|].
  by replace (_ =? MO_ATOM_WITHIN16_PAIR) with false by lia.
Qed.

(** ** Stores that cross a page *)

Record split_store_ok l (n : Z) : Prop := {
  store_split_ok : split_ok l n;
  store_first : part_writable (page0 l);
  store_second : part_writable (page1 l);
}.
Definition stored_split l m (v : Z) (m' : Mem) (log : list HostAccess) : Prop :=
  (∀ k, m' k = store_list m (split_bytes l) (in_order (l_memop l) v) k) ∧ split_log H l log.

Lemma split_stored l n m m1 m2 v :
  split_ok l n → part_stored m (page0 l) v m1 → part_stored m1 (page1 l) (Z.shiftr v (8 * pd_size (page0 l))) m2 →
  ∀ k, m2 k = store_list m (split_bytes l) v k.
Proof.
  intros [[_ S0 _ _] [_ S1 _ _] _ _ _ _ _] H1 H2 k. unfold split_bytes, part_bytes. rewrite store_list_app.
  rewrite span_length, Z2Nat.id by lia. rewrite (store_list_ext _ m1).
  - rewrite store_list_span, Z2Nat.id by lia. apply H2.
  - intros j. rewrite store_list_span, Z2Nat.id by lia. symmetry. apply H1.
Qed.
Lemma part_stored_bytes m p v m' : bytes m → part_stored m p v m' → bytes m'.
Proof. apply stored_bytes. Qed.

(** The two writes by which the stores of four and eight bytes put the value. *)
Lemma hwp_split_store (f : Z → Z) l n m v :
  (HAVE_al8 H = false → E) → bytes m → split_store_ok l n → n ≤ 8 → in_range (8 * n) v → (∀ u, in_range (8 * n) u → f u = u) →
  hwp E (do_st_leN X H (page0 l) v (l_memop l)) m (λ r m1 log0,
    hwp E (do_st_leN X H (page1 l) (f r) (l_memop l)) m1 (λ _ m2 log1,
      (∀ k, m2 k = store_list m (split_bytes l) v k) ∧ split_log H l (log0 ++ log1))).
Proof.
  intros HE Hm [Hs W0 W1] Hn Hv Hf. pose proof Hs as [P0 P1 He0 _ Hsz _ Ha]. pose proof (part_size _ P0). pose proof (part_size _ P1).
  apply hwp_st_leN; [done|done|done|by right|lia|done|]. intros m1 l0 S0 L0.
  assert (R1 : in_range (8 * pd_size (page1 l)) (Z.shiftr v (8 * pd_size (page0 l)))).
  { replace (8 * pd_size (page1 l)) with (8 * n - 8 * pd_size (page0 l)) by lia. apply shiftr_fits; [lia|done]. }
  rewrite Hf by (eapply in_range_le; [|exact R1]; lia).
  apply hwp_st_leN; [done|by eapply part_stored_bytes|done|by left|lia|done|]. intros m2 l1 S1 L1. split; [by eapply split_stored|].
  by exists l0, l1.
Qed.

Lemma split_in_order l n v : split_ok l n → in_range (8 * n) v → in_range (8 * n) (in_order (l_memop l) v).
Proof. intros Hs. rewrite <- (split_code _ _ Hs). apply in_order_range. Qed.

Lemma do_st4_split l m v :
  (HAVE_al8 H = false → E) → bytes m → split_store_ok l 4 → in_range 32 v →
  hwp E (do_st4 X H cpu l v true) m (λ _, stored_split l m v).
Proof.
  intros HE Hm Hs Hv. unfold do_st4. cbn [negb].
  assert (Eo : (if Z.land (l_memop l) MO_BSWAP =? MO_LE then v else bswap32 v) = in_order (l_memop l) v).
  { unfold in_order. rewrite (split_code _ _ (store_split_ok _ _ Hs)), bswap_flag. by destruct (has _ _). }
  rewrite Eo. pose proof (split_in_order l 4 v (store_split_ok _ _ Hs) Hv) as Hr. apply hwp_bind.
  eapply hwp_mono; [|apply (hwp_split_store (wrap 32) l 4); [done|done|done|lia|done|intros u Hu; by apply wrap_small]].
  intros r m1 l0 Hr1. apply hwp_bind. eapply hwp_mono; [|exact Hr1]. intros r2 m2 l1 [S L]. apply hwp_ret. by rewrite app_nil_r.
Qed.
Lemma do_st8_split l m v :
  (HAVE_al8 H = false → E) → bytes m → split_store_ok l 8 → in_range 64 v →
  hwp E (do_st8 X H cpu l v true) m (λ _, stored_split l m v).
Proof.
  intros HE Hm Hs Hv. unfold do_st8. cbn [negb].
  assert (Eo : (if Z.land (l_memop l) MO_BSWAP =? MO_LE then v else bswap64 v) = in_order (l_memop l) v).
  { unfold in_order. rewrite (split_code _ _ (store_split_ok _ _ Hs)), bswap_flag. by destruct (has _ _). }
  rewrite Eo. pose proof (split_in_order l 8 v (store_split_ok _ _ Hs) Hv) as Hr. apply hwp_bind.
  eapply hwp_mono; [|apply (hwp_split_store id l 8); [done|done|done|lia|done|done]].
  intros r m1 l0 Hr1. apply hwp_bind. eapply hwp_mono; [|exact Hr1]. intros r2 m2 l1 [S L]. apply hwp_ret. by rewrite app_nil_r.
Qed.
Lemma hwp_st_1 p v m (Q : unit → Mem → list HostAccess → Prop) :
  part_writable p → pd_size p = 1 → (∀ m', part_stored m p v m' → Q tt m' [(pd_haddr p, 1)]) →
  hwp E (do_st_1 X p (wrap 8 v)) m Q.
Proof.
  intros [Hp Hd] H1 HQ. unfold do_st_1. rewrite (part_ram _ Hp), Hd. apply hwp_write; [lia|lia|]. intros m' S. apply HQ.
  unfold part_stored. by rewrite H1.
Qed.
Lemma byte_log_ok mop p : part_ok p → pd_size p = 1 → part_log H mop p [(pd_haddr p, 1)].
Proof.
  intros Hp H1. pose proof (part_block p Hp). split; [apply inside_one; lia|]. intros _.
  pose proof (whole_atomic mop p) as A. by rewrite H1 in A.
Qed.
Lemma do_st2_split l m v :
  bytes m → split_store_ok l 2 → in_range 16 v → hwp E (do_st2 X H cpu l v true) m (λ _, stored_split l m v).
Proof.
  intros Hm [Hs W0 W1] Hv. pose proof Hs as [P0 P1 _ _ Hsz Hc _]. pose proof (part_size _ P0). pose proof (part_size _ P1).
  assert (Eo : (if Z.land (l_memop l) MO_BSWAP =? MO_LE then (wrap 8 v, wrap 8 (Z.shiftr v 8)) else (wrap 8 (Z.shiftr v 8), wrap 8 v))
    = (wrap 8 (in_order (l_memop l) v), wrap 8 (Z.shiftr (in_order (l_memop l) v) 8))).
  { unfold in_order. rewrite Hc, bswap_flag. destruct (has _ _); cbn [negb]; [|done]. change (Z.to_nat 2) with 2%nat. cbn [bswap_bytes].
    f_equal; zbits. }
  unfold do_st2. cbn [negb]. rewrite Eo. apply hwp_bind, hwp_st_1; [done|lia|]. intros m1 S1. apply hwp_st_1; [done|lia|]. intros m2 S2.
  split; [|exists [(pd_haddr (page0 l), 1)], [(pd_haddr (page1 l), 1)]; split; [done|]; split; apply byte_log_ok; (done || lia)].
  eapply split_stored; [done|done|]. by replace (pd_size (page0 l)) with 1 by lia.
Qed.

(** *** Sixteen bytes *)

Lemma hwp_store8_aligned (h memop v : Z) m (Q : unit → Mem → list HostAccess → Prop) :
  (HAVE_al8 H = false → E) → h mod 8 = 0 → atomic_code 3 memop →
  (∀ m' log, stored m h 8 v m' → inside h (h + 8) log → (HAVE_al8 H = true → log = [(h, 8)]) → Q tt m' log) →
  hwp E (store_atom_8 H cpu h memop v) m Q.
Proof.
  intros HE Hp Hc HQ. unfold store_atom_8. rewrite land_7. replace (h mod 8 =? 0) with true by lia. rewrite !andb_true_r.
  destruct (HAVE_al8 H) eqn:E8; cbn [negb].
  { apply hwp_store8; [done|done|]. intros m' S. apply HQ; [done|apply inside_one; lia|done]. }
  destruct (required_known cpu 3 h memop m ltac:(lia) Hc) as (a & Ha & Hr & _). eapply hwp_known; [exact Ha|].
  assert (Hin : ∀ k b, h ≤ b → b + k ≤ h + 8 → ∀ log, inside h (h + 8) log → inside h (h + 8) ((b, k) :: log)) by (intros; by constructor).
  destruct (Z.eqb_spec a MO_8) as [->|N8]; [apply HQ; [done|apply bytes_inside; lia|done]|].
  destruct (Z.eqb_spec a MO_16) as [->|N16].
  { apply hwp_st_8_by_2; [mlia|]. intros m' S. apply HQ; [done| |done]. do 4 (apply Hin; [lia|lia|]). constructor. }
  destruct (Z.eqb_spec a MO_32) as [->|N32].
  { apply hwp_st_8_by_4; [mlia|]. intros m' S. apply HQ; [done| |done]. do 2 (apply Hin; [lia|lia|]). constructor. }
  destruct (Z.eqb_spec a (- MO_32)); [by apply hwp_exit, HE|]. assert (a = MO_64) as ->.
  { unfold MO_8, MO_16, MO_32, MO_64 in *. destruct Hr as [[Hr _]|[[-> _]|[-> _]]]; [lia|done|done]. }
  destruct (HAVE_CMPXCHG128 H) eqn:E16; [|by apply hwp_exit, HE]. pose proof (al8_of_cas _ HH E16) as E8'. by rewrite E8' in E8.
Qed.
Lemma hwp_st_8 p mop mop' v m (Q : unit → Mem → list HostAccess → Prop) :
  (HAVE_al8 H = false → E) → part_writable p → pd_size p = 8 → atomic_code 3 mop' → has mop' MO_BSWAP = false →
  (∀ m' log, part_stored m p v m' → part_log H mop p log → Q tt m' log) → hwp E (do_st_8 X H cpu p v mop') m Q.
Proof.
  intros HE [Hp Hd] H8 Hc Hb HQ. pose proof (part_block p Hp) as [B1 B2]. pose proof Hp as [Hr _ Ho He].
  unfold do_st_8, do_st_n. rewrite Hr, Hd, Hb. apply hwp_store8_aligned; [done|mlia|done|]. intros m' log S Hl Hl8.
  apply HQ; [unfold part_stored; by rewrite H8|]. split; [eapply inside_weaken; [exact Hl|lia..]|].
  intros [|Ha]; [done|]. rewrite (Hl8 Ha). pose proof (whole_atomic mop p) as A. by rewrite H8 in A.
Qed.
Lemma mop8_store_codes memop :
  let mop8 := Z.lor (without memop (Z.lor MO_SIZE MO_BSWAP)) MO_64 in
  Z.land mop8 MO_SIZE = 3 ∧ Z.land mop8 MO_ATOM_MASK = Z.land memop MO_ATOM_MASK ∧ has mop8 MO_BSWAP = false.
Proof.
  intros mop8. assert (Hd : ∀ b, Z.land (Z.lor MO_SIZE MO_BSWAP) b = b → Z.land (Z.ldiff memop (Z.lor MO_SIZE MO_BSWAP)) b = 0).
  { intros b Hb. rewrite <- Hb. apply Z.bits_inj'. intros i Hi. rewrite Z.land_spec, Z.ldiff_spec, Z.land_spec, Z.bits_0.
    by destruct (Z.testbit memop i), (Z.testbit (Z.lor MO_SIZE MO_BSWAP) i). }
  unfold mop8, without, has. rewrite !Z.land_lor_distr_l. split; [by rewrite (Hd MO_SIZE)|]. split; [|by rewrite (Hd MO_BSWAP)].
  rewrite land_ldiff_disjoint by done. apply Z.lor_0_r.
Qed.
Lemma exit_cas : (HAVE_CMPXCHG128 H = false → E) → HAVE_al8 H = false → E.
Proof.
  intros HE E8. apply HE. destruct (HAVE_CMPXCHG128 H) eqn:Ew; [|done]. pose proof (al8_of_cas _ HH Ew) as E8'. by rewrite E8' in E8.
Qed.
Lemma do_st16_even l a m v :
  (HAVE_al8 H = false → E) → bytes m → split_store_ok l 16 → pd_size (page0 l) = 8 → in_range 128 v →
  hwp E (do_st16 X H cpu l a v true) m (λ _, stored_split l m v).
Proof.
  intros HE Hm [Hs W0 W1] H8 Hv. pose proof Hs as [P0 P1 _ _ Hsz Hc Ha]. destruct (mop8_store_codes (l_memop l)) as (M1 & M2 & M3).
  unfold do_st16. cbn [negb]. rewrite H8. cbn [Z.eqb Pos.eqb]. set (mop8 := Z.lor (without (l_memop l) _) MO_64) in *.
  assert (Eo : (if has (l_memop l) MO_BSWAP then bswap128 v else v) = in_order (l_memop l) v) by (unfold in_order; by rewrite Hc).
  rewrite Eo. assert (Hcode : atomic_code 3 mop8) by (split; [done|by rewrite M2]).
  apply hwp_bind, (hwp_st_8 (page0 l) (l_memop l)); [done..|]. intros m1 l0 S0 L0.
  apply (hwp_st_8 (page1 l) (l_memop l)); [done|done|lia|done|done|]. intros m2 l1 S1 L1.
  split; [|by exists l0, l1]. eapply split_stored; [done| |by rewrite H8].
  unfold part_stored in *. rewrite H8 in *. by apply stored_wrap in S0.
Qed.
Lemma do_st16_split l a m v :
  (HAVE_CMPXCHG128 H = false → E) → bytes m → split_store_ok l 16 → in_range 128 v →
  (Z.land (l_memop l) MO_ATOM_MASK = MO_ATOM_SUBALIGN → 8 ≤ pd_size (page0 l)) →
  hwp E (do_st16 X H cpu l a v true) m (λ _, stored_split l m v).
Proof.
  intros HE Hm Hss Hv Hsub. pose proof (exit_cas HE) as HE8. pose proof Hss as [Hs W0 W1]. pose proof Hs as [P0 P1 He0 He1 Hsz Hc Ha].
  pose proof (part_size _ P0) as S0. pose proof (part_size _ P1) as S1. pose proof (half_16 _ Hc) as Hh.
  pose proof (part_offset _ P0) as O0. pose proof (part_offset _ P1) as O1.
  destruct (Z.eq_dec (pd_size (page0 l)) 8) as [H8|N8]; [by apply do_st16_even|]. unfold do_st16. cbn [negb].
  replace (pd_size (page0 l) =? 8) with false by lia.
  assert (Eo : (if Z.land (l_memop l) MO_BSWAP =? MO_LE then v else bswap128 v) = in_order (l_memop l) v).
  { unfold in_order. rewrite Hc, bswap_flag. by destruct (has _ _). }
  rewrite Eo. pose proof (split_in_order l 16 v Hs Hv) as Hr. change (8 * 16) with 128 in Hr. set (u := in_order (l_memop l) v) in *.
  assert (R1 : in_range (8 * pd_size (page1 l)) (Z.shiftr u (8 * pd_size (page0 l)))).
  { replace (8 * pd_size (page1 l)) with (128 - 8 * pd_size (page0 l)) by lia. apply shiftr_fits; [lia|done]. }
  destruct (Z.ltb_spec (pd_size (page0 l)) 8).
  - apply hwp_bind, hwp_st_leN; [done|done|done|by right|lia|done|]. intros m1 l0 T0 L0.
    rewrite (Z.mul_comm _ 8). apply hwp_bind, hwp_st16_leN; [done|by eapply part_stored_bytes|done|by left|lia|done|done|lia|].
    intros m2 l1 T1 L1. apply hwp_ret. rewrite app_nil_r. split; [|by exists l0, l1]. eapply split_stored; [done| |done].
    by apply stored_wrap in T0; [|lia|lia].
  - apply hwp_bind, hwp_st16_leN; [done|done|done|by right|lia|done|done|intros _; mlia|]. intros m1 l0 T0 L0.
    apply hwp_bind, hwp_st_leN; [done|by eapply part_stored_bytes|done|by left|lia|done|]. intros m2 l1 T1 L1.
    apply hwp_ret. rewrite app_nil_r. split; [|by exists l0, l1]. by eapply split_stored.
Qed.
End Stores.
