(* ===== verification/SoftmmuLookup.v ===== *)
(** What a lookup of [Softmmu] finds: the page tables' translation of the address, under the
    invariant of the TLB and whatever the hook of the target enters. *)
From S2P Require Import Prelude Bitops Backend SymMemory MemOp LdstAtomicity SoftTlb SoftTlbSpec SoftTlbMachine.
From S2P Require Import Exec GuestBytes Softmmu.

Lemma has_flag z j : 0 ≤ j → has z (Z.shiftl 1 j) = Z.testbit z j.
Proof.
  intros Hj. unfold has. rewrite Z.shiftl_1_l. destruct (Z.eqb_spec (Z.land z (2 ^ j)) 0) as [E|E]; cbn.
  - apply (f_equal (λ v, Z.testbit v j)) in E. rewrite Z.land_spec, Z.pow2_bits_true, Z.bits_0, andb_true_r in E by lia. done.
  - destruct (Z.testbit z j) eqn:Et; [done|]. destruct E. apply Z.bits_inj'. intros i Hi. rewrite Z.land_spec, Z.pow2_bits_eqb, Z.bits_0 by lia.
    destruct (Z.eqb_spec j i) as [<-|]; [by rewrite Et|by rewrite andb_false_r].
Qed.
Lemma has_bit0 z : has z TLB_BSWAP = Z.testbit z 0.
Proof. apply (has_flag z 0). lia. Qed.

Definition access_prot (access_type : MMUAccessType) : Z :=
  match access_type with MMU_DATA_LOAD => PAGE_READ | MMU_DATA_STORE => PAGE_WRITE | MMU_INST_FETCH => PAGE_EXEC end.

Section Comparators.
Context {P : Pages} (HP : pages_ok).

(** *** Entries up to the flag of clean pages *)

Lemma dirty_hit e e' access q :
  is_page q → dirty_eq e e' → tlb_hit_page (tlb_read_idx e access) q = true → tlb_hit_page (tlb_read_idx e' access) q = true.
Proof. intros Hq [E1 E2 _ E3]. destruct access; cbn; [by rewrite E1|by apply notdirty_hit|by rewrite E2]. Qed.
Lemma dirty_bit e e' access i :
  dirty_eq e e' → i ≠ TARGET_PAGE_BITS_MIN - 2 → Z.testbit (tlb_read_idx e access) i = Z.testbit (tlb_read_idx e' access) i.
Proof.
  intros [E1 E2 _ E3] Hi. destruct access; cbn; [by rewrite E1| |by rewrite E2]. destruct HP as [Hmin _].
  apply (f_equal (λ z, Z.testbit z i)) in E3. rewrite !Z.lor_spec in E3. unfold TLB_NOTDIRTY in E3.
  rewrite testbit_flag in E3 by lia. replace (i =? TARGET_PAGE_BITS_MIN - 2) with false in E3 by lia. by rewrite !orb_false_r in E3.
Qed.

(** *** The flags of a new entry *)

(** Accesses to the section go to a device. *)
Definition is_mmio (s : IoSection) (access_type : MMUAccessType) : bool :=
  negb (sec_is_ram s) && match access_type with MMU_DATA_STORE => true | _ => negb (sec_is_romd s) end.
(** Writes to the section are dropped. *)
Definition is_rom (s : IoSection) (access_type : MMUAccessType) : bool :=
  match access_type with MMU_DATA_STORE => sec_is_ram s && has (sec_prot s) PAGE_WRITE && sec_readonly s | _ => false end.
(** Of the flags that a target can ask for only the check of the alignment is set. *)
Definition plain (full : CPUTLBEntryFull) : Prop := tlb_fill_flags full = 0 ∨ tlb_fill_flags full = TLB_CHECK_ALIGNED.

Definition slow_bit (i : Z) : Prop := i = TARGET_PAGE_BITS_MIN - 3 ∨ i = TARGET_PAGE_BITS_MIN - 4.
Lemma compare_bit q fl i : is_page q → slow_bit i → Z.testbit (tlb_set_compare q fl true).1 i = Z.testbit fl i.
Proof.
  intros Hq Hi. pose proof HP as [Hmin _]. unfold slow_bit in Hi.
  assert (E : Z.testbit (Z.lor q (Z.land fl TLB_FLAGS_MASK)) i = Z.testbit fl i).
  { rewrite Z.lor_spec, Z.land_spec, testbit_flags_mask, (testbit_page HP q) by (done || lia).
    replace ((TARGET_PAGE_BITS_MIN - 5 <=? i) && (i <? TARGET_PAGE_BITS_MIN)) with true by lia. by rewrite andb_true_r. }
  unfold tlb_set_compare. cbn. destruct (_ =? 0); [done|]. cbn [fst]. rewrite Z.lor_spec, E. unfold TLB_FORCE_SLOW.
  rewrite testbit_flag by lia. replace (i =? TARGET_PAGE_BITS_MIN - 5) with false by lia. apply orb_false_r.
Qed.
Lemma compare_slow q fl i : Z.testbit (tlb_set_compare q fl true).2 i = Z.testbit fl i && Z.testbit TLB_SLOW_FLAGS_MASK i.
Proof. unfold tlb_set_compare. cbn. by rewrite Z.land_spec. Qed.
Lemma slow_mask_bit i : 3 ≤ i → Z.testbit TLB_SLOW_FLAGS_MASK i = false.
Proof. intros Hi. apply (testbit_high 3); [by vm_compute|lia]. Qed.

(** The flags of an access of a section. *)
Definition section_flags (full : CPUTLBEntryFull) (s : IoSection) (access_type : MMUAccessType) (fl : Z) : Prop :=
  Z.testbit fl (TARGET_PAGE_BITS_MIN - 3) = is_mmio s access_type ∧
  Z.testbit fl (TARGET_PAGE_BITS_MIN - 4) = is_rom s access_type ∧ Z.testbit fl 0 = false ∧
  Z.testbit fl 2 = Z.testbit (tlb_fill_flags full) 2.

Lemma plain_bit full i : plain full → i ≠ 2 → Z.testbit (tlb_fill_flags full) i = false.
Proof.
  intros [->| ->] Hi; [apply Z.bits_0|]. change TLB_CHECK_ALIGNED with (Z.shiftl 1 2). rewrite testbit_flag by lia. lia.
Qed.
(** Bits of combinations of flags. *)
Ltac flag_bits := rewrite ?Z.lor_spec; unfold TLB_INVALID_MASK, TLB_NOTDIRTY, TLB_MMIO, TLB_DISCARD_WRITE;
  change TLB_WATCHPOINT with (Z.shiftl 1 1); rewrite ?testbit_flag, ?plain_bit, ?Z.bits_0 by (done || lia);
  repeat match goal with |- context [?a =? ?b] => (replace (a =? b) with false by lia) || (replace (a =? b) with true by lia) end.
Ltac flag_cases := repeat match goal with |- context [if ?b then _ else _] => destruct b; cbn [negb andb] end;
  try match goal with |- context [sec_readonly ?s] => destruct (sec_readonly s) end; try match goal with |- context [sec_is_romd ?s] => destruct (sec_is_romd s) end.
Lemma new_entry_flags M q pa full s tn f access :
  plain full → new_entry M q pa full s = Ok (tn, f) →
  ∃ fl, (tlb_read_idx tn access, slow_flags f access) = tlb_set_compare q fl (has (sec_prot s) (access_prot access)) ∧
    section_flags full s access fl.
Proof.
  intros Hpl Hn. pose proof HP as [Hmin _]. unfold new_entry in Hn.
  destruct (page_flags M full s) as [[[[rf wf'] ad] io]|] eqn:Ef; [|done]. cbn in Hn.
  assert (Hf : section_flags full s MMU_DATA_LOAD rf ∧ section_flags full s MMU_INST_FETCH rf ∧ section_flags full s MMU_DATA_STORE wf').
  { clear Hn. unfold page_flags in Ef. unfold section_flags, is_mmio, is_rom. destruct (sec_is_ram s); cbn in Ef.
    - unfold assert_ in Ef. destruct (_ =? 0); [|done]. cbn in Ef. injection Ef as <- <- _ _. cbn [negb andb].
      repeat split; flag_cases; flag_bits; by rewrite ?orb_false_r.
    - injection Ef as <- <- _ _. cbn [negb andb]. repeat split; flag_cases; flag_bits; by rewrite ?orb_false_r. }
  destruct Hf as (Hl & Hx & Hst).
  assert (Hw : ∀ a fl (b : bool), section_flags full s a fl → section_flags full s a (if b then Z.lor fl TLB_WATCHPOINT else fl)).
  { intros a fl [] (E1 & E2 & E3 & E4); [|done]. split; [|split; [|split]]; flag_bits; by rewrite ?orb_false_r. }
  assert (Hi : ∀ a fl (b : bool), section_flags full s a fl → section_flags full s a (if b then Z.lor fl TLB_INVALID_MASK else fl)).
  { intros a fl [] (E1 & E2 & E3 & E4); [|done]. split; [|split; [|split]]; flag_bits; by rewrite ?orb_false_r. }
  destruct (tlb_set_compare q rf (has _ PAGE_EXEC)) as [c1 s1] eqn:E1.
  destruct (tlb_set_compare q _ (has _ PAGE_READ)) as [c2 s2] eqn:E2.
  destruct (tlb_set_compare q _ (has _ PAGE_WRITE)) as [c3 s3] eqn:E3. injection Hn as <- <-.
  destruct access; cbn [tlb_read_idx addr_read addr_write addr_code slow_flags access_prot]; (eexists; split; [symmetry; eassumption|]); auto.
Qed.
End Comparators.

(** ** Lookups *)

Lemma found_bind {A B} (x : Lookup A) (f : A → Lookup B) b : x ≫= f = Found b → ∃ a, x = Found a ∧ f a = Found b.
Proof. destruct x as [a| |]; [|done..]. by exists a. Qed.

Section Lookup.
Context {P : Pages} (HP : pages_ok) (M : Memory) (X : Machine) (w : nat → Walk).
Implicit Types (c : CPUTLB) (p : MMULookupPageData) (full : CPUTLBEntryFull).

Definition permits full (access : MMUAccessType) : bool := has (sec_prot (section_of M full)) (access_prot access).
(** Every mode caches what its walk finds. *)
Definition mmu_inv c : Prop := length (modes c) = NB_MMU_MODES ∧ ∀ k t, modes c !! k = Some t → tlb_inv M (w k) t.
(** The walks ask for no flags, and the hook enters what the walk of the mode finds if the
    access is permitted. *)
Record machine_ok : Prop := {
  walk_plain : ∀ k q full, w k q = Some full → plain full;
  fill_enters : ∀ a size access idx c c', tlb_fill_hook X a size access idx c = Some c' →
    ∃ full clean, w idx (page_of a) = Some full ∧ permits full access = true ∧ tlb_set_page_full (with_clean clean M) idx a full c = Ok c';
}.
Context (HX : machine_ok).

(** The page of the access is mapped and permits it, and what is known of it is what the
    memory API says of the section. *)
Record located (idx : nat) (access : MMUAccessType) (a size : Z) p : Prop := {
  loc_addr : pd_addr p = a;
  loc_size : pd_size p = size;
  loc_plain : has (pd_flags p) TLB_BSWAP = false;
  loc_walk : ∃ full, w idx (page_of a) = Some full ∧ permits full access = true ∧
    has (pd_flags p) TLB_MMIO = is_mmio (section_of M full) access ∧
    has (pd_flags p) TLB_DISCARD_WRITE = is_rom (section_of M full) access ∧
    has (pd_flags p) TLB_CHECK_ALIGNED = has (tlb_fill_flags full) TLB_CHECK_ALIGNED ∧
    (sec_is_ram (section_of M full) = true →
     pd_haddr p = wrap 64 (sec_ram_ptr (section_of M full) + sec_xlat (section_of M full) + (a - page_of a)));
}.

Lemma mode_known c idx : mmu_inv c → (idx < NB_MMU_MODES)%nat → modes c !! idx = Some (modes c !!! idx) ∧ tlb_inv M (w idx) (modes c !!! idx).
Proof.
  intros [Hl Hi] Hx. destruct (lookup_lt_is_Some_2 (modes c) idx) as [t Ht]; [lia|].
  rewrite (list_lookup_total_correct _ _ _ Ht). split; [done|by apply Hi].
Qed.
Lemma mmu_inv_insert c idx t : mmu_inv c → tlb_inv M (w idx) t → mmu_inv (with_modes (<[idx := t]> (modes c)) c).
Proof.
  intros [Hl Hi] Ht. split; cbn; [by rewrite length_insert|]. intros k u [(<- & <- & _)|(_ & Hk)]%list_lookup_insert_Some; [done|by apply Hi].
Qed.

(** What a comparator that agrees with the walk says of the access. *)
Lemma located_of idx access a size full s cmp fu h :
  in_range 64 a → w idx (page_of a) = Some full → permits full access = true → agrees M full (page_of a) s →
  (∀ i, i ≠ TARGET_PAGE_BITS_MIN - 1 → Z.testbit cmp i = Z.testbit (tlb_read_idx s.1 access) i) →
  fu = s.2 → h = wrap 64 (a + addend s.1) →
  located idx access a size (mkPageData fu h a
    (Z.lor (Z.land cmp (without TLB_FLAGS_MASK TLB_FORCE_SLOW)) (slow_flags fu access)) size).
Proof.
  intros Ha Hw Hp Hg Hcmp -> ->. pose proof Hg as (clean & tn & Hn & Hd). pose proof HP as [Hmin _].
  destruct (new_entry_flags HP _ _ _ _ _ _ _ access (walk_plain HX _ _ _ Hw) Hn) as (fl & Hc & F1 & F2 & F3 & F4).
  unfold permits in Hp. rewrite Hp in Hc. pose proof (f_equal fst Hc) as Hc1. pose proof (f_equal snd Hc) as Hc2.
  cbn [fst snd] in Hc1, Hc2.
  assert (Hbit : ∀ i, slow_bit i → Z.testbit (Z.lor (Z.land cmp (without TLB_FLAGS_MASK TLB_FORCE_SLOW)) (slow_flags s.2 access)) i = Z.testbit fl i).
  { intros i Hi. unfold slow_bit in Hi. unfold without. rewrite Z.lor_spec, Z.land_spec, Z.ldiff_spec, testbit_flags_mask by done.
    unfold TLB_FORCE_SLOW. rewrite testbit_flag by lia.
    replace ((TARGET_PAGE_BITS_MIN - 5 <=? i) && (i <? TARGET_PAGE_BITS_MIN)) with true by lia.
    replace (i =? TARGET_PAGE_BITS_MIN - 5) with false by lia. rewrite Hc2, compare_slow, slow_mask_bit by lia.
    rewrite andb_false_r, orb_false_r, andb_true_r, Hcmp by lia. rewrite <- (dirty_bit HP tn s.1), Hc1 by (done || lia).
    apply compare_bit; [done|apply page_of_page|done]. }
  split; cbn [pd_addr pd_size pd_flags pd_haddr]; [done|done| |].
  - rewrite has_bit0, Z.lor_spec, Z.land_spec, Hc2, compare_slow, F3. unfold without. rewrite Z.ldiff_spec, testbit_flags_mask by done.
    replace (TARGET_PAGE_BITS_MIN - 5 <=? 0) with false by lia. by rewrite andb_false_r.
  - exists full. unfold TLB_MMIO, TLB_DISCARD_WRITE. rewrite !has_flag, !Hbit by (lia || (unfold slow_bit; lia)).
    split; [done|]. split; [done|]. split; [done|]. split; [done|]. split; [|intros Hram; by apply (agrees_ram M full (page_of a) s a Hg)].
    change TLB_CHECK_ALIGNED with (Z.shiftl 1 2). rewrite !has_flag, Z.lor_spec, Z.land_spec, Hc2, compare_slow, F4 by lia. unfold without.
    rewrite Z.ldiff_spec, testbit_flags_mask by done. replace (TARGET_PAGE_BITS_MIN - 5 <=? 2) with false by lia.
    cbn [andb]. rewrite andb_false_r. apply andb_true_r.
Qed.

(** The slot in which an address is looked up. *)
Definition slot_of (t : Tlb) (a : Z) : Slot := (tlb_entry t a, fulltlb t !!! Z.to_nat (tlb_index t a)).
Lemma slot_known t a : tlb_wf t → slot_at t (inl (Z.to_nat (tlb_index t a))) = Some (slot_of t a).
Proof. intros [[k Hk] _ _ _]. apply (main_slot t k); [done|]. split; [by apply index_bound|done]. Qed.
Lemma hit_agrees idx t access a :
  tlb_inv M (w idx) t → in_range 64 a → tlb_hit_page (tlb_read_idx (tlb_entry t a) access) (page_of a) = true →
  ∃ full, w idx (page_of a) = Some full ∧ permits full access = true ∧ agrees M full (page_of a) (slot_of t a).
Proof.
  intros [Hwf _ _ _ Hag] Ha Hh. destruct (Hag (page_of a) (slot_of t a)) as (full & Hw & Hg & _); [apply page_of_page| |].
  { exists (inl (Z.to_nat (tlb_index t a))). split; [by apply slot_known|]. by exists access. }
  exists full. split; [done|]. split; [|done]. destruct Hg as (clean & tn & Hn & Hd).
  destruct (new_entry_flags HP _ _ _ _ _ _ _ access (walk_plain HX _ _ _ Hw) Hn) as (fl & Hc & _).
  assert (Hd' : dirty_eq (tlb_entry t a) tn) by (symmetry; exact Hd).
  apply (dirty_hit HP _ _ access (page_of a) (page_of_page a) Hd') in Hh.
  pose proof (f_equal fst Hc) as Hc1. cbn [fst] in Hc1. rewrite Hc1 in Hh.
  by apply (set_compare_hit HP) in Hh as [? _]; [|apply page_of_page..].
Qed.
Lemma filled_agrees idx a full clean c c' :
  mmu_inv c → (idx < NB_MMU_MODES)%nat → in_range 64 a → w idx (page_of a) = Some full →
  tlb_set_page_full (with_clean clean M) idx a full c = Ok c' →
  mmu_inv c' ∧ agrees M full (page_of a) (slot_of (modes c' !!! idx) a).
Proof.
  intros Hc Hi Ha Hw Hs. destruct (mode_known c idx Hc Hi) as [Hm Ht]. unfold tlb_set_page_full in Hs.
  destruct (set_page_mode _ (modes c !!! idx) a full) as [t'|] eqn:E; [|done]. cbn in Hs. injection Hs as <-.
  pose proof (fill_inv HP M (w idx) _ _ _ _ _ Ht Ha Hw E) as Ht'.
  split; [destruct Hc as [Hl Hall]; split; cbn; [by rewrite length_insert|]|].
  { intros k u [(<- & <- & _)|(_ & Hk)]%list_lookup_insert_Some; [done|by apply Hall]. }
  cbn [modes]. destruct Hc as [Hl _]. rewrite list_lookup_total_insert_eq by lia.
  pose proof (set_page_spec HP _ _ _ _ _ (inv_wf _ _ _ Ht) E) as (tn & f & Hn & W' & _ & _ & Hslot & _).
  rewrite <- (index_page HP) in Hslot by done. rewrite (slot_known t' a W') in Hslot. assert (slot_of t' a = (tn, f)) as -> by congruence.
  exists clean, tn. done.
Qed.

Lemma invalid_bit z i : i ≠ TARGET_PAGE_BITS_MIN - 1 → Z.testbit (without z TLB_INVALID_MASK) i = Z.testbit z i.
Proof.
  intros Hn. pose proof HP as [Hmin _]. unfold without, TLB_INVALID_MASK. rewrite Z.ldiff_spec, testbit_flag by lia.
  replace (i =? TARGET_PAGE_BITS_MIN - 1) with false by lia. apply andb_true_r.
Qed.
Lemma lookup1_ok a size idx access c p r c' :
  mmu_inv c → (idx < NB_MMU_MODES)%nat → in_range 64 a → mmu_lookup1 X a size idx access c = Found (p, r, c') →
  mmu_inv c' ∧ located idx access a size p.
Proof.
  intros Hc Hi Ha. destruct (mode_known c idx Hc Hi) as [Hm Ht]. unfold mmu_lookup1, tlb_hit. fold (page_of a).
  destruct (tlb_hit_page (tlb_read_idx (tlb_entry (modes c !!! idx) a) access) (page_of a)) eqn:Eh.
  { cbn [mbind lookup_bind mret lookup_ret]. intros [= <- _ <-]. split; [done|].
    destruct (hit_agrees idx _ access a Ht Ha Eh) as (full & Hw & Hp & Hg). by eapply (located_of _ _ _ _ full (slot_of (modes c !!! idx) a)). }
  destruct (victim_tlb_hit _ _ access (page_of a)) as [t'|] eqn:Ev.
  { cbn [mbind lookup_bind mret lookup_ret]. intros [= <- _ <-]. pose proof (victim_inv HP M (w idx) _ _ _ _ Ht Ha Ev) as Ht'.
    split; [by apply mmu_inv_insert|]. cbn [modes with_modes]. destruct Hc as [Hl _]. rewrite list_lookup_total_insert_eq by lia.
    rewrite (index_page HP) in Ev by done.
    destruct (victim_spec HP _ _ _ _ (inv_wf _ _ _ Ht) (page_of_page a) Ev) as (_ & _ & Hh).
    assert (Ee : tlb_entry t' a = tlb_entry t' (page_of a)) by (unfold tlb_entry; by rewrite <- (index_page HP)).
    rewrite <- Ee in Hh. destruct (hit_agrees idx t' access a Ht' Ha Hh) as (full & Hw & Hp & Hg).
    eapply (located_of _ _ _ _ full (slot_of t' a)); [done..| |done|done]. by apply invalid_bit. }
  destruct (tlb_fill_hook X a size access idx c) as [c1|] eqn:Ef; [|done]. cbn [mbind lookup_bind mret lookup_ret]. intros [= <- _ <-].
  destruct (fill_enters HX _ _ _ _ _ _ Ef) as (full & clean & Hw & Hp & Hs).
  destruct (filled_agrees idx a full clean c c1 Hc Hi Ha Hw Hs) as [Hc1 Hg]. split; [done|].
  eapply (located_of _ _ _ _ full (slot_of (modes c1 !!! idx) a)); [done..| |done|done]. by apply invalid_bit.
Qed.

(** *** Watchpoints and clean pages *)

Lemma without_bit z fl j i : fl = Z.shiftl 1 j → 0 ≤ j → i ≠ j → Z.testbit (without z fl) i = Z.testbit z i.
Proof.
  intros -> Hj Hn. unfold without. rewrite Z.ldiff_spec, testbit_flag by lia. replace (i =? j) with false by lia. apply andb_true_r.
Qed.
Lemma located_flags idx access a size p fl :
  located idx access a size p → (∀ i, i ≠ 1 → i ≠ TARGET_PAGE_BITS_MIN - 2 → Z.testbit fl i = Z.testbit (pd_flags p) i) →
  located idx access a size (with_flags fl p).
Proof.
  intros [L1 L2 L3 (full & H1 & H2 & H3 & H4 & H4' & H5)] Hb. pose proof HP as [Hmin _].
  assert (E : ∀ j, 0 ≤ j → j ≠ 1 → j ≠ TARGET_PAGE_BITS_MIN - 2 → has fl (Z.shiftl 1 j) = has (pd_flags p) (Z.shiftl 1 j)).
  { intros j Hj N1 N2. rewrite !has_flag by lia. by apply Hb. }
  split; cbn [pd_addr pd_size pd_flags with_flags pd_haddr]; [done|done| |].
  - rewrite <- L3. change TLB_BSWAP with (Z.shiftl 1 0). apply E; lia.
  - exists full. unfold TLB_MMIO, TLB_DISCARD_WRITE in *. change TLB_CHECK_ALIGNED with (Z.shiftl 1 2) in *. by rewrite !E by lia.
Qed.
Lemma set_dirty_inv a c : mmu_inv c → mmu_inv (tlb_set_dirty a c).
Proof.
  intros [Hl Hi]. split; cbn; [by rewrite length_fmap|]. intros k t. rewrite list_lookup_fmap.
  intros (t0 & Ht & ->)%fmap_Some. eapply redirtied_inv; [done|by apply Hi|apply set_dirty_redirtied].
Qed.
Lemma watch_ok idx a size access p c p' c' :
  mmu_inv c → located idx access a size p → mmu_watch_or_dirty X p access c = Found (p', c') →
  mmu_inv c' ∧ located idx access a size p'.
Proof.
  intros Hc Hp Hf. pose proof HP as [Hmin _]. unfold mmu_watch_or_dirty in Hf. set (fl := pd_flags p) in *.
  assert (Hfl : ∃ fl', (if has fl TLB_WATCHPOINT then
             if watchpoint_passes X (pd_addr p) (pd_size p) access then mret (without fl TLB_WATCHPOINT) else Fault
           else mret fl) = Found fl' ∧ ∀ i, i ≠ 1 → Z.testbit fl' i = Z.testbit fl i).
  { destruct (has fl TLB_WATCHPOINT); [destruct (watchpoint_passes X _ _ _); [|done]|]; eexists; (split; [done|]); [|done].
    intros i Hi. by apply (without_bit _ _ 1). }
  destruct Hfl as (fl' & E & Hb). rewrite E in Hf. cbn [mbind lookup_bind mret lookup_ret] in Hf.
  destruct (has fl' TLB_NOTDIRTY); injection Hf as <- <-.
  - split; [unfold notdirty_write; destruct (still_clean X _); [done|by apply set_dirty_inv]|].
    apply located_flags; [done|]. intros i N1 N2. rewrite (without_bit _ _ (TARGET_PAGE_BITS_MIN - 2)) by (done || lia). by apply Hb.
  - split; [done|]. apply located_flags; [done|]. intros i N1 N2. by apply Hb.
Qed.

(** *** The pages of an access *)

Abbreviation PAGE := (2 ^ TARGET_PAGE_BITS).
Lemma page_facts : 256 ≤ PAGE ∧ 2 ^ 64 = 2 ^ (64 - TARGET_PAGE_BITS) * PAGE ∧ 2 ≤ 2 ^ (64 - TARGET_PAGE_BITS).
Proof.
  destruct HP as [Hmin (H1 & H2 & _)]. split; [|split].
  - change 256 with (2 ^ 8). apply Z.pow_le_mono_r; lia.
  - rewrite <- Z.pow_add_r by lia. f_equal. lia.
  - change 2 with (2 ^ 1) at 1. apply Z.pow_le_mono_r; lia.
Qed.
Lemma wrap_page_mod x : wrap 64 x mod PAGE = x mod PAGE.
Proof.
  destruct page_facts as (H1 & H2 & _). unfold wrap. rewrite H2. rewrite Z.mul_comm, Z.rem_mul_r by (pose proof (Z.pow_pos_nonneg 2 (64 - TARGET_PAGE_BITS)); lia).
  rewrite Z.mul_comm, Z.mod_add by lia. apply Z.mod_mod. lia.
Qed.
Lemma last_page a n :
  in_range 64 a → 1 ≤ n ≤ PAGE → let addr1 := page_of (wrap 64 (a + n - 1)) in
  if a mod PAGE + n <=? PAGE then addr1 = page_of a
  else addr1 ≠ page_of a ∧ addr1 = wrap 64 (page_of a + PAGE) ∧ wrap 64 (addr1 - a) = PAGE - a mod PAGE.
Proof.
  intros Ha Hn addr1. destruct page_facts as (HB & H64 & Hk). set (K := 2 ^ (64 - TARGET_PAGE_BITS)) in *.
  assert (HP0 : 0 < PAGE) by lia.
  pose proof (page_of_eq HP a Ha) as Hp. pose proof (Z.mod_pos_bound a PAGE HP0) as Ho. set (o := a mod PAGE) in *.
  assert (Hq : page_of a = (a / PAGE) * PAGE) by (rewrite Hp; unfold o; rewrite Z.mod_eq by lia; lia). set (q := a / PAGE) in *.
  assert (Hqr : 0 ≤ q ∧ q + 1 ≤ K).
  { unfold q, in_range in *. split; [apply Z.div_pos; lia|]. assert (a / PAGE < K); [|lia]. apply Z.div_lt_upper_bound; lia. }
  assert (E1 : addr1 = wrap 64 (a + n - 1) - (a + n - 1) mod PAGE) by (unfold addr1; rewrite page_of_eq, wrap_page_mod; auto with range).
  destruct (Z.leb_spec (o + n) PAGE).
  - rewrite E1. assert (Em : (a + n - 1) mod PAGE = o + n - 1).
    { symmetry. apply (Z.mod_unique _ _ q); [left; lia|lia]. }
    rewrite Em, wrap_small; [lia|]. unfold in_range. nia.
  - assert (Em : (a + n - 1) mod PAGE = o + n - 1 - PAGE) by (symmetry; apply (Z.mod_unique _ _ (q + 1)); [left; lia|lia]).
    assert (E2 : addr1 = wrap 64 (page_of a + PAGE)).
    { rewrite E1, Em. destruct (Z.eq_dec (q + 1) K) as [Ek|Ek].
      - assert (Hpp : page_of a + PAGE = 2 ^ 64) by nia. rewrite Hpp. unfold wrap at 2. rewrite Z.mod_same by lia.
        replace (a + n - 1) with (o + n - 1 - PAGE + 1 * 2 ^ 64) by lia. unfold wrap. rewrite Z.mod_add by lia. rewrite Z.mod_small by lia. lia.
      - rewrite !wrap_small; [lia|unfold in_range; nia|unfold in_range; nia]. }
    split; [|split; [done|]].
    + rewrite E2. unfold wrap. destruct (Z.eq_dec (q + 1) K) as [Ek|Ek].
      * assert (page_of a + PAGE = 2 ^ 64) as -> by nia. rewrite Z.mod_same by lia. nia.
      * rewrite Z.mod_small by nia. lia.
    + rewrite E2. rewrite <- Z.add_opp_r, wrap_add_l by lia. replace (page_of a + PAGE + - a) with (PAGE - o) by lia.
      apply wrap_small. unfold in_range. nia.
Qed.

Record looked_up (addr oi : Z) (access : MMUAccessType) (l : MMULookupLocals) (cross : bool) : Prop := {
  lu_code : l_memop l = get_memop oi;
  lu_align : Z.land addr (Z.ones (get_alignment_bits (get_memop oi))) = 0;
  lu_pages : let n := memop_size (get_memop oi) in let idx := Z.to_nat (get_mmuidx oi) in let first := PAGE - addr mod PAGE in
    if n <=? first then cross = false ∧ located idx access addr n (page0 l)
    else cross = true ∧ located idx access addr first (page0 l) ∧
      located idx access (wrap 64 (page_of addr + PAGE)) (n - first) (page1 l);
}.
Lemma cross_iff addr x : in_range 64 addr → negb (Z.land (Z.lxor addr (page_of x)) TARGET_PAGE_MASK =? 0) = negb (page_of x =? page_of addr).
Proof.
  intros Ha. f_equal. assert (E : Z.land (Z.lxor addr (page_of x)) TARGET_PAGE_MASK = Z.lxor (page_of addr) (page_of x)).
  { rewrite <- (page_of_page x) at 2. unfold page_of. zbits. }
  rewrite E. destruct (Z.eqb_spec (page_of x) (page_of addr)) as [->|Hn]; [by rewrite Z.lxor_nilpotent|].
  destruct (Z.eqb_spec (Z.lxor (page_of addr) (page_of x)) 0) as [E0|]; [|done]. apply Z.lxor_eq in E0. congruence.
Qed.
Lemma mmuidx_bound oi : (Z.to_nat (get_mmuidx oi) < NB_MMU_MODES)%nat.
Proof.
  unfold get_mmuidx, NB_MMU_MODES. change 15 with (Z.ones 4). rewrite Z.land_ones by lia. pose proof (Z.mod_pos_bound oi (2 ^ 4)). lia.
Qed.
Lemma memop_size_bound op : memop_size op ≤ 128.
Proof.
  unfold memop_size. rewrite Z.shiftl_1_l. change 128 with (2 ^ 7). apply Z.pow_le_mono_r; [lia|]. change MO_SIZE with (Z.ones 3).
  rewrite Z.land_ones by lia. pose proof (Z.mod_pos_bound op (2 ^ 3)). lia.
Qed.
Lemma located_full idx access a size f p : located idx access a size p → located idx access a size (with_full f p).
Proof. by intros [? ? ? ?]. Qed.

Lemma no_bswap idx access a size p : located idx access a size p → has (pd_flags p) TLB_BSWAP = false.
Proof. by intros [_ _ ? _]. Qed.
Lemma lookup_ok addr oi access c l cross c' :
  mmu_inv c → in_range 64 addr → mmu_lookup X addr oi access c = Found (l, cross, c') →
  mmu_inv c' ∧ looked_up addr oi access l cross.
Proof.
  intros Hc Ha. unfold mmu_lookup. pose proof (mmuidx_bound oi) as Hi. destruct page_facts as (HB & _ & _).
  set (memop := get_memop oi). set (idx := Z.to_nat (get_mmuidx oi)) in *. set (n := memop_size memop).
  pose proof (memop_size_pos memop) as Hn1. pose proof (memop_size_bound memop) as Hn2. fold n in Hn1, Hn2.
  destruct (Z.eqb_spec (Z.land addr (Z.ones (get_alignment_bits memop))) 0) as [Hal|]; [|done]. cbn [negb].
  fold (page_of (wrap 64 (addr + n - 1))). rewrite cross_iff by done.
  pose proof (last_page addr n Ha ltac:(lia)) as Hlast. cbv zeta in Hlast. set (addr1 := page_of (wrap 64 (addr + n - 1))) in *.
  intros (((l1 & fl) & c1) & Hbr & Hrest)%found_bind.
  assert (Hgoal : mmu_inv c1 ∧ looked_up addr oi access l1 (negb (addr1 =? page_of addr))).
  2: { destruct (has fl TLB_CHECK_ALIGNED && _); [done|]. by injection Hrest as <- <- <-. }
  clear Hrest. replace (addr mod PAGE + n <=? PAGE) with (n <=? PAGE - addr mod PAGE) in Hlast by lia.
  destruct (n <=? PAGE - addr mod PAGE) eqn:Efit.
  - rewrite Hlast, Z.eqb_refl in Hbr |- *. cbn [negb] in Hbr |- *.
    apply found_bind in Hbr as (((p0 & r0) & c2) & H1 & Hbr). destruct (lookup1_ok _ _ _ _ _ _ _ _ Hc Hi Ha H1) as [Hc2 L0].
    rewrite (no_bswap _ _ _ _ _ L0) in Hbr. apply found_bind in Hbr as ((p0' & c3) & H2 & [= <- _ <-]).
    assert (H3 : mmu_inv c3 ∧ located idx access addr n p0').
    { destruct (has (pd_flags p0) _); [by eapply watch_ok|]. by injection H2 as <- <-. }
    destruct H3 as [Hc3 L0']. split; [done|]. split; cbn [l_memop page0]; [done|done|]. cbv zeta. fold memop n idx. by rewrite Efit.
  - destruct Hlast as (Hne & E1 & E2). replace (addr1 =? page_of addr) with false in Hbr |- * by lia. cbn [negb] in Hbr |- *. rewrite E2 in Hbr.
    apply found_bind in Hbr as (((p0 & r0) & c2) & H1 & Hbr). destruct (lookup1_ok _ _ _ _ _ _ _ _ Hc Hi Ha H1) as [Hc2 L0].
    assert (Ha1 : in_range 64 addr1) by (rewrite E1; auto with range).
    apply found_bind in Hbr as (((p1 & r1) & c3) & H2 & Hbr). destruct (lookup1_ok _ _ _ _ _ _ _ _ Hc2 Hi Ha1 H2) as [Hc3 L1].
    set (p0' := if r1 then _ else p0) in Hbr. assert (L0' : located idx access addr (PAGE - addr mod PAGE) p0').
    { unfold p0'. destruct r1; [by apply located_full|done]. }
    clearbody p0'. apply found_bind in Hbr as (((q0 & q1) & c4) & H3 & Hbr).
    assert (H4 : mmu_inv c4 ∧ located idx access addr (PAGE - addr mod PAGE) q0 ∧ located idx access addr1 (n - (PAGE - addr mod PAGE)) q1).
    { destruct (has _ (Z.lor TLB_WATCHPOINT TLB_NOTDIRTY)); [|by injection H3 as <- <- <-].
      apply found_bind in H3 as ((u0 & c5) & W0 & H3). apply found_bind in H3 as ((u1 & c6) & W1 & [= <- <- <-]).
      destruct (watch_ok _ _ _ _ _ _ _ _ Hc3 L0' W0) as [Hc5 U0]. by destruct (watch_ok _ _ _ _ _ _ _ _ Hc5 L1 W1). }
    destruct H4 as (Hc4 & Q0 & Q1). destruct (has _ TLB_BSWAP); [done|]. injection Hbr as <- _ <-.
    split; [done|]. split; cbn [l_memop page0 page1]; [done|done|]. cbv zeta. fold memop n idx. rewrite Efit. rewrite E1 in Q1. done.
Qed.

(** *** Lookups that must succeed *)

(** The hook fails only where the walk does not permit the access; no watchpoint stops an
    access and no page asks for a check of the alignment. *)
Record machine_total : Prop := {
  fill_total : ∀ a size access idx c full, mmu_inv c → in_range 64 a → w idx (page_of a) = Some full → permits full access = true →
    ∃ c', tlb_fill_hook X a size access idx c = Some c';
  watch_total : ∀ a size access, watchpoint_passes X a size access = true;
  walk_unchecked : ∀ k q full, w k q = Some full → tlb_fill_flags full = 0;
}.
Context (HT : machine_total).

Definition reachable (idx : nat) (access : MMUAccessType) (a : Z) : Prop :=
  ∃ full, w idx (page_of a) = Some full ∧ permits full access = true.
Lemma lookup1_total a size idx access c :
  mmu_inv c → in_range 64 a → reachable idx access a → ∃ p r c', mmu_lookup1 X a size idx access c = Found (p, r, c').
Proof.
  intros Hc Ha (full & Hw & Hp). unfold mmu_lookup1. destruct (tlb_hit _ a); [by do 3 eexists|].
  destruct (victim_tlb_hit _ _ _ _); [by do 3 eexists|]. destruct (fill_total HT a size access idx c full Hc Ha Hw Hp) as [c' ->]. by do 3 eexists.
Qed.
Lemma watch_found p access c : ∃ p' c', mmu_watch_or_dirty X p access c = Found (p', c').
Proof.
  unfold mmu_watch_or_dirty. rewrite (watch_total HT). destruct (has _ TLB_WATCHPOINT); cbn [mbind lookup_bind mret lookup_ret];
    destruct (has _ TLB_NOTDIRTY); by do 2 eexists.
Qed.
Lemma located_unchecked idx access a size p : located idx access a size p → has (pd_flags p) TLB_CHECK_ALIGNED = false.
Proof. intros [_ _ _ (full & Hw & _ & _ & _ & -> & _)]. by rewrite (walk_unchecked HT _ _ _ Hw). Qed.
Lemma has_lor a b j : 0 ≤ j → has (Z.lor a b) (Z.shiftl 1 j) = has a (Z.shiftl 1 j) || has b (Z.shiftl 1 j).
Proof. intros. by rewrite !has_flag, Z.lor_spec by lia. Qed.

Lemma lookup_total addr oi access c :
  let n := memop_size (get_memop oi) in let idx := Z.to_nat (get_mmuidx oi) in
  mmu_inv c → in_range 64 addr → Z.land addr (Z.ones (get_alignment_bits (get_memop oi))) = 0 →
  (∀ k, 0 ≤ k < n → reachable idx access (wrap 64 (addr + k))) →
  ∃ l cross c', mmu_lookup X addr oi access c = Found (l, cross, c').
Proof.
  intros n idx Hc Ha Hal Hre. unfold mmu_lookup. rewrite Hal. cbn [Z.eqb negb]. fold n idx.
  pose proof (mmuidx_bound oi) as Hi. fold idx in Hi. destruct page_facts as (HB & _ & _).
  pose proof (memop_size_pos (get_memop oi)) as Hn1. pose proof (memop_size_bound (get_memop oi)) as Hn2. fold n in Hn1, Hn2.
  assert (R0 : reachable idx access addr) by (specialize (Hre 0 ltac:(lia)); by rewrite Z.add_0_r, wrap_small in Hre).
  fold (page_of (wrap 64 (addr + n - 1))). rewrite cross_iff by done. set (addr1 := page_of (wrap 64 (addr + n - 1))).
  assert (R1 : reachable idx access addr1).
  { specialize (Hre (n - 1) ltac:(lia)). unfold reachable in *. unfold addr1. rewrite (page_of_page (wrap 64 (addr + n - 1))).
    by replace (addr + (n - 1)) with (addr + n - 1) in Hre by lia. }
  assert (Ha1 : in_range 64 addr1) by (apply page_range; [done|apply page_of_page]).
  destruct (addr1 =? page_of addr); cbn [negb].
  - destruct (lookup1_total addr n idx access c Hc Ha R0) as (p0 & r0 & c1 & E0). rewrite E0.
    destruct (lookup1_ok _ _ _ _ _ _ _ _ Hc Hi Ha E0) as [Hc1 L0]. cbn [mbind lookup_bind mret lookup_ret].
    rewrite (no_bswap _ _ _ _ _ L0).
    destruct (has (pd_flags p0) _); [destruct (watch_found p0 access c1) as (p' & c2 & ->)|]; cbn [mbind lookup_bind mret lookup_ret];
      rewrite (located_unchecked _ _ _ _ _ L0); by do 3 eexists.
  - set (size0 := wrap 64 (addr1 - addr)). destruct (lookup1_total addr size0 idx access c Hc Ha R0) as (p0 & r0 & c1 & E0). rewrite E0.
    destruct (lookup1_ok _ _ _ _ _ _ _ _ Hc Hi Ha E0) as [Hc1 L0]. cbn [mbind lookup_bind mret lookup_ret].
    destruct (lookup1_total addr1 (n - size0) idx access c1 Hc1 Ha1 R1) as (p1 & r1 & c2 & E1). rewrite E1.
    destruct (lookup1_ok _ _ _ _ _ _ _ _ Hc1 Hi Ha1 E1) as [Hc2 L1]. cbn [mbind lookup_bind mret lookup_ret].
    set (p0' := if r1 then _ else p0). assert (L0' : located idx access addr size0 p0') by (unfold p0'; destruct r1; [by apply located_full|done]).
    clearbody p0'. set (fl := Z.lor (pd_flags p0') (pd_flags p1)).
    assert (F1 : has fl TLB_BSWAP = false) by (unfold fl; change TLB_BSWAP with (Z.shiftl 1 0); rewrite has_lor by lia;
      change (Z.shiftl 1 0) with TLB_BSWAP; by rewrite (no_bswap _ _ _ _ _ L0'), (no_bswap _ _ _ _ _ L1)).
    assert (F2 : has fl TLB_CHECK_ALIGNED = false) by (unfold fl; change TLB_CHECK_ALIGNED with (Z.shiftl 1 2); rewrite has_lor by lia;
      change (Z.shiftl 1 2) with TLB_CHECK_ALIGNED; by rewrite (located_unchecked _ _ _ _ _ L0'), (located_unchecked _ _ _ _ _ L1)).
    rewrite F1. destruct (has fl (Z.lor _ _)); cbn [mbind lookup_bind mret lookup_ret].
    + destruct (watch_found p0' access c2) as (q0 & c3 & ->). cbn [mbind lookup_bind mret lookup_ret].
      destruct (watch_found p1 access c3) as (q1 & c4 & ->). cbn [mbind lookup_bind mret lookup_ret]. rewrite F2. by do 3 eexists.
    + rewrite F2. by do 3 eexists.
Qed.
End Lookup.
