(* ===== verification/SoftmmuRefine.v ===== *)
(** The helpers for guest accesses under system emulation implement the accesses of the
    operations: lookups, refills of the TLB and host accesses together read and write the
    bytes to which the guest's page tables map the address. *)
From S2P Require Import Prelude Bitops Backend SymMemory MemOp LdstAtomicity LdstAtomicitySpec SoftTlb SoftTlbSpec SoftTlbMachine.
From S2P Require Import Exec GuestBytes Softmmu SoftmmuSpec SoftmmuStoreSpec SoftmmuLookup.

Lemma hwp_weaken {A} (E E' : Prop) (x : Host A) m Q : (E → E') → hwp E x m Q → hwp E' x m Q.
Proof. unfold hwp. intros HE. destruct (x m); auto. Qed.
Lemma host_bytes_app f bits a b x :
  host_bytes f bits (a + b) x = l ← host_bytes f bits a x; k ← host_bytes f bits b (x + Z.of_nat a); Some (l ++ k).
Proof.
  revert x. induction a as [|a IH]; intros x; cbn [Nat.add host_bytes].
  - cbn. rewrite Z.add_0_r. by destruct (host_bytes f bits b x).
  - destruct (f (wrap bits x)) as [h|]; [|done]. cbn. rewrite IH. destruct (host_bytes f bits a (x + 1)) as [l|]; [|done]. cbn.
    replace (x + 1 + Z.of_nat a) with (x + Z.pos (Pos.of_succ_nat a)) by lia. by destruct (host_bytes f bits b _).
Qed.

Section Refine.
Context {P : Pages} (HP : pages_ok) (M : Memory) (X : Machine) (w : nat → Walk) (H : HostAtomics) (cpu : LdstCpu).
Implicit Types (p : MMULookupPageData) (m : Mem) (l : MMULookupLocals) (full : CPUTLBEntryFull).
Abbreviation PAGE := (2 ^ TARGET_PAGE_BITS).

Definition ram_base full : Z := sec_ram_ptr (section_of M full) + sec_xlat (section_of M full).
(** The memory of the guest as the page tables give it: permitted pages of RAM. *)
Definition walk_guest : Guest := mkGuest
  (λ access idx a,
     match w (Z.to_nat idx) (page_of a) with
     | Some full => if permits M full access && sec_is_ram (section_of M full) then Some (ram_base full + (a - page_of a)) else None
     | None => None
     end) 64 0.
(** Host pages of RAM are aligned and in the address space. *)
Definition ram_ok : Prop := ∀ k q full, w k q = Some full → sec_is_ram (section_of M full) = true →
  0 ≤ ram_base full ∧ ram_base full mod PAGE = 0 ∧ ram_base full + PAGE ≤ 2 ^ 64.
(** The pages of an access are memory, and writable for stores. *)
Definition memory_at (idx : nat) (access : MMUAccessType) (a n : Z) : Prop := ∀ k full,
  0 ≤ k < n → w idx (page_of (wrap 64 (a + k))) = Some full →
  sec_is_ram (section_of M full) = true ∧ (access = MMU_DATA_STORE → sec_readonly (section_of M full) = false).

Context (Hram : ram_ok).

Lemma page_offset a k : in_range 64 a → 0 ≤ k → a mod PAGE + k < PAGE → wrap 64 (a + k) = a + k ∧ page_of (a + k) = page_of a.
Proof.
  intros Ha Hk Hf. pose proof (last_page HP a (k + 1) Ha) as Hl. pose proof (page_facts HP) as (HB & H64 & HK).
  assert (HP0 : 0 < PAGE) by lia. pose proof (Z.mod_pos_bound a PAGE HP0). specialize (Hl ltac:(lia)). cbv zeta in Hl.
  replace (a mod PAGE + (k + 1) <=? PAGE) with true in Hl by lia. replace (a + (k + 1) - 1) with (a + k) in Hl by lia.
  assert (Hr : in_range 64 (a + k)).
  { unfold in_range in *. assert (Eq : a = a / PAGE * PAGE + a mod PAGE) by (rewrite Z.mul_comm; apply Z.div_mod; lia).
    assert (a / PAGE < 2 ^ (64 - TARGET_PAGE_BITS)) by (apply Z.div_lt_upper_bound; lia). nia. }
  rewrite wrap_small in Hl |- * by done. done.
Qed.

(** A part that was located in memory. *)
Lemma located_ram idx access a size p :
  located M w idx access a size p → in_range 64 a → 0 < size → a mod PAGE + size ≤ PAGE → memory_at idx access a size →
  has (pd_flags p) TLB_MMIO = false ∧ (access = MMU_DATA_STORE → has (pd_flags p) TLB_DISCARD_WRITE = false) ∧
  pd_haddr p mod PAGE = a mod PAGE ∧
  ∀ k, 0 ≤ k < size → Exec.tlb_vaddr_to_host walk_guest access (Z.of_nat idx) (wrap 64 (a + k)) = Some (pd_haddr p + k).
Proof.
  intros [L1 L2 _ (full & Hw & Hp & Hmm & Hd & _ & Hh)] Ha Hs Hf Hmem.
  destruct (page_offset a 0 Ha) as [E0 _]; [lia|lia|].
  destruct (Hmem 0 full) as [Hr Hro]; [lia|by rewrite E0, Z.add_0_r|]. specialize (Hh Hr).
  destruct (Hram _ _ _ Hw Hr) as (B1 & B2 & B3). fold (ram_base full) in Hh. pose proof (page_of_eq HP a Ha) as Hpg.
  assert (HP0 : 0 < PAGE) by (pose proof (page_facts HP); lia). pose proof (Z.mod_pos_bound a PAGE HP0) as Ho.
  replace (a - page_of a) with (a mod PAGE) in Hh by lia. rewrite wrap_small in Hh by (unfold in_range; lia).
  split; [rewrite Hmm; unfold is_mmio; by rewrite Hr|]. split; [intros ->; rewrite Hd; unfold is_rom; rewrite Hro by done; by rewrite andb_false_r|].
  split; [rewrite Hh, Zplus_mod, B2, Z.add_0_l, !Z.mod_mod by lia; done|]. intros k Hk. cbn. rewrite Nat2Z.id.
  destruct (page_offset a k Ha) as [E1 E2]; [lia|lia|]. rewrite E1, E2, Hw, Hp, Hr. cbn. f_equal. lia.
Qed.

Definition found_bytes l (cross : bool) : list Z := if cross then split_bytes l else part_bytes (page0 l).
(** What the loads and stores need to know of the pages. *)
Definition found_ok (access : MMUAccessType) (n : Z) l (cross : bool) : Prop :=
  let writable p := access = MMU_DATA_STORE → has (pd_flags p) TLB_DISCARD_WRITE = false in
  writable (page0 l) ∧
  if cross then split_ok l n ∧ writable (page1 l)
  else has (pd_flags (page0 l)) TLB_MMIO = false ∧ pd_size (page0 l) = n ∧ pd_haddr (page0 l) mod PAGE + n ≤ PAGE.

Lemma next_page addr :
  in_range 64 addr → let a1 := wrap 64 (page_of addr + PAGE) in
  in_range 64 a1 ∧ a1 mod PAGE = 0 ∧ ∀ k, wrap 64 (addr + (PAGE - addr mod PAGE) + k) = wrap 64 (a1 + k).
Proof.
  intros Ha a1. pose proof (page_facts HP) as (HB & _ & _). pose proof (page_of_eq HP addr Ha) as Hpg. split; [by apply wrap_range|]. split.
  - unfold a1. rewrite wrap_page_mod by done. rewrite Hpg.
    replace (addr - addr mod PAGE + PAGE) with ((addr / PAGE + 1) * PAGE); [apply Z_mod_mult|]. rewrite (Z.mod_eq addr) by lia. lia.
  - intros k. unfold a1. rewrite wrap_add_l by lia. f_equal. lia.
Qed.
Lemma mod_page_16 x y : x mod PAGE = y mod PAGE → x mod 16 = y mod 16.
Proof.
  destruct HP as [Hmin _]. assert (E : PAGE = 2 ^ (TARGET_PAGE_BITS - 4) * 16) by (change 16 with (2 ^ 4); rewrite <- Z.pow_add_r by lia; f_equal; lia).
  assert (0 < 2 ^ (TARGET_PAGE_BITS - 4)) by (apply Z.pow_pos_nonneg; lia). rewrite !E, (Z.mul_comm _ 16). intros Hxy.
  apply (f_equal (λ z, z mod 16)) in Hxy. rewrite !Z.rem_mul_r, !(Z.mul_comm 16 (_ mod _)), !Z.mod_add, !Z.mod_mod in Hxy by lia. done.
Qed.
Lemma page_end_16 a : (a + (PAGE - a mod PAGE)) mod 16 = 0.
Proof.
  rewrite (mod_page_16 _ 0); [done|]. pose proof (page_facts HP) as (HB & _ & _). rewrite Z.mod_0_l by lia.
  replace (a + (PAGE - a mod PAGE)) with ((a / PAGE + 1) * PAGE); [apply Z_mod_mult|]. rewrite Z.mod_eq by lia. lia.
Qed.

Lemma found_known addr oi access l cross :
  let n := memop_size (get_memop oi) in
  looked_up M w addr oi access l cross → in_range 64 addr → memory_at (Z.to_nat (get_mmuidx oi)) access addr n → n ≤ 16 →
  0 ≤ Z.land (get_memop oi) MO_ATOM_MASK ≤ MO_ATOM_NONE →
  guest_bytes walk_guest access oi addr = Some (found_bytes l cross) ∧ found_ok access n l cross.
Proof.
  intros n [Hcode Hal Hpg] Ha Hmem Hn Hat. cbv zeta in Hpg. fold n in Hpg. pose proof (memop_size_pos (get_memop oi)) as Hn0. fold n in Hn0.
  pose proof (page_facts HP) as (HB & _ & _). assert (HP0 : 0 < PAGE) by lia. pose proof (Z.mod_pos_bound addr PAGE HP0) as Ho.
  assert (Hidx : Z.of_nat (Z.to_nat (get_mmuidx oi)) = get_mmuidx oi).
  { unfold get_mmuidx. change 15 with (Z.ones 4). rewrite Z.land_ones by lia. pose proof (Z.mod_pos_bound oi (2 ^ 4)). lia. }
  unfold guest_bytes. rewrite Hal, Z.eqb_refl. fold n. cbn [target_long_bits walk_guest]. set (first := PAGE - addr mod PAGE) in *.
  set (idx := Z.to_nat (get_mmuidx oi)) in *. destruct (Z.leb_spec n first).
  - destruct Hpg as [-> L0]. destruct (located_ram _ _ _ _ _ L0 Ha ltac:(lia) ltac:(lia) Hmem) as (F1 & F2 & F3 & F4).
    pose proof (loc_size _ _ _ _ _ _ _ L0) as Hs. rewrite Hidx in F4. split.
    + unfold found_bytes, part_bytes. rewrite Hs. apply host_bytes_span. intros k Hk. apply F4. lia.
    + split; [done|]. split; [done|]. split; [done|]. rewrite F3. lia.
  - destruct Hpg as (-> & L0 & L1). destruct (next_page addr Ha) as (R1 & Z1 & E1). set (a1 := wrap 64 (page_of addr + PAGE)) in *.
    assert (M0 : memory_at idx access addr first) by (intros k full Hk; apply Hmem; lia).
    assert (M1 : memory_at idx access a1 (n - first)).
    { intros k full Hk. rewrite <- E1. replace (addr + (PAGE - addr mod PAGE) + k) with (addr + (first + k)) by lia. apply Hmem. lia. }
    destruct (located_ram _ _ _ _ _ L0 Ha ltac:(lia) ltac:(lia) M0) as (F1 & F2 & F3 & F4).
    destruct (located_ram _ _ _ _ _ L1 R1 ltac:(lia) ltac:(lia) M1) as (G1 & G2 & G3 & G4).
    pose proof (loc_size _ _ _ _ _ _ _ L0) as Hs0. pose proof (loc_size _ _ _ _ _ _ _ L1) as Hs1.
    pose proof (loc_addr _ _ _ _ _ _ _ L0) as Ha0. pose proof (loc_addr _ _ _ _ _ _ _ L1) as Ha1. rewrite Hidx in F4, G4.
    assert (Ea1 : a1 mod 16 = 0) by (by rewrite (mod_page_16 a1 0) by (by rewrite Z.mod_0_l by lia)). split.
    + unfold found_bytes, split_bytes, part_bytes. rewrite Hs0, Hs1. replace (Z.to_nat n) with (Z.to_nat first + Z.to_nat (n - first))%nat by lia.
      rewrite host_bytes_app, (host_bytes_span _ 64 (Z.to_nat first) addr (pd_haddr (page0 l))) by (intros k Hk; apply F4; lia). cbn [mbind option_bind].
      rewrite (host_bytes_span _ _ _ _ (pd_haddr (page1 l))); [done|]. intros k Hk. rewrite Z2Nat.id by lia. unfold first. rewrite E1. apply G4. lia.
    + split; [done|]. split; [|done]. assert (Eend : (addr + first) mod 16 = 0) by apply page_end_16. split.
      * split; [done|rewrite Hs0; lia|rewrite Ha0; by apply mod_page_16|right; by rewrite Ha0, Hs0].
      * split; [done|rewrite Hs1; lia|rewrite Ha1; by apply mod_page_16|left; by rewrite Ha1].
      * by rewrite Ha0, Hs0.
      * by rewrite Ha1.
      * rewrite Hs0, Hs1. lia.
      * by rewrite Hcode.
      * by rewrite Hcode.
Qed.

(** ** Loads *)

Context (HH : host_ok H) (Hsys : user_only cpu = false) (Hbits : ldst_page_bits cpu = TARGET_PAGE_BITS).

(** A host access is given up only beside other threads or on a host without 128-bit atomics. *)
Definition may_exit : Prop := cpu_in_serial_context cpu = false ∨ HAVE_ATOMIC128_RW H = false.
Lemma exit_parallel : cpu_in_serial_context cpu = false → may_exit.
Proof. by left. Qed.
Lemma exit_rw : HAVE_ATOMIC128_RW H = false → may_exit.
Proof. by right. Qed.
Lemma exit_no_al8 : HAVE_al8 H = false → may_exit.
Proof. apply (exit_al8 H HH), exit_rw. Qed.

Lemma near_page p n : 0 < n → pd_haddr p mod PAGE + n ≤ PAGE → in_page cpu (pd_haddr p) n (floor PAGE (pd_haddr p)) (floor PAGE (pd_haddr p) + PAGE).
Proof. destruct HP as [Hmin _]. intros Hn Hf. rewrite <- Hbits. apply page_bounds; rewrite ?Hbits; (lia || done). Qed.

Definition read_ok (memop : Z) m (l : list Z) (v : Z) (m' : Mem) : Prop := v = in_order memop (load_list m l) ∧ m' = m.
Lemma near_ld_n (n : nat) load p memop m :
  has (pd_flags p) TLB_MMIO = false → pd_size p = Z.of_nat n → memop_size memop = Z.of_nat n →
  hwp may_exit (load (pd_haddr p) memop) m (λ v m' _, v = le_join n m (pd_haddr p) ∧ m' = m) →
  hwp may_exit (do_ld_n X n load p memop) m (λ v m' _, read_ok memop m (part_bytes p) v m').
Proof.
  intros Hm Hs Hn Hl. unfold do_ld_n. rewrite Hm. apply hwp_bind. eapply hwp_mono; [|exact Hl]. intros v m' log [-> ->]. apply hwp_ret.
  split; [|done]. unfold in_order, part_bytes. by rewrite Hn, Hs, Nat2Z.id, load_list_span.
Qed.

Definition loads (addr : Z) : list (Z * (MMULookupLocals → bool → Host Z)) :=
  [(1, do_ld1 X); (2, do_ld2 X H cpu); (4, do_ld4 X H cpu); (8, do_ld8 X H cpu); (16, λ l, do_ld16 X H cpu l addr)].
(** Sixteen bytes in parts are not read where the first page has more than eight of them. *)
Definition defined_load (n : Z) (memop : Z) : Prop :=
  0 ≤ Z.land memop MO_ATOM_MASK ≤ MO_ATOM_NONE ∧ (n = 16 → Z.land memop MO_ATOM_MASK ≠ MO_ATOM_SUBALIGN).

Lemma cross_load addr n f l m access :
  (n, f) ∈ loads addr → found_ok access n l true → defined_load n (l_memop l) → bytes m →
  hwp may_exit (f l true) m (λ v m' _, read_ok (l_memop l) m (split_bytes l) v m').
Proof.
  intros Hf [_ [Hs _]] [_ Hd] Hm. pose proof exit_no_al8 as E8. pose proof exit_rw as E16.
  assert (Hw : ∀ x, hwp may_exit x m (loaded_split H l m) → hwp may_exit x m (λ v m' _, read_ok (l_memop l) m (split_bytes l) v m')).
  { intros x. apply hwp_mono. by intros v m' log (-> & -> & _). }
  repeat (apply elem_of_cons in Hf as [[= -> ->]|Hf]); [| | | | |by apply elem_of_nil in Hf].
  - pose proof (part_size _ (split_first _ _ Hs)). pose proof (part_size _ (split_second _ _ Hs)). pose proof (split_size _ _ Hs). lia.
  - by apply Hw, do_ld2_split.
  - by apply Hw, do_ld4_split.
  - by apply Hw, do_ld8_split.
  - apply Hw, do_ld16_split; [done..|]. intros E. by apply Hd in E.
Qed.
Lemma near_load addr n f l m access :
  (n, f) ∈ loads addr → found_ok access n l false → memop_size (l_memop l) = n → 0 ≤ Z.land (l_memop l) MO_ATOM_MASK ≤ MO_ATOM_NONE → bytes m →
  hwp may_exit (f l false) m (λ v m' _, read_ok (l_memop l) m (part_bytes (page0 l)) v m').
Proof.
  intros Hf (_ & Hmm & Hs & Hpg) Hc Ha Hm.
  assert (Hcode : ∀ s, 0 ≤ s → n = 2 ^ s → atomic_code s (l_memop l)) by (intros s H0 ->; split; [by apply (size_code s)|done]).
  assert (Hn0 : 0 < n) by (rewrite <- Hc; apply memop_size_pos). pose proof (near_page (page0 l) n Hn0 Hpg) as Hin.
  assert (Hl : ∀ s (x : Host Z) F L, hwp (cpu_in_serial_context cpu = false) x m (loaded_ok cpu s (pd_haddr (page0 l)) (l_memop l) m F L) →
    hwp may_exit x m (λ v m' _, v = le_join (Z.to_nat (2 ^ s)) m (pd_haddr (page0 l)) ∧ m' = m)).
  { intros s x F L Hx. eapply hwp_weaken; [apply exit_parallel|]. eapply hwp_mono; [|exact Hx]. by intros v m' log (-> & -> & _). }
  repeat (apply elem_of_cons in Hf as [[= -> ->]|Hf]); [| | | | |by apply elem_of_nil in Hf].
  - unfold do_ld1, do_ld_1. cbn [negb]. apply hwp_assert_bind; [done|]. rewrite Hmm. apply hwp_read. split; [|done].
    unfold in_order, part_bytes. rewrite Hc, Hs, load_list_span. change (Z.to_nat 1) with 1%nat. destruct (has (l_memop l) MO_BSWAP); [|done].
    cbn [bswap_bytes le_join]. pose proof (Hm (pd_haddr (page0 l))). rewrite Z.mul_0_r, Z.add_0_r, wrap_small by done.
    cbn. by rewrite Z.shiftl_0_r, Z.lor_0_r.
  - apply near_ld_n; [done..|]. eapply (Hl 1), load_atom_2_ok; first [exact Hin | done | by apply Hcode | by right].
  - apply near_ld_n; [done..|]. eapply (Hl 2), load_atom_4_ok; first [exact Hin | done | by apply Hcode | by right].
  - apply near_ld_n; [done..|]. eapply (Hl 3), load_atom_8_ok; first [exact Hin | done | by apply Hcode | by right].
  - unfold do_ld16. cbn [negb]. rewrite Hmm. apply hwp_bind. eapply hwp_weaken; [apply exit_parallel|].
    eapply hwp_mono; [|eapply load_atom_16_ok; first [exact Hin | done | by apply Hcode | by right]]. intros v m' log (-> & -> & _). apply hwp_ret.
    split; [|done]. unfold in_order, part_bytes. by rewrite Hc, Hs, load_list_span.
Qed.

Context (HX : machine_ok M X w).
(** The helpers read the bytes to which the page tables map the address. *)
Lemma load_refines addr oi access c n f h c' m :
  (n, f) ∈ loads addr → memop_size (get_memop oi) = n → defined_load n (get_memop oi) → in_range 64 addr → bytes m →
  mmu_inv M w c → memory_at (Z.to_nat (get_mmuidx oi)) access addr n → do_ld_mmu X f addr oi access c = Found (h, c') →
  mmu_inv M w c' ∧ ∃ hs, guest_bytes walk_guest access oi addr = Some hs ∧
    hwp may_exit h m (λ v m' _, read_ok (get_memop oi) m hs v m').
Proof.
  intros Hf Hn Hd Ha Hm Hc Hmem. unfold do_ld_mmu. intros (((l & cross) & c1) & Hl & [= <- <-])%found_bind.
  destruct (lookup_ok HP M X w HX _ _ _ _ _ _ _ Hc Ha Hl) as [Hc1 Hlu]. split; [done|].
  assert (Hn16 : n ≤ 16) by (clear - Hf; repeat (apply elem_of_cons in Hf as [[= -> _]|Hf]; [lia|]); by apply elem_of_nil in Hf).
  pose proof Hd as [Hat _]. pose proof (lu_code _ _ _ _ _ _ _ Hlu) as Hcode. rewrite <- Hn in Hmem.
  destruct (found_known addr oi access l cross Hlu Ha Hmem ltac:(lia) Hat) as [Hb Hok]. rewrite Hn in Hok.
  eexists. split; [exact Hb|]. rewrite <- Hcode in *. destruct cross; [by eapply cross_load|by eapply near_load].
Qed.

(** ** Stores *)

Lemma exit_no_cas : HAVE_CMPXCHG128 H = false → may_exit.
Proof.
  intros E. right. destruct (HAVE_ATOMIC128_RW H) eqn:Ew; [|done]. pose proof (cas_of_rw _ HH Ew) as E'. by rewrite E' in E.
Qed.
Definition write_ok (memop : Z) m (hs : list Z) (v : Z) (m' : Mem) : Prop := ∀ k, m' k = store_list m hs (in_order memop v) k.
Lemma near_written n p memop m v m' :
  0 < n → pd_size p = n → stored m (pd_haddr p) n (in_order memop v) m' → write_ok memop m (part_bytes p) v m'.
Proof. intros Hn Hs Hst k. unfold part_bytes. rewrite store_list_span, Hs, Z2Nat.id by lia. apply Hst. Qed.
Lemma near_st_n (n : nat) store p memop m v :
  (0 < n)%nat → has (pd_flags p) TLB_MMIO = false → has (pd_flags p) TLB_DISCARD_WRITE = false → pd_size p = Z.of_nat n →
  memop_size memop = Z.of_nat n →
  hwp may_exit (store (pd_haddr p) memop (in_order memop v)) m (λ _ m' _, stored m (pd_haddr p) (Z.of_nat n) (in_order memop v) m') →
  hwp may_exit (do_st_n X n store p v memop) m (λ _ m' _, write_ok memop m (part_bytes p) v m').
Proof.
  intros Hn Hm Hd Hs Hsz Hl. unfold do_st_n. rewrite Hm, Hd. unfold in_order in Hl at 1. rewrite Hsz, Nat2Z.id in Hl.
  eapply hwp_mono; [|exact Hl]. intros u m' log Hst. by eapply near_written; [|exact Hs|]; [lia|].
Qed.

Definition stores (addr : Z) : list (Z * (MMULookupLocals → Z → bool → Host unit)) :=
  [(1, do_st1 X); (2, do_st2 X H cpu); (4, do_st4 X H cpu); (8, do_st8 X H cpu); (16, λ l, do_st16 X H cpu l addr)].

Lemma cross_store addr n f l v m :
  (n, f) ∈ stores addr → found_ok MMU_DATA_STORE n l true → defined_load n (l_memop l) → bytes m → in_range (8 * n) v →
  hwp may_exit (f l v true) m (λ _ m' _, write_ok (l_memop l) m (split_bytes l) v m').
Proof.
  intros Hf [W0 [Hs W1]] [_ Hd] Hm Hv. pose proof exit_no_al8 as E8. pose proof exit_no_cas as E16.
  assert (Hss : split_store_ok l n).
  { split; [done|split; [by apply (split_first _ _ Hs)|by apply W0]|split; [by apply (split_second _ _ Hs)|by apply W1]]. }
  assert (Hw : ∀ x : Host unit, hwp may_exit x m (λ _, stored_split H l m v) → hwp may_exit x m (λ _ m' _, write_ok (l_memop l) m (split_bytes l) v m')).
  { intros x. apply hwp_mono. by intros u m' log [Hst _]. }
  repeat (apply elem_of_cons in Hf as [[= -> ->]|Hf]); [| | | | |by apply elem_of_nil in Hf].
  - pose proof (part_size _ (split_first _ _ Hs)). pose proof (part_size _ (split_second _ _ Hs)). pose proof (split_size _ _ Hs). lia.
  - by apply Hw, do_st2_split.
  - by apply Hw, do_st4_split.
  - by apply Hw, do_st8_split.
  - apply Hw, do_st16_split; [done..|]. intros E. by apply Hd in E.
Qed.
Lemma near_store addr n f l v m :
  (n, f) ∈ stores addr → found_ok MMU_DATA_STORE n l false → memop_size (l_memop l) = n →
  0 ≤ Z.land (l_memop l) MO_ATOM_MASK ≤ MO_ATOM_NONE → bytes m → in_range (8 * n) v →
  hwp may_exit (f l v false) m (λ _ m' _, write_ok (l_memop l) m (part_bytes (page0 l)) v m').
Proof.
  intros Hf (Hdw & Hmm & Hs & Hpg) Hc Ha Hm Hv. specialize (Hdw eq_refl).
  assert (Hcode : ∀ s, 0 ≤ s → n = 2 ^ s → atomic_code s (l_memop l)) by (intros s H0 ->; split; [by apply (size_code s)|done]).
  assert (Hn0 : 0 < n) by (rewrite <- Hc; apply memop_size_pos). pose proof (near_page (page0 l) n Hn0 Hpg) as Hin.
  assert (Hr : in_range (8 * n) (in_order (l_memop l) v)).
  { unfold in_order. rewrite Hc. destruct (has (l_memop l) MO_BSWAP); [|done].
    pose proof (bswap_range (Z.to_nat n) v) as R. by rewrite Z2Nat.id in R by lia. }
  assert (Hl : ∀ s (x : Host unit) F L, n = 2 ^ s →
    hwp (cpu_in_serial_context cpu = false) x m (stored_ok cpu s (pd_haddr (page0 l)) (l_memop l) m F L (in_order (l_memop l) v)) →
    hwp may_exit x m (λ _ m' _, stored m (pd_haddr (page0 l)) n (in_order (l_memop l) v) m')).
  { intros s x F L -> Hx. eapply hwp_weaken; [apply exit_parallel|]. eapply hwp_mono; [|exact Hx]. by intros u m' log [? _]. }
  repeat (apply elem_of_cons in Hf as [[= -> ->]|Hf]); [| | | | |by apply elem_of_nil in Hf].
  - unfold do_st1, do_st_1. cbn [negb]. apply hwp_assert_bind; [done|]. rewrite Hmm, Hdw.
    eapply near_written; [|exact Hs|]; [lia|]. assert (E1 : in_order (l_memop l) v = v); [|by rewrite E1].
    unfold in_order. rewrite Hc. destruct (has (l_memop l) MO_BSWAP); [|done]. change (Z.to_nat 1) with 1%nat. cbn [bswap_bytes].
    rewrite wrap_small by done. cbn. by rewrite Z.shiftl_0_r, Z.lor_0_r.
  - apply near_st_n; [lia|done..|]. eapply (Hl 1), store_atom_2_ok; first [exact Hin | done | by apply Hcode].
  - apply near_st_n; [lia|done..|]. eapply (Hl 2), store_atom_4_ok; first [exact Hin | done | by apply Hcode].
  - apply near_st_n; [lia|done..|]. eapply (Hl 3), store_atom_8_ok; first [exact Hin | done | by apply Hcode].
  - unfold do_st16. cbn [negb]. rewrite Hmm, Hdw.
    assert (Eo : (if has (l_memop l) MO_BSWAP then bswap128 v else v) = in_order (l_memop l) v) by (unfold in_order; by rewrite Hc).
    rewrite Eo. eapply hwp_mono; [|eapply (Hl 4), store_atom_16_ok; first [exact Hin | done | by apply Hcode]].
    intros u m' log Hst. by eapply near_written; [|exact Hs|]; [lia|].
Qed.
Lemma store_refines addr oi c n f v h c' m :
  (n, f) ∈ stores addr → memop_size (get_memop oi) = n → defined_load n (get_memop oi) → in_range 64 addr → bytes m →
  in_range (8 * n) v → mmu_inv M w c → memory_at (Z.to_nat (get_mmuidx oi)) MMU_DATA_STORE addr n →
  do_st_mmu X f addr v oi c = Found (h, c') →
  mmu_inv M w c' ∧ ∃ hs, guest_bytes walk_guest MMU_DATA_STORE oi addr = Some hs ∧
    hwp may_exit h m (λ _ m' _, write_ok (get_memop oi) m hs v m').
Proof.
  intros Hf Hn Hd Ha Hm Hv Hc Hmem. unfold do_st_mmu. intros (((l & cross) & c1) & Hl & [= <- <-])%found_bind.
  destruct (lookup_ok HP M X w HX _ _ _ _ _ _ _ Hc Ha Hl) as [Hc1 Hlu]. split; [done|].
  assert (Hn16 : n ≤ 16) by (clear - Hf; repeat (apply elem_of_cons in Hf as [[= -> _]|Hf]; [lia|]); by apply elem_of_nil in Hf).
  pose proof Hd as [Hat _]. pose proof (lu_code _ _ _ _ _ _ _ Hlu) as Hcode. rewrite <- Hn in Hmem.
  destruct (found_known addr oi MMU_DATA_STORE l cross Hlu Ha Hmem ltac:(lia) Hat) as [Hb Hok]. rewrite Hn in Hok.
  eexists. split; [exact Hb|]. rewrite <- Hcode in *. destruct cross; [by eapply cross_store|by eapply near_store].
Qed.
End Refine.

(** ** Accesses that must succeed *)

Lemma host_bytes_defined f bits n : ∀ a hs, host_bytes f bits n a = Some hs → ∀ k, 0 ≤ k < Z.of_nat n → ∃ h, f (wrap bits (a + k)) = Some h.
Proof.
  induction n as [|n IH]; intros a hs Hb k Hk; [lia|]. cbn [host_bytes] in Hb. apply bind_Some in Hb as (h & Hh & Hb).
  apply bind_Some in Hb as (hs' & Hb & _). destruct (Z.eq_dec k 0) as [->|]; [exists h; by rewrite Z.add_0_r|].
  destruct (IH (a + 1) hs' Hb (k - 1)) as [h' E]; [lia|]. exists h'. by replace (a + k) with (a + 1 + (k - 1)) by lia.
Qed.
Section Completes.
Context {P : Pages} (HP : pages_ok) (M : Memory) (X : Machine) (w : nat → Walk) (HX : machine_ok M X w).
(** Where the page tables map the access to memory the lookup ends with the pages. *)
Lemma access_completes addr oi access c hs :
  machine_total M X w → mmu_inv M w c → in_range 64 addr → guest_bytes (walk_guest M w) access oi addr = Some hs →
  ∃ l cross c', mmu_lookup X addr oi access c = Found (l, cross, c').
Proof.
  intros HT Hc Ha Hb. unfold guest_bytes in Hb. destruct (Z.eqb_spec (Z.land addr (Z.ones (get_alignment_bits (get_memop oi)))) 0) as [Hal|]; [|done].
  apply (lookup_total HP M X w HX HT); [done..|]. intros k Hk. pose proof (memop_size_pos (get_memop oi)).
  destruct (host_bytes_defined _ _ _ _ _ Hb k) as [h Hh]; [lia|]. cbn in Hh. unfold reachable.
  destruct (w (Z.to_nat (get_mmuidx oi)) (page_of (wrap 64 (addr + k)))) as [full|]; [|done]. exists full. split; [done|].
  by destruct (permits M full access).
Qed.
End Completes.
