(* ===== verification/Logic.v ===== *)
(** A program logic for code generators.

    A generator emits operations; what matters is what the operations do when
    they run.  [wp i m σ g Q] says: from every context whose temporaries fit the
    assertion [σ], the generator [m] does not fail an assertion, and running
    the operations it emits from any state that satisfies [σ] and [g] succeeds
    and leads to a state that satisfies [Q]'s assertions.  Overflow of the
    temporary array is allowed: translation restarts.

    An assertion [σ] maps temporaries to cells.  The content of a value cell is
    a number; that of an expression cell is [Exp w c x]: the expression in it
    describes the value [x] of a [w]-bit variable under the inputs [i], the
    variable holding [c] in the concrete run.  The ghost state [g] has the
    truth of the path constraints pushed so far under [i] and the two views of
    memory. *)
From S2P Require Import Prelude Lanes Cond Bitops Backend SymHelpers SymMemory SymVec Ops Temps Exec.

Inductive content : Type :=
| Uninit
| Num (c : Z)
| Exp (w c x : Z)
(** A pointer to a block of the heap. *)
| Ptr (b : nat).

Record cell := Cell {
  ckind : TCGTempKind;
  cty : VarType;
  cexpr : bool;
  cval : content;
}.

Record ghost := Ghost {
  gpath : bool;
  gmem : Z → Z;
  galt : Z → Z;
  gguest : Guest;
  gheap : list (option Block);
}.

(** What a register of a type holds for the value [n]: a scalar may be in the low half
    of it. *)
Definition reg_holds (ty : VarType) (z n : Z) : Prop :=
  match ty with
  | Reg t => in_range 64 z ∧ wrap (ty_width t) z = n
  | _ => in_range (var_width ty) z ∧ z = n
  end.
(** The value of a constant. *)
Definition const_num (ty : VarType) (v : Z) : Z :=
  match ty with
  | Reg t => wrap (ty_width t) v
  | V64 => wrap 64 v
  | V128 => vdup 2 64 v
  | V256 => vdup 4 64 v
  end.

Lemma const_reg_holds ty v : reg_holds ty (const_reg (type_of ty) v) (const_num ty v).
Proof.
  destruct ty as [[]| | |]; cbn [reg_holds type_of const_reg const_num var_width ty_width].
  - split; [by apply wrap_range|]. apply wrap_wrap_le. lia.
  - split; [by apply wrap_range|]. apply wrap_wrap_le. lia.
  - split; [by apply wrap_range|done].
  - split; [by apply (vdup_in 2 64)|done].
  - split; [by apply (vdup_in 4 64)|done].
Qed.

Abbreviation store := (gmap nat cell).

(** The expression of the variable in the register [env] is a global in
    memory. *)
Definition expr_kind (k : TCGTempKind) : TCGTempKind :=
  match k with TEMP_FIXED => TEMP_GLOBAL | _ => k end.

(** The temporaries an operation may write. *)
Definition writable (k : TCGTempKind) : bool :=
  match k with TEMP_CONST | TEMP_FIXED => false | _ => true end.

Definition live (ts : TCGTemp) : Prop := kind ts = TEMP_EBB → temp_allocated ts = true.

(** The cell [c] of temporary [t] agrees with the table. *)
Definition cell_typed (l : list TCGTemp) (t : nat) (c : cell) : Prop :=
  if cexpr c then
    ∃ te, l !! t = Some te ∧ is_expr (ckind c) te ∧ live te ∧ cty c = I64 ∧
      (ckind c = TEMP_CONST → ∃ t0 ts ty, t = S t0 ∧ l !! t0 = Some ts ∧ is_value ty TEMP_CONST ts ∧
         let v := const_num ty (val ts) in cval c = Exp (var_width ty) v v)
  else
    ∃ ts te, l !! t = Some ts ∧ l !! S t = Some te ∧ is_value (cty c) (ckind c) ts ∧
      is_expr (expr_kind (ckind c)) te ∧ live ts ∧ live te ∧
      (ckind c = TEMP_CONST → cval c = Num (const_num (cty c) (val ts))).

Definition ctx_ok (s : TCGContext) (σ : store) : Prop :=
  ctx_wf s ∧ ∀ t c, σ !! t = Some c → cell_typed (temps s) t c.

Section Logic.
Context `{SL : ShadowLaws} {BL : BackendLaws B BS}.
Context (i : Input).

Lemma pin_address_path pc addr bits oa xa t :
  0 < bits ≤ 64 → in_range bits addr → shadows i bits addr xa oa →
  path_holds i (pin_address pc addr bits oa t) = path_holds i t && (xa =? addr).
Proof.
  intros Hb Ha Hs. destruct (pin_address_correct i pc addr bits oa xa t Hb Ha Hs) as [[-> ->]|(e & -> & _ & He)].
  - by rewrite Z.eqb_refl, andb_true_r.
  - rewrite path_holds_app. cbn. rewrite He. by destruct (xa =? addr).
Qed.

Definition cell_ok (c : cell) (v : rval) : Prop :=
  match cval c with
  | Uninit => True
  | Num n => ∃ z, v = VNum z ∧ reg_holds (cty c) z n
  | Exp w n x => ∃ o, v = of_expr o ∧ shadows i w n x o
  | Ptr b => v = VBuf b
  end.

Record models (Γ : list TCGTemp) (σ : store) (g : ghost) (st : State) : Prop := {
  m_cells t c : σ !! t = Some c → ∃ v, rd Γ st t = Ok v ∧ cell_ok c v;
  m_path : path_holds i (trace st) = gpath g;
  m_mem a : mem st a = gmem g a;
  m_bytes : bytes (mem st);
  m_alt a : alt_byte i (shadow st) (mem st) a = galt g a;
  m_guest : guest st = gguest g;
  m_heap : heap st = gheap g;
}.

(** The kinds the table gives to the cells. *)
Definition typed (Γ : list TCGTemp) (σ : store) : Prop :=
  ∀ t c, σ !! t = Some c → ∃ ts, Γ !! t = Some ts ∧ kind ts = ckind c.

Definition wp {A} (m : Gen A) (σ : store) (g : ghost) (Q : A → store → ghost → Prop) : Prop :=
  ∀ s, ctx_ok s σ →
  match m s with
  | GOk a s' => ∃ l σ' g',
      Q a σ' g' ∧ ctx_ok s' σ' ∧ static_ext (temps s) (temps s') ∧ ops s' = ops s ++ l ∧
      ∀ Γ st, static_ext (temps s') Γ → models Γ σ g st →
        ∃ st', exec Γ l st = Ok (Fall st') ∧ models Γ σ' g' st'
  | GOverflow => True
  | GAssert => False
  end.

(** ** Structural rules *)

Lemma wp_ret {A} (a : A) σ g Q : Q a σ g → wp (mret a) σ g Q.
Proof.
  intros HQ s Hs. exists [], σ, g. split; [done|]. split; [done|]. split; [reflexivity|].
  split; [by rewrite app_nil_r|]. intros Γ st _ Hm. by exists st.
Qed.

Lemma wp_bind {A C} (m : Gen A) (k : A → Gen C) σ g Q :
  wp m σ g (λ a σ' g', wp (k a) σ' g' Q) → wp (m ≫= k) σ g Q.
Proof.
  intros Hm s Hs. specialize (Hm s Hs). unfold mbind, gen_bind.
  destruct (m s) as [a s1| |]; [|done..].
  destruct Hm as (l1 & σ1 & g1 & Hk & Hs1 & He1 & Ho1 & Hx1). specialize (Hk s1 Hs1).
  destruct (k a s1) as [b s2| |]; [|done..].
  destruct Hk as (l2 & σ2 & g2 & HQ & Hs2 & He2 & Ho2 & Hx2).
  exists (l1 ++ l2), σ2, g2. split; [done|]. split; [done|]. split; [by etrans|].
  split; [by rewrite Ho2, Ho1, app_assoc|]. intros Γ st HΓ Hst.
  destruct (Hx1 Γ st) as (st1 & E1 & M1); [by etrans|done|].
  destruct (Hx2 Γ st1 HΓ M1) as (st2 & E2 & M2). exists st2. split; [|done].
  by rewrite (exec_app Γ l1 l2 st st1).
Qed.

Lemma wp_mono {A} (m : Gen A) σ g (Q R : A → store → ghost → Prop) :
  (∀ a σ' g', Q a σ' g' → R a σ' g') → wp m σ g Q → wp m σ g R.
Proof.
  intros HQR Hm s Hs. specialize (Hm s Hs). destruct (m s); [|done..].
  destruct Hm as (l & σ1 & g1 & HQ & Hrest). exists l, σ1, g1. split; [by apply HQR|done].
Qed.

Lemma models_weaken Γ σ σ' g st : σ' ⊆ σ → models Γ σ g st → models Γ σ' g st.
Proof. intros Hs []. split; try done. intros t c H. eauto using lookup_weaken. Qed.

Lemma ctx_ok_weaken s σ σ' : σ' ⊆ σ → ctx_ok s σ → ctx_ok s σ'.
Proof. intros Hs [? H]. split; [done|]. intros t c Ht. eauto using lookup_weaken. Qed.

(** Cells that are no longer needed can be forgotten. *)
Lemma wp_forget {A} (m : Gen A) σ g (Q : A → store → ghost → Prop) :
  wp m σ g (λ a σ1 g1, ∃ σ2, σ2 ⊆ σ1 ∧ Q a σ2 g1) → wp m σ g Q.
Proof.
  intros Hm s Hs. specialize (Hm s Hs). destruct (m s); [|done..].
  destruct Hm as (l & σ1 & g1 & (σ2 & Hsub & HQ) & Hok & He & Ho & Hx).
  exists l, σ2, g1. split; [done|]. split; [by eapply ctx_ok_weaken|]. split; [done|]. split; [done|].
  intros Γ st HΓ Hst. destruct (Hx Γ st HΓ Hst) as (st' & E & M).
  exists st'. split; [done|]. by eapply models_weaken.
Qed.

Lemma wp_assert b σ g (Q : unit → store → ghost → Prop) :
  b = true → Q tt σ g → wp (tcg_debug_assert b) σ g Q.
Proof. intros -> HQ. by apply wp_ret. Qed.

(** ** Temporaries *)

(** A generator step that emits nothing. *)
Lemma wp_silent {A} (m : Gen A) σ g Q :
  (∀ s, ctx_ok s σ → match m s with
     | GOk a s' => ∃ σ', Q a σ' g ∧ ctx_ok s' σ' ∧ static_ext (temps s) (temps s') ∧ ops s' = ops s ∧
         (∀ Γ st, static_ext (temps s') Γ → models Γ σ g st → models Γ σ' g st)
     | GOverflow => True
     | GAssert => False
     end) → wp m σ g Q.
Proof.
  intros H s Hs. specialize (H s Hs). destruct (m s); [|done..].
  destruct H as (σ' & HQ & Hok & He & Ho & Hm). exists [], σ', g.
  split; [done|]. split; [done|]. split; [done|]. split; [by rewrite app_nil_r|].
  intros Γ st HΓ Hst. exists st. split; [done|]. by apply Hm.
Qed.

Lemma wp_temp_expr t σ g Q k ty v :
  σ !! t = Some (Cell k ty false v) → Q (S t) σ g → wp (temp_expr t) σ g Q.
Proof.
  intros Ht HQ. apply wp_silent. intros s [Hwf Hc].
  destruct (Hc t _ Ht) as (ts & te & H1 & H2 & (_ & _ & _ & Hl & Hs) & (_ & _ & _ & He) & _).
  unfold temp_expr, mbind, gen_bind, get_temp, tcg_debug_assert. rewrite H1, Hs, Hl. cbn.
  replace (t + 0 + 1)%nat with (S t) by lia. rewrite H2, He. cbn.
  exists σ. split; [done|]. split; [done|]. split; [reflexivity|]. by split.
Qed.

(** Typing is about static fields and liveness: it survives a change of the
    table that keeps them for the temporaries concerned. *)
Lemma cell_typed_mono l l' t c :
  cell_typed l t c →
  (∀ ts, l !! t = Some ts → live ts → l' !! t = Some ts) →
  (∀ te, symbolic_expression te = true → l !! S t = Some te → live te → l' !! S t = Some te) →
  (∀ m ts, S m = t → l !! m = Some ts → kind ts = TEMP_CONST → l' !! m = Some ts) →
  cell_typed l' t c.
Proof.
  unfold cell_typed. destruct (cexpr c).
  - intros (te & H1 & He & Hl & Hty & Hc) Hk _ Hk'. exists te. split; [by apply Hk|].
    split; [done|]. split; [done|]. split; [done|]. intros Hck.
    destruct (Hc Hck) as (t0 & ts & ty & -> & H0 & Hv & Hval). exists t0, ts, ty.
    split; [done|]. split; [|done]. apply Hk'; [done|done|]. by destruct Hv as (_ & _ & ? & _).
  - intros (ts & te & H1 & H2 & Hv & He & Hl & Hl' & Hc) Hk Hk' _. exists ts, te.
    split; [by apply Hk|]. split; [|done]. apply Hk'; try done. by destruct He as (_ & _ & _ & ?).
Qed.

(** The cells of a fresh pair of temporaries. *)
Definition fresh_cells (t : nat) (ty : VarType) (k : TCGTempKind) (σ : store) : store :=
  <[t := Cell k ty false Uninit]> (<[S t := Cell k I64 true Uninit]> σ).

Lemma pair_typed l t ty k v v' :
  pair_at l t ty k true → k ≠ TEMP_CONST → k ≠ TEMP_FIXED →
  cell_typed l t (Cell k ty false v) ∧ cell_typed l (S t) (Cell k I64 true v').
Proof.
  intros (ts & te & H1 & H2 & Hv & He & Ha & Ha') Hk1 Hk2. split; unfold cell_typed; cbn.
  - exists ts, te. assert (expr_kind k = k) as -> by (by destruct k).
    repeat (split; [done|]). split; [intros _; done|]. split; [intros _; done|]. done.
  - exists te. repeat (split; [done|]). split; [intros _; done|]. split; done.
Qed.

Lemma live_not_unused ts : live ts → ¬ (kind ts = TEMP_EBB ∧ temp_allocated ts = false).
Proof. intros Hl [Hk Ha]. specialize (Hl Hk). congruence. Qed.

Lemma typed_live l t c : cell_typed l t c → ∃ ts, l !! t = Some ts ∧ live ts.
Proof.
  unfold cell_typed. destruct (cexpr c).
  - intros (te & ? & _ & ? & _). eauto.
  - intros (ts & te & ? & _ & _ & _ & ? & _). eauto.
Qed.

Lemma allocated_none s s' t ty k σ :
  ctx_ok s σ → allocated s s' t ty k → σ !! t = None ∧ σ !! S t = None.
Proof.
  intros [_ Hc] Ha. split; apply eq_None_not_Some; intros [c Hσ]; apply Hc in Hσ;
    apply typed_live in Hσ as (ts & Ht & Hl); apply (live_not_unused ts Hl);
    (eapply al_unused; [exact Ha| |exact Ht]); auto.
Qed.

Lemma wp_temp_new ty k σ g Q :
  k = TEMP_EBB ∨ k = TEMP_TB →
  (∀ t, σ !! t = None → σ !! S t = None → Q t (fresh_cells t ty k σ) g) →
  wp (tcg_temp_new_internal (type_of ty) k) σ g Q.
Proof.
  intros Hk HQ. apply wp_silent. intros s Hok. pose proof Hok as [Hwf Hc].
  pose proof (tcg_temp_new_spec ty k s Hwf Hk) as Hnew.
  destruct (tcg_temp_new_internal _ _ s) as [t s'| |]; [|done..].
  destruct (allocated_none _ _ _ _ _ _ Hok Hnew) as [N1 N2].
  exists (fresh_cells t ty k σ). split; [by apply HQ|]. split; [|split; [apply Hnew|split; [apply Hnew|]]].
  - split; [apply Hnew|]. intros m c. unfold fresh_cells.
    assert (k ≠ TEMP_CONST ∧ k ≠ TEMP_FIXED) as [Hk1 Hk2] by (by destruct Hk as [-> | ->]).
    destruct (decide (m = t)) as [->|]; [rewrite lookup_insert_eq|rewrite lookup_insert_ne by done].
    { intros [= <-]. by eapply (pair_typed _ _ _ _ _ Uninit); [apply Hnew|..]. }
    destruct (decide (m = S t)) as [->|]; [rewrite lookup_insert_eq|rewrite lookup_insert_ne by done].
    { intros [= <-]. by eapply (pair_typed _ _ ty _ Uninit); [apply Hnew|..]. }
    assert (Hkeep : ∀ m' ts, temps s !! m' = Some ts → live ts → temps s' !! m' = Some ts).
    { intros m' ts Hl Hlive. apply (al_other _ _ _ _ _ Hnew); [| |done]; intros ->;
        apply (live_not_unused ts Hlive); (eapply al_unused; [exact Hnew| |exact Hl]); auto. }
    intros Hm. eapply cell_typed_mono; [by apply Hc|by apply Hkeep|intros te _; by apply Hkeep|].
    intros m' ts _ Hl Hconst. apply (al_other _ _ _ _ _ Hnew); [| |done]; intros ->;
        [destruct (al_unused _ _ _ _ _ Hnew t ts)|destruct (al_unused _ _ _ _ _ Hnew (S t) ts)];
        try congruence; auto.
  - intros Γ st HΓ [Mc Mp Mm Mb Ma]. split; try done. intros m c. unfold fresh_cells.
    assert (R : ∀ ts, temps s' !! m = Some ts → ∃ v, rd Γ st m = Ok v).
    { intros ts H. destruct (HΓ _ _ H) as (ts' & H' & _). unfold rd. rewrite H'. eauto. }
    destruct (al_pair _ _ _ _ _ Hnew) as (ts & te & H1 & H2 & _).
    destruct (decide (m = t)) as [->|]; [rewrite lookup_insert_eq|rewrite lookup_insert_ne by done].
    { intros [= <-]. destruct (R ts H1) as [v Hv]. by exists v. }
    destruct (decide (m = S t)) as [->|]; [rewrite lookup_insert_eq|rewrite lookup_insert_ne by done].
    { intros [= <-]. destruct (R te H2) as [v Hv]. by exists v. }
    apply Mc.
Qed.

(** Freeing a temporary of the basic block forgets its cells. *)
Lemma wp_temp_free t σ g Q ty v :
  σ !! t = Some (Cell TEMP_EBB ty false v) →
  Q tt (delete t (delete (S t) σ)) g → wp (tcg_temp_free_internal t) σ g Q.
Proof.
  intros Ht HQ. apply wp_silent. intros s [Hwf Hc].
  destruct (Hc t _ Ht) as (ts & te & H1 & H2 & Hv & He & Hl & Hl' & _). cbn in *.
  assert (Hp : pair_at (temps s) t ty TEMP_EBB true).
  { exists ts, te. split; [done|]. split; [done|]. split; [done|]. split; [done|].
    destruct Hv as (_ & _ & Hk & _), He as (_ & _ & Hk' & _). auto. }
  rewrite (tcg_temp_free_spec ty) by done.
  exists (delete t (delete (S t) σ)). split; [done|].
  split; [|split; [apply mark_static|split; [done|]]].
  - split; [by apply freed_wf|]. intros m c [Hm1 [Hm2 Hm]%lookup_delete_Some]%lookup_delete_Some.
    destruct Hv as (_ & _ & _ & _ & Hsv).
    eapply cell_typed_mono; [by apply Hc| | |]; cbn.
    + intros ts' ? _. by rewrite mark_ne by done.
    + intros te' Hse ? _. rewrite mark_ne; [done| |congruence]. intros <-. congruence.
    + intros m' ts' _ Hl1 Hconst. by eapply mark_const.
  - intros Γ st _ [Mc Mp Mm Mb Ma]. split; try done.
    intros m c [_ [_ Hm]%lookup_delete_Some]%lookup_delete_Some. by apply Mc.
Qed.

(** Reading an entry of the table. *)
Lemma wp_get_temp t σ g (Q : TCGTemp → store → ghost → Prop) k ty e v :
  σ !! t = Some (Cell k ty e v) →
  (∀ ts, symbolic_expression ts = e → kind ts = k → Q ts σ g) → wp (get_temp t) σ g Q.
Proof.
  intros Ht HQ. apply wp_silent. intros s Hok. pose proof (proj2 Hok t _ Ht) as Hc. unfold cell_typed in Hc.
  cbn in Hc. unfold get_temp. destruct e.
  - destruct Hc as (te & H1 & (_ & _ & Hk & He) & _). rewrite H1. exists σ. split; [by apply HQ|].
    split; [done|]. split; [reflexivity|]. by split.
  - destruct Hc as (ts & te & H1 & _ & (_ & _ & Hk & _ & Hs) & _). rewrite H1. exists σ.
    split; [by apply HQ|]. split; [done|]. split; [reflexivity|]. by split.
Qed.

(** Freeing a temporary of the translation block or a constant does nothing. *)
Lemma wp_temp_keep t σ g Q k ty v :
  σ !! t = Some (Cell k ty false v) → k = TEMP_TB ∨ k = TEMP_CONST →
  Q tt σ g → wp (tcg_temp_free_internal t) σ g Q.
Proof.
  intros Ht Hk HQ. apply wp_bind. eapply wp_temp_expr; [done|]. apply wp_bind.
  eapply wp_get_temp; [done|]. intros ts _ Hkd. rewrite Hkd. destruct Hk as [-> | ->]; by apply wp_ret.
Qed.

(** The cells of a constant. *)
Definition const_value (ty : VarType) (v : Z) : cell := Cell TEMP_CONST ty false (Num (const_num ty v)).
Definition const_null (ty : VarType) (v : Z) : cell :=
  let n := const_num ty v in Cell TEMP_CONST I64 true (Exp (var_width ty) n n).
Definition const_cells (t : nat) (ty : VarType) (v : Z) (σ : store) : store :=
  <[t := const_value ty v]> (<[S t := const_null ty v]> σ).

(** A cell that is new or already known. *)
Definition agrees (σ : store) (t : nat) (c : cell) : Prop := σ !! t = None ∨ σ !! t = Some c.

Lemma const_agrees s s' t ty v σ :
  ctx_ok s σ → constant_at s s' t (type_of ty) v →
  agrees σ t (const_value ty v) ∧ agrees σ (S t) (const_null ty v).
Proof.
  intros [_ Hc] Hca. split.
  - destruct (σ !! t) as [[k ty' e v']|] eqn:E; [right|by left]. rewrite E. f_equal.
    specialize (Hc _ _ E). unfold cell_typed in Hc. cbn in Hc. destruct e.
    + destruct Hc as (te & H1 & (_ & _ & _ & He) & _). apply (ca_other _ _ _ _ _ Hca) in H1.
      rewrite (ca_value _ _ _ _ _ Hca) in H1. by simplify_eq.
    + destruct Hc as (ts & te & H1 & _ & Hv & _ & _ & _ & Hk). apply (ca_other _ _ _ _ _ Hca) in H1.
      rewrite (ca_value _ _ _ _ _ Hca) in H1. simplify_eq.
      destruct Hv as (Hb & _ & Hkd & _). cbn in *. apply type_of_inj in Hb as ->. subst k.
      rewrite Hk by done. done.
  - destruct (σ !! S t) as [[k ty' e v']|] eqn:E; [right|by left]. rewrite E. f_equal.
    specialize (Hc _ _ E). unfold cell_typed in Hc. cbn in Hc. destruct e.
    + destruct Hc as (te & H1 & (_ & _ & Hkd & _) & _ & -> & Hk). apply (ca_other _ _ _ _ _ Hca) in H1.
      rewrite (ca_expr _ _ _ _ _ Hca) in H1. simplify_eq. cbn in Hk.
      destruct Hk as (t0 & ts & ty0 & [= <-] & H0 & (Hb & _) & Hval); [done|].
      apply (ca_other _ _ _ _ _ Hca) in H0. rewrite (ca_value _ _ _ _ _ Hca) in H0. simplify_eq.
      cbn in *. by apply type_of_inj in Hb as ->.
    + destruct Hc as (ts & te & H1 & _ & (_ & _ & _ & _ & Hs) & _). apply (ca_other _ _ _ _ _ Hca) in H1.
      rewrite (ca_expr _ _ _ _ _ Hca) in H1. by simplify_eq.
Qed.

Lemma cell_typed_other l l' t c :
  (∀ m ts, l !! m = Some ts → l' !! m = Some ts) → cell_typed l t c → cell_typed l' t c.
Proof. intros H Hc. eapply cell_typed_mono; eauto. Qed.

Lemma wp_constant_internal ty v σ g Q :
  (∀ t, agrees σ t (const_value ty v) → agrees σ (S t) (const_null ty v) →
     Q t (const_cells t ty v σ) g) →
  wp (tcg_constant_internal (type_of ty) v) σ g Q.
Proof.
  intros HQ. apply wp_silent. intros s Hok. pose proof Hok as [Hwf Hc].
  pose proof (constant_internal_spec ty v s Hwf) as Hca.
  destruct (tcg_constant_internal (type_of ty) v s) as [t s'| |]; [|done..].
  pose proof Hca as [Cw Cs Co Cv Ce Cot].
  destruct (const_agrees _ _ _ _ _ _ Hok Hca) as [A1 A2].
  exists (const_cells t ty v σ). split; [by apply HQ|].
  split; [|split; [done|split; [done|]]].
  - split; [done|]. intros m c. unfold const_cells.
    destruct (decide (m = t)) as [->|]; [rewrite lookup_insert_eq|rewrite lookup_insert_ne by done].
    { intros [= <-]. exists (const_temp (type_of ty) v), const_expr_temp.
      split; [done|]. split; [done|]. split; [by destruct ty|]. done. }
    destruct (decide (m = S t)) as [->|]; [rewrite lookup_insert_eq|rewrite lookup_insert_ne by done].
    { intros [= <-]. exists const_expr_temp. split; [done|]. split; [done|]. split; [done|].
      split; [done|]. intros _. exists t, (const_temp (type_of ty) v), ty.
      split; [done|]. split; [done|]. split; [by destruct ty|]. done. }
    intros Hm. eapply cell_typed_other; [done|by apply Hc].
  - intros Γ st HΓ [Mc Mp Mm Mb Ma]. split; try done. intros m c. unfold const_cells.
    assert (R : ∀ ts, temps s' !! m = Some ts → kind ts = TEMP_CONST →
      rd Γ st m = Ok (VNum (const_reg (base_type ts) (val ts)))).
    { intros ts H1 Hk. destruct (HΓ _ _ H1) as (ts' & H2 & Hst).
      destruct (same_static_fields _ _ Hst) as (Hk' & Hv & Hb).
      unfold rd. rewrite H2, Hk', Hv, Hb. by rewrite bool_decide_true. }
    destruct (decide (m = t)) as [->|]; [rewrite lookup_insert_eq|rewrite lookup_insert_ne by done].
    { intros [= <-]. eexists. split; [by apply R|]. cbn. eexists. split; [done|]. apply const_reg_holds. }
    destruct (decide (m = S t)) as [->|]; [rewrite lookup_insert_eq|rewrite lookup_insert_ne by done].
    { intros [= <-]. eexists. split; [by apply R|]. by exists None. }
    apply Mc.
Qed.
Lemma wp_constant (ty : RegType) v σ g Q :
  (∀ t, agrees σ t (const_value ty v) → agrees σ (S t) (const_null ty v) →
     Q t (const_cells t ty v σ) g) →
  wp (tcg_constant ty v) σ g Q.
Proof.
  intros HQ. apply (wp_constant_internal ty). pose proof (ty_width_pos ty).
  unfold const_cells, const_value, const_null in *. cbn [const_num var_width] in *. by rewrite wrap_sgn by lia.
Qed.

(** ** Emitting an operation *)

(** The cells before and after an operation: the same temporaries, of which
    only those that can be written change their content. *)
Definition same_shape (σ σ' : store) : Prop :=
  ∀ t c', σ' !! t = Some c' → ∃ c, σ !! t = Some c ∧ ckind c' = ckind c ∧ cty c' = cty c ∧
    cexpr c' = cexpr c ∧ (ckind c = TEMP_CONST → cval c' = cval c).

Lemma same_shape_refl σ : same_shape σ σ.
Proof. intros t c H. by exists c. Qed.

Lemma same_shape_insert σ σ' t k ty e v v' :
  same_shape σ σ' → σ !! t = Some (Cell k ty e v) → writable k = true →
  same_shape σ (<[t := Cell k ty e v']> σ').
Proof.
  intros Hs Ht Hk m c'. destruct (decide (m = t)) as [->|].
  - rewrite lookup_insert_eq. intros [= <-]. eexists. split; [done|]. repeat split. by destruct k.
  - rewrite lookup_insert_ne by done. apply Hs.
Qed.

Lemma same_shape_typed l σ σ' :
  same_shape σ σ' → (∀ t c, σ !! t = Some c → cell_typed l t c) →
  ∀ t c, σ' !! t = Some c → cell_typed l t c.
Proof.
  intros Hs Ht t c' Hc'. destruct (Hs t c' Hc') as (c & Hc & Hk & Hty & He & Hv).
  specialize (Ht t c Hc). unfold cell_typed in *. rewrite Hk, Hty, He. destruct (cexpr c).
  - destruct Ht as (te & ? & ? & ? & ? & Hconst). exists te. repeat (split; [done|]).
    intros Hck. destruct (Hconst Hck) as (t0 & ts & ty & ? & ? & ? & ?). exists t0, ts, ty.
    repeat (split; [done|]). by rewrite Hv.
  - destruct Ht as (ts & te & ? & ? & ? & ? & ? & ? & Hconst). exists ts, te.
    repeat (split; [done|]). intros Hck. rewrite Hv by done. by apply Hconst.
Qed.

Lemma ctx_typed s σ Γ : ctx_ok s σ → static_ext (temps s) Γ → typed Γ σ.
Proof.
  intros [_ Hc] HΓ t c Ht. specialize (Hc t c Ht). unfold cell_typed in Hc. destruct (cexpr c).
  - destruct Hc as (te & H1 & (_ & _ & Hk & _) & _). destruct (HΓ _ _ H1) as (ts' & H2 & [? _]%same_static_fields).
    exists ts'. split; [done|]. congruence.
  - destruct Hc as (ts & te & H1 & _ & (_ & _ & Hk & _) & _). destruct (HΓ _ _ H1) as (ts' & H2 & [? _]%same_static_fields).
    exists ts'. split; [done|]. congruence.
Qed.

Lemma wp_emit o σ g σ' g' (Q : unit → store → ghost → Prop) :
  same_shape σ σ' →
  (∀ Γ st, typed Γ σ → models Γ σ g st →
     ∃ st', exec_op Γ o st = Ok (Fall st') ∧ models Γ σ' g' st') →
  Q tt σ' g' → wp (tcg_emit_op o) σ g Q.
Proof.
  intros Hs Hx HQ s Hok. cbn. exists [o], σ', g'. split; [done|]. pose proof Hok as [[Hm Hf Hc] Ht].
  split; [split; [by split|by eapply same_shape_typed]|]. split; [reflexivity|]. split; [done|].
  intros Γ st HΓ Hst. destruct (Hx Γ st) as (st' & E & M); [by eapply ctx_typed|done|].
  exists st'. split; [|done]. cbn. by rewrite E.
Qed.

(** Writing a cell. *)
Lemma wr_cell Γ σ g st t k ty e v0 v' v :
  typed Γ σ → models Γ σ g st → σ !! t = Some (Cell k ty e v0) → writable k = true →
  cell_ok (Cell k ty e v') v →
  wr Γ st t v = Ok (set_reg st t v) ∧
  models Γ (<[t := Cell k ty e v']> σ) g (set_reg st t v) ∧
  typed Γ (<[t := Cell k ty e v']> σ).
Proof.
  intros HΓ [Mc Mp Mm Mb Ma] Ht Hk Hv. destruct (HΓ _ _ Ht) as (ts & Hts & Hkd). cbn in Hkd.
  split; [|split].
  - unfold wr. rewrite Hts, Hkd. by destruct k.
  - split; try done. intros m c. destruct (decide (m = t)) as [->|].
    + rewrite lookup_insert_eq. intros [= <-]. exists v. split; [|done].
      unfold rd. rewrite Hts, Hkd. rewrite bool_decide_false by (by destruct k).
      cbn. by rewrite Nat.eqb_refl.
    + rewrite lookup_insert_ne by done. intros Hm. destruct (Mc _ _ Hm) as (w & Hw & Hok).
      exists w. split; [|done]. rewrite <- Hw. unfold rd. destruct (Γ !! m); [|done].
      cbn. by rewrite (proj2 (Nat.eqb_neq m t)).
  - intros m c. destruct (decide (m = t)) as [->|].
    + rewrite lookup_insert_eq. intros [= <-]. by exists ts.
    + rewrite lookup_insert_ne by done. apply HΓ.
Qed.

(** The inputs of an operation. *)
Fixpoint reads (σ : store) (ins : list nat) (tis : list RegType) (cs : list Z) : Prop :=
  match ins, tis, cs with
  | [], [], [] => True
  | t :: ins, ty :: tis, c :: cs =>
      (∃ k, σ !! t = Some (Cell k ty false (Num c))) ∧ reads σ ins tis cs
  | _, _, _ => False
  end.

Lemma reads_exec Γ σ g st ins tis cs :
  models Γ σ g st → reads σ ins tis cs →
  ∃ zs, mapR (rd Γ st) ins = Ok (map VNum zs) ∧ Forall (in_range 64) zs ∧
        length zs = length tis ∧ length ins = length tis ∧ read_as tis zs = cs.
Proof.
  intros HM. revert tis cs. induction ins as [|t ins IH]; intros [|ty tis] [|c cs]; cbn; try done.
  - intros _. by exists [].
  - intros [[k Ht] Hr]. destruct (m_cells _ _ _ _ HM _ _ Ht) as (v & Hv & z & -> & Hz & Hc).
    destruct (IH _ _ Hr) as (zs & Hzs & Hf & Hl & Hl' & Hra). exists (z :: zs).
    rewrite Hv. cbn. rewrite Hzs. split; [done|]. split; [by constructor|]. cbn.
    split; [lia|]. split; [lia|]. cbn in Hc. unfold read_as in *. cbn. by rewrite Hc, Hra.
Qed.

Lemma mapR_raw zs : mapR raw (map VNum zs) = Ok zs.
Proof. induction zs as [|z zs IH]; cbn; [done|]. cbn in IH. by rewrite IH. Qed.
Lemma mapR_temp ts : mapR temp_of (map temp_arg ts) = Ok ts.
Proof. induction ts as [|t ts IH]; cbn; [done|]. by rewrite IH. Qed.
Lemma mapR_const zs : mapR const_of (map const_arg zs) = Ok zs.
Proof. induction zs as [|z zs IH]; cbn; [done|]. by rewrite IH. Qed.

Definition is_mov (opc : TCGOpcode) : bool := match opc with INDEX_op_mov _ => true | _ => false end.

Lemma exec_pure_args Γ opc outs ins imms st zs :
  is_mov opc = false →
  length outs = length (op_def opc).1.1 → length ins = length (op_def opc).1.2 →
  length imms = (op_def opc).2 → mapR (rd Γ st) ins = Ok (map VNum zs) →
  exec_pure Γ opc (map temp_arg outs ++ map temp_arg ins ++ map const_arg imms) st
  = rs ← tci_op opc zs imms; write_all Γ st outs rs.
Proof.
  intros Hmov H1 H2 H3 Hr. unfold exec_pure. destruct (op_def opc) as [[to ti] nc]. cbn in *.
  rewrite assert_true by (rewrite !length_app, !length_map; apply Nat.eqb_eq; lia).
  rewrite take_app_length' by (rewrite length_map; lia). rewrite mapR_temp. cbn.
  rewrite (drop_app_length' (map temp_arg outs) _ (length to)) by (rewrite length_map; lia).
  rewrite take_app_length' by (rewrite length_map; lia). rewrite mapR_temp. cbn.
  rewrite app_assoc, drop_app_length' by (rewrite length_app, !length_map; lia).
  rewrite mapR_const. cbn. rewrite Hr. cbn. rewrite mapR_raw. destruct opc; try done.
  destruct t; [done|].
  destruct outs as [|o [|]], zs as [|a [|b [|c [|d [|]]]]], imms as [|cd [|]]; try done. cbn.
  destruct (tci_cond cd); cbn; [|done]. unfold tci_compare64. destruct (tci_compare 64 a b _) as [r|]; cbn; [|done].
  assert (∀ m : Res State, m = (st ← m; Ok st)) as E by (by intros []).
  destruct r; apply E.
Qed.

Lemma num_ok k (ty : RegType) z : in_range 64 z → cell_ok (Cell k ty false (Num (wrap (ty_width ty) z))) (VNum z).
Proof. intros. by exists z. Qed.

(** An operation with one output. *)
Lemma wp_op opc r ins imms σ g (Q : unit → store → ghost → Prop) k ty tis v0 cs n :
  is_mov opc = false → op_def opc = ([ty], tis, length imms) →
  σ !! r = Some (Cell k ty false v0) → writable k = true →
  reads σ ins tis cs → op_val opc cs imms = Some [n] →
  Q tt (<[r := Cell k ty false (Num n)]> σ) g →
  wp (tcg_emit_op (Op opc (map temp_arg [r] ++ map temp_arg ins ++ map const_arg imms))) σ g Q.
Proof.
  intros Hmov Hdef Hr Hk Hin Hop. apply wp_emit.
  { eapply same_shape_insert; [apply same_shape_refl|done..]. }
  intros Γ st HΓ HM. destruct (reads_exec _ _ _ _ _ _ _ HM Hin) as (zs & Hzs & Hf & Hl & Hl' & Hcs).
  destruct (tci_op_refines opc zs imms [n]) as (rs & Hrs & Hfr & Hlr & Hread);
    [by rewrite Hdef|done|rewrite Hdef; cbn [fst snd]; by rewrite Hcs|].
  rewrite Hdef in Hlr, Hread. cbn in Hlr, Hread. destruct rs as [|z [|]]; try done.
  unfold read_as in Hread. cbn in Hread. injection Hread as <-. apply Forall_cons_1 in Hfr as [Hz _].
  destruct (wr_cell Γ σ g st r k ty false v0 (Num (wrap (ty_width ty) z)) (VNum z)) as (W & M & _);
    try done; [by apply num_ok|].
  exists (set_reg st r (VNum z)). split; [|done]. unfold exec_op.
  rewrite (exec_pure_args _ _ [r] _ _ _ zs), Hrs; rewrite ?Hdef; try done. cbn. by rewrite W.
Qed.

(** An operation with two outputs. *)
Lemma wp_op2 opc r0 r1 ins imms σ g (Q : unit → store → ghost → Prop) k0 k1 ty tis v0 v1 cs n0 n1 :
  is_mov opc = false → op_def opc = ([ty; ty], tis, length imms) →
  σ !! r0 = Some (Cell k0 ty false v0) → writable k0 = true →
  σ !! r1 = Some (Cell k1 ty false v1) → writable k1 = true →
  reads σ ins tis cs → op_val opc cs imms = Some [n0; n1] →
  Q tt (<[r1 := Cell k1 ty false (Num n1)]> (<[r0 := Cell k0 ty false (Num n0)]> σ)) g →
  wp (tcg_emit_op (Op opc (map temp_arg [r0; r1] ++ map temp_arg ins ++ map const_arg imms))) σ g Q.
Proof.
  intros Hmov Hdef Hr0 Hk0 Hr1 Hk1 Hin Hop. apply wp_emit.
  { eapply same_shape_insert; [eapply same_shape_insert; [apply same_shape_refl|done..]|done..]. }
  intros Γ st HΓ HM. destruct (reads_exec _ _ _ _ _ _ _ HM Hin) as (zs & Hzs & Hf & Hl & Hl' & Hcs).
  destruct (tci_op_refines opc zs imms [n0; n1]) as (rs & Hrs & Hfr & Hlr & Hread);
    [by rewrite Hdef|done|rewrite Hdef; cbn [fst snd]; by rewrite Hcs|].
  rewrite Hdef in Hlr, Hread. cbn in Hlr, Hread. destruct rs as [|z0 [|z1 [|]]]; try done.
  unfold read_as in Hread. cbn in Hread. injection Hread as <- <-.
  apply Forall_cons_1 in Hfr as [Hz0 Hfr]. apply Forall_cons_1 in Hfr as [Hz _].
  destruct (wr_cell Γ σ g st r0 k0 ty false v0 (Num (wrap (ty_width ty) z0)) (VNum z0)) as (W0 & M0 & T0);
    try done; [by apply num_ok|].
  destruct (decide (r0 = r1)) as [->|Hne].
  - assert (k1 = k0) as -> by congruence.
    destruct (wr_cell Γ _ g _ r1 k0 ty false (Num (wrap (ty_width ty) z0))
      (Num (wrap (ty_width ty) z1)) (VNum z1) T0 M0) as (W1 & M1 & _);
      [by rewrite lookup_insert_eq|done|by apply num_ok|].
    eexists. split; [|exact M1]. unfold exec_op.
    rewrite (exec_pure_args _ _ [r1; r1] _ _ _ zs), Hrs; rewrite ?Hdef; try done. cbn. rewrite W0. cbn.
    by rewrite W1.
  - destruct (wr_cell Γ _ g _ r1 k1 ty false v1
      (Num (wrap (ty_width ty) z1)) (VNum z1) T0 M0) as (W1 & M1 & _);
      [by rewrite lookup_insert_ne|done|by apply num_ok|].
    eexists. split; [|exact M1]. unfold exec_op.
    rewrite (exec_pure_args _ _ [r0; r1] _ _ _ zs), Hrs; rewrite ?Hdef; try done. cbn. rewrite W0. cbn.
    by rewrite W1.
Qed.

(** ** Moves *)

Lemma exec_mov Γ st ty r a v :
  rd Γ st a = Ok v →
  exec_op Γ (Op (INDEX_op_mov ty) [temp_arg r; temp_arg a]) st = st ← wr Γ st r v; Ok (Fall st).
Proof. intros H. cbn. by rewrite H. Qed.

Lemma wp_mov_cell (ty : RegType) r a σ g (Q : unit → store → ghost → Prop) k e v0 v' c :
  σ !! r = Some (Cell k ty e v0) → writable k = true → σ !! a = Some c →
  (∀ v, cell_ok c v → cell_ok (Cell k ty e v') v) →
  Q tt (<[r := Cell k ty e v']> σ) g →
  wp (tcg_emit_op (Op (INDEX_op_mov ty) [temp_arg r; temp_arg a])) σ g Q.
Proof.
  intros Hr Hk Ha Hc. apply wp_emit.
  { eapply same_shape_insert; [apply same_shape_refl|done..]. }
  intros Γ st HΓ HM. destruct (m_cells _ _ _ _ HM _ _ Ha) as (v & Hv & Hok).
  destruct (wr_cell Γ σ g st r k ty e v0 v' v) as (W & M & _); try done; [by apply Hc|].
  eexists. split; [|exact M]. by rewrite (exec_mov _ _ _ _ _ v), W.
Qed.

Lemma wp_mov_num (ty : RegType) r a σ g (Q : unit → store → ghost → Prop) k v0 k' c :
  σ !! r = Some (Cell k ty false v0) → writable k = true →
  σ !! a = Some (Cell k' ty false (Num c)) →
  Q tt (<[r := Cell k ty false (Num c)]> σ) g →
  wp (tcg_emit_op (Op (INDEX_op_mov ty) [temp_arg r; temp_arg a])) σ g Q.
Proof. intros ???. eapply wp_mov_cell; [done..|]. by intros v. Qed.

(** The expression of a variable, copied. *)
Lemma wp_mov_expr r a σ g (Q : unit → store → ghost → Prop) k v0 k' w c x :
  σ !! r = Some (Cell k I64 true v0) → writable k = true →
  σ !! a = Some (Cell k' I64 true (Exp w c x)) →
  Q tt (<[r := Cell k I64 true (Exp w c x)]> σ) g →
  wp (tcg_emit_op (Op (INDEX_op_mov I64) [temp_arg r; temp_arg a])) σ g Q.
Proof. intros ???. eapply wp_mov_cell; [done..|]. by intros v. Qed.

(** No expression: the variable is what it is in the concrete run. *)
Lemma wp_mov_null w c r a σ g (Q : unit → store → ghost → Prop) k v0 k' :
  σ !! r = Some (Cell k I64 true v0) → writable k = true →
  σ !! a = Some (Cell k' I64 false (Num 0)) →
  Q tt (<[r := Cell k I64 true (Exp w c c)]> σ) g →
  wp (tcg_emit_op (Op (INDEX_op_mov I64) [temp_arg r; temp_arg a])) σ g Q.
Proof.
  intros ???. eapply wp_mov_cell; [done..|]. intros v (z & -> & Hz & Hw). cbn in *.
  rewrite wrap_small in Hw by done. subst z. by exists None.
Qed.

(** ** Calls *)


(** What a call knows of an argument: a number, an expression, or nothing. *)
Inductive arg : Type :=
| ANum (ty : RegType) (c : Z)
| AExp (w c x : Z)
| APtr (b : nat)
| AAny.

Definition arg_in (σ : store) (t : nat) (a : arg) : Prop :=
  match a with
  | ANum ty c => ∃ k, σ !! t = Some (Cell k ty false (Num c))
  | AExp w c x => ∃ k, σ !! t = Some (Cell k I64 true (Exp w c x))
  | APtr b => ∃ k, σ !! t = Some (Cell k I64 false (Ptr b))
  | AAny => ∃ c, σ !! t = Some c
  end.
Definition arg_ok (a : arg) (v : rval) : Prop :=
  match a with
  | ANum ty c => num ty v = Ok c ∧ in_range (ty_width ty) c
  | AExp w c x => ∃ o, as_expr v = Ok o ∧ shadows i w c x o
  | APtr b => v = VBuf b
  | AAny => True
  end.
Fixpoint args_in (σ : store) (ts : list nat) (l : list arg) : Prop :=
  match ts, l with
  | [], [] => True
  | t :: ts, a :: l => arg_in σ t a ∧ args_in σ ts l
  | _, _ => False
  end.

Lemma num_cell k (t : RegType) e c v :
  cell_ok (Cell k t e (Num c)) v → num t v = Ok c ∧ in_range (ty_width t) c.
Proof.
  intros (z & -> & Hz & <-). split; [done|]. apply wrap_range. pose proof (ty_width_pos t). cbn. lia.
Qed.
Lemma exp_cell k t e w c x v :
  cell_ok (Cell k t e (Exp w c x)) v → ∃ o, as_expr v = Ok o ∧ shadows i w c x o.
Proof. intros ([e'|] & -> & Hs); [by exists (Some e')|by exists None]. Qed.

Lemma arg_exec Γ σ g st t a :
  models Γ σ g st → arg_in σ t a → ∃ v, rd Γ st t = Ok v ∧ arg_ok a v.
Proof.
  intros HM. destruct a; cbn; intros [k Ht]; destruct (m_cells _ _ _ _ HM _ _ Ht) as (v & Hv & Hok);
    exists v; (split; [done|]); eauto using num_cell, exp_cell.
Qed.
Lemma args_exec Γ σ g st ts l :
  models Γ σ g st → args_in σ ts l → ∃ vs, mapR (rd Γ st) ts = Ok vs ∧ Forall2 arg_ok l vs.
Proof.
  intros HM. revert l. induction ts as [|t ts IH]; intros [|a l]; cbn; try done; [by exists []|].
  intros [Ha Hl]. destruct (arg_exec _ _ _ _ _ _ HM Ha) as (v & Hv & Hok).
  destruct (IH _ Hl) as (vs & Hvs & Hoks). exists (v :: vs). rewrite Hv. cbn. rewrite Hvs.
  by split; [|constructor].
Qed.

(** What a call does: the returned value fits the content [v'] of type [ty],
    registers and memory stay, the constraints pushed take the truth of the
    path from [p] to [p'].  A helper that reads buffers finds them in the heap
    [H]. *)
Definition fits (ty : RegType) (v' : content) (v : rval) : Prop := cell_ok (Cell TEMP_EBB ty false v') v.
Definition call_effect (h : Helper) (vs : list rval) (st : State) (ty : RegType) (v' : content) (p' : bool) : Prop :=
  ∃ v tr, run_helper h vs st = Ok (Some v, set_trace st tr) ∧ fits ty v' v ∧ path_holds i tr = p'.
Definition call_ok (h : Helper) (l : list arg) (ty : RegType) (v' : content) (p p' : bool) : Prop :=
  ∀ vs st, Forall2 arg_ok l vs → path_holds i (trace st) = p → call_effect h vs st ty v' p'.
Definition heap_call_ok (H : list (option Block)) (h : Helper) (l : list arg) (ty : RegType) (v' : content) (p p' : bool)
    : Prop :=
  ∀ vs st, Forall2 arg_ok l vs → heap st = H → path_holds i (trace st) = p → call_effect h vs st ty v' p'.

Lemma wp_heap_call h r args l σ g (Q : unit → store → ghost → Prop) k ty e v0 v' p' :
  heap_call_ok (gheap g) h l ty v' (gpath g) p' → args_in σ args l →
  σ !! r = Some (Cell k ty e v0) → writable k = true →
  Q tt (<[r := Cell k ty e v']> σ) (Ghost p' (gmem g) (galt g) (gguest g) (gheap g)) →
  wp (tcg_emit_op (OpCall h (Some r) args)) σ g Q.
Proof.
  intros Hc Ha Hr Hk. apply wp_emit.
  { eapply same_shape_insert; [apply same_shape_refl|done..]. }
  intros Γ st HΓ HM. destruct (args_exec _ _ _ _ _ _ HM Ha) as (vs & Hvs & Hoks).
  destruct (Hc vs st Hoks (m_heap _ _ _ _ HM) (m_path _ _ _ _ HM)) as (v & tr & Hrun & Hv & Hp).
  assert (HM' : models Γ σ (Ghost p' (gmem g) (galt g) (gguest g) (gheap g)) (set_trace st tr)) by (by destruct HM).
  destruct (wr_cell Γ σ _ _ r k ty e v0 v' v HΓ HM') as (W & M & _); try done.
  eexists. split; [|exact M]. cbn. rewrite Hvs. cbn. rewrite Hrun. cbn. by rewrite W.
Qed.

Lemma wp_call_traced h r args l σ g (Q : unit → store → ghost → Prop) k ty e v0 v' p' :
  call_ok h l ty v' (gpath g) p' → args_in σ args l →
  σ !! r = Some (Cell k ty e v0) → writable k = true →
  Q tt (<[r := Cell k ty e v']> σ) (Ghost p' (gmem g) (galt g) (gguest g) (gheap g)) →
  wp (tcg_emit_op (OpCall h (Some r) args)) σ g Q.
Proof. intros Hc. apply wp_heap_call. intros vs st Hvs _. by apply Hc. Qed.

Lemma wp_call h r args l σ g (Q : unit → store → ghost → Prop) k ty e v0 v' :
  (∀ p, call_ok h l ty v' p p) → args_in σ args l →
  σ !! r = Some (Cell k ty e v0) → writable k = true →
  Q tt (<[r := Cell k ty e v']> σ) g →
  wp (tcg_emit_op (OpCall h (Some r) args)) σ g Q.
Proof. intros. eapply wp_call_traced; try done. by destruct g. Qed.

Lemma set_trace_id (st : State) : set_trace st (trace st) = st.
Proof. by destruct st. Qed.

Lemma call_expr h l w c x :
  (∀ vs st, Forall2 arg_ok l vs → ∃ r, run_helper h vs st = ret_expr r st ∧ computes r i w c x) →
  ∀ p, call_ok h l I64 (Exp w c x) p p.
Proof.
  intros H p vs st Hvs Hp. destruct (H vs st Hvs) as (r & E & o & Ho & Hs).
  exists (of_expr o), (trace st). rewrite E, Ho, set_trace_id. split; [done|]. split; [|done]. by exists o.
Qed.
Lemma call_num h l ty n :
  (∀ vs st, Forall2 arg_ok l vs → run_helper h vs st = ret_num (Ok n) st ∧ in_range (ty_width ty) n) →
  ∀ p, call_ok h l ty (Num n) p p.
Proof.
  intros H p vs st Hvs Hp. destruct (H vs st Hvs) as (E & Hr).
  exists (VNum n), (trace st). rewrite E, set_trace_id. split; [done|]. split; [|done].
  exists n. split; [done|]. split; [|by apply wrap_small]. destruct ty; cbn in Hr; unfold in_range in *; lia.
Qed.

(** ** Branches

    A generator whose last operation may jump: [Q (Some l)] when it goes to
    label [l], [Q None] when it falls through. *)
Definition outcome (j : option nat) (st : State) : Outcome :=
  match j with Some l => Jump l st | None => Fall st end.
Definition wpj (m : Gen unit) (σ : store) (g : ghost) (Q : option nat → store → ghost → Prop) : Prop :=
  ∀ s, ctx_ok s σ →
  match m s with
  | GOk _ s' => ∃ l σ' g' j,
      Q j σ' g' ∧ ctx_ok s' σ' ∧ static_ext (temps s) (temps s') ∧ ops s' = ops s ++ l ∧
      ∀ Γ st, static_ext (temps s') Γ → models Γ σ g st →
        ∃ st', exec Γ l st = Ok (outcome j st') ∧ models Γ σ' g' st'
  | GOverflow => True
  | GAssert => False
  end.

Lemma wpj_fall (m : Gen unit) σ g Q : wp m σ g (λ _ σ' g', Q None σ' g') → wpj m σ g Q.
Proof.
  intros Hm s Hs. specialize (Hm s Hs). destruct (m s); [|done..].
  destruct Hm as (l & σ1 & g1 & HQ & Hrest). by exists l, σ1, g1, None.
Qed.

Lemma wpj_bind {A} (m : Gen A) (k : A → Gen unit) σ g Q :
  wp m σ g (λ a σ' g', wpj (k a) σ' g' Q) → wpj (m ≫= k) σ g Q.
Proof.
  intros Hm s Hs. specialize (Hm s Hs). unfold mbind, gen_bind.
  destruct (m s) as [a s1| |]; [|done..].
  destruct Hm as (l1 & σ1 & g1 & Hk & Hs1 & He1 & Ho1 & Hx1). specialize (Hk s1 Hs1).
  destruct (k a s1) as [b s2| |]; [|done..].
  destruct Hk as (l2 & σ2 & g2 & j & HQ & Hs2 & He2 & Ho2 & Hx2).
  exists (l1 ++ l2), σ2, g2, j. split; [done|]. split; [done|]. split; [by etrans|].
  split; [by rewrite Ho2, Ho1, app_assoc|]. intros Γ st HΓ Hst.
  destruct (Hx1 Γ st) as (st1 & E1 & M1); [by etrans|done|].
  destruct (Hx2 Γ st1 HΓ M1) as (st2 & E2 & M2). exists st2. split; [|done].
  by rewrite (exec_app Γ l1 l2 st st1).
Qed.

Lemma wpj_emit o j σ g Q :
  (∀ Γ st, models Γ σ g st → exec_op Γ o st = Ok (outcome j st)) →
  Q j σ g → wpj (tcg_emit_op o) σ g Q.
Proof.
  intros Hx HQ s Hok. cbn. exists [o], σ, g, j. split; [done|]. pose proof Hok as [[Hm Hf Hc] Ht].
  split; [by split; [split|]|]. split; [reflexivity|]. split; [done|].
  intros Γ st HΓ Hst. exists st. split; [|done]. cbn. rewrite (Hx Γ st Hst). by destruct j.
Qed.

Lemma wpj_brcond (t : RegType) a b c l σ g Q k1 k2 c1 c2 :
  cond_proper c = true →
  σ !! a = Some (Cell k1 t false (Num c1)) → σ !! b = Some (Cell k2 t false (Num c2)) →
  Q (if cond_holds (ty_width t) c c1 c2 then Some l else None) σ g →
  wpj (tcg_emit_op (OpBrcond t a b c l)) σ g Q.
Proof.
  intros Hc Ha Hb. apply wpj_emit. intros Γ st HM.
  destruct (m_cells _ _ _ _ HM _ _ Ha) as (v1 & R1 & [N1 _]%num_cell).
  destruct (m_cells _ _ _ _ HM _ _ Hb) as (v2 & R2 & [N2 _]%num_cell).
  cbn. rewrite R1. cbn. rewrite R2. cbn. rewrite N1. cbn. rewrite N2. cbn.
  rewrite tci_compare_holds by done. cbn. by destruct (cond_holds _ _ _ _).
Qed.
Lemma wpj_br l σ g Q : Q (Some l) σ g → wpj (tcg_emit_op (OpBr l)) σ g Q.
Proof. by apply wpj_emit. Qed.
End Logic.
