(* ===== verification/Calls.v ===== *)
(** The helper calls that generated code makes, as rules of the generator
    logic: one rule per helper of accel/tcg/tcg-runtime-sym.c, from its
    correctness theorem, and one per concrete helper of
    accel/tcg/tcg-runtime.c. *)
From S2P Require Import Prelude Cond Bitops Backend SymHelpers SymMemory Ops Temps Exec Logic.

Section Calls.
Context `{SL : ShadowLaws} {BL : BackendLaws B BS}.
Context (i : Input).

(** The arguments of a call, by name. *)
Ltac call_args :=
  repeat match goal with
  | H : Forall2 _ (_ :: _) _ |- _ => apply Forall2_cons_inv_l in H as (? & ? & ? & H & ->)
  | H : Forall2 _ [] _ |- _ => apply Forall2_nil_inv_l in H as ->
  end;
  repeat match goal with
  | H : arg_ok _ (ANum _ _) _ |- _ => destruct H as [? ?]
  | H : arg_ok _ (AExp _ _ _) _ |- _ => destruct H as (? & ? & ?)
  end;
  cbn [run_helper];
  repeat match goal with
  | H : num _ _ = Ok _ |- _ => rewrite H; clear H; cbn [mbind res_bind]
  | H : as_expr _ = Ok _ |- _ => rewrite H; clear H; cbn [mbind res_bind]
  end.
Ltac expr_call := intros; apply call_expr; intros; call_args; eexists; (split; [reflexivity|]).
Ltac num_call := intros; apply call_num; intros; call_args.

#[local] Hint Resolve ty_reg_width : core.

(** ** Symbolic helpers *)

Lemma call_sym_binary b t c1 x1 c2 x2 p :
  let w := ty_width t in binary_domain b w x2 →
  call_ok i (HELPER_sym_binary b t) [ANum t c1; AExp w c1 x1; ANum t c2; AExp w c2 x2] I64
    (Exp w (binary_meaning b w c1 c2) (binary_meaning b w x1 x2)) p p.
Proof. cbv zeta. revert p. expr_call. by apply binary_helper_correct; auto. Qed.

Lemma call_sym_neg w c x p :
  call_ok i HELPER_sym_neg [AExp w c x] I64 (Exp w (bv_neg w c) (bv_neg w x)) p p.
Proof. revert p. expr_call. by apply neg_correct. Qed.

Lemma call_sym_not w c x p :
  call_ok i HELPER_sym_not [AExp w c x] I64 (Exp w (bv_not w c) (bv_not w x)) p p.
Proof. revert p. expr_call. by apply not_correct. Qed.

Lemma call_sym_muluh c1 x1 c2 x2 p :
  call_ok i HELPER_sym_muluh_i64 [ANum I64 c1; AExp 64 c1 x1; ANum I64 c2; AExp 64 c2 x2] I64
    (Exp 64 (snd (mulu64 c1 c2)) (snd (mulu64 x1 x2))) p p.
Proof. revert p. expr_call. by apply muluh_correct. Qed.

Lemma call_sym_sext w len c x p :
  reg_width w → 0 < len → 8 * len ≤ w →
  call_ok i HELPER_sym_sext [AExp w c x; ANum I64 len] I64
    (Exp w (wrap w (sgn (8 * len) c)) (wrap w (sgn (8 * len) x))) p p.
Proof. revert p. expr_call. by apply sext_correct. Qed.

Lemma call_sym_zext w len c x p :
  reg_width w → 0 < len < 8 → 8 * len ≤ w →
  call_ok i HELPER_sym_zext [AExp w c x; ANum I64 len] I64
    (Exp w (wrap (8 * len) c) (wrap (8 * len) x)) p p.
Proof. revert p. expr_call. by apply zext_correct. Qed.

Lemma call_sym_sext_i32_i64 c x p :
  call_ok i HELPER_sym_sext_i32_i64 [AExp 32 c x] I64
    (Exp 64 (wrap 64 (sgn 32 c)) (wrap 64 (sgn 32 x))) p p.
Proof. revert p. expr_call. by apply extend_correct. Qed.

Lemma call_sym_zext_i32_i64 c x p :
  call_ok i HELPER_sym_zext_i32_i64 [AExp 32 c x] I64 (Exp 64 c x) p p.
Proof. revert p. expr_call. by apply extend_correct. Qed.

Lemma call_sym_trunc_i64_i32 c x p :
  call_ok i HELPER_sym_trunc_i64_i32 [AExp 64 c x] I64 (Exp 32 (wrap 32 c) (wrap 32 x)) p p.
Proof. revert p. expr_call. by apply trunc_correct. Qed.

Lemma call_sym_bswap w len c x p :
  reg_width w → bswap_domain w len x →
  call_ok i HELPER_sym_bswap [AExp w c x; ANum I64 len] I64
    (Exp w (bswap_val len c) (bswap_val len x)) p p.
Proof. revert p. expr_call. by apply bswap_correct. Qed.

Lemma call_sym_extract t ofs len c x p :
  let w := ty_width t in field_ok w ofs len = true →
  call_ok i (HELPER_sym_extract t) [AExp w c x; ANum t ofs; ANum t len] I64
    (Exp w (wrap len (Z.shiftr c ofs)) (wrap len (Z.shiftr x ofs))) p p.
Proof. cbv zeta. revert p. expr_call. by apply extract_correct; auto. Qed.

Lemma call_sym_sextract t ofs len c x p :
  let w := ty_width t in field_ok w ofs len = true →
  call_ok i (HELPER_sym_sextract t) [AExp w c x; ANum t ofs; ANum t len] I64
    (Exp w (wrap w (sgn len (Z.shiftr c ofs))) (wrap w (sgn len (Z.shiftr x ofs)))) p p.
Proof. cbv zeta. revert p. expr_call. by apply sextract_correct; auto. Qed.

Lemma call_sym_deposit t ofs len c1 x1 c2 x2 p :
  let w := ty_width t in field_ok w ofs len = true → len < w →
  call_ok i (HELPER_sym_deposit t)
    [ANum t c1; AExp w c1 x1; ANum t c2; AExp w c2 x2; ANum t ofs; ANum t len] I64
    (Exp w (put_field c1 ofs len c2) (put_field x1 ofs len x2)) p p.
Proof. cbv zeta. revert p. expr_call. by apply deposit_correct; auto. Qed.

Lemma call_sym_extract2 t ofs ch xh cl xl p :
  let w := ty_width t in 0 ≤ ofs ≤ w →
  call_ok i (HELPER_sym_extract2 t)
    [ANum t ch; AExp w ch xh; ANum t cl; AExp w cl xl; ANum I64 ofs] I64
    (Exp w (extract2_val w ch cl ofs) (extract2_val w xh xl ofs)) p p.
Proof. cbv zeta. revert p. expr_call. by apply extract2_correct; auto. Qed.

(** The condition of a comparison: pushed as a constraint when symbolic, with
    the outcome of the concrete run, [taken]. *)
Lemma call_sym_setcond t cond taken c1 x1 c2 x2 p :
  let w := ty_width t in
  cond_proper cond = true → taken = Z.b2z (cond_holds w cond c1 c2) →
  call_ok i (HELPER_sym_setcond t)
    [AAny; ANum t c1; AExp w c1 x1; ANum t c2; AExp w c2 x2; ANum I32 (cond_code cond); ANum t taken]
    I64 (Exp w (Z.b2z (cond_holds w cond c1 c2)) (Z.b2z (cond_holds w cond x1 x2)))
    p (p && Bool.eqb (cond_holds w cond x1 x2) (cond_holds w cond c1 c2)).
Proof.
  cbv zeta. intros Hc Ht vs st Hvs Hp. unfold call_effect. call_args. unfold cond_arg.
  repeat match goal with
  | H : num _ _ = Ok _ |- _ => rewrite H; clear H; cbn [mbind res_bind]
  end.
  unfold tci_cond. rewrite cond_of_code_code. cbn [mbind res_bind].
  match goal with H1 : shadows _ _ c1 x1 ?o1, H2 : shadows _ _ c2 x2 ?o2 |- _ =>
    destruct (setcond_correct i (ty_width t) (ty_width t) c1 x1 o1 c2 x2 o2 cond taken (env_pc st)
      (trace st)) as (o & tr & E & Hs & Htr); auto
  end.
  exists (of_expr o), tr. unfold ret_traced. rewrite E. split; [done|].
  split; [by exists o|]. destruct Htr as [[-> ->] | (e & -> & _ & He)].
  - cbn in Hs. rewrite (Z.b2z_inj _ _ Hs), eqb_reflx, andb_true_r. done.
  - unfold path_holds in *. rewrite forallb_app. cbn. rewrite Hp, He, Ht, andb_true_r.
    do 2 f_equal. by destruct (cond_holds _ _ c1 c2).
Qed.

(** ** Concrete helpers *)

Lemma call_div t c1 c2 p :
  sdiv_ok (ty_width t) c1 c2 = true →
  call_ok i (HELPER_div t) [ANum t c1; ANum t c2] t (Num (bv_sdiv (ty_width t) c1 c2)) p p.
Proof.
  revert p. num_call. unfold helper_div, c_sdiv. rewrite assert_true by done.
  split; [done|]. apply wrap_range, Z.lt_le_incl, ty_width_pos.
Qed.
Lemma call_rem t c1 c2 p :
  sdiv_ok (ty_width t) c1 c2 = true →
  call_ok i (HELPER_rem t) [ANum t c1; ANum t c2] t (Num (bv_srem (ty_width t) c1 c2)) p p.
Proof.
  revert p. num_call. unfold helper_rem, c_srem. rewrite assert_true by done.
  split; [done|]. apply wrap_range, Z.lt_le_incl, ty_width_pos.
Qed.
Lemma call_divu t c1 c2 p :
  c2 ≠ 0 →
  call_ok i (HELPER_divu t) [ANum t c1; ANum t c2] t (Num (bv_udiv (ty_width t) c1 c2)) p p.
Proof.
  revert p. num_call. unfold helper_divu. rewrite assert_true by lia. 
  split; [done|]. apply udiv_range; try done.
Qed.
Lemma call_remu t c1 c2 p :
  c2 ≠ 0 →
  call_ok i (HELPER_remu t) [ANum t c1; ANum t c2] t (Num (bv_urem (ty_width t) c1 c2)) p p.
Proof.
  revert p. num_call. unfold helper_remu. rewrite assert_true by lia. 
  split; [done|]. by apply urem_range.
Qed.
Lemma call_muluh c1 c2 p :
  call_ok i HELPER_muluh_i64 [ANum I64 c1; ANum I64 c2] I64 (Num (snd (mulu64 c1 c2))) p p.
Proof. revert p. num_call. split; [done|]. apply wrap_range; lia. Qed.
Lemma call_mulsh c1 c2 p :
  call_ok i HELPER_mulsh_i64 [ANum I64 c1; ANum I64 c2] I64 (Num (snd (muls64 c1 c2))) p p.
Proof. revert p. num_call. split; [done|]. apply wrap_range; lia. Qed.
Lemma call_clz t c z p :
  call_ok i (HELPER_clz t) [ANum t c; ANum t z] t
    (Num (if c =? 0 then z else builtin_clz (ty_width t) c)) p p.
Proof.
  revert p. num_call. unfold helper_clz, clz32, clz64. case_eq (c =? 0); intros E; [done|].
  destruct (clz_bound (ty_width t) c) as [? ?]; [done|lia|]. split; [by destruct t|].
  apply count_fits. lia.
Qed.
Lemma call_ctz t c z p :
  call_ok i (HELPER_ctz t) [ANum t c; ANum t z] t
    (Num (if c =? 0 then z else builtin_ctz c)) p p.
Proof.
  revert p. num_call. unfold helper_ctz, ctz32, ctz64. case_eq (c =? 0); intros E; [done|].
  destruct (ctz_bound (ty_width t) c) as [? ?]; [done|lia|]. split; [by destruct t|].
  apply count_fits. lia.
Qed.
Lemma call_ctpop t c p :
  call_ok i (HELPER_ctpop t) [ANum t c] t (Num (popcount (Z.to_nat (ty_width t)) c)) p p.
Proof.
  revert p. num_call. split; [by destruct t|]. pose proof (popcount_bounds (Z.to_nat (ty_width t)) c).
  unfold in_range. by destruct t; cbn in *; lia.
Qed.
End Calls.
