(* ===== verification/Vars.v ===== *)
(** The generator logic on variables.

    [Logic] speaks of cells; a generator speaks of variables, each of which is
    a value cell and, next to it, the cell of its expression.  Here an
    assertion maps variables to their two contents.  A variable is described
    by one concrete value and one alternative one ([full]) except between the
    two operations that update its halves. *)
From S2P Require Import Prelude Cond Bitops Backend SymHelpers SymMemory Ops Temps Exec Logic Calls.

Record var := Var {
  vk : TCGTempKind;
  vt : VarType;
  vv : content;
  ve : content;
}.

Abbreviation vars := (gmap nat var).

(** A variable that holds [c] in the concrete run, and [x] under the inputs
    considered, as its expression says. *)
Definition full (k : TCGTempKind) (ty : VarType) (c x : Z) : var :=
  Var k ty (Num c) (Exp (var_width ty) c x).
Definition fresh_var (k : TCGTempKind) (ty : VarType) : var := Var k ty Uninit Uninit.
Definition const_var (ty : VarType) (v : Z) : var :=
  let n := const_num ty v in full TEMP_CONST ty n n.

Definition value_cell (v : var) : cell := Cell (vk v) (vt v) false (vv v).
Definition expr_cell (v : var) : cell := Cell (expr_kind (vk v)) I64 true (ve v).

(** The variables [ρ] are among the cells [σ]. *)
Definition covers (σ : store) (ρ : vars) : Prop :=
  ∀ t v, ρ !! t = Some v → σ !! t = Some (value_cell v) ∧ σ !! S t = Some (expr_cell v).

Lemma covers_weaken σ ρ ρ' : ρ' ⊆ ρ → covers σ ρ → covers σ ρ'.
Proof. intros Hs Hc t v Ht. apply Hc. by eapply lookup_weaken. Qed.

Lemma covers_ne σ ρ t u v v' :
  covers σ ρ → ρ !! t = Some v → ρ !! u = Some v' → t ≠ S u.
Proof.
  intros Hc Ht Hu ->. destruct (Hc _ _ Ht) as [H1 _]. destruct (Hc _ _ Hu) as [_ H2].
  rewrite H1 in H2. discriminate.
Qed.

Lemma covers_value σ ρ t v v' :
  covers σ ρ → ρ !! t = Some v → vk v' = vk v → vt v' = vt v → ve v' = ve v →
  covers (<[t := value_cell v']> σ) (<[t := v']> ρ).
Proof.
  intros Hc Ht Hk Hty He u w. destruct (decide (u = t)) as [->|Hne].
  - rewrite lookup_insert_eq. intros [= <-]. split; [by rewrite lookup_insert_eq|].
    rewrite lookup_insert_ne by lia. rewrite (proj2 (Hc _ _ Ht)). unfold expr_cell. by rewrite Hk, He.
  - rewrite lookup_insert_ne by done. intros Hu. pose proof (covers_ne _ _ _ _ _ _ Hc Ht Hu).
    rewrite !lookup_insert_ne by done. by apply Hc.
Qed.

Lemma covers_expr σ ρ t v v' :
  covers σ ρ → ρ !! t = Some v → vk v' = vk v → vt v' = vt v → vv v' = vv v →
  covers (<[S t := expr_cell v']> σ) (<[t := v']> ρ).
Proof.
  intros Hc Ht Hk Hty He u w. destruct (decide (u = t)) as [->|Hne].
  - rewrite lookup_insert_eq. intros [= <-]. split; [|by rewrite lookup_insert_eq].
    rewrite lookup_insert_ne by lia. rewrite (proj1 (Hc _ _ Ht)). unfold value_cell. by rewrite Hk, Hty, He.
  - rewrite lookup_insert_ne by done. intros Hu. pose proof (covers_ne _ _ _ _ _ _ Hc Hu Ht).
    rewrite !lookup_insert_ne by lia. by apply Hc.
Qed.

Section Vars.
Context `{SL : ShadowLaws} {BL : BackendLaws B BS}.
Context (i : Input).

Definition wpv {A} (m : Gen A) (ρ : vars) (g : ghost) (Q : A → vars → ghost → Prop) : Prop :=
  ∀ σ, covers σ ρ → wp i m σ g (λ a σ' g', ∃ ρ', covers σ' ρ' ∧ Q a ρ' g').

(** ** Structural rules *)

Lemma wpv_ret {A} (a : A) ρ g Q : Q a ρ g → wpv (mret a) ρ g Q.
Proof. intros HQ σ Hc. apply wp_ret. eauto. Qed.

Lemma wpv_bind {A C} (m : Gen A) (k : A → Gen C) ρ g Q :
  wpv m ρ g (λ a ρ' g', wpv (k a) ρ' g' Q) → wpv (m ≫= k) ρ g Q.
Proof.
  intros Hm σ Hc. apply wp_bind. eapply wp_mono; [|by apply Hm].
  intros a σ' g' (ρ' & Hc' & Hk). by apply Hk.
Qed.

Lemma wpv_mono {A} (m : Gen A) ρ g (Q R : A → vars → ghost → Prop) :
  (∀ a ρ' g', Q a ρ' g' → R a ρ' g') → wpv m ρ g Q → wpv m ρ g R.
Proof.
  intros HQR Hm σ Hc. eapply wp_mono; [|by apply Hm]. intros a σ' g' (ρ' & ? & ?). eauto.
Qed.

(** Forgetting variables, before and after. *)
Lemma wpv_weaken {A} (m : Gen A) ρ ρ' g Q : ρ' ⊆ ρ → wpv m ρ' g Q → wpv m ρ g Q.
Proof. intros Hs Hm σ Hc. apply Hm. by eapply covers_weaken. Qed.
Lemma wpv_post {A} (m : Gen A) ρ g (Q : A → vars → ghost → Prop) :
  wpv m ρ g (λ a ρ' g', ∃ ρ'', ρ'' ⊆ ρ' ∧ Q a ρ'' g') → wpv m ρ g Q.
Proof.
  intros Hm σ Hc. eapply wp_mono; [|by apply Hm].
  intros a σ' g' (ρ' & Hc' & ρ'' & Hs & HQ). exists ρ''. split; [by eapply covers_weaken|done].
Qed.

Lemma wpv_assert b ρ g (Q : unit → vars → ghost → Prop) :
  b = true → Q tt ρ g → wpv (tcg_debug_assert b) ρ g Q.
Proof. intros -> HQ. by apply wpv_ret. Qed.

(** ** Temporaries *)

Lemma wpv_temp_expr t ρ g Q v : ρ !! t = Some v → Q (S t) ρ g → wpv (temp_expr t) ρ g Q.
Proof. intros Ht HQ σ Hc. eapply wp_temp_expr; [by apply Hc|eauto]. Qed.

Lemma wpv_temp_new ty k ρ g Q :
  k = TEMP_EBB ∨ k = TEMP_TB →
  (∀ t, ρ !! t = None → Q t (<[t := fresh_var k ty]> ρ) g) →
  wpv (tcg_temp_new_internal (type_of ty) k) ρ g Q.
Proof.
  intros Hk HQ σ Hc. apply wp_temp_new; [done|]. intros t H1 H2.
  assert (Ht : ρ !! t = None).
  { apply eq_None_not_Some. intros [v Hv]. destruct (Hc _ _ Hv) as [Hv' _]. congruence. }
  exists (<[t := fresh_var k ty]> ρ). split; [|by apply HQ]. intros u v. unfold fresh_cells.
  destruct (decide (u = t)) as [->|Hne].
  - rewrite lookup_insert_eq. intros [= <-]. rewrite lookup_insert_eq, lookup_insert_ne by lia.
    rewrite lookup_insert_eq. by destruct Hk as [-> | ->].
  - rewrite lookup_insert_ne by done. intros Hu. destruct (Hc _ _ Hu) as [H3 H4].
    assert (u ≠ S t) by congruence. assert (S u ≠ t) by congruence.
    rewrite !lookup_insert_ne by lia. done.
Qed.

Lemma wpv_temp_free t ρ g Q v :
  ρ !! t = Some v → vk v = TEMP_EBB →
  Q tt (delete t ρ) g → wpv (tcg_temp_free_internal t) ρ g Q.
Proof.
  intros Ht Hk HQ σ Hc. destruct (Hc _ _ Ht) as [H1 H2]. unfold value_cell in H1. rewrite Hk in H1.
  eapply wp_temp_free; [done|]. exists (delete t ρ). split; [|done].
  intros u w [Hne Hu]%lookup_delete_Some. pose proof (covers_ne _ _ _ _ _ _ Hc Ht Hu).
  pose proof (covers_ne _ _ _ _ _ _ Hc Hu Ht). rewrite !lookup_delete_ne by lia. by apply Hc.
Qed.

Lemma wpv_temp_keep t ρ g Q v :
  ρ !! t = Some v → vk v = TEMP_TB ∨ vk v = TEMP_CONST →
  Q tt ρ g → wpv (tcg_temp_free_internal t) ρ g Q.
Proof. intros Ht Hk HQ σ Hc. eapply wp_temp_keep; [by apply Hc|done|]. by exists ρ. Qed.

Lemma wpv_constant_internal ty v ρ g Q :
  (∀ t ρ', ρ ⊆ ρ' → ρ' !! t = Some (const_var ty v) → Q t ρ' g) →
  wpv (tcg_constant_internal (type_of ty) v) ρ g Q.
Proof.
  intros HQ σ Hc. apply wp_constant_internal. intros t H1 H2.
  assert (Ha : ρ !! t = None ∨ ρ !! t = Some (const_var ty v)).
  { destruct (ρ !! t) as [w|] eqn:E; [right|by left]. destruct (Hc _ _ E) as [H3 H4].
    destruct H1 as [H1|H1]; [congruence|]. destruct H2 as [H2|H2]; [congruence|].
    rewrite H3 in H1. rewrite H4 in H2. destruct w as [k t' v' e']. unfold value_cell, expr_cell in *.
    cbn in *. injection H1 as -> -> ->. injection H2 as ->. done. }
  exists (<[t := const_var ty v]> ρ). split.
  - intros u w. unfold const_cells. destruct (decide (u = t)) as [->|Hne].
    + rewrite lookup_insert_eq. intros [= <-]. rewrite lookup_insert_eq, lookup_insert_ne by lia.
      by rewrite lookup_insert_eq.
    + rewrite lookup_insert_ne by done. intros Hu. destruct (Hc _ _ Hu) as [H3 H4].
      assert (u ≠ S t) by (intros ->; destruct H2; unfold const_null, value_cell in *; congruence).
      assert (S u ≠ t) by (intros <-; destruct H1; unfold const_value, expr_cell in *; congruence).
      rewrite !lookup_insert_ne by lia. done.
  - apply HQ; [|by rewrite lookup_insert_eq]. destruct Ha as [Ha|Ha]; [by apply insert_subseteq|].
    by rewrite insert_id.
Qed.

Lemma wpv_constant (ty : RegType) v ρ g Q :
  (∀ t ρ', ρ ⊆ ρ' → ρ' !! t = Some (const_var ty v) → Q t ρ' g) →
  wpv (tcg_constant ty v) ρ g Q.
Proof.
  intros HQ. apply (wpv_constant_internal ty). intros t ρ' Hs Ht. apply HQ; [done|]. rewrite Ht.
  unfold const_var. cbn [const_num]. pose proof (ty_width_pos ty). by rewrite wrap_sgn by lia.
Qed.

(** ** Operations and calls *)

Fixpoint vreads (ρ : vars) (ins : list nat) (tis : list RegType) (cs : list Z) : Prop :=
  match ins, tis, cs with
  | [], [], [] => True
  | t :: ins, ty :: tis, c :: cs =>
      (∃ k e, ρ !! t = Some (Var k ty (Num c) e)) ∧ vreads ρ ins tis cs
  | _, _, _ => False
  end.

Lemma vreads_reads σ ρ ins tis cs : covers σ ρ → vreads ρ ins tis cs → reads σ ins tis cs.
Proof.
  intros Hc. revert tis cs. induction ins as [|t ins IH]; intros [|ty tis] [|c cs]; cbn; try done.
  intros [(k & e & Ht) Hr]. split; [|by apply IH]. exists k. apply (Hc _ _ Ht).
Qed.

Lemma wpv_op opc r ins imms ρ g (Q : unit → vars → ghost → Prop) k ty tis v0 e0 cs n :
  is_mov opc = false → op_def opc = ([ty], tis, length imms) →
  ρ !! r = Some (Var k ty v0 e0) → writable k = true →
  vreads ρ ins tis cs → op_val opc cs imms = Some [n] →
  Q tt (<[r := Var k ty (Num n) e0]> ρ) g →
  wpv (tcg_emit_op (Op opc (map temp_arg [r] ++ map temp_arg ins ++ map const_arg imms))) ρ g Q.
Proof.
  intros Hmov Hdef Hr Hk Hin Hop HQ σ Hc. pose proof (Hc _ _ Hr) as [H1 H2].
  eapply wp_op; [done..|by eapply vreads_reads|done|]. eexists. split; [|exact HQ].
  by apply (covers_value _ _ _ _ (Var k ty (Num n) e0) Hc Hr).
Qed.

Lemma wpv_op2 opc r0 r1 ins imms ρ g (Q : unit → vars → ghost → Prop) k0 k1 ty tis v0 v1 e0 e1 cs n0 n1 :
  is_mov opc = false → op_def opc = ([ty; ty], tis, length imms) →
  r0 ≠ r1 → ρ !! r0 = Some (Var k0 ty v0 e0) → writable k0 = true →
  ρ !! r1 = Some (Var k1 ty v1 e1) → writable k1 = true →
  vreads ρ ins tis cs → op_val opc cs imms = Some [n0; n1] →
  Q tt (<[r1 := Var k1 ty (Num n1) e1]> (<[r0 := Var k0 ty (Num n0) e0]> ρ)) g →
  wpv (tcg_emit_op (Op opc (map temp_arg [r0; r1] ++ map temp_arg ins ++ map const_arg imms))) ρ g Q.
Proof.
  intros Hmov Hdef Hne Hr0 Hk0 Hr1 Hk1 Hin Hop HQ σ Hc. pose proof (Hc _ _ Hr0) as [H1 _].
  pose proof (Hc _ _ Hr1) as [H2 _].
  eapply wp_op2; [done..|by eapply vreads_reads|done|]. eexists. split; [|exact HQ].
  eapply (covers_value _ _ _ (Var k1 ty v1 e1) (Var k1 ty (Num n1) e1)); try done;
    [|by rewrite lookup_insert_ne].
  by apply (covers_value _ _ _ _ (Var k0 ty (Num n0) e0) Hc Hr0).
Qed.

Lemma wpv_mov_num (ty : RegType) r a ρ g (Q : unit → vars → ghost → Prop) k v0 e0 k' c e :
  ρ !! r = Some (Var k ty v0 e0) → writable k = true → ρ !! a = Some (Var k' ty (Num c) e) →
  Q tt (<[r := Var k ty (Num c) e0]> ρ) g →
  wpv (tcg_emit_op (Op (INDEX_op_mov ty) [temp_arg r; temp_arg a])) ρ g Q.
Proof.
  intros Hr Hk Ha HQ σ Hc. eapply wp_mov_num; [apply (Hc _ _ Hr)|done|apply (Hc _ _ Ha)|].
  eexists. split; [|exact HQ]. by apply (covers_value _ _ _ _ (Var k ty (Num c) e0) Hc Hr).
Qed.

Lemma expr_writable k : writable k = true → expr_kind k = k.
Proof. by destruct k. Qed.

Lemma wpv_mov_expr ty r a ρ g (Q : unit → vars → ghost → Prop) k v0 e0 k' ty' v w c x :
  ρ !! r = Some (Var k ty v0 e0) → writable k = true → ρ !! a = Some (Var k' ty' v (Exp w c x)) →
  Q tt (<[r := Var k ty v0 (Exp w c x)]> ρ) g →
  wpv (tcg_emit_op (Op (INDEX_op_mov I64) [temp_arg (S r); temp_arg (S a)])) ρ g Q.
Proof.
  intros Hr Hk Ha HQ σ Hc. pose proof (expr_writable k Hk) as Ek.
  eapply wp_mov_expr; [apply (Hc _ _ Hr)|cbn; by rewrite Ek|apply (Hc _ _ Ha)|].
  eexists. split; [|exact HQ]. by apply (covers_expr _ _ _ _ (Var k ty v0 (Exp w c x)) Hc Hr).
Qed.

Lemma wpv_mov_null w c ty r a ρ g (Q : unit → vars → ghost → Prop) k v0 e0 k' e :
  ρ !! r = Some (Var k ty v0 e0) → writable k = true → ρ !! a = Some (Var k' I64 (Num 0) e) →
  Q tt (<[r := Var k ty v0 (Exp w c c)]> ρ) g →
  wpv (tcg_emit_op (Op (INDEX_op_mov I64) [temp_arg (S r); temp_arg a])) ρ g Q.
Proof.
  intros Hr Hk Ha HQ σ Hc. pose proof (expr_writable k Hk) as Ek.
  eapply wp_mov_null; [apply (Hc _ _ Hr)|cbn; by rewrite Ek|apply (Hc _ _ Ha)|].
  eexists. split; [|exact HQ]. by apply (covers_expr _ _ _ _ (Var k ty v0 (Exp w c c)) Hc Hr).
Qed.

(** An argument of a call: the value of a variable, or its expression. *)
Inductive operand : Type :=
| V (t : nat)
| E (t : nat).
Definition operand_temp (o : operand) : nat := match o with V t => t | E t => S t end.

Definition varg_in (ρ : vars) (o : operand) (a : arg) : Prop :=
  match o, a with
  | V t, ANum ty c => ∃ k e, ρ !! t = Some (Var k ty (Num c) e)
  | E t, AExp w c x => ∃ k ty v, ρ !! t = Some (Var k ty v (Exp w c x))
  | V t, APtr b => ∃ k e, ρ !! t = Some (Var k I64 (Ptr b) e)
  | V t, AAny => ∃ v, ρ !! t = Some v
  | _, _ => False
  end.
Fixpoint vargs_in (ρ : vars) (os : list operand) (l : list arg) : Prop :=
  match os, l with
  | [], [] => True
  | o :: os, a :: l => varg_in ρ o a ∧ vargs_in ρ os l
  | _, _ => False
  end.

Lemma vargs_args σ ρ os l : covers σ ρ → vargs_in ρ os l → args_in σ (map operand_temp os) l.
Proof.
  intros Hc. revert l. induction os as [|o os IH]; intros [|a l]; cbn; try done.
  intros [Ho Hl]. split; [|by apply IH]. destruct o, a; cbn in *; try done.
  - destruct Ho as (k & e & H). exists k. apply (Hc _ _ H).
  - destruct Ho as (k & e & H). exists k. apply (Hc _ _ H).
  - destruct Ho as (v & H). eexists. apply (Hc _ _ H).
  - destruct Ho as (k & ty & v & H). exists (expr_kind k). apply (Hc _ _ H).
Qed.

(** A call that returns an expression, possibly pushing a constraint. *)
Lemma wpv_call_traced h r os l ρ g (Q : unit → vars → ghost → Prop) k ty v0 e0 e' p' :
  call_ok i h l I64 e' (gpath g) p' → vargs_in ρ os l →
  ρ !! r = Some (Var k ty v0 e0) → writable k = true →
  Q tt (<[r := Var k ty v0 e']> ρ) (Ghost p' (gmem g) (galt g) (gguest g) (gheap g)) →
  wpv (tcg_emit_op (OpCall h (Some (S r)) (map operand_temp os))) ρ g Q.
Proof.
  intros Hh Hin Hr Hk HQ σ Hc. pose proof (expr_writable k Hk) as Ek.
  eapply wp_call_traced; [done|by eapply vargs_args|apply (Hc _ _ Hr)|cbn; by rewrite Ek|].
  eexists. split; [|exact HQ]. by apply (covers_expr _ _ _ _ (Var k ty v0 e') Hc Hr).
Qed.
Lemma wpv_call_expr h r os l ρ g (Q : unit → vars → ghost → Prop) k ty v0 e0 e' :
  (∀ p, call_ok i h l I64 e' p p) → vargs_in ρ os l →
  ρ !! r = Some (Var k ty v0 e0) → writable k = true →
  Q tt (<[r := Var k ty v0 e']> ρ) g →
  wpv (tcg_emit_op (OpCall h (Some (S r)) (map operand_temp os))) ρ g Q.
Proof. intros. eapply wpv_call_traced; try done. by destruct g. Qed.

(** A call that returns a value. *)
Lemma wpv_call_num h r os l ρ g (Q : unit → vars → ghost → Prop) k ty v0 e0 n :
  (∀ p, call_ok i h l ty (Num n) p p) → vargs_in ρ os l →
  ρ !! r = Some (Var k ty v0 e0) → writable k = true →
  Q tt (<[r := Var k ty (Num n) e0]> ρ) g →
  wpv (tcg_emit_op (OpCall h (Some r) (map operand_temp os))) ρ g Q.
Proof.
  intros Hh Hin Hr Hk HQ σ Hc.
  eapply wp_call; [done|by eapply vargs_args|apply (Hc _ _ Hr)|done|].
  eexists. split; [|exact HQ]. by apply (covers_value _ _ _ _ (Var k ty (Num n) e0) Hc Hr).
Qed.

(** Updating one half of a variable does not affect reads of the other. *)
Lemma vreads_set_expr ρ ins tis cs r k ty v0 e0 e' :
  ρ !! r = Some (Var k ty v0 e0) → vreads ρ ins tis cs →
  vreads (<[r := Var k ty v0 e']> ρ) ins tis cs.
Proof.
  intros Hr. revert tis cs. induction ins as [|t ins IH]; intros [|ty' tis] [|c cs]; cbn; try done.
  intros [(k' & e & Ht) Hin]. split; [|by apply IH]. destruct (decide (t = r)) as [->|].
  - rewrite lookup_insert_eq. assert (k' = k ∧ Reg ty' = ty ∧ Num c = v0) as (-> & <- & <-) by naive_solver.
    eauto.
  - rewrite lookup_insert_ne by done. eauto.
Qed.


(** ** Branches *)

Definition wpvj (m : Gen unit) (ρ : vars) (g : ghost) (Q : option nat → vars → ghost → Prop) : Prop :=
  ∀ σ, covers σ ρ → wpj i m σ g (λ j σ' g', ∃ ρ', covers σ' ρ' ∧ Q j ρ' g').

Lemma wpvj_bind {A} (m : Gen A) (k : A → Gen unit) ρ g Q :
  wpv m ρ g (λ a ρ' g', wpvj (k a) ρ' g' Q) → wpvj (m ≫= k) ρ g Q.
Proof.
  intros Hm σ Hc. apply wpj_bind. eapply wp_mono; [|by apply Hm].
  intros a σ' g' (ρ' & Hc' & Hk). by apply Hk.
Qed.
Lemma wpvj_fall (m : Gen unit) ρ g Q : wpv m ρ g (λ _ ρ' g', Q None ρ' g') → wpvj m ρ g Q.
Proof. intros Hm σ Hc. apply wpj_fall. by apply Hm. Qed.
Lemma wpvj_weaken (m : Gen unit) ρ ρ' g Q : ρ' ⊆ ρ → wpvj m ρ' g Q → wpvj m ρ g Q.
Proof. intros Hs Hm σ Hc. apply Hm. by eapply covers_weaken. Qed.
Lemma wpvj_br l ρ g Q : Q (Some l) ρ g → wpvj (tcg_emit_op (OpBr l)) ρ g Q.
Proof. intros HQ σ Hc. apply wpj_br. eauto. Qed.
Lemma wpvj_brcond (t : RegType) a b c l ρ g Q k1 k2 e1 e2 c1 c2 :
  cond_proper c = true →
  ρ !! a = Some (Var k1 t (Num c1) e1) → ρ !! b = Some (Var k2 t (Num c2) e2) →
  Q (if cond_holds (ty_width t) c c1 c2 then Some l else None) ρ g →
  wpvj (tcg_emit_op (OpBrcond t a b c l)) ρ g Q.
Proof.
  intros Hc Ha Hb HQ σ Hcov. eapply wpj_brcond; [done|apply (Hcov _ _ Ha)|apply (Hcov _ _ Hb)|]. eauto.
Qed.
End Vars.


(** ** Automation *)

Lemma fresh_ne (ρ : vars) t u v : ρ !! t = None → ρ !! u = Some v → t ≠ u.
Proof. congruence. Qed.

Lemma const_ne (ρ : vars) t u ty n v :
  ρ !! t = Some (const_var ty n) → ρ !! u = Some v → writable (vk v) = true → t ≠ u.
Proof. intros Ht Hu Hw ->. rewrite Ht in Hu. by injection Hu as <-. Qed.

(** Lookups through updates, and the disequalities they need. *)
Ltac lk :=
  lazymatch goal with
  | |- <[?r := _]> _ !! ?r = Some _ => apply lookup_insert_eq
  | |- <[_ := _]> _ !! _ = Some _ => first [eassumption | rewrite lookup_insert_ne by neq; lk]
  | |- delete _ _ !! _ = Some _ => rewrite lookup_delete_ne by neq; lk
  | |- _ !! _ = Some _ => first [eassumption | eapply lookup_weaken; [|eassumption]; lk]
  end
with neq :=
  solve [ assumption | apply not_eq_sym; assumption
        | match goal with
          | H : ?m !! ?t = None |- ?t ≠ _ => eapply (fresh_ne m); [exact H|lk]
          | H : ?m !! ?t = None |- _ ≠ ?t => apply not_eq_sym; eapply (fresh_ne m); [exact H|lk]
          | H : ?m !! ?t = Some (const_var _ _) |- ?t ≠ _ => eapply (const_ne m); [exact H|lk|done]
          | H : ?m !! ?t = Some (const_var _ _) |- _ ≠ ?t =>
              apply not_eq_sym; eapply (const_ne m); [exact H|lk|done]
          end
        | congruence ].

(** Inclusions between assertions that differ by updates and forgotten
    temporaries. *)
Ltac vsub :=
  apply map_subseteq_spec;
  let u := fresh "u" in let v := fresh "v" in let Hu := fresh "Hu" in
  intros u v Hu;
  repeat match type of Hu with
         | <[_ := _]> _ !! u = Some v => apply lookup_insert_Some in Hu as [[<- <-]|[? Hu]]
         end; lk.
(** The end of a proof about a generator: forget what is not asked for. *)
Ltac vdone HQ := eexists; split; [|exact HQ]; vsub.
