(* ===== verification/Block.v ===== *)
(** A translation block, from the globals of the CPU to its execution.

    The context is initialised with the pointer to the CPU state and the
    globals that live in it; a block starts with these, the generator emits its
    operations, and they run.  The layout of the globals is what the rest of
    the development relies on: each is a pair of a value and an expression, and
    the expressions have disjoint slots in [env_exprs]. *)
From S2P Require Import Prelude Cond Bitops Backend SymHelpers SymMemory Ops Temps Exec Logic Calls Vars.

(** ** Globals *)

(** [env] and the globals with the given offsets and types, as the translator of
    a target creates them. *)
Fixpoint new_globals (env : nat) (l : list (Z * RegType)) : Gen (list nat) :=
  match l with
  | [] => mret []
  | (ofs, t) :: l =>
      r ← tcg_global_mem_new_internal env ofs (type_of t);
      rs ← new_globals env l;
      mret (r :: rs)
  end.
Definition init_globals (sym_ofs : Z) (l : list (Z * RegType)) : Gen (nat * list nat) :=
  env ← tcg_global_reg_new_internal TCG_TYPE_PTR sym_ofs;
  rs ← new_globals env l;
  mret (env, rs).

Definition empty_context : TCGContext := mkContext 0 [] (λ _ _, false) ∅ [] 0.

(** The temporaries of a global based at [base]. *)
Definition mem_value (base : nat) (ofs : Z) (t : RegType) : TCGTemp :=
  mkTemp (type_of t) (type_of t) TEMP_GLOBAL false false true false 0 0 false 0 (Some base) ofs 0.
Definition mem_expr (base : nat) (ofs : Z) : TCGTemp :=
  mkTemp TCG_TYPE_PTR TCG_TYPE_PTR TEMP_GLOBAL false false true false 0 0 true 0 (Some base) ofs 0.
Definition reg_value (sym_ofs : Z) : TCGTemp :=
  mkTemp TCG_TYPE_PTR TCG_TYPE_PTR TEMP_FIXED false false false false 0 0 false 0 None 0 sym_ofs.

Lemma global_alloc_eq g l f c o nl :
  g = length l → (g < TCG_MAX_TEMPS)%nat →
  tcg_global_alloc (mkContext g l f c o nl)
  = GOk (length l) (mkContext (S g) (l ++ [set_kind_global zero_temp]) f c o nl).
Proof.
  intros -> H. unfold tcg_global_alloc, mbind, gen_bind, tcg_debug_assert, set_temp, tcg_temp_alloc, with_temps.
  ctx_simpl. rewrite Nat.eqb_refl, (proj2 (Nat.ltb_lt _ _) H). ctx_simpl.
  rewrite (proj2 (Nat.leb_gt _ _) H). ctx_simpl. rewrite lookup_snoc. ctx_simpl. by rewrite insert_snoc.
Qed.

Lemma insert_two {A} (l : list A) x y x' :
  <[length l := x']> (l ++ [x; y]) = l ++ [x'; y] ∧ (l ++ [x; y]) !! length l = Some x ∧
  <[S (length l) := x']> (l ++ [x; y]) = l ++ [x; x'] ∧ (l ++ [x; y]) !! S (length l) = Some y.
Proof.
  rewrite !insert_app_r_alt, !lookup_app_r by lia. by replace (S (length l) - length l)%nat with 1%nat by lia;
    rewrite Nat.sub_diag.
Qed.

(** The expression of the [k]-th pair of globals has the [k]-th slot. *)
Lemma global_mem_new_eq base ofs (t : RegType) g l f c o nl bts :
  g = length l → Nat.even g = true → (S (S g) ≤ TCG_MAX_TEMPS)%nat →
  l !! base = Some bts → kind bts = TEMP_FIXED →
  tcg_global_mem_new_internal base ofs (type_of t) (mkContext g l f c o nl)
  = GOk (length l) (mkContext (S (S g))
      (l ++ [mem_value base ofs t; mem_expr base (sym_offset bts + Z.of_nat (g / 2) * 8)]) f c o nl).
Proof.
  intros Hg He Hm Hb Hk. assert (Hlt : (base < length l)%nat) by (by eapply lookup_lt_Some).
  unfold tcg_global_mem_new_internal, mbind, gen_bind. unfold get_temp at 1. ctx_simpl. rewrite Hb.
  rewrite global_alloc_eq by lia. rewrite global_alloc_eq by (rewrite ?length_app; cbn [length]; lia).
  rewrite Hk. unfold tcg_debug_assert. ctx_simpl. change (Nat.even (S (S g))) with (Nat.even g). rewrite He.
  cbn [mret gen_ret]. unfold set_temp, with_temps. ctx_simpl. rewrite <- app_assoc. cbn [app].
  destruct (insert_two l (set_kind_global zero_temp) (set_kind_global zero_temp) (mem_value base ofs t)) as (I1 & L1 & _).
  rewrite L1. ctx_simpl.
  replace (length (l ++ [set_kind_global zero_temp])) with (S (length l)) by (rewrite length_app; cbn [length]; lia).
  change (mkTemp (type_of t) (type_of t) TEMP_GLOBAL false false true false 0 0 false 0 (Some base) ofs 0)
    with (mem_value base ofs t). rewrite I1.
  destruct (insert_two l (mem_value base ofs t) (set_kind_global zero_temp)
    (mem_expr base (sym_offset bts + Z.of_nat (g / 2) * 8))) as (_ & _ & I2 & L2).
  rewrite L2. ctx_simpl. unfold mem_expr in *. by rewrite I2.
Qed.

(** The pairs of the globals of a list, the first one being pair [k]. *)
Fixpoint layout (sym_ofs : Z) (k : Z) (l : list (Z * RegType)) : list TCGTemp :=
  match l with
  | [] => []
  | (ofs, t) :: l => mem_value 0 ofs t :: mem_expr 0 (sym_ofs + k * 8) :: layout sym_ofs (k + 1) l
  end.

Lemma new_globals_eq sym_ofs regs : ∀ g l f c o nl bts,
  g = length l → Nat.even g = true → (g + 2 * length regs ≤ TCG_MAX_TEMPS)%nat →
  l !! 0%nat = Some bts → kind bts = TEMP_FIXED → sym_offset bts = sym_ofs →
  new_globals 0 regs (mkContext g l f c o nl)
  = GOk (map (λ j, g + 2 * j)%nat (seq 0 (length regs)))
      (mkContext (g + 2 * length regs) (l ++ layout sym_ofs (Z.of_nat (g / 2)) regs) f c o nl).
Proof.
  induction regs as [|[ofs t] regs IH]; intros g l f c o nl bts Hg He Hm Hb Hk Hs.
  { cbn. by rewrite Nat.add_0_r, app_nil_r. }
  cbn [new_globals length] in *. unfold mbind at 1, gen_bind at 1.
  rewrite (global_mem_new_eq _ _ _ _ _ _ _ _ _ bts) by (done || lia).
  unfold mbind, gen_bind. rewrite (IH (S (S g)) _ _ _ _ _ bts); cycle 1.
  - rewrite length_app. cbn [length]. lia.
  - done.
  - lia.
  - by apply lookup_app_old.
  - done.
  - done.
  - rewrite <- app_assoc, Hs. cbn [mret gen_ret seq map app layout].
    replace (Z.of_nat (S (S g) / 2)) with (Z.of_nat (g / 2) + 1)
      by (replace (S (S g)) with (g + 1 * 2)%nat by lia; rewrite Nat.div_add by lia; lia).
    f_equal; [|f_equal; lia]. rewrite Nat.add_0_r, <- Hg. f_equal.
    rewrite <- seq_shift, map_map. apply map_ext. intros j. lia.
Qed.

Definition cpu_context (sym_ofs : Z) (l : list (Z * RegType)) : TCGContext :=
  mkContext (2 + 2 * length l) (reg_value sym_ofs :: mem_expr 0 sym_ofs :: layout sym_ofs 1 l)
    (λ _ _, false) ∅ [] 0.
Definition global_temp (j : nat) : nat := (2 + 2 * j)%nat.

Lemma init_globals_eq sym_ofs l :
  (2 + 2 * length l ≤ TCG_MAX_TEMPS)%nat →
  init_globals sym_ofs l empty_context
  = GOk (0%nat, map global_temp (seq 0 (length l))) (cpu_context sym_ofs l).
Proof.
  intros Hl. unfold init_globals, empty_context, mbind at 1, gen_bind at 1.
  change (tcg_global_reg_new_internal _ _ _) with
    (GOk 0%nat (mkContext 2 [reg_value sym_ofs; mem_expr 0 sym_ofs] (λ _ _, false) ∅ [] 0)). cbv iota beta.
  unfold mbind, gen_bind. by rewrite (new_globals_eq sym_ofs l _ _ _ _ _ _ (reg_value sym_ofs)).
Qed.

Lemma layout_lookup sym_ofs l : ∀ k j ofs t,
  l !! j = Some (ofs, t) →
  layout sym_ofs k l !! (2 * j)%nat = Some (mem_value 0 ofs t) ∧
  layout sym_ofs k l !! S (2 * j) = Some (mem_expr 0 (sym_ofs + (k + Z.of_nat j) * 8)).
Proof.
  induction l as [|[ofs' t'] l IH]; intros k [|j] ofs t; cbn [lookup list_lookup layout]; try done.
  - intros [= -> ->]. by rewrite Z.add_0_r.
  - intros H. destruct (IH (k + 1) j ofs t H) as [H1 H2].
    replace (2 * S j)%nat with (S (S (2 * j))) by lia. split; [exact H1|].
    etransitivity; [exact H2|]. do 2 f_equal. lia.
Qed.
Lemma layout_length sym_ofs l : ∀ k, length (layout sym_ofs k l) = (2 * length l)%nat.
Proof. induction l as [|[ofs t] l IH]; intros k; cbn; [done|]. rewrite IH. lia. Qed.

(** ** Running a block *)

(** A global: its type, its value, and its value under other inputs. *)
Abbreviation RegFile := (list (RegType * Z * Z)).

Section Block.
Context `{SL : ShadowLaws} {BL : BackendLaws B BS}.

(** [None] when the temporaries overflow: the translation starts again with a
    smaller block. *)
Definition run_block (m : Gen unit) (s : TCGContext) (st : State) : Res (option Outcome) :=
  match m (tcg_func_start s) with
  | GOk _ s' => o ← exec (temps s') (ops s') st; Ok (Some o)
  | GOverflow => Ok None
  | GAssert => Abort
  end.

Fixpoint reg_vars (k : nat) (r : RegFile) : vars :=
  match r with
  | [] => ∅
  | (t, c, x) :: r => <[global_temp k := full TEMP_GLOBAL t c x]> (reg_vars (S k) r)
  end.
Definition cpu_vars (env : Z) (r : RegFile) : vars :=
  <[0%nat := full TEMP_FIXED I64 env env]> (reg_vars 0 r).

(** The registers hold the values, and expressions for the alternative ones. *)
Definition holds_reg (i : Input) (st : State) (n : nat) (t : RegType) (c x : Z) : Prop :=
  ∃ z o, regs st n = VNum z ∧ in_range 64 z ∧ wrap (ty_width t) z = c ∧
    regs st (S n) = of_expr o ∧ shadows i (ty_width t) c x o.
Record cpu_holds (i : Input) (st : State) (env : Z) (r : RegFile) : Prop := {
  ch_env : holds_reg i st 0 I64 env env;
  ch_reg j t c x : r !! j = Some (t, c, x) → holds_reg i st (global_temp j) t c x;
}.

Lemma reg_vars_lookup r : ∀ k n v,
  reg_vars k r !! n = Some v ↔
  ∃ j (t : RegType) c x, n = global_temp (k + j) ∧ r !! j = Some (t, c, x) ∧ v = full TEMP_GLOBAL t c x.
Proof.
  induction r as [|[[t c] x] r IH]; intros k n v; cbn [reg_vars].
  { rewrite lookup_empty. split; [done|]. by intros ([|] & ? & ? & ? & _ & ? & _). }
  rewrite lookup_insert_Some, IH. split.
  - intros [[<- <-]|[_ (j & t' & c' & x' & -> & H & ->)]].
    + exists 0%nat, t, c, x. by rewrite Nat.add_0_r.
    + exists (S j), t', c', x'. split; [f_equal; lia|done].
  - intros ([|j] & t' & c' & x' & -> & H & ->); cbn in H.
    + simplify_eq. left. by rewrite Nat.add_0_r.
    + right. split; [unfold global_temp; lia|]. exists j, t', c', x'. split; [f_equal; lia|done].
Qed.

Lemma cpu_vars_lookup env r n v :
  cpu_vars env r !! n = Some v ↔
  (n = 0%nat ∧ v = full TEMP_FIXED I64 env env) ∨
  (∃ j (t : RegType) c x, n = global_temp j ∧ r !! j = Some (t, c, x) ∧ v = full TEMP_GLOBAL t c x).
Proof.
  unfold cpu_vars. rewrite lookup_insert_Some, reg_vars_lookup. split.
  - intros [[<- <-]|[_ ?]]; eauto.
  - intros [[-> ->]|H]; [by left|]. right. split; [|done]. destruct H as (j & t & c & x & -> & _).
    unfold global_temp. lia.
Qed.

(** The cells of the variables. *)
Definition cells_of (ρ : vars) : store := (value_cell <$> ρ) ∪ kmap S (expr_cell <$> ρ).

Lemma cells_of_inv ρ n c :
  cells_of ρ !! n = Some c →
  ∃ m v, ρ !! m = Some v ∧ ((n = m ∧ c = value_cell v) ∨ (n = S m ∧ c = expr_cell v)).
Proof.
  unfold cells_of. intros [H|[_ H]]%lookup_union_Some_raw.
  - apply lookup_fmap_Some in H as (v & <- & H). exists n, v. auto.
  - apply lookup_kmap_Some in H as (m & -> & H); [|apply _].
    apply lookup_fmap_Some in H as (v & <- & H). exists m, v. auto.
Qed.
Lemma cells_of_covers ρ : (∀ n, is_Some (ρ !! n) → ρ !! S n = None) → covers (cells_of ρ) ρ.
Proof.
  intros Hd n v Hn. unfold cells_of. split.
  - apply lookup_union_Some_l. by rewrite lookup_fmap, Hn.
  - rewrite lookup_union_r; [|rewrite lookup_fmap, Hd; eauto].
    apply lookup_kmap_Some; [apply _|]. exists n. split; [done|]. by rewrite lookup_fmap, Hn.
Qed.
Lemma cpu_vars_even env r n v : cpu_vars env r !! n = Some v → Nat.even n = true.
Proof.
  intros [[-> _]|(j & _ & _ & _ & -> & _)]%cpu_vars_lookup; [done|]. unfold global_temp.
  replace (2 + 2 * j)%nat with (2 * S j)%nat by lia. by rewrite Nat.even_mul.
Qed.
Lemma cpu_vars_apart env r n : is_Some (cpu_vars env r !! n) → cpu_vars env r !! S n = None.
Proof.
  intros [v H]. apply eq_None_not_Some. intros [v' H']. apply cpu_vars_even in H, H'.
  rewrite Nat.even_succ, <- Nat.negb_even, H in H'. done.
Qed.

(** The table of the CPU's globals gives the cells their types. *)
Definition regs_match (l : list (Z * RegType)) (r : RegFile) : Prop :=
  map snd l = map (λ v, v.1.1) r.
Lemma cpu_cells_typed sym_ofs l env r n c :
  regs_match l r → cells_of (cpu_vars env r) !! n = Some c →
  cell_typed (temps (tcg_func_start (cpu_context sym_ofs l))) n c.
Proof.
  intros Hm (m & v & Hv & Hc)%cells_of_inv. cbn [tcg_func_start temps cpu_context nb_globals].
  rewrite take_ge by (cbn [length]; rewrite layout_length; lia).
  apply cpu_vars_lookup in Hv as [[-> ->]|(j & t & x & y & -> & Hj & ->)].
  - destruct Hc as [[-> ->]|[-> ->]]; cbn.
    + exists (reg_value sym_ofs), (mem_expr 0 sym_ofs). repeat (split; [done|]). done.
    + exists (mem_expr 0 sym_ofs). repeat (split; [done|]). done.
  - assert (∃ ofs, l !! j = Some (ofs, t)) as [ofs Hl].
    { assert (map snd l !! j = Some t) as H.
      { rewrite Hm. rewrite list_lookup_fmap, Hj. done. }
      rewrite list_lookup_fmap in H. destruct (l !! j) as [[ofs t']|]; simplify_eq/=. eauto. }
    destruct (layout_lookup sym_ofs l 1 j ofs t Hl) as [L1 L2].
    destruct Hc as [[-> ->]|[-> ->]]; cbn.
    + exists (mem_value 0 ofs t), (mem_expr 0 (sym_ofs + (1 + Z.of_nat j) * 8)).
      split; [exact L1|]. split; [exact L2|]. split; [by destruct t|]. repeat (split; [done|]). done.
    + exists (mem_expr 0 (sym_ofs + (1 + Z.of_nat j) * 8)). split; [exact L2|]. repeat (split; [done|]). done.
Qed.

Definition ghost_of (i : Input) (st : State) : ghost :=
  Ghost (path_holds i (trace st)) (mem st) (alt_byte i (shadow st) (mem st)) (guest st) (heap st).

Lemma cpu_models i sym_ofs l env r st Γ :
  regs_match l r → cpu_holds i st env r → bytes (mem st) →
  static_ext (temps (tcg_func_start (cpu_context sym_ofs l))) Γ →
  models i Γ (cells_of (cpu_vars env r)) (ghost_of i st) st.
Proof.
  intros Hm Hc Hb HΓ. split; try done. intros n c Hn.
  pose proof (cpu_cells_typed sym_ofs l env r n c Hm Hn) as Ht.
  apply cells_of_inv in Hn as (m & v & Hv & Hn).
  assert (Hh : ∃ k (t : RegType) z x, v = full k t z x ∧ k ≠ TEMP_CONST ∧ holds_reg i st m t z x).
  { apply cpu_vars_lookup in Hv as [[-> ->]|(j & t & z & x & -> & Hj & ->)]; cbn.
    - exists TEMP_FIXED, I64, env, env. split; [done|]. split; [done|]. apply Hc.
    - exists TEMP_GLOBAL, t, z, x. split; [done|]. split; [done|]. by eapply ch_reg. }
  destruct Hh as (k & t & z' & x & -> & Hk & z & o & R1 & Hz & Hw & R2 & Ho). cbn in *.
  assert (Hrd : ∃ ts, Γ !! n = Some ts ∧ kind ts ≠ TEMP_CONST).
  { assert (∃ ts, temps (tcg_func_start (cpu_context sym_ofs l)) !! n = Some ts ∧ kind ts ≠ TEMP_CONST)
      as (ts & H1 & H2).
    { unfold cell_typed in Ht. destruct Hn as [[-> ->]|[-> ->]]; cbn in Ht.
      - destruct Ht as (ts & te & ? & _ & (_ & _ & ? & _) & _). exists ts. split; [done|congruence].
      - destruct Ht as (te & ? & (_ & _ & ? & _) & _). exists te. split; [done|]. intros ?. destruct k; cbn in *; congruence. }
    destruct (HΓ n ts H1) as (ts' & H3 & [H4 _]%same_static_fields). exists ts'. split; [done|congruence]. }
  destruct Hrd as (ts & Hts & Hkd). unfold rd. rewrite Hts, bool_decide_false by done.
  destruct Hn as [[-> ->]|[-> ->]].
  - exists (VNum z). rewrite R1. split; [done|]. by exists z.
  - exists (of_expr o). rewrite R2. split; [done|]. by exists o.
Qed.

Lemma models_cpu i Γ σ ρ g st env r :
  typed Γ σ → models i Γ σ g st → covers σ ρ → cpu_vars env r ⊆ ρ → cpu_holds i st env r.
Proof.
  intros HΓ HM Hc Hs.
  assert (H : ∀ n k (t : RegType) c x, ρ !! n = Some (full k t c x) → k ≠ TEMP_CONST → holds_reg i st n t c x).
  { intros n k t c x Hn Hk. destruct (Hc _ _ Hn) as [H1 H2].
    assert (R : ∀ m c', σ !! m = Some c' → ckind c' ≠ TEMP_CONST → rd Γ st m = Ok (regs st m)).
    { intros m c' Hm Hk'. destruct (HΓ _ _ Hm) as (ts & Hts & Hkd). unfold rd. rewrite Hts.
      rewrite bool_decide_false by congruence. done. }
    destruct (m_cells _ _ _ _ _ HM _ _ H1) as (v & Hv & z & -> & Hz & Hw).
    destruct (m_cells _ _ _ _ _ HM _ _ H2) as (v' & Hv' & o & -> & Ho).
    rewrite (R _ _ H1) in Hv by done. rewrite (R _ _ H2) in Hv' by (cbn; by destruct k).
    injection Hv as Hv. injection Hv' as Hv'. by exists z, o. }
  split.
  - apply (H _ TEMP_FIXED); [|done]. eapply lookup_weaken; [|exact Hs]. apply cpu_vars_lookup. auto.
  - intros j t c x Hj. apply (H _ TEMP_GLOBAL); [|done]. eapply lookup_weaken; [|exact Hs].
    apply cpu_vars_lookup. right. by exists j, t, c, x.
Qed.

(** A block whose generator meets a specification either is retried or runs as
    specified. *)
Lemma block_adequate i sym_ofs l env r r' (P : ghost → Prop) m st :
  (2 + 2 * length l ≤ TCG_MAX_TEMPS)%nat → regs_match l r → cpu_holds i st env r → bytes (mem st) →
  wpv i m (cpu_vars env r) (ghost_of i st) (λ _ ρ' g', cpu_vars env r' ⊆ ρ' ∧ P g') →
  run_block m (cpu_context sym_ofs l) st = Ok None ∨
  ∃ st' g', run_block m (cpu_context sym_ofs l) st = Ok (Some (Fall st')) ∧ cpu_holds i st' env r' ∧ P g' ∧
    path_holds i (trace st') = gpath g' ∧ (∀ a, mem st' a = gmem g' a) ∧
    (∀ a, alt_byte i (shadow st') (mem st') a = galt g' a) ∧ heap st' = gheap g'.
Proof.
  intros Hl Hm Hc Hb Hwp. set (s := tcg_func_start (cpu_context sym_ofs l)).
  assert (Hs : ctx_ok s (cells_of (cpu_vars env r))).
  { split; [|intros n c; by apply cpu_cells_typed]. apply tcg_func_start_wf. cbn. rewrite layout_length. lia. }
  specialize (Hwp _ (cells_of_covers _ (cpu_vars_apart env r)) s Hs). unfold run_block. fold s.
  destruct (m s) as [u s'| |]; [|by left|done]. right.
  destruct Hwp as (ops' & σ' & g' & (ρ' & Hcov & Hsub & HP) & Hok & He & Ho & Hx).
  destruct (Hx (temps s') st) as (st' & E & HM); [reflexivity|by eapply cpu_models|].
  exists st', g'. rewrite Ho. change (ops s) with (@nil TCGOp). cbn [app]. rewrite E.
  split; [done|]. split; [|split; [done|]].
  - eapply models_cpu; [|exact HM|done|done]. by eapply ctx_typed.
  - destruct HM. auto.
Qed.
End Block.
