(* ===== verification/GenCore.v ===== *)
(** The generators of tcg/tcg-op.c: moves, arithmetic, logic, shifts, and
    the comparison that feeds the path condition.

    A generator for a type [t] models the [_i32] and the [_i64] function when
    the two have the same text; the definitions with those names are its
    instances.  The host is 64-bit ([TCG_TARGET_REG_BITS == 64]): the branches
    for 32-bit hosts are not modelled, since a pointer to an expression does
    not fit a register there.  Helper arguments are passed as they are
    ([TCG_CALL_ARG_NORMAL]). *)
From S2P Require Import Prelude Cond Bitops SymHelpers Ops Temps.

(** What a host's backend implements: the TCG_TARGET_HAS_* macros of
    tcg/<host>/tcg-target.h. *)
Record Target := mkTarget {
  TCG_TARGET_HAS_not : RegType → bool;
  TCG_TARGET_HAS_div : RegType → bool;
  TCG_TARGET_HAS_div2 : RegType → bool;
  TCG_TARGET_HAS_rem : RegType → bool;
  TCG_TARGET_HAS_andc : RegType → bool;
  TCG_TARGET_HAS_orc : RegType → bool;
  TCG_TARGET_HAS_eqv : RegType → bool;
  TCG_TARGET_HAS_nand : RegType → bool;
  TCG_TARGET_HAS_nor : RegType → bool;
  TCG_TARGET_HAS_rot : RegType → bool;
  TCG_TARGET_HAS_ext8s : RegType → bool;
  TCG_TARGET_HAS_ext16s : RegType → bool;
  TCG_TARGET_HAS_ext8u : RegType → bool;
  TCG_TARGET_HAS_ext16u : RegType → bool;
  TCG_TARGET_HAS_ext32s_i64 : bool;
  TCG_TARGET_HAS_ext32u_i64 : bool;
  TCG_TARGET_HAS_extr_i64_i32 : bool;
  TCG_TARGET_HAS_bswap16 : RegType → bool;
  TCG_TARGET_HAS_bswap32 : RegType → bool;
  TCG_TARGET_HAS_bswap64_i64 : bool;
  TCG_TARGET_HAS_clz : RegType → bool;
  TCG_TARGET_HAS_ctz : RegType → bool;
  TCG_TARGET_HAS_ctpop : RegType → bool;
  TCG_TARGET_HAS_deposit : RegType → bool;
  TCG_TARGET_deposit_valid : RegType → Z → Z → bool;
  TCG_TARGET_HAS_extract : RegType → bool;
  TCG_TARGET_extract_valid : RegType → Z → Z → bool;
  TCG_TARGET_HAS_sextract : RegType → bool;
  TCG_TARGET_HAS_extract2 : RegType → bool;
  TCG_TARGET_HAS_negsetcond : RegType → bool;
  TCG_TARGET_HAS_add2 : RegType → bool;
  TCG_TARGET_HAS_sub2 : RegType → bool;
  TCG_TARGET_HAS_mulu2 : RegType → bool;
  TCG_TARGET_HAS_muls2 : RegType → bool;
  TCG_TARGET_HAS_muluh : RegType → bool;
  TCG_TARGET_HAS_mulsh : RegType → bool;
}.

(** ** Emitting operations *)

Definition tcg_gen_op2 (opc : TCGOpcode) (a1 a2 : TCGArg) : Gen unit :=
  tcg_emit_op (Op opc [a1; a2]).
Definition tcg_gen_op3 (opc : TCGOpcode) (a1 a2 a3 : TCGArg) : Gen unit :=
  tcg_emit_op (Op opc [a1; a2; a3]).
Definition tcg_gen_op4 (opc : TCGOpcode) (a1 a2 a3 a4 : TCGArg) : Gen unit :=
  tcg_emit_op (Op opc [a1; a2; a3; a4]).
Definition tcg_gen_op5 (opc : TCGOpcode) (a1 a2 a3 a4 a5 : TCGArg) : Gen unit :=
  tcg_emit_op (Op opc [a1; a2; a3; a4; a5]).
Definition tcg_gen_op6 (opc : TCGOpcode) (a1 a2 a3 a4 a5 a6 : TCGArg) : Gen unit :=
  tcg_emit_op (Op opc [a1; a2; a3; a4; a5; a6]).

(** With temporaries for arguments, and constants for the last ones ([i], [ii]). *)
Definition tcg_gen_op2_t (opc : TCGOpcode) (a1 a2 : nat) : Gen unit :=
  tcg_gen_op2 opc (temp_arg a1) (temp_arg a2).
Definition tcg_gen_op3_t (opc : TCGOpcode) (a1 a2 a3 : nat) : Gen unit :=
  tcg_gen_op3 opc (temp_arg a1) (temp_arg a2) (temp_arg a3).
Definition tcg_gen_op3i_t (opc : TCGOpcode) (a1 a2 : nat) (a3 : Z) : Gen unit :=
  tcg_gen_op3 opc (temp_arg a1) (temp_arg a2) (const_arg a3).
Definition tcg_gen_op4i_t (opc : TCGOpcode) (a1 a2 a3 : nat) (a4 : Z) : Gen unit :=
  tcg_gen_op4 opc (temp_arg a1) (temp_arg a2) (temp_arg a3) (const_arg a4).
Definition tcg_gen_op4ii_t (opc : TCGOpcode) (a1 a2 : nat) (a3 a4 : Z) : Gen unit :=
  tcg_gen_op4 opc (temp_arg a1) (temp_arg a2) (const_arg a3) (const_arg a4).
Definition tcg_gen_op5_t (opc : TCGOpcode) (a1 a2 a3 a4 a5 : nat) : Gen unit :=
  tcg_gen_op5 opc (temp_arg a1) (temp_arg a2) (temp_arg a3) (temp_arg a4) (temp_arg a5).
Definition tcg_gen_op5ii_t (opc : TCGOpcode) (a1 a2 a3 : nat) (a4 a5 : Z) : Gen unit :=
  tcg_gen_op5 opc (temp_arg a1) (temp_arg a2) (temp_arg a3) (const_arg a4) (const_arg a5).
Definition tcg_gen_op6i_t (opc : TCGOpcode) (a1 a2 a3 a4 a5 : nat) (a6 : Z) : Gen unit :=
  tcg_gen_op6 opc (temp_arg a1) (temp_arg a2) (temp_arg a3) (temp_arg a4) (temp_arg a5) (const_arg a6).

(** ** Moves *)

Definition tcg_gen_mov_internal (t : RegType) (ret arg : nat) (concrete : bool) : Gen unit :=
  if (ret =? arg)%nat then mret tt
  else
    (if concrete then mret tt
     else er ← temp_expr ret; ea ← temp_expr arg; tcg_gen_op2_t (INDEX_op_mov I64) er ea);;
    tcg_gen_op2_t (INDEX_op_mov t) ret arg.
Definition tcg_gen_mov (t : RegType) (ret arg : nat) : Gen unit := tcg_gen_mov_internal t ret arg false.
Definition tcg_gen_mov_concrete (t : RegType) (ret arg : nat) : Gen unit :=
  tcg_gen_mov_internal t ret arg true.

Definition tcg_gen_movi_i32 (ret : nat) (arg : Z) : Gen unit :=
  er ← temp_expr ret; z ← tcg_constant_i64 0;
  tcg_gen_op2_t (INDEX_op_mov I64) er z;;
  c ← tcg_constant_i32 arg;
  tcg_gen_op2_t (INDEX_op_mov I32) ret c.
Definition tcg_gen_movi_i64 (ret : nat) (arg : Z) : Gen unit :=
  c ← tcg_constant_i64 arg; tcg_gen_mov I64 ret c.
Definition tcg_gen_movi (t : RegType) : nat → Z → Gen unit :=
  match t with I32 => tcg_gen_movi_i32 | I64 => tcg_gen_movi_i64 end.

(** ** Calls (tcg/tcg.c): the result of a helper that is not itself an
    expression is made concrete. *)

Definition tcg_gen_callN (func : Helper) (ret : option nat) (args : list nat) : Gen unit :=
  match ret with
  | Some r =>
      ts ← get_temp r;
      if negb (symbolic_expression ts) then
        er ← temp_expr r; z ← tcg_constant_internal TCG_TYPE_I64 0;
        tcg_gen_mov_concrete I64 er z
      else mret tt
  | None => mret tt
  end;;
  tcg_emit_op (OpCall func ret args).

Definition SYM_HELPER_BINARY (name : SymBinary) (t : RegType) (ret arg1 arg2 : nat) : Gen unit :=
  er ← temp_expr ret; e1 ← temp_expr arg1; e2 ← temp_expr arg2;
  tcg_gen_callN (HELPER_sym_binary name t) (Some er) [arg1; e1; arg2; e2].

(** ** Arithmetic and logic *)

Section Generators.
Context (TT : Target) (tcg_env : nat).

Definition tcg_gen_add (t : RegType) (ret arg1 arg2 : nat) : Gen unit :=
  SYM_HELPER_BINARY SYM_add t ret arg1 arg2;; tcg_gen_op3_t (INDEX_op_add t) ret arg1 arg2.
Definition tcg_gen_sub (t : RegType) (ret arg1 arg2 : nat) : Gen unit :=
  SYM_HELPER_BINARY SYM_sub t ret arg1 arg2;; tcg_gen_op3_t (INDEX_op_sub t) ret arg1 arg2.
Definition tcg_gen_and (t : RegType) (ret arg1 arg2 : nat) : Gen unit :=
  SYM_HELPER_BINARY SYM_and t ret arg1 arg2;; tcg_gen_op3_t (INDEX_op_and t) ret arg1 arg2.
Definition tcg_gen_or (t : RegType) (ret arg1 arg2 : nat) : Gen unit :=
  SYM_HELPER_BINARY SYM_or t ret arg1 arg2;; tcg_gen_op3_t (INDEX_op_or t) ret arg1 arg2.
Definition tcg_gen_xor (t : RegType) (ret arg1 arg2 : nat) : Gen unit :=
  SYM_HELPER_BINARY SYM_xor t ret arg1 arg2;; tcg_gen_op3_t (INDEX_op_xor t) ret arg1 arg2.
Definition tcg_gen_mul (t : RegType) (ret arg1 arg2 : nat) : Gen unit :=
  SYM_HELPER_BINARY SYM_mul t ret arg1 arg2;; tcg_gen_op3_t (INDEX_op_mul t) ret arg1 arg2.
Definition tcg_gen_shl (t : RegType) (ret arg1 arg2 : nat) : Gen unit :=
  SYM_HELPER_BINARY SYM_shift_left t ret arg1 arg2;; tcg_gen_op3_t (INDEX_op_shl t) ret arg1 arg2.
Definition tcg_gen_shr (t : RegType) (ret arg1 arg2 : nat) : Gen unit :=
  SYM_HELPER_BINARY SYM_shift_right t ret arg1 arg2;; tcg_gen_op3_t (INDEX_op_shr t) ret arg1 arg2.
Definition tcg_gen_sar (t : RegType) (ret arg1 arg2 : nat) : Gen unit :=
  SYM_HELPER_BINARY SYM_arithmetic_shift_right t ret arg1 arg2;;
  tcg_gen_op3_t (INDEX_op_sar t) ret arg1 arg2.

Definition tcg_gen_neg (t : RegType) (ret arg : nat) : Gen unit :=
  er ← temp_expr ret; ea ← temp_expr arg;
  tcg_gen_callN HELPER_sym_neg (Some er) [ea];; tcg_gen_op2_t (INDEX_op_neg t) ret arg.

Definition tcg_gen_addi (t : RegType) (ret arg1 : nat) (arg2 : Z) : Gen unit :=
  if arg2 =? 0 then tcg_gen_mov t ret arg1
  else c ← tcg_constant t arg2; tcg_gen_add t ret arg1 c.
Definition tcg_gen_subfi (t : RegType) (ret : nat) (arg1 : Z) (arg2 : nat) : Gen unit :=
  if arg1 =? 0 then tcg_gen_neg t ret arg2
  else c ← tcg_constant t arg1; tcg_gen_sub t ret c arg2.
Definition tcg_gen_subi (t : RegType) (ret arg1 : nat) (arg2 : Z) : Gen unit :=
  tcg_gen_addi t ret arg1 (- arg2).

(** *** Extensions

    [gen_ext] is the branch of an extension that the target implements. *)
Definition gen_ext (sym_helper : Helper) (len : Z) (opc : TCGOpcode) (ret arg : nat) : Gen unit :=
  er ← temp_expr ret; ea ← temp_expr arg; c ← tcg_constant_i64 len;
  tcg_gen_callN sym_helper (Some er) [ea; c];;
  tcg_gen_op2_t opc ret arg.

(** [tcg_gen_andi] uses a zero extension only where the target has it, and
    the zero extensions use [tcg_gen_andi] only where it has not. *)
Definition tcg_gen_andi (t : RegType) (ret arg1 : nat) (arg2 : Z) : Gen unit :=
  let default := c ← tcg_constant t arg2; tcg_gen_and t ret arg1 c in
  if arg2 =? 0 then tcg_gen_movi t ret 0
  else if arg2 =? -1 then tcg_gen_mov t ret arg1
  else if arg2 =? 0xff then
    if TCG_TARGET_HAS_ext8u TT t then gen_ext HELPER_sym_zext 1 (INDEX_op_ext8u t) ret arg1
    else default
  else if arg2 =? 0xffff then
    if TCG_TARGET_HAS_ext16u TT t then gen_ext HELPER_sym_zext 2 (INDEX_op_ext16u t) ret arg1
    else default
  else
    match t with
    | I64 =>
        if arg2 =? 0xffffffff then
          if TCG_TARGET_HAS_ext32u_i64 TT then gen_ext HELPER_sym_zext 4 INDEX_op_ext32u_i64 ret arg1
          else default
        else default
    | I32 => default
    end.

Definition tcg_gen_ori (t : RegType) (ret arg1 : nat) (arg2 : Z) : Gen unit :=
  if arg2 =? -1 then tcg_gen_movi t ret (-1)
  else if arg2 =? 0 then tcg_gen_mov t ret arg1
  else c ← tcg_constant t arg2; tcg_gen_or t ret arg1 c.

Definition gen_not (t : RegType) (ret arg : nat) : Gen unit :=
  er ← temp_expr ret; ea ← temp_expr arg;
  tcg_gen_callN HELPER_sym_not (Some er) [ea];; tcg_gen_op2_t (INDEX_op_not t) ret arg.
Definition tcg_gen_xori (t : RegType) (ret arg1 : nat) (arg2 : Z) : Gen unit :=
  if arg2 =? 0 then tcg_gen_mov t ret arg1
  else if (arg2 =? -1) && TCG_TARGET_HAS_not TT t then gen_not t ret arg1
  else c ← tcg_constant t arg2; tcg_gen_xor t ret arg1 c.
Definition tcg_gen_not (t : RegType) (ret arg : nat) : Gen unit :=
  if TCG_TARGET_HAS_not TT t then gen_not t ret arg else tcg_gen_xori t ret arg (-1).

Definition tcg_gen_shli (t : RegType) (ret arg1 : nat) (arg2 : Z) : Gen unit :=
  tcg_debug_assert ((0 <=? arg2) && (arg2 <? ty_width t));;
  if arg2 =? 0 then tcg_gen_mov t ret arg1
  else c ← tcg_constant t arg2; tcg_gen_shl t ret arg1 c.
Definition tcg_gen_shri (t : RegType) (ret arg1 : nat) (arg2 : Z) : Gen unit :=
  tcg_debug_assert ((0 <=? arg2) && (arg2 <? ty_width t));;
  if arg2 =? 0 then tcg_gen_mov t ret arg1
  else c ← tcg_constant t arg2; tcg_gen_shr t ret arg1 c.
Definition tcg_gen_sari (t : RegType) (ret arg1 : nat) (arg2 : Z) : Gen unit :=
  tcg_debug_assert ((0 <=? arg2) && (arg2 <? ty_width t));;
  if arg2 =? 0 then tcg_gen_mov t ret arg1
  else c ← tcg_constant t arg2; tcg_gen_sar t ret arg1 c.

Definition tcg_gen_muli (t : RegType) (ret arg1 : nat) (arg2 : Z) : Gen unit :=
  if arg2 =? 0 then tcg_gen_movi t ret 0
  else if is_power_of_2 (wrap 64 arg2) then
    tcg_gen_shli t ret arg1
      (match t with I32 => ctz32 (wrap 32 arg2) | I64 => ctz64 (wrap 64 arg2) end)
  else c ← tcg_constant t arg2; tcg_gen_mul t ret arg1 c.

Definition tcg_gen_ext8s (t : RegType) (ret arg : nat) : Gen unit :=
  if TCG_TARGET_HAS_ext8s TT t then gen_ext HELPER_sym_sext 1 (INDEX_op_ext8s t) ret arg
  else tcg_gen_shli t ret arg (ty_width t - 8);; tcg_gen_sari t ret ret (ty_width t - 8).
Definition tcg_gen_ext16s (t : RegType) (ret arg : nat) : Gen unit :=
  if TCG_TARGET_HAS_ext16s TT t then gen_ext HELPER_sym_sext 2 (INDEX_op_ext16s t) ret arg
  else tcg_gen_shli t ret arg (ty_width t - 16);; tcg_gen_sari t ret ret (ty_width t - 16).
Definition tcg_gen_ext32s_i64 (ret arg : nat) : Gen unit :=
  if TCG_TARGET_HAS_ext32s_i64 TT then gen_ext HELPER_sym_sext 4 INDEX_op_ext32s_i64 ret arg
  else tcg_gen_shli I64 ret arg 32;; tcg_gen_sari I64 ret ret 32.
Definition tcg_gen_ext8u (t : RegType) (ret arg : nat) : Gen unit :=
  if TCG_TARGET_HAS_ext8u TT t then gen_ext HELPER_sym_zext 1 (INDEX_op_ext8u t) ret arg
  else tcg_gen_andi t ret arg 0xff.
Definition tcg_gen_ext16u (t : RegType) (ret arg : nat) : Gen unit :=
  if TCG_TARGET_HAS_ext16u TT t then gen_ext HELPER_sym_zext 2 (INDEX_op_ext16u t) ret arg
  else tcg_gen_andi t ret arg 0xffff.
Definition tcg_gen_ext32u_i64 (ret arg : nat) : Gen unit :=
  if TCG_TARGET_HAS_ext32u_i64 TT then gen_ext HELPER_sym_zext 4 INDEX_op_ext32u_i64 ret arg
  else tcg_gen_andi I64 ret arg 0xffffffff.

(** *** Comparisons *)

Definition tcg_gen_setcond (t : RegType) (cond : TCGCond) (ret arg1 arg2 : nat) : Gen unit :=
  match cond with
  | TCG_COND_ALWAYS => tcg_gen_movi t ret 1
  | TCG_COND_NEVER => tcg_gen_movi t ret 0
  | _ =>
      tcg_gen_op4i_t (INDEX_op_setcond t) ret arg1 arg2 (cond_code cond);;
      er ← temp_expr ret; e1 ← temp_expr arg1; e2 ← temp_expr arg2;
      c ← tcg_constant_i32 (cond_code cond);
      tcg_gen_callN (HELPER_sym_setcond t) (Some er) [tcg_env; arg1; e1; arg2; e2; c; ret]
  end.
Definition tcg_gen_setcondi (t : RegType) (cond : TCGCond) (ret arg1 : nat) (arg2 : Z) : Gen unit :=
  c ← tcg_constant t arg2; tcg_gen_setcond t cond ret arg1 c.

Definition tcg_gen_negsetcond (t : RegType) (cond : TCGCond) (ret arg1 arg2 : nat) : Gen unit :=
  match cond with
  | TCG_COND_ALWAYS => tcg_gen_movi t ret (-1)
  | TCG_COND_NEVER => tcg_gen_movi t ret 0
  | _ =>
      if TCG_TARGET_HAS_negsetcond TT t then
        tcg_gen_op4i_t (INDEX_op_negsetcond t) ret arg1 arg2 (cond_code cond)
      else tcg_gen_setcond t cond ret arg1 arg2;; tcg_gen_neg t ret ret
  end.
Definition tcg_gen_negsetcondi (t : RegType) (cond : TCGCond) (ret arg1 : nat) (arg2 : Z) : Gen unit :=
  c ← tcg_constant t arg2; tcg_gen_negsetcond t cond ret arg1 c.

Definition tcg_gen_br (l : nat) : Gen unit := tcg_emit_op (OpBr l).
Definition gen_set_label (l : nat) : Gen unit := tcg_emit_op (OpSetLabel l).

Definition tcg_gen_brcond (t : RegType) (cond : TCGCond) (arg1 arg2 l : nat) : Gen unit :=
  match cond with
  | TCG_COND_ALWAYS => tcg_gen_br l
  | TCG_COND_NEVER => mret tt
  | _ =>
      cond_result_temp ← tcg_temp_new t;
      tcg_gen_setcond t cond cond_result_temp arg1 arg2;;
      tcg_temp_free_internal cond_result_temp;;
      tcg_emit_op (OpBrcond t arg1 arg2 cond l)
  end.
Definition tcg_gen_brcondi (t : RegType) (cond : TCGCond) (arg1 : nat) (arg2 : Z) (l : nat) : Gen unit :=
  match t, cond with
  | I32, TCG_COND_ALWAYS => tcg_gen_br l
  | I32, TCG_COND_NEVER => mret tt
  | _, _ => c ← tcg_constant t arg2; tcg_gen_brcond t cond arg1 c l
  end.
End Generators.
