(* ===== verification/GenCoreSpec.v ===== *)
(** What the generators of [GenCore] promise.

    For each generator, a rule of the logic: from variables that hold
    concrete values [c] and, under the inputs considered, [x], the emitted code
    leaves the documented function of the [c]s in the result, with an
    expression for the same function of the [x]s. *)
From S2P Require Import Prelude Cond Bitops Backend SymHelpers SymMemory Ops Temps Exec Logic Calls Vars GenCore.

Section Spec.
Context `{SL : ShadowLaws} {BL : BackendLaws B BS}.
Context (i : Input) (TT : Target) (tcg_env : nat).
Implicit Types (t ty : RegType).

Abbreviation wpv := (wpv i).

(** ** Calls *)

(** Values and expressions are different temporaries. *)
Lemma wpv_apart {A} (m : Gen A) ρ g Q (t u : nat) v v' :
  ρ !! t = Some v → ρ !! u = Some v' → (t ≠ S u → wpv m ρ g Q) → wpv m ρ g Q.
Proof. intros Ht Hu Hm σ Hc. apply Hm; [|done]. by eapply covers_ne. Qed.

Lemma wpv_callN_expr h r args ρ g Q v :
  ρ !! r = Some v → wpv (tcg_emit_op (OpCall h (Some (S r)) args)) ρ g Q →
  wpv (tcg_gen_callN h (Some (S r)) args) ρ g Q.
Proof.
  intros Hr Hm. apply wpv_bind, wpv_bind. intros σ Hc. eapply wp_get_temp; [apply (Hc _ _ Hr)|].
  intros ts Hs _. exists ρ. split; [done|]. rewrite Hs. by apply wpv_ret.
Qed.

Lemma wpv_callN_num h r os l ρ g (Q : unit → vars → ghost → Prop) k ty v0 e0 n :
  (∀ p, call_ok i h l ty (Num n) p p) →
  (∀ ρ', ρ ⊆ ρ' → vargs_in (<[r := Var k ty v0 (Exp (ty_width ty) n n)]> ρ') os l) →
  ρ !! r = Some (Var k ty v0 e0) → writable k = true →
  Q tt (<[r := full k ty n n]> ρ) g →
  wpv (tcg_gen_callN h (Some r) (map operand_temp os)) ρ g Q.
Proof.
  intros Hh Hin Hr Hk HQ. apply wpv_post, wpv_bind, wpv_bind. intros σ Hc.
  eapply wp_get_temp; [apply (Hc _ _ Hr)|].
  intros ts Hs _. exists ρ. split; [done|]. rewrite Hs. clear σ Hc. apply wpv_bind.
  eapply wpv_temp_expr; [done|]. apply wpv_bind. apply (wpv_constant i I64 0). intros z ρ' Hsub Hz.
  assert (Hr' : ρ' !! r = Some (Var k ty v0 e0)) by lk.
  eapply wpv_apart; [exact Hz|exact Hr'|]. intros Hne. unfold tcg_gen_mov_concrete, tcg_gen_mov_internal.
  rewrite (proj2 (Nat.eqb_neq _ _)) by done. apply wpv_bind, wpv_ret.
  eapply (wpv_mov_null i (ty_width ty) n); [done..|]. eapply wpv_call_num; [done|by apply Hin|lk|done|].
  vdone HQ.
Qed.

(** ** Moves *)

Lemma wpv_mov t ret arg ρ g (Q : unit → vars → ghost → Prop) k v0 e0 k' c x :
  ρ !! ret = Some (Var k t v0 e0) → writable k = true → ρ !! arg = Some (full k' t c x) →
  Q tt (<[ret := full k t c x]> ρ) g → wpv (tcg_gen_mov t ret arg) ρ g Q.
Proof.
  intros Hr Hk Ha HQ. unfold tcg_gen_mov, tcg_gen_mov_internal.
  destruct (Nat.eqb_spec ret arg) as [->|Hne].
  - apply wpv_ret. rewrite Ha in Hr. injection Hr as -> <- <-. by rewrite insert_id in HQ.
  - apply wpv_bind, wpv_bind. eapply wpv_temp_expr; [done|]. apply wpv_bind.
    eapply wpv_temp_expr; [done|]. eapply wpv_mov_expr; [done..|]. eapply wpv_mov_num; [lk|done|lk|].
    by rewrite insert_insert_eq.
Qed.

Lemma wpv_movi t ret n ρ g (Q : unit → vars → ghost → Prop) k v0 e0 :
  ρ !! ret = Some (Var k t v0 e0) → writable k = true →
  Q tt (<[ret := full k t (wrap (ty_width t) n) (wrap (ty_width t) n)]> ρ) g →
  wpv (tcg_gen_movi t ret n) ρ g Q.
Proof.
  intros Hr Hk HQ. apply wpv_post. destruct t; cbn.
  - apply wpv_bind. eapply wpv_temp_expr; [done|]. apply wpv_bind, wpv_constant. intros z ρ1 H1 Hz.
    apply wpv_bind. eapply (wpv_mov_null i 32 (wrap 32 n)); [lk|done|exact Hz|].
    apply wpv_bind, wpv_constant. intros c ρ2 H2 Hc.
    eapply (wpv_mov_num i I32); [lk|done|exact Hc|]. vdone HQ.
  - apply wpv_bind, wpv_constant. intros c ρ1 H1 Hc. eapply wpv_mov; [lk|done|exact Hc|]. vdone HQ.
Qed.

(** ** Specifications

    A result, [dst]: a variable that can be written.  An operand, [src]: a
    variable with a concrete value and one under the inputs considered. *)
Definition dst (ρ : vars) (r : nat) (t : RegType) (k : TCGTempKind) : Prop :=
  (∃ v e, ρ !! r = Some (Var k t v e)) ∧ writable k = true.
Definition src (ρ : vars) (a : nat) (t : RegType) (c x : Z) : Prop :=
  (∃ k, ρ !! a = Some (full k t c x)) ∧ in_range (ty_width t) c ∧ in_range (ty_width t) x.

(** A generator of a function of one or two operands, [pre] being what it
    needs of their values in the two runs. *)
Definition unary_spec (m : nat → nat → Gen unit) (t : RegType) (pre : Z → Z → Prop) (f : Z → Z)
    : Prop :=
  ∀ ret a ρ g (Q : unit → vars → ghost → Prop) k c x,
    dst ρ ret t k → src ρ a t c x → pre c x →
    Q tt (<[ret := full k t (f c) (f x)]> ρ) g → wpv (m ret a) ρ g Q.
Definition binary_spec (m : nat → nat → nat → Gen unit) (t : RegType)
    (pre : Z → Z → Z → Z → Prop) (f : Z → Z → Z) : Prop :=
  ∀ ret a1 a2 ρ g (Q : unit → vars → ghost → Prop) k c1 x1 c2 x2,
    dst ρ ret t k → src ρ a1 t c1 x1 → src ρ a2 t c2 x2 → pre c1 x1 c2 x2 →
    Q tt (<[ret := full k t (f c1 c2) (f x1 x2)]> ρ) g → wpv (m ret a1 a2) ρ g Q.
Definition any1 (c x : Z) : Prop := True.
Definition any2 (c1 x1 c2 x2 : Z) : Prop := True.


Lemma src_value ρ a t c x : src ρ a t c x → ∃ k e, ρ !! a = Some (Var k t (Num c) e).
Proof. intros ((k & H) & _). by exists k, (Exp (ty_width t) c x). Qed.
Lemma src_expr ρ a t c x : src ρ a t c x → ∃ k (ty : VarType) v, ρ !! a = Some (Var k ty v (Exp (ty_width t) c x)).
Proof. intros ((k & H) & _). by exists k, (Reg t), (Num c). Qed.
Lemma src_some ρ a t c x : src ρ a t c x → ∃ v, ρ !! a = Some v.
Proof. intros ((k & H) & _). by eexists. Qed.
#[local] Hint Resolve src_value src_expr src_some : core.

(** The expression of a variable whose description is at hand. *)
Ltac gexpr :=
  apply wpv_bind;
  match goal with
  | H : src ?ρ ?a _ _ _ |- Vars.wpv _ (temp_expr ?a) ?ρ _ _ =>
      let v := fresh in let E := fresh in
      destruct (src_some _ _ _ _ _ H) as [v E]; eapply wpv_temp_expr; [exact E|]; clear v E
  | _ => eapply wpv_temp_expr; [lk|]
  end.

(** The two halves of an update: the helper for the expression, then the
    operation. *)
Lemma wpv_half h opc r os l ins imms ρ g (Q : unit → vars → ghost → Prop) k t v e tis cs n x :
  (∀ p, call_ok i h l I64 (Exp (ty_width t) n x) p p) → vargs_in ρ os l →
  ρ !! r = Some (Var k t v e) → writable k = true →
  is_mov opc = false → op_def opc = ([t], tis, length imms) →
  vreads ρ ins tis cs → op_val opc cs imms = Some [n] →
  Q tt (<[r := full k t n x]> ρ) g →
  wpv (tcg_gen_callN h (Some (S r)) (map operand_temp os)) ρ g (λ _ ρ' g',
    wpv (tcg_emit_op (Op opc (map temp_arg [r] ++ map temp_arg ins ++ map const_arg imms))) ρ' g' Q).
Proof.
  intros Hh Hos Hr Hk Hmov Hdef Hin Hop HQ. eapply wpv_callN_expr; [done|].
  eapply wpv_call_expr; [done..|].
  eapply wpv_op; [done..|lk|done|by eapply vreads_set_expr|done|]. by rewrite insert_insert_eq.
Qed.

Lemma sym_binary b opc t (pre : Z → Z → Z → Z → Prop) :
  let w := ty_width t in
  is_mov opc = false → op_def opc = ([t], [t; t], 0%nat) →
  (∀ c1 x1 c2 x2, in_range w c1 → in_range w x1 → in_range w c2 → in_range w x2 → pre c1 x1 c2 x2 →
     op_val opc [c1; c2] [] = Some [binary_meaning b w c1 c2] ∧ binary_domain b w x2) →
  binary_spec (λ ret a1 a2, SYM_HELPER_BINARY b t ret a1 a2;; tcg_gen_op3_t opc ret a1 a2) t pre
    (binary_meaning b w).
Proof.
  intros w Hmov Hdef Hop ret a1 a2 ρ g Q k c1 x1 c2 x2 [(v & e & Hr) Hk] S1 S2 Hp HQ.
  destruct (Hop c1 x1 c2 x2) as [Ho Hd]; [apply S1|apply S1|apply S2|apply S2|done|].
  apply wpv_bind. gexpr. gexpr. gexpr.
  eapply (wpv_half _ opc ret [V a1; E a1; V a2; E a2] _ [a1; a2] []); try done.
  - intros p. by apply (call_sym_binary i b t c1 x1 c2 x2).
  - cbn. eauto 10.
  - cbn. eauto 10.
Qed.

(** A shift amount that the operation defines. *)
Definition small2 (t : RegType) (c1 x1 c2 x2 : Z) : Prop := c2 < ty_width t.

Lemma spec_add t : binary_spec (tcg_gen_add t) t any2 (bv_add (ty_width t)).
Proof. by apply (sym_binary SYM_add). Qed.
Lemma spec_sub t : binary_spec (tcg_gen_sub t) t any2 (bv_sub (ty_width t)).
Proof. by apply (sym_binary SYM_sub). Qed.
Lemma spec_mul t : binary_spec (tcg_gen_mul t) t any2 (bv_mul (ty_width t)).
Proof. by apply (sym_binary SYM_mul). Qed.
Lemma spec_and t : binary_spec (tcg_gen_and t) t any2 Z.land.
Proof. by apply (sym_binary SYM_and). Qed.
Lemma spec_or t : binary_spec (tcg_gen_or t) t any2 Z.lor.
Proof. by apply (sym_binary SYM_or). Qed.
Lemma spec_xor t : binary_spec (tcg_gen_xor t) t any2 Z.lxor.
Proof. by apply (sym_binary SYM_xor). Qed.

Lemma guard_lt w c r : c < w → guard_ (c <? w) r = Some r.
Proof. intros. unfold guard_. by rewrite (proj2 (Z.ltb_lt c w)). Qed.

Lemma spec_shl t : binary_spec (tcg_gen_shl t) t (small2 t) (bv_shl (ty_width t)).
Proof. apply (sym_binary SYM_shift_left); try done. intros. split; [|done]. by apply guard_lt. Qed.
Lemma spec_shr t : binary_spec (tcg_gen_shr t) t (small2 t) (bv_lshr (ty_width t)).
Proof. apply (sym_binary SYM_shift_right); try done. intros. split; [|done]. by apply guard_lt. Qed.
Lemma spec_sar t : binary_spec (tcg_gen_sar t) t (small2 t) (bv_ashr (ty_width t)).
Proof.
  apply (sym_binary SYM_arithmetic_shift_right); try done. intros. split; [|done]. by apply guard_lt.
Qed.

Lemma sym_unary h opc t f :
  is_mov opc = false → op_def opc = ([t], [t], 0%nat) →
  (∀ c x p, call_ok i h [AExp (ty_width t) c x] I64 (Exp (ty_width t) (f c) (f x)) p p) →
  (∀ c, op_val opc [c] [] = Some [f c]) →
  unary_spec (λ ret arg, er ← temp_expr ret; ea ← temp_expr arg;
    tcg_gen_callN h (Some er) [ea];; tcg_gen_op2_t opc ret arg) t any1 f.
Proof.
  intros Hmov Hdef Hh Hop ret a ρ g Q k c x [(v & e & Hr) Hk] S1 _ HQ. gexpr. gexpr. apply wpv_bind.
  eapply (wpv_half _ opc ret [E a] _ [a] []); try done; cbn; eauto 10.
Qed.

Lemma spec_neg t : unary_spec (tcg_gen_neg t) t any1 (bv_neg (ty_width t)).
Proof. apply sym_unary; try done. apply call_sym_neg. Qed.
Lemma spec_gen_not t : unary_spec (gen_not t) t any1 (bv_not (ty_width t)).
Proof. apply sym_unary; try done. apply call_sym_not. Qed.

(** Operands and results in a larger assertion. *)
Lemma dst_weaken ρ ρ' r t k : ρ ⊆ ρ' → dst ρ r t k → dst ρ' r t k.
Proof. intros Hs [(v & e & H) Hk]. split; [|done]. exists v, e. by eapply lookup_weaken. Qed.
Lemma src_weaken ρ ρ' a t c x : ρ ⊆ ρ' → src ρ a t c x → src ρ' a t c x.
Proof. intros Hs [(k & H) HR]. split; [|done]. exists k. by eapply lookup_weaken. Qed.
Lemma src_const ρ a t n : ρ !! a = Some (const_var t n) → src ρ a t (wrap (ty_width t) n) (wrap (ty_width t) n).
Proof. intros H. split; [by eexists|]. split; apply read_range. Qed.
#[local] Hint Resolve dst_weaken src_weaken src_const : core.

(** Generators with a constant operand. *)
Lemma imm_right m t pre f n :
  binary_spec m t pre f →
  unary_spec (λ ret a, c ← tcg_constant t n; m ret a c) t
    (λ c x, pre c x (wrap (ty_width t) n) (wrap (ty_width t) n)) (λ a, f a (wrap (ty_width t) n)).
Proof.
  intros Hm ret a ρ g Q k c x Hr Ha Hp HQ. apply wpv_post, wpv_bind, wpv_constant. intros z ρ' Hs Hz.
  eapply Hm; [eauto..|]. eexists. split; [|exact HQ]. by apply insert_mono.
Qed.
Lemma imm_left m t pre f n :
  binary_spec m t pre f →
  unary_spec (λ ret a, c ← tcg_constant t n; m ret c a) t
    (λ c x, pre (wrap (ty_width t) n) (wrap (ty_width t) n) c x) (λ a, f (wrap (ty_width t) n) a).
Proof.
  intros Hm ret a ρ g Q k c x Hr Ha Hp HQ. apply wpv_post, wpv_bind, wpv_constant. intros z ρ' Hs Hz.
  eapply Hm; [eauto..|]. eexists. split; [|exact HQ]. by apply insert_mono.
Qed.

Lemma spec_mov t : unary_spec (tcg_gen_mov t) t any1 (λ c, c).
Proof. intros ret a ρ g Q k c x [(v & e & Hr) Hk] [(k' & Ha) _] _ HQ. by eapply wpv_mov. Qed.
Lemma spec_movi t n : unary_spec (λ ret _, tcg_gen_movi t ret n) t any1 (λ _, wrap (ty_width t) n).
Proof. intros ret a ρ g Q k c x [(v & e & Hr) Hk] _ _ HQ. by eapply wpv_movi. Qed.

(** From one specification to another of the same function. *)
Lemma unary_case m t pre (pre' : Z → Z → Prop) f f' :
  unary_spec m t pre f → (∀ c x, pre' c x → pre c x) →
  (∀ x, in_range (ty_width t) x → f x = f' x) → unary_spec m t pre' f'.
Proof.
  intros Hm Hp Hf ret a ρ g Q k c x Hr Ha Hp' HQ. eapply Hm; [done..|by apply Hp|].
  destruct Ha as (_ & ? & ?). by rewrite !Hf.
Qed.

(** *** Immediate operands *)

Lemma spec_addi t n :
  unary_spec (λ r a, tcg_gen_addi t r a n) t any1 (λ c, bv_add (ty_width t) c (wrap (ty_width t) n)).
Proof.
  pose proof (ty_width_pos t). unfold tcg_gen_addi. destruct (Z.eqb_spec n 0) as [->|].
  - eapply unary_case; [apply spec_mov|done|]. intros x Hx. unfold bv_add.
    by rewrite wrap_0, Z.add_0_r, wrap_small.
  - eapply unary_case; [apply imm_right, spec_add|done|done].
Qed.
Lemma spec_subfi t n :
  unary_spec (λ r a, tcg_gen_subfi t r n a) t any1 (λ c, bv_sub (ty_width t) (wrap (ty_width t) n) c).
Proof.
  unfold tcg_gen_subfi. destruct (Z.eqb_spec n 0) as [->|].
  - eapply unary_case; [apply spec_neg|done|]. intros x Hx. unfold bv_sub, bv_neg. by rewrite wrap_0.
  - eapply unary_case; [apply imm_left, spec_sub|done|done].
Qed.
Lemma spec_subi t n :
  unary_spec (λ r a, tcg_gen_subi t r a n) t any1 (λ c, bv_sub (ty_width t) c (wrap (ty_width t) n)).
Proof.
  pose proof (ty_width_pos t). eapply unary_case; [apply spec_addi|done|]. intros x Hx.
  unfold bv_add, bv_sub. rewrite wrap_add_r, wrap_sub_r by lia. done.
Qed.

Lemma spec_ori t n :
  unary_spec (λ r a, tcg_gen_ori t r a n) t any1 (λ c, Z.lor c (wrap (ty_width t) n)).
Proof.
  pose proof (ty_width_pos t). unfold tcg_gen_ori.
  destruct (Z.eqb_spec n (-1)) as [->|]; [|destruct (Z.eqb_spec n 0) as [->|]].
  - eapply unary_case; [apply spec_movi|done|]. intros x Hx. rewrite wrap_neg1 by lia. zbits.
  - eapply unary_case; [apply spec_mov|done|]. intros x Hx. by rewrite wrap_0, Z.lor_0_r.
  - eapply unary_case; [apply imm_right, spec_or|done|done].
Qed.

Lemma xor_ones w x : 0 < w → in_range w x → Z.lxor x (wrap w (-1)) = bv_not w x.
Proof. intros. unfold bv_not. rewrite wrap_neg1 by lia. zbits. Qed.

Lemma spec_xori t n :
  unary_spec (λ r a, tcg_gen_xori TT t r a n) t any1 (λ c, Z.lxor c (wrap (ty_width t) n)).
Proof.
  pose proof (ty_width_pos t). unfold tcg_gen_xori.
  destruct (Z.eqb_spec n 0) as [->|]; [|destruct (Z.eqb_spec n (-1)) as [->|]; cbn [andb];
    [destruct (TCG_TARGET_HAS_not TT t)|]].
  - eapply unary_case; [apply spec_mov|done|]. intros x Hx. by rewrite wrap_0, Z.lxor_0_r.
  - eapply unary_case; [apply spec_gen_not|done|]. intros x Hx. symmetry. apply xor_ones; [lia|done].
  - eapply unary_case; [apply imm_right, spec_xor|done|done].
  - eapply unary_case; [apply imm_right, spec_xor|done|done].
Qed.

Lemma spec_not t : unary_spec (tcg_gen_not TT t) t any1 (bv_not (ty_width t)).
Proof.
  pose proof (ty_width_pos t). unfold tcg_gen_not.
  destruct (TCG_TARGET_HAS_not TT t); [apply spec_gen_not|].
  eapply unary_case; [apply spec_xori|done|]. intros x Hx. apply xor_ones; [lia|done].
Qed.

(** A constant shift by an amount that passes the assertion. *)
Lemma shift_imm m t f n :
  0 ≤ n < ty_width t → binary_spec m t (small2 t) f → (∀ x, in_range (ty_width t) x → f x 0 = x) →
  unary_spec (λ r a, tcg_debug_assert ((0 <=? n) && (n <? ty_width t));;
    if n =? 0 then tcg_gen_mov t r a else c ← tcg_constant t n; m r a c) t any1 (λ c, f c n).
Proof.
  intros Hn Hm Hf ret a ρ g Q k c x Hr Ha _ HQ. apply wpv_bind, wpv_assert; [lia|].
  assert (E : wrap (ty_width t) n = n) by (apply wrap_small, count_fits; lia).
  assert (Hs : unary_spec (λ r a, if n =? 0 then tcg_gen_mov t r a else c ← tcg_constant t n; m r a c)
    t any1 (λ c, f c n)).
  { destruct (Z.eqb_spec n 0) as [->|].
    - eapply unary_case; [apply spec_mov|done|]. intros y Hy. by rewrite Hf.
    - eapply unary_case; [by apply imm_right|unfold small2; rewrite E; lia|by rewrite E]. }
  by eapply Hs.
Qed.

Lemma spec_shli t n : 0 ≤ n < ty_width t →
  unary_spec (λ r a, tcg_gen_shli t r a n) t any1 (λ c, bv_shl (ty_width t) c n).
Proof.
  intros Hn. apply shift_imm; [done|apply spec_shl|]. intros x Hx. unfold bv_shl.
  by rewrite Z.shiftl_0_r, wrap_small.
Qed.
Lemma spec_shri t n : 0 ≤ n < ty_width t →
  unary_spec (λ r a, tcg_gen_shri t r a n) t any1 (λ c, bv_lshr (ty_width t) c n).
Proof. intros Hn. apply shift_imm; [done|apply spec_shr|]. intros x Hx. apply Z.shiftr_0_r. Qed.
Lemma spec_sari t n : 0 ≤ n < ty_width t →
  unary_spec (λ r a, tcg_gen_sari t r a n) t any1 (λ c, bv_ashr (ty_width t) c n).
Proof.
  intros Hn. apply shift_imm; [done|apply spec_sar|]. intros x Hx. unfold bv_ashr.
  pose proof (ty_width_pos t). by rewrite Z.shiftr_0_r, wrap_sgn, wrap_small by (done || lia).
Qed.

(** One after the other, on the same result. *)
Lemma spec_then m1 m2 t f1 f2 :
  unary_spec m1 t any1 f1 → unary_spec m2 t any1 f2 →
  (∀ x, in_range (ty_width t) x → in_range (ty_width t) (f1 x)) →
  unary_spec (λ r a, m1 r a;; m2 r r) t any1 (λ c, f2 (f1 c)).
Proof.
  intros H1 H2 Hf ret a ρ g Q k c x Hr Ha _ HQ. apply wpv_bind. eapply H1; [done..|].
  pose proof Hr as [_ Hk]. destruct Ha as (_ & ? & ?).
  eapply H2; [split; [do 2 eexists; lk|done]|split; [eexists; lk|auto]|done|].
  by rewrite insert_insert_eq.
Qed.

(** *** Extensions *)

Lemma sym_const h n opc t f :
  is_mov opc = false → op_def opc = ([t], [t], 0%nat) → in_range 64 n →
  (∀ c x p, call_ok i h [AExp (ty_width t) c x; ANum I64 n] I64 (Exp (ty_width t) (f c) (f x)) p p) →
  (∀ c, op_val opc [c] [] = Some [f c]) →
  unary_spec (gen_ext h n opc) t any1 f.
Proof.
  intros Hmov Hdef Hn Hh Hop ret a ρ g Q k c x [(v & e & Hr) Hk] S1 _ HQ. apply wpv_post. gexpr. gexpr.
  apply wpv_bind, wpv_constant. intros z ρ' Hs Hz. apply wpv_bind.
  apply (src_weaken _ _ _ _ _ _ Hs) in S1.
  eapply (wpv_half _ opc ret [E a; V z] _ [a] []); try done; cbn; eauto 10.
  - split; [eauto|]. split; [|done]. eexists _, _. rewrite Hz. unfold const_var, full. cbn.
    by rewrite (wrap_small 64 n).
  - lk.
  - eexists. split; [|exact HQ]. by apply insert_mono.
Qed.

Lemma spec_gen_sext t len opc :
  0 < len ≤ 8 → 8 * len ≤ ty_width t → is_mov opc = false → op_def opc = ([t], [t], 0%nat) →
  (∀ c, op_val opc [c] [] = Some [wrap (ty_width t) (sgn (8 * len) c)]) →
  unary_spec (gen_ext HELPER_sym_sext len opc) t any1 (λ c, wrap (ty_width t) (sgn (8 * len) c)).
Proof.
  intros. apply sym_const; try done; [unfold in_range; lia|]. intros.
  apply call_sym_sext; [apply ty_reg_width|lia|lia].
Qed.
Lemma spec_gen_zext t len opc :
  0 < len < 8 → 8 * len ≤ ty_width t → is_mov opc = false → op_def opc = ([t], [t], 0%nat) →
  (∀ c, op_val opc [c] [] = Some [wrap (8 * len) c]) →
  unary_spec (gen_ext HELPER_sym_zext len opc) t any1 (λ c, wrap (8 * len) c).
Proof.
  intros. apply sym_const; try done; [unfold in_range; lia|]. intros.
  apply call_sym_zext; [apply ty_reg_width|lia|lia].
Qed.

Lemma ty_width_16 t : 16 < ty_width t.
Proof. destruct t; cbn; lia. Qed.

Lemma spec_andi t n :
  unary_spec (λ r a, tcg_gen_andi TT t r a n) t any1 (λ c, Z.land c (wrap (ty_width t) n)).
Proof.
  pose proof (ty_width_pos t). pose proof (ty_width_16 t).
  assert (Hd : unary_spec (λ r a, c ← tcg_constant t n; tcg_gen_and t r a c) t any1
                (λ c, Z.land c (wrap (ty_width t) n)))
    by (eapply unary_case; [apply imm_right, spec_and|done|done]).
  unfold tcg_gen_andi.
  destruct (Z.eqb_spec n 0) as [->|]; [|destruct (Z.eqb_spec n (-1)) as [->|];
    [|destruct (Z.eqb_spec n 0xff) as [->|]; [|destruct (Z.eqb_spec n 0xffff) as [->|]]]].
  - eapply unary_case; [apply spec_movi|done|]. intros x Hx. by rewrite wrap_0, Z.land_0_r.
  - eapply unary_case; [apply spec_mov|done|]. intros x Hx. rewrite wrap_neg1 by lia. zbits.
  - destruct (TCG_TARGET_HAS_ext8u TT t); [|done].
    eapply unary_case; [by apply spec_gen_zext; [lia|cbn; lia|..]|done|]. intros x Hx.
    rewrite (wrap_small _ 0xff) by (apply (in_range_le 8); [lia|done]). change 0xff with (Z.ones 8). zbits.
  - destruct (TCG_TARGET_HAS_ext16u TT t); [|done].
    eapply unary_case; [by apply spec_gen_zext; [lia|cbn; lia|..]|done|]. intros x Hx.
    rewrite (wrap_small _ 0xffff) by (apply (in_range_le 16); [lia|done]).
    change 0xffff with (Z.ones 16). zbits.
  - destruct t; [done|]. destruct (Z.eqb_spec n 0xffffffff) as [->|]; [|done].
    destruct (TCG_TARGET_HAS_ext32u_i64 TT); [|done].
    eapply unary_case; [by apply spec_gen_zext; [lia|cbn; lia|..]|done|]. intros x Hx.
    rewrite (wrap_small _ 0xffffffff) by done. change 0xffffffff with (Z.ones 32). zbits.
Qed.

(** Sign and zero extension by a pair of shifts. *)
Lemma shl_range t x n : in_range (ty_width t) (bv_shl (ty_width t) x n).
Proof. apply read_range. Qed.
Lemma sext_shifts w len x : 0 < len ≤ w → bv_ashr w (bv_shl w x (w - len)) (w - len) = wrap w (sgn len x).
Proof. intros. unfold bv_ashr, bv_shl. zbits. Qed.
Lemma zext_shifts w len x : 0 < len ≤ w → bv_lshr w (bv_shl w x (w - len)) (w - len) = wrap len x.
Proof. intros. unfold bv_lshr, bv_shl. zbits. Qed.

Lemma spec_sext_shifts t len :
  0 < len ≤ ty_width t →
  unary_spec (λ r a, tcg_gen_shli t r a (ty_width t - len);; tcg_gen_sari t r r (ty_width t - len)) t any1
    (λ c, wrap (ty_width t) (sgn len c)).
Proof.
  intros. assert (Hn : 0 ≤ ty_width t - len < ty_width t) by lia.
  eapply unary_case; [exact (spec_then _ _ t _ _ (spec_shli t _ Hn) (spec_sari t _ Hn)
    (λ x _, shl_range t x _))|done|]. intros. by apply sext_shifts.
Qed.

Lemma spec_ext8s t : unary_spec (tcg_gen_ext8s TT t) t any1 (λ c, wrap (ty_width t) (sgn 8 c)).
Proof.
  pose proof (ty_width_16 t). unfold tcg_gen_ext8s. destruct (TCG_TARGET_HAS_ext8s TT t).
  - by apply (spec_gen_sext t 1); [lia|lia|..].
  - apply spec_sext_shifts. lia.
Qed.
Lemma spec_ext16s t : unary_spec (tcg_gen_ext16s TT t) t any1 (λ c, wrap (ty_width t) (sgn 16 c)).
Proof.
  pose proof (ty_width_16 t). unfold tcg_gen_ext16s. destruct (TCG_TARGET_HAS_ext16s TT t).
  - by apply (spec_gen_sext t 2); [lia|lia|..].
  - apply spec_sext_shifts. lia.
Qed.
Lemma spec_ext32s : unary_spec (tcg_gen_ext32s_i64 TT) I64 any1 (λ c, wrap 64 (sgn 32 c)).
Proof.
  unfold tcg_gen_ext32s_i64. destruct (TCG_TARGET_HAS_ext32s_i64 TT).
  - by apply (spec_gen_sext I64 4); [lia|cbn; lia|..].
  - by apply (spec_sext_shifts I64 32).
Qed.

Lemma land_ones_wrap w n x : 0 ≤ n ≤ w → Z.land x (wrap w (Z.ones n)) = wrap n x.
Proof. intros. zbits. Qed.

Lemma spec_ext8u t : unary_spec (tcg_gen_ext8u TT t) t any1 (wrap 8).
Proof.
  pose proof (ty_width_16 t). unfold tcg_gen_ext8u. destruct (TCG_TARGET_HAS_ext8u TT t).
  - by apply (spec_gen_zext t 1); [lia|lia|..].
  - eapply unary_case; [apply spec_andi|done|]. intros x Hx. apply (land_ones_wrap _ 8). lia.
Qed.
Lemma spec_ext16u t : unary_spec (tcg_gen_ext16u TT t) t any1 (wrap 16).
Proof.
  pose proof (ty_width_16 t). unfold tcg_gen_ext16u. destruct (TCG_TARGET_HAS_ext16u TT t).
  - by apply (spec_gen_zext t 2); [lia|lia|..].
  - eapply unary_case; [apply spec_andi|done|]. intros x Hx. apply (land_ones_wrap _ 16). lia.
Qed.
Lemma spec_ext32u : unary_spec (tcg_gen_ext32u_i64 TT) I64 any1 (wrap 32).
Proof.
  unfold tcg_gen_ext32u_i64. destruct (TCG_TARGET_HAS_ext32u_i64 TT).
  - by apply (spec_gen_zext I64 4); [lia|cbn; lia|..].
  - eapply unary_case; [apply spec_andi|done|]. intros x Hx. apply (land_ones_wrap 64 32). lia.
Qed.

(** *** Multiplication by a constant *)

Lemma mul_power w x n k : 0 ≤ k → 0 < w → wrap w n = wrap w (2 ^ k) →
  bv_shl w x k = bv_mul w x (wrap w n).
Proof.
  intros. unfold bv_shl, bv_mul. rewrite Z.shiftl_mul_pow2 by lia.
  by rewrite <- wrap_mul, H1, wrap_mul, <- (wrap_mul w x (wrap w (2 ^ k))), wrap_wrap, wrap_mul by lia.
Qed.

(** An immediate operand is a signed number of the type. *)
Definition imm (t : RegType) (n : Z) : Prop := - 2 ^ (ty_width t - 1) ≤ n < 2 ^ (ty_width t - 1).

Lemma imm_power t n :
  imm t n → is_power_of_2 (wrap 64 n) = true →
  let k := match t with I32 => ctz32 (wrap 32 n) | I64 => ctz64 (wrap 64 n) end in
  0 ≤ k < ty_width t ∧ wrap (ty_width t) n = wrap (ty_width t) (2 ^ k).
Proof.
  intros Hn Hp. destruct (is_power_of_2_ctz (wrap 64 n)) as [H0 E]; [by apply wrap_range|done|].
  destruct (ctz_bound 64 (wrap 64 n)) as [? ?]; [by apply wrap_range|done|]. destruct t; cbn in *.
  - assert (0 ≤ n).
    { destruct (Z.lt_ge_cases n 0); [exfalso|done]. unfold imm in Hn. cbn in Hn.
      assert (E' : wrap 64 n = n + 2 ^ 64) by (unfold wrap; rewrite (Zmod_unique n (2 ^ 64) (-1) (n + 2 ^ 64)); lia).
      rewrite E' in *. set (j := builtin_ctz (n + 2 ^ 64)) in *.
      assert (2 ^ j ≤ 2 ^ 63) by (apply Z.pow_le_mono_r; lia). lia. }
    unfold imm in Hn. cbn in Hn. rewrite (wrap_small 64 n) in * by (unfold in_range; lia).
    rewrite (wrap_small 32 n) by (unfold in_range; lia). unfold ctz32. rewrite (proj2 (Z.eqb_neq n 0)) by done.
    destruct (ctz_bound 32 n) as [? ?]; [unfold in_range; lia|done|]. split; [lia|].
    rewrite <- E. symmetry. apply wrap_small. unfold in_range. lia.
  - unfold ctz64. rewrite (proj2 (Z.eqb_neq _ 0)) by done. split; [lia|]. rewrite <- E.
    symmetry. by apply wrap_wrap.
Qed.

Lemma spec_muli t n : imm t n →
  unary_spec (λ r a, tcg_gen_muli t r a n) t any1 (λ c, bv_mul (ty_width t) c (wrap (ty_width t) n)).
Proof.
  intros Hn. pose proof (ty_width_pos t). unfold tcg_gen_muli.
  destruct (Z.eqb_spec n 0) as [->|]; [|destruct (is_power_of_2 (wrap 64 n)) eqn:Hp].
  - eapply unary_case; [apply spec_movi|done|]. intros x Hx. unfold bv_mul. by rewrite wrap_0, Z.mul_0_r, wrap_0.
  - destruct (imm_power t n Hn Hp) as [Hk Hw]. eapply unary_case; [by apply spec_shli|done|].
    intros x Hx. apply mul_power; [lia|lia|done].
  - eapply unary_case; [apply imm_right, spec_mul|done|done].
Qed.

(** *** Comparisons

    The path: [assume g b] when a constraint with truth value [b] was pushed. *)
Definition assume (g : ghost) (b : bool) : ghost := Ghost (gpath g && b) (gmem g) (galt g) (gguest g) (gheap g).

Lemma assume_true g : assume g true = g.
Proof. destruct g. unfold assume. cbn. by rewrite andb_true_r. Qed.

(** The operands and the register [env] survive a write to another variable. *)
Lemma src_insert ρ a t c x r v : src ρ a t c x → a ≠ r → src (<[r := v]> ρ) a t c x.
Proof. intros [(k & H) HR] Hne. split; [|done]. exists k. by rewrite lookup_insert_ne. Qed.
Lemma src_new ρ k t c x a :
  in_range (ty_width t) c → in_range (ty_width t) x → src (<[a := full k t c x]> ρ) a t c x.
Proof. intros. split; [|done]. exists k. apply lookup_insert_eq. Qed.
Lemma dst_insert ρ r t k u v : dst ρ r t k → r ≠ u → dst (<[u := v]> ρ) r t k.
Proof. intros [(v0 & e & H) Hk] Hne. split; [|done]. exists v0, e. by rewrite lookup_insert_ne. Qed.
Lemma dst_new ρ r t k v e : writable k = true → dst (<[r := Var k t v e]> ρ) r t k.
Proof. intros. split; [|done]. exists v, e. apply lookup_insert_eq. Qed.

Lemma setcond_proper t cond ret a1 a2 :
  cond_proper cond = true →
  tcg_gen_setcond tcg_env t cond ret a1 a2 =
  (tcg_gen_op4i_t (INDEX_op_setcond t) ret a1 a2 (cond_code cond);;
   er ← temp_expr ret; e1 ← temp_expr a1; e2 ← temp_expr a2;
   c ← tcg_constant_i32 (cond_code cond);
   tcg_gen_callN (HELPER_sym_setcond t) (Some er) [tcg_env; a1; e1; a2; e2; c; ret]).
Proof. by destruct cond. Qed.

Lemma setcond_value t cond a b :
  cond_proper cond = true →
  op_val (INDEX_op_setcond t) [a; b] [cond_code cond] = Some [Z.b2z (cond_holds (ty_width t) cond a b)].
Proof. intros Hc. cbn. unfold with_cond. rewrite cond_of_code_code. unfold guard_. by rewrite Hc. Qed.

Lemma cond_code_fits cond : wrap 32 (cond_code cond) = cond_code cond.
Proof. by destruct cond. Qed.

Lemma spec_setcond t cond ret a1 a2 ρ g (Q : unit → vars → ghost → Prop) k c1 x1 c2 x2 env :
  let holds := cond_holds (ty_width t) cond in
  dst ρ ret t k → src ρ a1 t c1 x1 → src ρ a2 t c2 x2 →
  ret ≠ a1 → ret ≠ a2 → ret ≠ tcg_env → ρ !! tcg_env = Some env →
  Q tt (<[ret := full k t (Z.b2z (holds c1 c2)) (Z.b2z (holds x1 x2))]> ρ)
    (assume g (Bool.eqb (holds x1 x2) (holds c1 c2))) →
  wpv (tcg_gen_setcond tcg_env t cond ret a1 a2) ρ g Q.
Proof.
  intros holds Hr S1 S2 N1 N2 Ne He HQ. pose proof Hr as [(v & e & Hr0) Hk].
  destruct (cond_proper cond) eqn:Hc; cycle 1.
  { destruct cond; try discriminate Hc; unfold holds in HQ; cbn in HQ; rewrite assume_true in HQ;
      (eapply (wpv_movi t ret); [done|done|]).
    - by rewrite wrap_0.
    - rewrite wrap_small; [done|]. apply count_fits. pose proof (ty_width_pos t). lia. }
  rewrite setcond_proper by done. apply wpv_post, wpv_bind.
  eapply (wpv_op i (INDEX_op_setcond t) ret [a1; a2] [cond_code cond]) with (cs := [c1; c2]); try done.
  { cbn. eauto 10. }
  { by apply setcond_value. }
  pose proof (src_insert ρ a1 t c1 x1 ret (Var k t (Num (Z.b2z (holds c1 c2))) e) S1 (not_eq_sym N1)) as T1.
  pose proof (src_insert ρ a2 t c2 x2 ret (Var k t (Num (Z.b2z (holds c1 c2))) e) S2 (not_eq_sym N2)) as T2.
  gexpr. gexpr. gexpr. apply wpv_bind, wpv_constant. intros z ρ2 Hs Hz.
  eapply (wpv_callN_expr _ ret [tcg_env; a1; S a1; a2; S a2; z; ret]); [lk|].
  eapply (wpv_call_traced i _ ret [V tcg_env; V a1; E a1; V a2; E a2; V z; V ret]).
  { by apply (call_sym_setcond i t cond (Z.b2z (holds c1 c2)) c1 x1 c2 x2). }
  { apply (src_weaken _ _ _ _ _ _ Hs) in T1, T2. cbn. split; [eexists; lk|]. repeat (split; [by eauto|]).
    split; [|split; [|done]].
    - eexists _, _. rewrite Hz. unfold const_var, full. cbn. by rewrite cond_code_fits.
    - eexists _, _. lk. }
  { lk. }
  { done. }
  eexists. split; [|exact HQ]. vsub.
Qed.

Lemma spec_setcondi t cond n ret a ρ g (Q : unit → vars → ghost → Prop) k c x env :
  let holds v := cond_holds (ty_width t) cond v (wrap (ty_width t) n) in
  dst ρ ret t k → src ρ a t c x → ret ≠ a → ret ≠ tcg_env → ρ !! tcg_env = Some env →
  Q tt (<[ret := full k t (Z.b2z (holds c)) (Z.b2z (holds x))]> ρ)
    (assume g (Bool.eqb (holds x) (holds c))) →
  wpv (tcg_gen_setcondi tcg_env t cond ret a n) ρ g Q.
Proof.
  intros holds Hr Ha N1 N2 He HQ. apply wpv_post, wpv_bind, wpv_constant. intros z ρ' Hs Hz.
  eapply spec_setcond; [by eapply dst_weaken|by eapply src_weaken|by apply src_const|done| |done|lk|].
  - intros ->. destruct Hr as [(v & e & Hr) Hk]. assert (ρ' !! z = Some (Var k t v e)) as Hr' by lk.
    rewrite Hz in Hr'. injection Hr' as <- _ _. done.
  - eexists. split; [|exact HQ]. by apply insert_mono.
Qed.

(** Where the target has no such operation, the condition is computed and
    negated. *)
Lemma spec_negsetcond t cond ret a1 a2 ρ g (Q : unit → vars → ghost → Prop) k c1 x1 c2 x2 env :
  let holds := cond_holds (ty_width t) cond in
  let f u v := wrap (ty_width t) (- Z.b2z (holds u v)) in
  TCG_TARGET_HAS_negsetcond TT t = false →
  dst ρ ret t k → src ρ a1 t c1 x1 → src ρ a2 t c2 x2 →
  ret ≠ a1 → ret ≠ a2 → ret ≠ tcg_env → ρ !! tcg_env = Some env →
  Q tt (<[ret := full k t (f c1 c2) (f x1 x2)]> ρ)
    (assume g (Bool.eqb (holds x1 x2) (holds c1 c2))) →
  wpv (tcg_gen_negsetcond TT tcg_env t cond ret a1 a2) ρ g Q.
Proof.
  intros holds f HT Hr S1 S2 N1 N2 Ne He HQ. pose proof Hr as [(v & e & Hr0) Hk].
  assert (Hd : wpv (tcg_gen_setcond tcg_env t cond ret a1 a2;; tcg_gen_neg t ret ret) ρ g Q).
  { apply wpv_bind. eapply spec_setcond; [done..|].
    assert (Hb : ∀ b, in_range (ty_width t) (Z.b2z b)).
    { intros b. apply count_fits. pose proof (ty_width_pos t). destruct b; cbn; lia. }
    eapply spec_neg; [by apply dst_new|by apply src_new|done|]. by rewrite insert_insert_eq. }
  unfold tcg_gen_negsetcond. rewrite HT. destruct cond; try exact Hd; unfold f, holds in HQ; cbn in HQ;
    rewrite assume_true in HQ; (eapply (wpv_movi t ret); [done|done|]); exact HQ.
Qed.

(** A conditional branch: taken by the concrete run exactly when the
    condition holds, and the constraint pushed for it is true under the
    inputs considered exactly when they lead the same way. *)
Lemma spec_brcond t cond a1 a2 l ρ g (Q : option nat → vars → ghost → Prop) c1 x1 c2 x2 env :
  let holds := cond_holds (ty_width t) cond in
  src ρ a1 t c1 x1 → src ρ a2 t c2 x2 → ρ !! tcg_env = Some env →
  Q (if holds c1 c2 then Some l else None) ρ (assume g (Bool.eqb (holds x1 x2) (holds c1 c2))) →
  wpvj i (tcg_gen_brcond tcg_env t cond a1 a2 l) ρ g Q.
Proof.
  intros holds S1 S2 He HQ. destruct (cond_proper cond) eqn:Hc; cycle 1.
  { destruct cond; try discriminate Hc; unfold holds in HQ; cbn in HQ; rewrite assume_true in HQ; cbn.
    - apply wpvj_fall. by apply wpv_ret.
    - by apply wpvj_br. }
  assert (Hm : tcg_gen_brcond tcg_env t cond a1 a2 l =
    (r ← tcg_temp_new t; tcg_gen_setcond tcg_env t cond r a1 a2;; tcg_temp_free_internal r;;
     tcg_emit_op (OpBrcond t a1 a2 cond l))) by (by destruct cond).
  rewrite Hm. clear Hm. pose proof S1 as [(k1 & H1) _]. pose proof S2 as [(k2 & H2) _].
  apply wpvj_bind, wpv_temp_new; [by right|]. intros r Hr. apply wpvj_bind.
  assert (r ≠ a1 ∧ r ≠ a2 ∧ r ≠ tcg_env) as (N1 & N2 & N3) by (repeat split; congruence).
  eapply spec_setcond; [by apply dst_new|by apply src_insert|by apply src_insert|done..|lk|].
  rewrite insert_insert_eq. apply wpvj_bind. eapply wpv_temp_keep; [lk|by left|].
  eapply wpvj_weaken; [by apply insert_subseteq|].
  by eapply wpvj_brcond.
Qed.
Lemma spec_brcondi t cond a n l ρ g (Q : option nat → vars → ghost → Prop) c x env :
  let holds v := cond_holds (ty_width t) cond v (wrap (ty_width t) n) in
  src ρ a t c x → ρ !! tcg_env = Some env →
  (∀ ρ', ρ ⊆ ρ' → Q (if holds c then Some l else None) ρ' (assume g (Bool.eqb (holds x) (holds c)))) →
  wpvj i (tcg_gen_brcondi tcg_env t cond a n l) ρ g Q.
Proof.
  intros holds Ha He HQ.
  assert (Hd : wpvj i (c ← tcg_constant t n; tcg_gen_brcond tcg_env t cond a c l) ρ g Q).
  { apply wpvj_bind, wpv_constant. intros z ρ' Hs Hz.
    eapply spec_brcond; [by eapply src_weaken|by apply src_const|lk|by apply HQ]. }
  destruct t; [|done]. destruct cond; try exact Hd; specialize (HQ ρ); unfold holds in HQ; cbn in HQ;
    rewrite assume_true in HQ; cbn.
  - apply wpvj_fall, wpv_ret. by apply HQ.
  - apply wpvj_br. by apply HQ.
Qed.
End Spec.
