(* ===== verification/GenAlu.v ===== *)
(** The generators of tcg/tcg-op.c, continued: division, logic with
    complement, bit counting, rotation, bit fields, byte swaps, changes of
    size and double-word arithmetic. *)
From S2P Require Import Prelude Cond Bitops SymHelpers Ops Temps GenCore.

Section Generators.
Context (TT : Target) (tcg_env : nat).

(** ** Division *)

Definition tcg_gen_div (t : RegType) (ret arg1 arg2 : nat) : Gen unit :=
  (if TCG_TARGET_HAS_div TT t then tcg_gen_op3_t (INDEX_op_div t) ret arg1 arg2
   else if TCG_TARGET_HAS_div2 TT t then
     t0 ← tcg_temp_ebb_new t;
     tcg_gen_sari t t0 arg1 (ty_width t - 1);;
     tcg_gen_op5_t (INDEX_op_div2 t) ret t0 arg1 t0 arg2;;
     tcg_temp_free_internal t0
   else tcg_gen_callN (HELPER_div t) (Some ret) [arg1; arg2]);;
  SYM_HELPER_BINARY SYM_div t ret arg1 arg2.

Definition tcg_gen_rem (t : RegType) (ret arg1 arg2 : nat) : Gen unit :=
  (if TCG_TARGET_HAS_rem TT t then tcg_gen_op3_t (INDEX_op_rem t) ret arg1 arg2
   else if TCG_TARGET_HAS_div TT t then
     t0 ← tcg_temp_ebb_new t;
     tcg_gen_op3_t (INDEX_op_div t) t0 arg1 arg2;;
     tcg_gen_mul t t0 t0 arg2;;
     tcg_gen_sub t ret arg1 t0;;
     tcg_temp_free_internal t0
   else if TCG_TARGET_HAS_div2 TT t then
     t0 ← tcg_temp_ebb_new t;
     tcg_gen_sari t t0 arg1 (ty_width t - 1);;
     tcg_gen_op5_t (INDEX_op_div2 t) t0 ret arg1 t0 arg2;;
     tcg_temp_free_internal t0
   else tcg_gen_callN (HELPER_rem t) (Some ret) [arg1; arg2]);;
  SYM_HELPER_BINARY SYM_rem t ret arg1 arg2.

Definition tcg_gen_divu (t : RegType) (ret arg1 arg2 : nat) : Gen unit :=
  (if TCG_TARGET_HAS_div TT t then tcg_gen_op3_t (INDEX_op_divu t) ret arg1 arg2
   else if TCG_TARGET_HAS_div2 TT t then
     t0 ← tcg_temp_ebb_new t;
     zero ← tcg_constant t 0;
     tcg_gen_op5_t (INDEX_op_divu2 t) ret t0 arg1 zero arg2;;
     tcg_temp_free_internal t0
   else tcg_gen_callN (HELPER_divu t) (Some ret) [arg1; arg2]);;
  SYM_HELPER_BINARY SYM_divu t ret arg1 arg2.

(** The 64-bit function calls the helper for the signed remainder. *)
Definition tcg_gen_remu (t : RegType) (ret arg1 arg2 : nat) : Gen unit :=
  (if TCG_TARGET_HAS_rem TT t then tcg_gen_op3_t (INDEX_op_remu t) ret arg1 arg2
   else if TCG_TARGET_HAS_div TT t then
     t0 ← tcg_temp_ebb_new t;
     tcg_gen_op3_t (INDEX_op_divu t) t0 arg1 arg2;;
     tcg_gen_mul t t0 t0 arg2;;
     tcg_gen_sub t ret arg1 t0;;
     tcg_temp_free_internal t0
   else if TCG_TARGET_HAS_div2 TT t then
     t0 ← tcg_temp_ebb_new t;
     zero ← tcg_constant t 0;
     tcg_gen_op5_t (INDEX_op_divu2 t) t0 ret arg1 zero arg2;;
     tcg_temp_free_internal t0
   else tcg_gen_callN (HELPER_remu t) (Some ret) [arg1; arg2]);;
  SYM_HELPER_BINARY (match t with I32 => SYM_remu | I64 => SYM_rem end) t ret arg1 arg2.

(** ** Logic with complement *)

Definition tcg_gen_andc (t : RegType) (ret arg1 arg2 : nat) : Gen unit :=
  (if TCG_TARGET_HAS_andc TT t then tcg_gen_op3_t (INDEX_op_andc t) ret arg1 arg2
   else
     t0 ← tcg_temp_ebb_new t;
     tcg_gen_not TT t t0 arg2;;
     tcg_gen_and t ret arg1 t0;;
     tcg_temp_free_internal t0);;
  SYM_HELPER_BINARY SYM_andc t ret arg1 arg2.
Definition tcg_gen_eqv (t : RegType) (ret arg1 arg2 : nat) : Gen unit :=
  (if TCG_TARGET_HAS_eqv TT t then tcg_gen_op3_t (INDEX_op_eqv t) ret arg1 arg2
   else tcg_gen_xor t ret arg1 arg2;; tcg_gen_not TT t ret ret);;
  SYM_HELPER_BINARY SYM_eqv t ret arg1 arg2.
Definition tcg_gen_nand (t : RegType) (ret arg1 arg2 : nat) : Gen unit :=
  (if TCG_TARGET_HAS_nand TT t then tcg_gen_op3_t (INDEX_op_nand t) ret arg1 arg2
   else tcg_gen_and t ret arg1 arg2;; tcg_gen_not TT t ret ret);;
  SYM_HELPER_BINARY SYM_nand t ret arg1 arg2.
Definition tcg_gen_nor (t : RegType) (ret arg1 arg2 : nat) : Gen unit :=
  (if TCG_TARGET_HAS_nor TT t then tcg_gen_op3_t (INDEX_op_nor t) ret arg1 arg2
   else tcg_gen_or t ret arg1 arg2;; tcg_gen_not TT t ret ret);;
  SYM_HELPER_BINARY SYM_nor t ret arg1 arg2.
Definition tcg_gen_orc (t : RegType) (ret arg1 arg2 : nat) : Gen unit :=
  (if TCG_TARGET_HAS_orc TT t then tcg_gen_op3_t (INDEX_op_orc t) ret arg1 arg2
   else
     t0 ← tcg_temp_ebb_new t;
     tcg_gen_not TT t t0 arg2;;
     tcg_gen_or t ret arg1 t0;;
     tcg_temp_free_internal t0);;
  SYM_HELPER_BINARY SYM_orc t ret arg1 arg2.

(** ** Rotation *)

Definition tcg_gen_rotl (t : RegType) (ret arg1 arg2 : nat) : Gen unit :=
  if TCG_TARGET_HAS_rot TT t then
    SYM_HELPER_BINARY SYM_rotate_left t ret arg1 arg2;;
    tcg_gen_op3_t (INDEX_op_rotl t) ret arg1 arg2
  else
    t0 ← tcg_temp_ebb_new t; t1 ← tcg_temp_ebb_new t;
    tcg_gen_shl t t0 arg1 arg2;;
    tcg_gen_subfi t t1 (ty_width t) arg2;;
    tcg_gen_shr t t1 arg1 t1;;
    tcg_gen_or t ret t0 t1;;
    tcg_temp_free_internal t0;; tcg_temp_free_internal t1.
Definition tcg_gen_rotli (t : RegType) (ret arg1 : nat) (arg2 : Z) : Gen unit :=
  tcg_debug_assert ((0 <=? arg2) && (arg2 <? ty_width t));;
  if arg2 =? 0 then tcg_gen_mov t ret arg1
  else if TCG_TARGET_HAS_rot TT t then c ← tcg_constant t arg2; tcg_gen_rotl t ret arg1 c
  else
    t0 ← tcg_temp_ebb_new t; t1 ← tcg_temp_ebb_new t;
    tcg_gen_shli t t0 arg1 arg2;;
    tcg_gen_shri t t1 arg1 (ty_width t - arg2);;
    tcg_gen_or t ret t0 t1;;
    tcg_temp_free_internal t0;; tcg_temp_free_internal t1.
Definition tcg_gen_rotr (t : RegType) (ret arg1 arg2 : nat) : Gen unit :=
  if TCG_TARGET_HAS_rot TT t then
    SYM_HELPER_BINARY SYM_rotate_right t ret arg1 arg2;;
    tcg_gen_op3_t (INDEX_op_rotr t) ret arg1 arg2
  else
    t0 ← tcg_temp_ebb_new t; t1 ← tcg_temp_ebb_new t;
    tcg_gen_shr t t0 arg1 arg2;;
    tcg_gen_subfi t t1 (ty_width t) arg2;;
    tcg_gen_shl t t1 arg1 t1;;
    tcg_gen_or t ret t0 t1;;
    tcg_temp_free_internal t0;; tcg_temp_free_internal t1.
Definition tcg_gen_rotri (t : RegType) (ret arg1 : nat) (arg2 : Z) : Gen unit :=
  tcg_debug_assert ((0 <=? arg2) && (arg2 <? ty_width t));;
  if arg2 =? 0 then tcg_gen_mov t ret arg1 else tcg_gen_rotli t ret arg1 (ty_width t - arg2).

(** ** Bit fields *)

Definition assert_field (t : RegType) (ofs len : Z) : Gen unit :=
  tcg_debug_assert ((0 <=? ofs) && (ofs <? ty_width t));;
  tcg_debug_assert (0 <? len);;
  tcg_debug_assert (len <=? ty_width t);;
  tcg_debug_assert (ofs + len <=? ty_width t).

(** The extensions that the target has, by the number of bits. *)
Definition has_extu (t : RegType) (bits : Z) : bool :=
  match t with
  | I64 => if bits =? 32 then TCG_TARGET_HAS_ext32u_i64 TT
           else if bits =? 16 then TCG_TARGET_HAS_ext16u TT t
           else (bits =? 8) && TCG_TARGET_HAS_ext8u TT t
  | I32 => if bits =? 16 then TCG_TARGET_HAS_ext16u TT t
           else (bits =? 8) && TCG_TARGET_HAS_ext8u TT t
  end.
Definition gen_extu (t : RegType) (bits : Z) (ret arg : nat) : Gen unit :=
  if bits =? 32 then tcg_gen_ext32u_i64 TT ret arg
  else if bits =? 16 then tcg_gen_ext16u TT t ret arg
  else tcg_gen_ext8u TT t ret arg.
Definition has_exts (t : RegType) (bits : Z) : bool :=
  match t with
  | I64 => if bits =? 32 then TCG_TARGET_HAS_ext32s_i64 TT
           else if bits =? 16 then TCG_TARGET_HAS_ext16s TT t
           else (bits =? 8) && TCG_TARGET_HAS_ext8s TT t
  | I32 => if bits =? 16 then TCG_TARGET_HAS_ext16s TT t
           else (bits =? 8) && TCG_TARGET_HAS_ext8s TT t
  end.
Definition gen_exts (t : RegType) (bits : Z) (ret arg : nat) : Gen unit :=
  if bits =? 32 then tcg_gen_ext32s_i64 TT ret arg
  else if bits =? 16 then tcg_gen_ext16s TT t ret arg
  else tcg_gen_ext8s TT t ret arg.

Definition gen_deposit (t : RegType) (ret arg1 arg2 : nat) (ofs len : Z) : Gen unit :=
  er ← temp_expr ret; e1 ← temp_expr arg1; e2 ← temp_expr arg2;
  co ← tcg_constant t ofs; cl ← tcg_constant t len;
  tcg_gen_callN (HELPER_sym_deposit t) (Some er) [arg1; e1; arg2; e2; co; cl];;
  tcg_gen_op5ii_t (INDEX_op_deposit t) ret arg1 arg2 ofs len.

(** [tcg_gen_extract2] up to the operation of the target; [tcg_gen_deposit]
    uses it only where the target has that operation, and [tcg_gen_extract2]
    uses [tcg_gen_deposit] only where it has not. *)
Definition gen_extract2 (t : RegType) (ret al ah : nat) (ofs : Z) (default : Gen unit) : Gen unit :=
  tcg_debug_assert ((0 <=? ofs) && (ofs <=? ty_width t));;
  if ofs =? 0 then tcg_gen_mov t ret al
  else if ofs =? ty_width t then tcg_gen_mov t ret ah
  else if (al =? ah)%nat then tcg_gen_rotri t ret al ofs
  else if TCG_TARGET_HAS_extract2 TT t then
    co ← tcg_constant_i64 ofs;
    er ← temp_expr ret; eh ← temp_expr ah; el ← temp_expr al;
    tcg_gen_callN (HELPER_sym_extract2 t) (Some er) [ah; eh; al; el; co];;
    tcg_gen_op4i_t (INDEX_op_extract2 t) ret al ah ofs
  else default.

Definition tcg_gen_deposit (t : RegType) (ret arg1 arg2 : nat) (ofs len : Z) : Gen unit :=
  let w := ty_width t in
  assert_field t ofs len;;
  if len =? w then tcg_gen_mov t ret arg2
  else if TCG_TARGET_HAS_deposit TT t && TCG_TARGET_deposit_valid TT t ofs len then
    gen_deposit t ret arg1 arg2 ofs len
  else
    t1 ← tcg_temp_ebb_new t;
    (if TCG_TARGET_HAS_extract2 TT t && (ofs + len =? w) then
       tcg_gen_shli t t1 arg1 len;;
       gen_extract2 t ret t1 arg2 len g_assert_not_reached
     else if TCG_TARGET_HAS_extract2 TT t && (ofs =? 0) then
       gen_extract2 t ret arg1 arg2 len g_assert_not_reached;;
       tcg_gen_rotli t ret ret len
     else
       let mask := Z.ones len in
       (if ofs + len <? w then tcg_gen_andi TT t t1 arg2 mask;; tcg_gen_shli t t1 t1 ofs
        else tcg_gen_shli t t1 arg2 ofs);;
       tcg_gen_andi TT t ret arg1 (sgn w (Z.lnot (Z.shiftl mask ofs)));;
       tcg_gen_or t ret ret t1);;
    tcg_temp_free_internal t1.

Definition tcg_gen_extract2 (t : RegType) (ret al ah : nat) (ofs : Z) : Gen unit :=
  gen_extract2 t ret al ah ofs
    (t0 ← tcg_temp_ebb_new t;
     tcg_gen_shri t t0 al ofs;;
     tcg_gen_deposit t ret t0 ah (ty_width t - ofs) ofs;;
     tcg_temp_free_internal t0).

Definition tcg_gen_deposit_z (t : RegType) (ret arg : nat) (ofs len : Z) : Gen unit :=
  let w := ty_width t in
  assert_field t ofs len;;
  if ofs + len =? w then tcg_gen_shli t ret arg ofs
  else if ofs =? 0 then tcg_gen_andi TT t ret arg (Z.ones len)
  else if TCG_TARGET_HAS_deposit TT t && TCG_TARGET_deposit_valid TT t ofs len then
    zero ← tcg_constant t 0; gen_deposit t ret zero arg ofs len
  else if has_extu t len then gen_extu t len ret arg;; tcg_gen_shli t ret ret ofs
  else if has_extu t (ofs + len) then tcg_gen_shli t ret arg ofs;; gen_extu t (ofs + len) ret ret
  else tcg_gen_andi TT t ret arg (Z.ones len);; tcg_gen_shli t ret ret ofs.

Definition tcg_gen_extract (t : RegType) (ret arg : nat) (ofs len : Z) : Gen unit :=
  let w := ty_width t in
  assert_field t ofs len;;
  if ofs + len =? w then tcg_gen_shri t ret arg (w - len)
  else if ofs =? 0 then tcg_gen_andi TT t ret arg (Z.ones len)
  else if TCG_TARGET_HAS_extract TT t && TCG_TARGET_extract_valid TT t ofs len then
    er ← temp_expr ret; ea ← temp_expr arg; co ← tcg_constant t ofs; cl ← tcg_constant t len;
    tcg_gen_callN (HELPER_sym_extract t) (Some er) [ea; co; cl];;
    tcg_gen_op4ii_t (INDEX_op_extract t) ret arg ofs len
  else if has_extu t (ofs + len) then gen_extu t (ofs + len) ret arg;; tcg_gen_shri t ret ret ofs
  else if ((1 <=? len) && (len <=? 8)) || (len =? 16) || ((len =? 32) && bool_decide (t = I64)) then
    tcg_gen_shri t ret arg ofs;; tcg_gen_andi TT t ret ret (Z.ones len)
  else tcg_gen_shli t ret arg (w - len - ofs);; tcg_gen_shri t ret ret (w - len).

Definition tcg_gen_sextract (t : RegType) (ret arg : nat) (ofs len : Z) : Gen unit :=
  let w := ty_width t in
  assert_field t ofs len;;
  if ofs + len =? w then tcg_gen_sari t ret arg (w - len)
  else if (ofs =? 0) && ((len =? 8) || (len =? 16) || ((len =? 32) && bool_decide (t = I64))) then
    gen_exts t len ret arg
  else if TCG_TARGET_HAS_sextract TT t && TCG_TARGET_extract_valid TT t ofs len then
    er ← temp_expr ret; ea ← temp_expr arg; co ← tcg_constant t ofs; cl ← tcg_constant t len;
    tcg_gen_callN (HELPER_sym_sextract t) (Some er) [ea; co; cl];;
    tcg_gen_op4ii_t (INDEX_op_sextract t) ret arg ofs len
  else if has_exts t (ofs + len) then gen_exts t (ofs + len) ret arg;; tcg_gen_sari t ret ret ofs
  else if has_exts t len then tcg_gen_shri t ret arg ofs;; gen_exts t len ret ret
  else tcg_gen_shli t ret arg (w - len - ofs);; tcg_gen_sari t ret ret (w - len).

(** ** Byte and halfword swaps *)

Definition has_flag (flags f : Z) : bool := negb (Z.land flags f =? 0).

Definition gen_bswap (len : Z) (opc : TCGOpcode) (ret arg : nat) (flags : Z) : Gen unit :=
  er ← temp_expr ret; ea ← temp_expr arg; c ← tcg_constant_i64 len;
  tcg_gen_callN HELPER_sym_bswap (Some er) [ea; c];;
  tcg_gen_op3i_t opc ret arg flags.

Definition tcg_gen_bswap16 (t : RegType) (ret arg : nat) (flags : Z) : Gen unit :=
  tcg_debug_assert (negb (has_flag flags TCG_BSWAP_OS) || negb (has_flag flags TCG_BSWAP_OZ));;
  if TCG_TARGET_HAS_bswap16 TT t then gen_bswap 2 (INDEX_op_bswap16 t) ret arg flags
  else
    t0 ← tcg_temp_ebb_new t; t1 ← tcg_temp_ebb_new t;
    tcg_gen_shri t t0 arg 8;;
    (if negb (has_flag flags TCG_BSWAP_IZ) then tcg_gen_ext8u TT t t0 t0 else mret tt);;
    (if has_flag flags TCG_BSWAP_OS then
       tcg_gen_shli t t1 arg (ty_width t - 8);; tcg_gen_sari t t1 t1 (ty_width t - 16)
     else if has_flag flags TCG_BSWAP_OZ then
       tcg_gen_ext8u TT t t1 arg;; tcg_gen_shli t t1 t1 8
     else tcg_gen_shli t t1 arg 8);;
    tcg_gen_or t ret t0 t1;;
    tcg_temp_free_internal t0;; tcg_temp_free_internal t1.

Definition tcg_gen_bswap32_i32 (ret arg : nat) : Gen unit :=
  if TCG_TARGET_HAS_bswap32 TT I32 then gen_bswap 4 (INDEX_op_bswap32 I32) ret arg 0
  else
    t0 ← tcg_temp_ebb_new I32; t1 ← tcg_temp_ebb_new I32; t2 ← tcg_constant_i32 0x00ff00ff;
    tcg_gen_shri I32 t0 arg 8;;
    tcg_gen_and I32 t1 arg t2;;
    tcg_gen_and I32 t0 t0 t2;;
    tcg_gen_shli I32 t1 t1 8;;
    tcg_gen_or I32 ret t0 t1;;
    tcg_gen_shri I32 t0 ret 16;;
    tcg_gen_shli I32 t1 ret 16;;
    tcg_gen_or I32 ret t0 t1;;
    tcg_temp_free_internal t0;; tcg_temp_free_internal t1.

Definition tcg_gen_bswap32_i64 (ret arg : nat) (flags : Z) : Gen unit :=
  tcg_debug_assert (negb (has_flag flags TCG_BSWAP_OS) || negb (has_flag flags TCG_BSWAP_OZ));;
  if TCG_TARGET_HAS_bswap32 TT I64 then gen_bswap 4 (INDEX_op_bswap32 I64) ret arg flags
  else
    t0 ← tcg_temp_ebb_new I64; t1 ← tcg_temp_ebb_new I64; t2 ← tcg_constant_i64 0x00ff00ff;
    tcg_gen_shri I64 t0 arg 8;;
    tcg_gen_and I64 t1 arg t2;;
    tcg_gen_and I64 t0 t0 t2;;
    tcg_gen_shli I64 t1 t1 8;;
    tcg_gen_or I64 ret t0 t1;;
    tcg_gen_shli I64 t1 ret 48;;
    tcg_gen_shri I64 t0 ret 16;;
    (if has_flag flags TCG_BSWAP_OS then tcg_gen_sari I64 t1 t1 32 else tcg_gen_shri I64 t1 t1 32);;
    tcg_gen_or I64 ret t0 t1;;
    tcg_temp_free_internal t0;; tcg_temp_free_internal t1.

Definition tcg_gen_bswap64_i64 (ret arg : nat) : Gen unit :=
  if TCG_TARGET_HAS_bswap64_i64 TT then gen_bswap 8 INDEX_op_bswap64_i64 ret arg 0
  else
    t0 ← tcg_temp_ebb_new I64; t1 ← tcg_temp_ebb_new I64; t2 ← tcg_temp_ebb_new I64;
    tcg_gen_movi I64 t2 0x00ff00ff00ff00ff;;
    tcg_gen_shri I64 t0 arg 8;;
    tcg_gen_and I64 t1 arg t2;;
    tcg_gen_and I64 t0 t0 t2;;
    tcg_gen_shli I64 t1 t1 8;;
    tcg_gen_or I64 ret t0 t1;;
    tcg_gen_movi I64 t2 0x0000ffff0000ffff;;
    tcg_gen_shri I64 t0 ret 16;;
    tcg_gen_and I64 t1 ret t2;;
    tcg_gen_and I64 t0 t0 t2;;
    tcg_gen_shli I64 t1 t1 16;;
    tcg_gen_or I64 ret t0 t1;;
    tcg_gen_shri I64 t0 ret 32;;
    tcg_gen_shli I64 t1 ret 32;;
    tcg_gen_or I64 ret t0 t1;;
    tcg_temp_free_internal t0;; tcg_temp_free_internal t1;; tcg_temp_free_internal t2.

Definition tcg_gen_hswap_i32 (ret arg : nat) : Gen unit := tcg_gen_rotli I32 ret arg 16.
Definition tcg_gen_hswap_i64 (ret arg : nat) : Gen unit :=
  let m := 0x0000ffff0000ffff in
  t0 ← tcg_temp_ebb_new I64; t1 ← tcg_temp_ebb_new I64;
  tcg_gen_rotli I64 t1 arg 32;;
  tcg_gen_andi TT I64 t0 t1 m;;
  tcg_gen_shli I64 t0 t0 16;;
  tcg_gen_shri I64 t1 t1 16;;
  tcg_gen_andi TT I64 t1 t1 m;;
  tcg_gen_or I64 ret t0 t1;;
  tcg_temp_free_internal t0;; tcg_temp_free_internal t1.
Definition tcg_gen_wswap_i64 (ret arg : nat) : Gen unit := tcg_gen_rotli I64 ret arg 32.

Definition tcg_gen_abs (t : RegType) (ret a : nat) : Gen unit :=
  s ← tcg_temp_ebb_new t;
  tcg_gen_sari t s a (ty_width t - 1);;
  tcg_gen_xor t ret a s;;
  tcg_gen_sub t ret ret s;;
  tcg_temp_free_internal s.

(** ** Changes of size *)

(** The register is copied as it is; only the expression needs to change. *)
Definition tcg_gen_extrl_i64_i32 (ret arg : nat) : Gen unit :=
  er ← temp_expr ret; ea ← temp_expr arg;
  tcg_gen_callN HELPER_sym_trunc_i64_i32 (Some er) [ea];;
  tcg_gen_mov_concrete I32 ret arg.
Definition tcg_gen_extrh_i64_i32 (ret arg : nat) : Gen unit :=
  t ← tcg_temp_ebb_new I64;
  tcg_gen_shri I64 t arg 32;;
  er ← temp_expr ret; et ← temp_expr t;
  tcg_gen_callN HELPER_sym_trunc_i64_i32 (Some er) [et];;
  tcg_gen_mov_concrete I32 ret t;;
  tcg_temp_free_internal t.
Definition tcg_gen_extu_i32_i64 (ret arg : nat) : Gen unit :=
  er ← temp_expr ret; ea ← temp_expr arg;
  tcg_gen_callN HELPER_sym_zext_i32_i64 (Some er) [ea];;
  tcg_gen_op2_t INDEX_op_extu_i32_i64 ret arg.
Definition tcg_gen_ext_i32_i64 (ret arg : nat) : Gen unit :=
  er ← temp_expr ret; ea ← temp_expr arg;
  tcg_gen_callN HELPER_sym_sext_i32_i64 (Some er) [ea];;
  tcg_gen_op2_t INDEX_op_ext_i32_i64 ret arg.

Definition tcg_gen_concat_i32_i64 (dest low high : nat) : Gen unit :=
  tmp ← tcg_temp_ebb_new I64;
  tcg_gen_extu_i32_i64 tmp high;;
  tcg_gen_extu_i32_i64 dest low;;
  (if TCG_TARGET_HAS_deposit TT I64 && TCG_TARGET_deposit_valid TT I64 32 32 then
     tcg_gen_deposit I64 dest dest tmp 32 32
   else tcg_gen_shli I64 tmp tmp 32;; tcg_gen_or I64 dest dest tmp);;
  tcg_temp_free_internal tmp.
Definition tcg_gen_extr_i64_i32 (lo hi arg : nat) : Gen unit :=
  tcg_gen_extrl_i64_i32 lo arg;; tcg_gen_extrh_i64_i32 hi arg.
Definition tcg_gen_extr32_i64 (lo hi arg : nat) : Gen unit :=
  tcg_gen_ext32u_i64 TT lo arg;; tcg_gen_shri I64 hi arg 32.
Definition tcg_gen_concat32_i64 (ret lo hi : nat) : Gen unit := tcg_gen_deposit I64 ret lo hi 32 32.

(** ** Bit counts *)

Definition tcg_gen_clz_i64 (ret arg1 arg2 : nat) : Gen unit :=
  if TCG_TARGET_HAS_clz TT I64 then tcg_gen_op3_t (INDEX_op_clz I64) ret arg1 arg2
  else tcg_gen_callN (HELPER_clz I64) (Some ret) [arg1; arg2].
Definition tcg_gen_clz_i32 (ret arg1 arg2 : nat) : Gen unit :=
  if TCG_TARGET_HAS_clz TT I32 then tcg_gen_op3_t (INDEX_op_clz I32) ret arg1 arg2
  else if TCG_TARGET_HAS_clz TT I64 then
    t1 ← tcg_temp_ebb_new I64; t2 ← tcg_temp_ebb_new I64;
    tcg_gen_extu_i32_i64 t1 arg1;;
    tcg_gen_extu_i32_i64 t2 arg2;;
    tcg_gen_addi I64 t2 t2 32;;
    tcg_gen_clz_i64 t1 t1 t2;;
    tcg_gen_extrl_i64_i32 ret t1;;
    tcg_temp_free_internal t1;; tcg_temp_free_internal t2;;
    tcg_gen_subi I32 ret ret 32
  else tcg_gen_callN (HELPER_clz I32) (Some ret) [arg1; arg2].
Definition tcg_gen_clz (t : RegType) : nat → nat → nat → Gen unit :=
  match t with I32 => tcg_gen_clz_i32 | I64 => tcg_gen_clz_i64 end.
Definition tcg_gen_clzi (t : RegType) (ret arg1 : nat) (arg2 : Z) : Gen unit :=
  c ← tcg_constant t arg2; tcg_gen_clz t ret arg1 c.

Definition tcg_gen_ctpop_i64 (ret arg1 : nat) : Gen unit :=
  if TCG_TARGET_HAS_ctpop TT I64 then tcg_gen_op2_t (INDEX_op_ctpop I64) ret arg1
  else tcg_gen_callN (HELPER_ctpop I64) (Some ret) [arg1].
Definition tcg_gen_ctpop_i32 (ret arg1 : nat) : Gen unit :=
  if TCG_TARGET_HAS_ctpop TT I32 then tcg_gen_op2_t (INDEX_op_ctpop I32) ret arg1
  else if TCG_TARGET_HAS_ctpop TT I64 then
    t ← tcg_temp_ebb_new I64;
    tcg_gen_extu_i32_i64 t arg1;;
    tcg_gen_ctpop_i64 t t;;
    tcg_gen_extrl_i64_i32 ret t;;
    tcg_temp_free_internal t
  else tcg_gen_callN (HELPER_ctpop I32) (Some ret) [arg1].

Definition tcg_gen_clrsb (t : RegType) (ret arg : nat) : Gen unit :=
  if match t with
     | I32 => TCG_TARGET_HAS_clz TT I32
     | I64 => TCG_TARGET_HAS_clz TT I64 || TCG_TARGET_HAS_clz TT I32
     end then
    s ← tcg_temp_ebb_new t;
    tcg_gen_sari t s arg (ty_width t - 1);;
    tcg_gen_xor t s s arg;;
    tcg_gen_clzi t s s (ty_width t);;
    tcg_gen_subi t ret s 1;;
    tcg_temp_free_internal s
  else tcg_gen_callN (HELPER_clrsb t) (Some ret) [arg].

(** ** Double words *)

(** The operation on the 64-bit concatenation, for the [_i32] functions. *)
Definition gen_wide (extend1 extend2 : nat → nat → Gen unit) (op : nat → nat → nat → Gen unit)
    (rl rh arg1 arg2 : nat) : Gen unit :=
  t0 ← tcg_temp_ebb_new I64; t1 ← tcg_temp_ebb_new I64;
  extend1 t0 arg1;; extend2 t1 arg2;; op t0 t0 t1;;
  tcg_gen_extr_i64_i32 rl rh t0;;
  tcg_temp_free_internal t0;; tcg_temp_free_internal t1.
Definition tcg_gen_mulu2_i32 : nat → nat → nat → nat → Gen unit :=
  gen_wide tcg_gen_extu_i32_i64 tcg_gen_extu_i32_i64 (tcg_gen_mul I64).
Definition tcg_gen_muls2_i32 : nat → nat → nat → nat → Gen unit :=
  gen_wide tcg_gen_ext_i32_i64 tcg_gen_ext_i32_i64 (tcg_gen_mul I64).
Definition tcg_gen_mulsu2_i32 : nat → nat → nat → nat → Gen unit :=
  gen_wide tcg_gen_ext_i32_i64 tcg_gen_extu_i32_i64 (tcg_gen_mul I64).
Definition gen_addsub2_i32 (op : nat → nat → nat → Gen unit) (rl rh al ah bl bh : nat) : Gen unit :=
  t0 ← tcg_temp_ebb_new I64; t1 ← tcg_temp_ebb_new I64;
  tcg_gen_concat_i32_i64 t0 al ah;;
  tcg_gen_concat_i32_i64 t1 bl bh;;
  op t0 t0 t1;;
  tcg_gen_extr_i64_i32 rl rh t0;;
  tcg_temp_free_internal t0;; tcg_temp_free_internal t1.
Definition tcg_gen_add2_i32 : nat → nat → nat → nat → nat → nat → Gen unit :=
  gen_addsub2_i32 (tcg_gen_add I64).
Definition tcg_gen_sub2_i32 : nat → nat → nat → nat → nat → nat → Gen unit :=
  gen_addsub2_i32 (tcg_gen_sub I64).

Definition tcg_gen_add2_i64 (rl rh al ah bl bh : nat) : Gen unit :=
  t0 ← tcg_temp_ebb_new I64; t1 ← tcg_temp_ebb_new I64;
  tcg_gen_add I64 t0 al bl;;
  tcg_gen_setcond tcg_env I64 TCG_COND_LTU t1 t0 al;;
  tcg_gen_add I64 rh ah bh;;
  tcg_gen_add I64 rh rh t1;;
  tcg_gen_mov I64 rl t0;;
  tcg_temp_free_internal t0;; tcg_temp_free_internal t1.
Definition tcg_gen_sub2_i64 (rl rh al ah bl bh : nat) : Gen unit :=
  t0 ← tcg_temp_ebb_new I64; t1 ← tcg_temp_ebb_new I64;
  tcg_gen_sub I64 t0 al bl;;
  tcg_gen_setcond tcg_env I64 TCG_COND_LTU t1 al bl;;
  tcg_gen_sub I64 rh ah bh;;
  tcg_gen_sub I64 rh rh t1;;
  tcg_gen_mov I64 rl t0;;
  tcg_temp_free_internal t0;; tcg_temp_free_internal t1.
Definition tcg_gen_mulu2_i64 (rl rh arg1 arg2 : nat) : Gen unit :=
  t0 ← tcg_temp_ebb_new I64;
  tcg_gen_mul I64 t0 arg1 arg2;;
  er ← temp_expr rh; e1 ← temp_expr arg1; e2 ← temp_expr arg2;
  tcg_gen_callN HELPER_sym_muluh_i64 (Some er) [arg1; e1; arg2; e2];;
  tcg_gen_callN HELPER_muluh_i64 (Some rh) [arg1; arg2];;
  tcg_gen_mov I64 rl t0;;
  tcg_temp_free_internal t0.
Definition tcg_gen_muls2_i64 (rl rh arg1 arg2 : nat) : Gen unit :=
  if TCG_TARGET_HAS_mulu2 TT I64 || TCG_TARGET_HAS_muluh TT I64 then
    t0 ← tcg_temp_ebb_new I64; t1 ← tcg_temp_ebb_new I64;
    t2 ← tcg_temp_ebb_new I64; t3 ← tcg_temp_ebb_new I64;
    tcg_gen_mulu2_i64 t0 t1 arg1 arg2;;
    tcg_gen_sari I64 t2 arg1 63;;
    tcg_gen_sari I64 t3 arg2 63;;
    tcg_gen_and I64 t2 t2 arg2;;
    tcg_gen_and I64 t3 t3 arg1;;
    tcg_gen_sub I64 rh t1 t2;;
    tcg_gen_sub I64 rh rh t3;;
    tcg_gen_mov I64 rl t0;;
    tcg_temp_free_internal t0;; tcg_temp_free_internal t1;;
    tcg_temp_free_internal t2;; tcg_temp_free_internal t3
  else
    t0 ← tcg_temp_ebb_new I64;
    tcg_gen_mul I64 t0 arg1 arg2;;
    tcg_gen_callN HELPER_mulsh_i64 (Some rh) [arg1; arg2];;
    tcg_gen_mov I64 rl t0;;
    tcg_temp_free_internal t0.
Definition tcg_gen_mulsu2_i64 (rl rh arg1 arg2 : nat) : Gen unit :=
  t0 ← tcg_temp_ebb_new I64; t1 ← tcg_temp_ebb_new I64; t2 ← tcg_temp_ebb_new I64;
  tcg_gen_mulu2_i64 t0 t1 arg1 arg2;;
  tcg_gen_sari I64 t2 arg1 63;;
  tcg_gen_and I64 t2 t2 arg2;;
  tcg_gen_sub I64 rh t1 t2;;
  tcg_gen_mov I64 rl t0;;
  tcg_temp_free_internal t0;; tcg_temp_free_internal t1;; tcg_temp_free_internal t2.

(** ** Conditional moves, minimum and maximum *)

(** [is_taken] is the old value of [ret]: the move comes last. *)
Definition gen_movcond (t : RegType) (cond : TCGCond) (ret c1 c2 v1 v2 : nat) : Gen unit :=
  er ← temp_expr ret; ec1 ← temp_expr c1; ec2 ← temp_expr c2; ev1 ← temp_expr v1; ev2 ← temp_expr v2;
  c ← tcg_constant_i32 (cond_code cond);
  tcg_gen_callN (HELPER_sym_movcond t) (Some er)
    [tcg_env; c1; ec1; c2; ec2; v1; ev1; v2; ev2; c; ret];;
  tcg_gen_op6i_t (INDEX_op_movcond t) ret c1 c2 v1 v2 (cond_code cond).

Definition tcg_gen_movcond_i32 (cond : TCGCond) (ret c1 c2 v1 v2 : nat) : Gen unit :=
  match cond with
  | TCG_COND_ALWAYS => tcg_gen_mov I32 ret v1
  | TCG_COND_NEVER => tcg_gen_mov I32 ret v2
  | _ =>
      cond_result_temp ← tcg_temp_new I32;
      tcg_gen_setcond tcg_env I32 cond cond_result_temp c1 c2;;
      tcg_temp_free_internal cond_result_temp;;
      c1_tmp ← tcg_temp_new I64; c2_tmp ← tcg_temp_new I64;
      tcg_gen_op2_t INDEX_op_extu_i32_i64 c1_tmp c1;;
      tcg_gen_op2_t INDEX_op_extu_i32_i64 c2_tmp c2;;
      er ← temp_expr ret; ev1 ← temp_expr v1; ev2 ← temp_expr v2;
      tcg_gen_op6i_t (INDEX_op_movcond I64) er c1_tmp c2_tmp ev1 ev2 (cond_code cond);;
      tcg_temp_free_internal c1_tmp;;
      tcg_temp_free_internal c2_tmp;;
      gen_movcond I32 cond ret c1 c2 v1 v2
  end.
Definition tcg_gen_movcond_i64 (cond : TCGCond) (ret c1 c2 v1 v2 : nat) : Gen unit :=
  match cond with
  | TCG_COND_ALWAYS => tcg_gen_mov I64 ret v1
  | TCG_COND_NEVER => tcg_gen_mov I64 ret v2
  | _ => gen_movcond I64 cond ret c1 c2 v1 v2
  end.
Definition tcg_gen_movcond (t : RegType) : TCGCond → nat → nat → nat → nat → nat → Gen unit :=
  match t with I32 => tcg_gen_movcond_i32 | I64 => tcg_gen_movcond_i64 end.

Definition tcg_gen_smin (t : RegType) (ret a b : nat) : Gen unit := tcg_gen_movcond t TCG_COND_LT ret a b a b.
Definition tcg_gen_umin (t : RegType) (ret a b : nat) : Gen unit := tcg_gen_movcond t TCG_COND_LTU ret a b a b.
Definition tcg_gen_smax (t : RegType) (ret a b : nat) : Gen unit := tcg_gen_movcond t TCG_COND_LT ret a b b a.
Definition tcg_gen_umax (t : RegType) (ret a b : nat) : Gen unit := tcg_gen_movcond t TCG_COND_LTU ret a b b a.

(** ** Trailing zeros *)

Definition tcg_gen_ctz_i64 (ret arg1 arg2 : nat) : Gen unit :=
  if TCG_TARGET_HAS_ctz TT I64 then tcg_gen_op3_t (INDEX_op_ctz I64) ret arg1 arg2
  else if TCG_TARGET_HAS_ctpop TT I64 || TCG_TARGET_HAS_clz TT I64 then
    t ← tcg_temp_ebb_new I64;
    (if TCG_TARGET_HAS_ctpop TT I64 then
       tcg_gen_subi I64 t arg1 1;; tcg_gen_andc I64 t t arg1;; tcg_gen_ctpop_i64 t t
     else
       tcg_gen_neg I64 t arg1;; tcg_gen_and I64 t t arg1;;
       tcg_gen_clzi I64 t t 64;; tcg_gen_xori TT I64 t t 63);;
    z ← tcg_constant I64 0;
    tcg_gen_movcond I64 TCG_COND_EQ ret arg1 z arg2 t;;
    tcg_temp_free_internal t;; tcg_temp_free_internal z
  else tcg_gen_callN (HELPER_ctz I64) (Some ret) [arg1; arg2].
Definition tcg_gen_ctz_i32 (ret arg1 arg2 : nat) : Gen unit :=
  if TCG_TARGET_HAS_ctz TT I32 then tcg_gen_op3_t (INDEX_op_ctz I32) ret arg1 arg2
  else if TCG_TARGET_HAS_ctz TT I64 then
    t1 ← tcg_temp_ebb_new I64; t2 ← tcg_temp_ebb_new I64;
    tcg_gen_extu_i32_i64 t1 arg1;;
    tcg_gen_extu_i32_i64 t2 arg2;;
    tcg_gen_ctz_i64 t1 t1 t2;;
    tcg_gen_extrl_i64_i32 ret t1;;
    tcg_temp_free_internal t1;; tcg_temp_free_internal t2
  else if TCG_TARGET_HAS_ctpop TT I32 || TCG_TARGET_HAS_ctpop TT I64
          || TCG_TARGET_HAS_clz TT I32 || TCG_TARGET_HAS_clz TT I64 then
    t ← tcg_temp_ebb_new I32;
    (if TCG_TARGET_HAS_ctpop TT I32 || TCG_TARGET_HAS_ctpop TT I64 then
       tcg_gen_subi I32 t arg1 1;; tcg_gen_andc I32 t t arg1;; tcg_gen_ctpop_i32 t t
     else
       tcg_gen_neg I32 t arg1;; tcg_gen_and I32 t t arg1;;
       tcg_gen_clzi I32 t t 32;; tcg_gen_xori TT I32 t t 31);;
    z ← tcg_constant I32 0;
    tcg_gen_movcond I32 TCG_COND_EQ ret arg1 z arg2 t;;
    tcg_temp_free_internal t
  else tcg_gen_callN (HELPER_ctz I32) (Some ret) [arg1; arg2].
Definition tcg_gen_ctz (t : RegType) : nat → nat → nat → Gen unit :=
  match t with I32 => tcg_gen_ctz_i32 | I64 => tcg_gen_ctz_i64 end.
Definition tcg_gen_ctzi (t : RegType) (ret arg1 : nat) (arg2 : Z) : Gen unit :=
  if negb (TCG_TARGET_HAS_ctz TT t) && TCG_TARGET_HAS_ctpop TT t && (wrap (ty_width t) arg2 =? ty_width t) then
    s ← tcg_temp_ebb_new t;
    tcg_gen_subi t s arg1 1;;
    tcg_gen_andc t s s arg1;;
    match t with I32 => tcg_gen_ctpop_i32 | I64 => tcg_gen_ctpop_i64 end ret s;;
    tcg_temp_free_internal s
  else c ← tcg_constant t arg2; tcg_gen_ctz t ret arg1 c.

(** ** Loads and stores of host memory *)

Definition data_size (opc : LdStOpcode) : Z :=
  match opc with
  | INDEX_op_ld8u _ | INDEX_op_ld8s _ | INDEX_op_st8 _ => 1
  | INDEX_op_ld16u _ | INDEX_op_ld16s _ | INDEX_op_st16 _ => 2
  | INDEX_op_ld32u_i64 | INDEX_op_ld32s_i64 | INDEX_op_st32_i64
  | INDEX_op_ld I32 | INDEX_op_st I32 => 4
  | INDEX_op_ld I64 | INDEX_op_st I64 => 8
  end.
Definition is_load (opc : LdStOpcode) : bool :=
  match opc with
  | INDEX_op_st8 _ | INDEX_op_st16 _ | INDEX_op_st32_i64 | INDEX_op_st _ => false
  | _ => true
  end.
(** The variant of the function an opcode belongs to; the other one asserts. *)
Definition ldst_type (opc : LdStOpcode) : RegType :=
  match opc with
  | INDEX_op_ld8u t | INDEX_op_ld8s t | INDEX_op_st8 t
  | INDEX_op_ld16u t | INDEX_op_ld16s t | INDEX_op_st16 t | INDEX_op_ld t | INDEX_op_st t => t
  | INDEX_op_ld32u_i64 | INDEX_op_ld32s_i64 | INDEX_op_st32_i64 => I64
  end.
Definition tcg_gen_ldst_op (t : RegType) (opc : LdStOpcode) (val base : nat) (offset : Z) : Gen unit :=
  tcg_debug_assert (bool_decide (ldst_type opc = t));;
  ev ← temp_expr val; co ← tcg_constant_i64 offset; cl ← tcg_constant_i64 (data_size opc);
  (if is_load opc then tcg_gen_callN (HELPER_sym_load_host t) (Some ev) [base; co; cl]
   else tcg_gen_callN HELPER_sym_store_host None [ev; base; co; cl]);;
  tcg_emit_op (OpLdSt opc val base offset).
End Generators.
