(* ===== verification/GenAluSpec.v ===== *)
(** What the generators of [GenAlu] promise, as in [GenCoreSpec].

    The generators that emit the operation before the helper for the
    expression read their operands again after the result was written: their
    rules ask for a result that is not an operand. *)
From S2P Require Import Prelude Cond Bitops Backend SymHelpers SymMemory Ops Temps Exec Logic Calls Vars GenCore.
From S2P Require Import GenCoreSpec GenAlu.

(** ** Automation *)

Ltac rng :=
  cbn [ty_width];
  first [ assumption | apply read_range | solve [auto 15 with range] | solve [apply count_fits; lia]
        | solve [unfold bv_lshr, bv_shl, bv_ashr, bv_add, bv_sub, bv_mul, bv_not, bv_neg; auto 15 with range] ].

(** Operands and results through updates. *)
Ltac vs :=
  lazymatch goal with
  | |- src (<[?a := _]> _) ?a _ _ _ => apply src_new; rng
  | |- src (<[_ := _]> _) _ _ _ _ => apply src_insert; [vs|neq]
  | |- src _ _ _ _ _ =>
      first [ eassumption | apply src_const; eassumption | eapply src_weaken; [eassumption|]; vs ]
  end.
Ltac vd :=
  lazymatch goal with
  | |- dst (<[?a := _]> _) ?a _ _ => apply dst_new; done
  | |- dst (<[_ := _]> _) _ _ _ => apply dst_insert; [vd|neq]
  | |- dst _ _ _ _ => first [ eassumption | eapply dst_weaken; [eassumption|]; vd ]
  end.

(** The lookups behind the descriptions of the operands and results. *)
Ltac vopen :=
  repeat match goal with
  | H : src ?ρ ?a _ _ _ |- _ =>
      lazymatch goal with
      | _ : ρ !! a = _ |- _ => fail
      | _ => let k := fresh "k" in let E := fresh "Hlk" in
             assert (∃ k, ρ !! a = Some k) as [k E] by (destruct H as ((k & E) & _); eauto)
      end
  | H : dst ?ρ ?a _ _ |- _ =>
      lazymatch goal with
      | _ : ρ !! a = _ |- _ => fail
      | _ => let v := fresh "v" in let e := fresh "e" in let E := fresh "Hlk" in let K := fresh "K" in
             pose proof H as [(v & e & E) K]
      end
  end.

(** Steps of a generator. *)
Ltac vnew x H := apply wpv_bind, wpv_temp_new; [by left|]; intros x H.
Ltac vconst x ρ Hs Hx := apply wpv_bind, wpv_constant; intros x ρ Hs Hx.
Ltac vfree := eapply wpv_temp_free; [lk|reflexivity|].
Ltac vun S := eapply S; [vd|vs|done|].
Ltac vbin S := eapply S; [vd|vs|vs|done|].

Section Spec.
Context `{SL : ShadowLaws} {BL : BackendLaws B BS}.
Context (i : Input) (TT : Target) (tcg_env : nat).
Implicit Types (t ty : RegType).

Abbreviation wpv := (wpv i).

(** ** The value first, then the expression *)

Definition apart_spec (m : nat → nat → nat → Gen unit) (t : RegType)
    (pre : Z → Z → Z → Z → Prop) (f : Z → Z → Z) : Prop :=
  ∀ ret a1 a2 ρ g (Q : unit → vars → ghost → Prop) k c1 x1 c2 x2,
    dst ρ ret t k → src ρ a1 t c1 x1 → src ρ a2 t c2 x2 → ret ≠ a1 → ret ≠ a2 → pre c1 x1 c2 x2 →
    Q tt (<[ret := full k t (f c1 c2) (f x1 x2)]> ρ) g → wpv (m ret a1 a2) ρ g Q.
Definition value_spec (m : nat → nat → nat → Gen unit) (t : RegType)
    (pre : Z → Z → Z → Z → Prop) (f : Z → Z → Z) : Prop :=
  ∀ ret a1 a2 ρ g (Q : unit → vars → ghost → Prop) k c1 x1 c2 x2,
    dst ρ ret t k → src ρ a1 t c1 x1 → src ρ a2 t c2 x2 → ret ≠ a1 → ret ≠ a2 → pre c1 x1 c2 x2 →
    (∀ e, Q tt (<[ret := Var k t (Num (f c1 c2)) e]> ρ) g) → wpv (m ret a1 a2) ρ g Q.

Lemma binary_value m t pre f : binary_spec i m t pre f → value_spec m t pre f.
Proof. intros Hm ret a1 a2 ρ g Q k c1 x1 c2 x2 Hr S1 S2 _ _ Hp HQ. eapply Hm; [done..|]. apply HQ. Qed.

Lemma value_then_sym m b t (pre : Z → Z → Z → Z → Prop) :
  value_spec m t pre (binary_meaning b (ty_width t)) →
  (∀ c1 x1 c2 x2, pre c1 x1 c2 x2 → binary_domain b (ty_width t) x2) →
  apart_spec (λ ret a1 a2, m ret a1 a2;; SYM_HELPER_BINARY b t ret a1 a2) t pre
    (binary_meaning b (ty_width t)).
Proof.
  intros Hm Hd ret a1 a2 ρ g Q k c1 x1 c2 x2 Hr S1 S2 N1 N2 Hp HQ. apply wpv_bind. eapply Hm; [done..|].
  intros e. vopen. apply wpv_bind; eapply wpv_temp_expr; [lk|].
  apply wpv_bind; eapply wpv_temp_expr; [lk|]. apply wpv_bind; eapply wpv_temp_expr; [lk|].
  eapply wpv_callN_expr; [lk|].
  eapply (wpv_call_expr i _ ret [V a1; E a1; V a2; E a2]);
    [intros p; eapply (call_sym_binary i b t c1 x1 c2 x2); by eapply Hd| |lk|done|].
  - assert (T1 : src (<[ret := Var k t (Num (binary_meaning b (ty_width t) c1 c2)) e]> ρ) a1 t c1 x1) by vs.
    assert (T2 : src (<[ret := Var k t (Num (binary_meaning b (ty_width t) c1 c2)) e]> ρ) a2 t c2 x2) by vs.
    cbn. eauto 10 using src_value, src_expr.
  - by rewrite insert_insert_eq.
Qed.

Lemma value_op opc t (pre : Z → Z → Z → Z → Prop) f :
  is_mov opc = false → op_def opc = ([t], [t; t], 0%nat) →
  (∀ c1 x1 c2 x2, pre c1 x1 c2 x2 → op_val opc [c1; c2] [] = Some [f c1 c2]) →
  value_spec (tcg_gen_op3_t opc) t pre f.
Proof.
  intros Hmov Hdef Hop ret a1 a2 ρ g Q k c1 x1 c2 x2 Hr S1 S2 N1 N2 Hp HQ. vopen.
  eapply (wpv_op i opc ret [a1; a2] []) with (cs := [c1; c2]); try done.
  - cbn. eauto using src_value.
  - by eapply Hop.
Qed.

Lemma value_call h t (pre : Z → Z → Z → Z → Prop) f :
  (∀ c1 x1 c2 x2 p, pre c1 x1 c2 x2 → call_ok i h [ANum t c1; ANum t c2] t (Num (f c1 c2)) p p) →
  value_spec (λ ret a1 a2, tcg_gen_callN h (Some ret) [a1; a2]) t pre f.
Proof.
  intros Hh ret a1 a2 ρ g Q k c1 x1 c2 x2 Hr S1 S2 N1 N2 Hp HQ. vopen.
  eapply (wpv_callN_num i h ret [V a1; V a2]); [intros p; by eapply Hh| |done|done|apply HQ].
  intros ρ' Hs. 
  assert (T1 : src (<[ret := Var k t v (Exp (ty_width t) (f c1 c2) (f c1 c2))]> ρ') a1 t c1 x1) by vs.
  assert (T2 : src (<[ret := Var k t v (Exp (ty_width t) (f c1 c2) (f c1 c2))]> ρ') a2 t c2 x2) by vs.
  cbn. eauto 10 using src_value.
Qed.

(** ** Division *)

Definition sdiv_pre (t : RegType) (c1 x1 c2 x2 : Z) : Prop := sdiv_ok (ty_width t) c1 c2 = true ∧ x2 ≠ 0.
Definition udiv_pre (c1 x1 c2 x2 : Z) : Prop := c2 ≠ 0 ∧ x2 ≠ 0.

Lemma pow2_half w : 0 < w → 2 ^ w = 2 * 2 ^ (w - 1).
Proof. intros. rewrite <- Z.pow_succ_r by lia. f_equal. lia. Qed.

Lemma sign_fill w c : 0 < w → in_range w c → bv_ashr w c (w - 1) = if c <? 2 ^ (w - 1) then 0 else 2 ^ w - 1.
Proof.
  intros Hw Hc. pose proof Hc as [? ?]. unfold bv_ashr, sgn. rewrite (wrap_small w c) by done. rewrite Z.shiftr_div_pow2 by lia.
  pose proof (pow2_half w). destruct (Z.ltb_spec c (2 ^ (w - 1))).
  - by rewrite Z.div_small, wrap_0 by lia.
  - rewrite <- (Zdiv_unique (c - 2 ^ w) (2 ^ (w - 1)) (-1) (c - 2 ^ (w - 1))) by lia.
    rewrite wrap_neg1, Z.ones_equiv; lia.
Qed.

Lemma join_sign w c : 0 < w → in_range w c → sgn (2 * w) (join w c (bv_ashr w c (w - 1))) = sgn w c.
Proof.
  intros Hw Hc. rewrite sign_fill by done. pose proof Hc as [? ?]. pose proof (pow2_half w).
  assert (E2 : 2 ^ (2 * w) = 2 ^ w * 2 ^ w) by (rewrite <- Z.pow_add_r by lia; f_equal; lia).
  assert (E3 : 2 ^ (2 * w - 1) = 2 ^ w * 2 ^ (w - 1)) by (rewrite <- Z.pow_add_r by lia; f_equal; lia).
  unfold sgn, join. rewrite (wrap_small w c) by done.
  destruct (Z.ltb_spec c (2 ^ (w - 1))).
  - rewrite wrap_small by (unfold in_range; nia). rewrite (proj2 (Z.ltb_lt _ _)); [lia|nia].
  - rewrite wrap_small by (unfold in_range; nia). rewrite (proj2 (Z.ltb_ge _ _)); nia.
Qed.

(** The only quotient that does not fit is that of the least number by -1. *)
Lemma quot_bound h n d :
  0 < h → - h ≤ n < h → d ≠ 0 → ¬ (n = - h ∧ d = -1) → - h ≤ Z.quot n d < h.
Proof.
  intros Hh Hn Hd Hx. destruct (Z.eq_dec d 1) as [->|]; [rewrite Z.quot_1_r; lia|].
  destruct (Z.eq_dec d (-1)) as [->|].
  { replace (-1) with (- (1)) by lia. rewrite Z.quot_opp_r, Z.quot_1_r by lia. lia. }
  pose proof (Z.quot_abs n d Hd) as Ha. rewrite Z.quot_div_nonneg in Ha by lia.
  assert (Z.abs n / Z.abs d ≤ Z.abs n / 2) by (apply Z.div_le_compat_l; lia).
  assert (Z.abs n / 2 < h) by (apply Z.div_lt_upper_bound; lia). lia.
Qed.

Lemma div2_value t c1 c2 :
  in_range (ty_width t) c1 → in_range (ty_width t) c2 → sdiv_ok (ty_width t) c1 c2 = true →
  op_val (INDEX_op_div2 t) [c1; bv_ashr (ty_width t) c1 (ty_width t - 1); c2] []
  = Some [bv_sdiv (ty_width t) c1 c2; bv_srem (ty_width t) c1 c2].
Proof.
  intros H1 H2 Hok. pose proof (ty_width_pos t) as [Hw _]. cbn [op_val]. cbv zeta.
  rewrite join_sign by done. unfold guard_. set (h := 2 ^ (ty_width t - 1)) in *.
  assert (Hh : 0 < h) by (apply pow2_pos; lia). pose proof (sgn_range (ty_width t) c1 Hw) as Hs. fold h in Hs.
  assert (Hd : sgn (ty_width t) c2 ≠ 0).
  { intros E. unfold sdiv_ok in Hok. pose proof (wrap_sgn (ty_width t) c2) as Hz.
    rewrite E, wrap_0, wrap_small in Hz by (done || lia). rewrite <- Hz in Hok by lia. done. }
  destruct (quot_bound h (sgn (ty_width t) c1) (sgn (ty_width t) c2)) as [? ?]; try done.
  { unfold sdiv_ok in Hok. fold h in Hok. lia. }
  rewrite (proj2 (Z.eqb_neq _ _)), (proj2 (Z.leb_le _ _)), (proj2 (Z.ltb_lt _ _)) by done. done.
Qed.

Lemma divu2_value t c1 c2 :
  in_range (ty_width t) c1 → c2 ≠ 0 → 0 ≤ c2 →
  op_val (INDEX_op_divu2 t) [c1; 0; c2] [] = Some [bv_udiv (ty_width t) c1 c2; bv_urem (ty_width t) c1 c2].
Proof.
  intros [? ?] H2 H3. cbn [op_val]. cbv zeta. unfold join. rewrite Z.mul_0_l, Z.add_0_l. unfold guard_.
  assert (c1 / c2 ≤ c1) by (apply Z.div_le_upper_bound; nia).
  rewrite (proj2 (Z.eqb_neq _ _)), (proj2 (Z.ltb_lt _ _)) by (done || lia). done.
Qed.

Lemma value_div2 t (quotient : bool) :
  value_spec (λ ret a1 a2,
      t0 ← tcg_temp_ebb_new t;
      tcg_gen_sari t t0 a1 (ty_width t - 1);;
      (if quotient then tcg_gen_op5_t (INDEX_op_div2 t) ret t0 a1 t0 a2
       else tcg_gen_op5_t (INDEX_op_div2 t) t0 ret a1 t0 a2);;
      tcg_temp_free_internal t0) t (sdiv_pre t)
    (λ a b, if quotient then bv_sdiv (ty_width t) a b else bv_srem (ty_width t) a b).
Proof.
  intros ret a1 a2 ρ g Q k c1 x1 c2 x2 Hr S1 S2 N1 N2 [Hp _] HQ. apply wpv_post. vopen.
  pose proof S1 as (_ & R1 & X1). pose proof S2 as (_ & R2 & _). pose proof (ty_width_pos t).
  vnew t0 H0. apply wpv_bind. eapply (spec_sari i t); [lia|vd|vs|done|]. apply wpv_bind.
  pose proof (div2_value t c1 c2 R1 R2 Hp) as Hv. rewrite insert_insert_eq.
  set (v0 := full TEMP_EBB t _ _).
  assert (T1 : src (<[t0 := v0]> ρ) a1 t c1 x1) by vs. assert (T2 : src (<[t0 := v0]> ρ) a2 t c2 x2) by vs.
  assert (Hin : vreads (<[t0 := v0]> ρ) [a1; t0; a2] [t; t; t] [c1; bv_ashr (ty_width t) c1 (ty_width t - 1); c2]).
  { cbn. split; [by eapply src_value|]. split; [eexists _, _; lk|]. split; [by eapply src_value|done]. }
  destruct quotient.
  - eapply (wpv_op2 i (INDEX_op_div2 t) ret t0 [a1; t0; a2] []); [done|done|neq|lk|done|lk|done|exact Hin|exact Hv|].
    vfree. eexists. split; [|apply (HQ e)]. vsub.
  - eapply (wpv_op2 i (INDEX_op_div2 t) t0 ret [a1; t0; a2] []); [done|done|neq|lk|done|lk|done|exact Hin|exact Hv|].
    vfree. eexists. split; [|apply (HQ e)]. vsub.
Qed.

Lemma value_divu2 t (quotient : bool) :
  value_spec (λ ret a1 a2,
      t0 ← tcg_temp_ebb_new t;
      zero ← tcg_constant t 0;
      (if quotient then tcg_gen_op5_t (INDEX_op_divu2 t) ret t0 a1 zero a2
       else tcg_gen_op5_t (INDEX_op_divu2 t) t0 ret a1 zero a2);;
      tcg_temp_free_internal t0) t udiv_pre
    (λ a b, if quotient then bv_udiv (ty_width t) a b else bv_urem (ty_width t) a b).
Proof.
  intros ret a1 a2 ρ g Q k c1 x1 c2 x2 Hr S1 S2 N1 N2 [Hp _] HQ. apply wpv_post. vopen.
  pose proof S1 as (_ & R1 & X1). pose proof S2 as (_ & [R2 _] & _).
  vnew t0 H0. vconst z ρ1 Hs Hz. apply wpv_bind.
  pose proof (divu2_value t c1 c2 R1 Hp R2) as Hv.
  assert (T1 : src ρ1 a1 t c1 x1) by (eapply src_weaken; [eassumption|vs]).
  assert (T2 : src ρ1 a2 t c2 x2) by (eapply src_weaken; [eassumption|vs]).
  assert (Hin : vreads ρ1 [a1; z; a2] [t; t; t] [c1; 0; c2]).
  { cbn. split; [by eapply src_value|]. split; [|split; [by eapply src_value|done]].
    eexists _, _. rewrite Hz. unfold const_var, full. cbn. by rewrite wrap_0. }
  destruct quotient.
  - eapply (wpv_op2 i (INDEX_op_divu2 t) ret t0 [a1; z; a2] []); [done|done|neq|lk|done|lk|done|exact Hin|exact Hv|].
    vfree. eexists. split; [|apply (HQ e)]. vsub.
  - eapply (wpv_op2 i (INDEX_op_divu2 t) t0 ret [a1; z; a2] []); [done|done|neq|lk|done|lk|done|exact Hin|exact Hv|].
    vfree. eexists. split; [|apply (HQ e)]. vsub.
Qed.

Lemma guard_true b r : b = true → guard_ b r = Some r.
Proof. by intros ->. Qed.

Lemma spec_div t : apart_spec (tcg_gen_div TT t) t (sdiv_pre t) (bv_sdiv (ty_width t)).
Proof.
  unfold tcg_gen_div. apply (value_then_sym _ SYM_div); [|by intros ???? [_ ?]].
  destruct (TCG_TARGET_HAS_div TT t); [|destruct (TCG_TARGET_HAS_div2 TT t)].
  - apply value_op; try done. intros ???? [? _]. by apply guard_true.
  - apply (value_div2 t true).
  - apply value_call. intros ????? [? _]. by apply call_div.
Qed.
Lemma spec_divu t : apart_spec (tcg_gen_divu TT t) t udiv_pre (bv_udiv (ty_width t)).
Proof.
  unfold tcg_gen_divu. apply (value_then_sym _ SYM_divu); [|by intros ???? [_ ?]].
  destruct (TCG_TARGET_HAS_div TT t); [|destruct (TCG_TARGET_HAS_div2 TT t)].
  - apply value_op; try done. intros ???? [? _]. apply guard_true. lia.
  - apply (value_divu2 t true).
  - apply value_call. intros ????? [? _]. by apply call_divu.
Qed.

(** The remainders, on a target that has the operation, or computes it with a
    double-word division or a helper. *)
Lemma spec_rem t :
  TCG_TARGET_HAS_rem TT t = true ∨ TCG_TARGET_HAS_div TT t = false →
  apart_spec (tcg_gen_rem TT t) t (sdiv_pre t) (bv_srem (ty_width t)).
Proof.
  intros HT. unfold tcg_gen_rem. apply (value_then_sym _ SYM_rem); [|by intros ???? [_ ?]].
  destruct (TCG_TARGET_HAS_rem TT t); [|destruct HT as [?|HT]; [done|rewrite HT]; destruct (TCG_TARGET_HAS_div2 TT t)].
  - apply value_op; try done. intros ???? [? _]. by apply guard_true.
  - apply (value_div2 t false).
  - apply value_call. intros ????? [? _]. by apply call_rem.
Qed.
Lemma value_remu t :
  TCG_TARGET_HAS_rem TT t = true ∨ TCG_TARGET_HAS_div TT t = false →
  value_spec (λ ret a1 a2,
    if TCG_TARGET_HAS_rem TT t then tcg_gen_op3_t (INDEX_op_remu t) ret a1 a2
    else if TCG_TARGET_HAS_div TT t then
      t0 ← tcg_temp_ebb_new t; tcg_gen_op3_t (INDEX_op_divu t) t0 a1 a2;;
      tcg_gen_mul t t0 t0 a2;; tcg_gen_sub t ret a1 t0;; tcg_temp_free_internal t0
    else if TCG_TARGET_HAS_div2 TT t then
      t0 ← tcg_temp_ebb_new t; zero ← tcg_constant t 0;
      tcg_gen_op5_t (INDEX_op_divu2 t) t0 ret a1 zero a2;; tcg_temp_free_internal t0
    else tcg_gen_callN (HELPER_remu t) (Some ret) [a1; a2]) t udiv_pre (bv_urem (ty_width t)).
Proof.
  intros HT. destruct (TCG_TARGET_HAS_rem TT t); [|destruct HT as [?|HT]; [done|rewrite HT]; destruct (TCG_TARGET_HAS_div2 TT t)].
  - apply value_op; try done. intros ???? [? _]. apply guard_true. lia.
  - apply (value_divu2 t false).
  - apply value_call. intros ????? [? _]. by apply call_remu.
Qed.
Lemma spec_remu_i32 :
  TCG_TARGET_HAS_rem TT I32 = true ∨ TCG_TARGET_HAS_div TT I32 = false →
  apart_spec (tcg_gen_remu TT I32) I32 udiv_pre (bv_urem 32).
Proof.
  intros HT. apply (value_then_sym _ SYM_remu I32); [|by intros ???? [_ ?]]. by apply value_remu.
Qed.

(** ** Logic with complement *)

Lemma value_not_then m t f :
  binary_spec i m t any2 f →
  value_spec (λ ret a1 a2, t0 ← tcg_temp_ebb_new t; tcg_gen_not TT t t0 a2;; m ret a1 t0;;
      tcg_temp_free_internal t0) t any2 (λ a b, f a (bv_not (ty_width t) b)).
Proof.
  intros Hm ret a1 a2 ρ g Q k c1 x1 c2 x2 Hr S1 S2 N1 N2 _ HQ. apply wpv_post. vopen.
  vnew t0 H0. apply wpv_bind. vun spec_not. apply wpv_bind. vbin Hm. vfree. vdone (HQ (Exp (ty_width t)
    (f c1 (bv_not (ty_width t) c2)) (f x1 (bv_not (ty_width t) x2)))).
Qed.
Lemma value_then_not m t f :
  binary_spec i m t any2 f →
  (∀ a b, in_range (ty_width t) a → in_range (ty_width t) b → in_range (ty_width t) (f a b)) →
  value_spec (λ ret a1 a2, m ret a1 a2;; tcg_gen_not TT t ret ret) t any2
    (λ a b, bv_not (ty_width t) (f a b)).
Proof.
  intros Hm Hf ret a1 a2 ρ g Q k c1 x1 c2 x2 Hr S1 S2 N1 N2 _ HQ. apply wpv_post. vopen.
  pose proof S1 as (_ & ? & ?). pose proof S2 as (_ & ? & ?).
  apply wpv_bind. vbin Hm. eapply spec_not; [vd|apply src_new; auto|done|].
  vdone (HQ (Exp (ty_width t) (bv_not (ty_width t) (f c1 c2)) (bv_not (ty_width t) (f x1 x2)))).
Qed.

Lemma spec_andc t : apart_spec (tcg_gen_andc TT t) t any2 (λ a b, Z.land a (bv_not (ty_width t) b)).
Proof.
  unfold tcg_gen_andc. apply (value_then_sym _ SYM_andc); [|done].
  destruct (TCG_TARGET_HAS_andc TT t); [by apply value_op|by apply (value_not_then (tcg_gen_and t)), spec_and].
Qed.
Lemma spec_orc t : apart_spec (tcg_gen_orc TT t) t any2 (λ a b, Z.lor a (bv_not (ty_width t) b)).
Proof.
  unfold tcg_gen_orc. apply (value_then_sym _ SYM_orc); [|done].
  destruct (TCG_TARGET_HAS_orc TT t); [by apply value_op|by apply (value_not_then (tcg_gen_or t)), spec_or].
Qed.
Lemma spec_eqv t : apart_spec (tcg_gen_eqv TT t) t any2 (λ a b, bv_not (ty_width t) (Z.lxor a b)).
Proof.
  unfold tcg_gen_eqv. apply (value_then_sym _ SYM_eqv); [|done]. pose proof (ty_width_pos t).
  destruct (TCG_TARGET_HAS_eqv TT t); [by apply value_op|].
  apply (value_then_not (tcg_gen_xor t)); [apply spec_xor|]. intros. rng.
Qed.
Lemma spec_nand t : apart_spec (tcg_gen_nand TT t) t any2 (λ a b, bv_not (ty_width t) (Z.land a b)).
Proof.
  unfold tcg_gen_nand. apply (value_then_sym _ SYM_nand); [|done]. pose proof (ty_width_pos t).
  destruct (TCG_TARGET_HAS_nand TT t); [by apply value_op|].
  apply (value_then_not (tcg_gen_and t)); [apply spec_and|]. intros. rng.
Qed.
Lemma spec_nor t : apart_spec (tcg_gen_nor TT t) t any2 (λ a b, bv_not (ty_width t) (Z.lor a b)).
Proof.
  unfold tcg_gen_nor. apply (value_then_sym _ SYM_nor); [|done]. pose proof (ty_width_pos t).
  destruct (TCG_TARGET_HAS_nor TT t); [by apply value_op|].
  apply (value_then_not (tcg_gen_or t)); [apply spec_or|]. intros. rng.
Qed.

(** ** Rotation *)

Lemma rol_shifts w a s : is_width w → in_range w a → 0 ≤ s < w →
  rol w a s = Z.lor (bv_shl w a s) (bv_lshr w a (w - s)).
Proof.
  intros Hw Ha Hs. unfold rol. rewrite land_neg_width, land_width, mod_neg, Z.mod_small by (done || lia).
  unfold bv_shl, bv_lshr. destruct (Z.eqb_spec s 0); zbits.
Qed.
Lemma ror_shifts w a s : is_width w → in_range w a → 0 ≤ s < w →
  ror w a s = Z.lor (bv_lshr w a s) (bv_shl w a (w - s)).
Proof.
  intros Hw Ha Hs. unfold ror. rewrite land_neg_width, land_width, mod_neg, Z.mod_small by (done || lia).
  unfold bv_shl, bv_lshr. destruct (Z.eqb_spec s 0); zbits.
Qed.

Lemma ty_is_width t : is_width (ty_width t).
Proof. apply reg_is_width, ty_reg_width. Qed.

(** Without the operation, a rotation by zero needs a shift by the width,
    which the operations do not define. *)
Definition rot_pre (t : RegType) (c1 x1 c2 x2 : Z) : Prop :=
  c2 < ty_width t ∧ x2 < ty_width t ∧ (TCG_TARGET_HAS_rot TT t = true ∨ 0 < c2).

Lemma sub_width t s : in_range (ty_width t) s → s < ty_width t →
  bv_sub (ty_width t) (wrap (ty_width t) (ty_width t)) s = ty_width t - s.
Proof.
  intros [? ?] ?. pose proof (ty_width_pos t). unfold bv_sub.
  rewrite (wrap_small _ (ty_width t)) by (apply count_fits; lia). apply wrap_small, count_fits. lia.
Qed.

Lemma spec_rotl t : binary_spec i (tcg_gen_rotl TT t) t (rot_pre t) (rol (ty_width t)).
Proof.
  unfold tcg_gen_rotl, rot_pre. destruct (TCG_TARGET_HAS_rot TT t).
  { apply (sym_binary i SYM_rotate_left); try done. intros ???? _ _ _ _ (? & ? & _).
    split; [by apply guard_lt|done]. }
  intros ret a1 a2 ρ g Q k c1 x1 c2 x2 Hr S1 S2 (Hc & Hx & [?|H0]) HQ; [done|].
  pose proof S1 as (_ & R1 & X1). pose proof S2 as (_ & R2 & X2). pose proof R2 as [? _]. pose proof X2 as [? _].
  pose proof (ty_width_pos t). pose proof (ty_is_width t).
  rewrite !rol_shifts in HQ by (done || lia). apply wpv_post. vopen. vnew t0 F0. vnew t1 F1.
  apply wpv_bind. vbin spec_shl. apply wpv_bind. vun spec_subfi. rewrite !sub_width by done.
  apply wpv_bind. eapply spec_shr; [vd|vs|vs|unfold small2; lia|]. apply wpv_bind.
  vbin spec_or. apply wpv_bind. vfree. vfree. vdone HQ.
Qed.
Lemma spec_rotr t : binary_spec i (tcg_gen_rotr TT t) t (rot_pre t) (ror (ty_width t)).
Proof.
  unfold tcg_gen_rotr, rot_pre. destruct (TCG_TARGET_HAS_rot TT t).
  { apply (sym_binary i SYM_rotate_right); try done. intros ???? _ _ _ _ (? & ? & _).
    split; [by apply guard_lt|done]. }
  intros ret a1 a2 ρ g Q k c1 x1 c2 x2 Hr S1 S2 (Hc & Hx & [?|H0]) HQ; [done|].
  pose proof S1 as (_ & R1 & X1). pose proof S2 as (_ & R2 & X2). pose proof R2 as [? _]. pose proof X2 as [? _].
  pose proof (ty_width_pos t). pose proof (ty_is_width t).
  rewrite !ror_shifts in HQ by (done || lia). apply wpv_post. vopen. vnew t0 F0. vnew t1 F1.
  apply wpv_bind. vbin spec_shr. apply wpv_bind. vun spec_subfi. rewrite !sub_width by done.
  apply wpv_bind. eapply spec_shl; [vd|vs|vs|unfold small2; lia|]. apply wpv_bind.
  vbin spec_or. apply wpv_bind. vfree. vfree. vdone HQ.
Qed.

Lemma rol_0 w a : is_width w → in_range w a → rol w a 0 = a.
Proof.
  intros Hw Ha. pose proof (width_pos w Hw). rewrite rol_shifts by (done || lia).
  unfold bv_shl, bv_lshr. zbits.
Qed.

Lemma spec_rotli t n : 0 ≤ n < ty_width t →
  unary_spec i (λ r a, tcg_gen_rotli TT t r a n) t any1 (λ c, rol (ty_width t) c n).
Proof.
  intros Hn ret a ρ g Q k c x Hr S1 _ HQ. pose proof S1 as (_ & R1 & X1).
  pose proof (ty_width_pos t). pose proof (ty_is_width t).
  apply wpv_bind, wpv_assert; [lia|]. destruct (Z.eqb_spec n 0) as [->|].
  { eapply spec_mov; [done..|]. by rewrite !rol_0 in HQ. }
  assert (Hw : wrap (ty_width t) n = n) by (apply wrap_small, count_fits; lia).
  destruct (TCG_TARGET_HAS_rot TT t) eqn:HT.
  - assert (Hs : unary_spec i (λ r a, c ← tcg_constant t n; tcg_gen_rotl TT t r a c) t any1
      (λ c, rol (ty_width t) c n)); [|by eapply Hs].
    eapply unary_case; [apply imm_right, spec_rotl| |by rewrite Hw]. intros. rewrite Hw. unfold rot_pre. auto with lia.
  - rewrite !rol_shifts in HQ by (done || lia). apply wpv_post. vopen. vnew t0 F0. vnew t1 F1.
    apply wpv_bind. eapply spec_shli; [lia|vd|vs|done|]. apply wpv_bind.
    eapply spec_shri; [lia|vd|vs|done|]. apply wpv_bind. vbin spec_or. apply wpv_bind. vfree. vfree. vdone HQ.
Qed.

Lemma spec_rotri t n : 0 ≤ n < ty_width t →
  unary_spec i (λ r a, tcg_gen_rotri TT t r a n) t any1 (λ c, ror (ty_width t) c n).
Proof.
  intros Hn ret a ρ g Q k c x Hr S1 _ HQ. pose proof S1 as (_ & R1 & X1). pose proof (ty_is_width t).
  apply wpv_bind, wpv_assert; [lia|]. rewrite <- !rol_ror_neg in HQ by done.
  destruct (Z.eqb_spec n 0) as [->|].
  { eapply spec_mov; [done..|]. by rewrite !rol_0 in HQ. }
  eapply spec_rotli; [lia|done..|]. 
  assert (E : ∀ v, in_range (ty_width t) v → rol (ty_width t) v (ty_width t - n) = rol (ty_width t) v (- n)).
  { intros v Hv. apply (range_ext (ty_width t)); [auto with range..|]. intros j Hj.
    rewrite !testbit_rol by done. f_equal. replace (j - (ty_width t - n)) with (j - - n + (-1) * ty_width t) by lia.
    apply Z.mod_add. lia. }
  by rewrite !E.
Qed.

(** ** Bit fields *)

Lemma src_inj ρ a t c x c' x' : src ρ a t c x → src ρ a t c' x' → c' = c ∧ x' = x.
Proof. intros [(k & H) _] [(k' & H') _]. rewrite H in H'. unfold full in H'. by simplify_eq. Qed.

Lemma extract2_rot w a ofs : is_width w → in_range w a → 0 < ofs < w → extract2_val w a a ofs = ror w a ofs.
Proof. intros. rewrite ror_shifts by (done || lia). unfold extract2_val, bv_lshr, bv_shl. zbits. Qed.
Lemma extract2_0 w ah al : 0 < w → in_range w al → extract2_val w ah al 0 = al.
Proof. intros. unfold extract2_val. zbits. Qed.
Lemma extract2_w w ah al : 0 < w → in_range w al → in_range w ah → extract2_val w ah al w = ah.
Proof. intros. unfold extract2_val. zbits. Qed.

Lemma spec_gen_extract2 t ofs default ret al ah ρ g (Q : unit → vars → ghost → Prop) k cl xl ch xh :
  let w := ty_width t in
  0 ≤ ofs ≤ w → dst ρ ret t k → src ρ al t cl xl → src ρ ah t ch xh →
  TCG_TARGET_HAS_extract2 TT t = true ∨ (0 < ofs < w → wpv default ρ g Q) →
  Q tt (<[ret := full k t (extract2_val w ch cl ofs) (extract2_val w xh xl ofs)]> ρ) g →
  wpv (gen_extract2 TT t ret al ah ofs default) ρ g Q.
Proof.
  intros w Ho Hr Sl Sh Hd HQ. pose proof Sl as (_ & Rl & Xl). pose proof Sh as (_ & Rh & Xh).
  pose proof (ty_width_pos t). pose proof (ty_is_width t). fold w in Rl, Xl, Rh, Xh.
  apply wpv_bind, wpv_assert; [lia|]. destruct (Z.eqb_spec ofs 0) as [->|].
  { eapply spec_mov; [done..|]. by rewrite 2!extract2_0 in HQ by (done || lia). }
  destruct (Z.eqb_spec ofs (ty_width t)) as [->|].
  { eapply spec_mov; [done..|]. by rewrite 2!extract2_w in HQ by (done || lia). }
  destruct (Nat.eqb_spec al ah) as [->|].
  { destruct (src_inj _ _ _ _ _ _ _ Sl Sh) as [-> ->]. rewrite 2!extract2_rot in HQ by (done || lia).
    eapply spec_rotri; [lia|done..]. }
  destruct (TCG_TARGET_HAS_extract2 TT t) eqn:HT.
  - apply wpv_post. vopen. vconst z ρ' Hs Hz. apply wpv_bind; eapply wpv_temp_expr; [lk|].
    apply wpv_bind; eapply wpv_temp_expr; [lk|]. apply wpv_bind; eapply wpv_temp_expr; [lk|]. apply wpv_bind.
    apply (src_weaken _ _ _ _ _ _ Hs) in Sl, Sh.
    eapply (wpv_half i _ (INDEX_op_extract2 t) ret [V ah; E ah; V al; E al; V z] _ [al; ah] [ofs])
      with (cs := [cl; ch]); [intros p; by apply (call_sym_extract2 i t ofs ch xh cl xl)| |lk|done..| | |].
    + cbn. repeat (split; [by eauto using src_value, src_expr|]). split; [|done]. eexists _, _. rewrite Hz.
      unfold const_var, full. cbn. rewrite (wrap_small 64 ofs); [done|].
      apply (in_range_le w); [lia|]. apply count_fits. lia.
    + cbn. eauto 10 using src_value.
    + apply guard_true. lia.
    + eexists. split; [|exact HQ]. by apply insert_mono.
  - destruct Hd as [?|Hd]; [done|apply Hd; lia].
Qed.

Lemma wpv_assert_field t ofs len ρ g (Q : unit → vars → ghost → Prop) :
  0 ≤ ofs → 0 < len → ofs + len ≤ ty_width t → Q tt ρ g → wpv (assert_field t ofs len) ρ g Q.
Proof. intros. repeat (apply wpv_bind, wpv_assert; [lia|]). apply wpv_assert; [lia|done]. Qed.

(** Constants for the position and the length of a field. *)
Lemma const_value_in (ρ : vars) (z : nat) t n : ρ !! z = Some (const_var t n) → 0 ≤ n ≤ ty_width t →
  ∃ k e, ρ !! z = Some (Var k t (Num n) e).
Proof.
  intros Hz Hn. eexists _, _. rewrite Hz. unfold const_var, full. cbn [const_num var_width].
  by rewrite (wrap_small _ n) by (by apply count_fits).
Qed.

Lemma spec_gen_deposit t ofs len :
  0 ≤ ofs → 0 < len → ofs + len ≤ ty_width t → len < ty_width t →
  binary_spec i (λ r a1 a2, gen_deposit t r a1 a2 ofs len) t any2 (λ a b, put_field a ofs len b).
Proof.
  intros Ho Hl Hs Hw ret a1 a2 ρ g Q k c1 x1 c2 x2 Hr S1 S2 _ HQ. apply wpv_post. vopen.
  apply wpv_bind; eapply wpv_temp_expr; [lk|]. apply wpv_bind; eapply wpv_temp_expr; [lk|].
  apply wpv_bind; eapply wpv_temp_expr; [lk|].
  vconst zo ρ1 Hs1 Hzo. vconst zl ρ2 Hs2 Hzl. apply wpv_bind.
  apply (src_weaken _ _ _ _ _ _ Hs1), (src_weaken _ _ _ _ _ _ Hs2) in S1, S2.
  assert (Hf : field_ok (ty_width t) ofs len = true) by (by apply field_ok_spec).
  eapply (wpv_half i _ (INDEX_op_deposit t) ret [V a1; E a1; V a2; E a2; V zo; V zl] _ [a1; a2] [ofs; len])
    with (cs := [c1; c2]); [intros p; by apply (call_sym_deposit i t ofs len c1 x1 c2 x2)| |lk|done..| | |].
  - cbn. repeat (split; [by eauto using src_value, src_expr|]).
    split; [eapply const_value_in; [lk|lia]|]. split; [eapply const_value_in; [lk|lia]|done].
  - cbn. eauto 10 using src_value.
  - by apply guard_true.
  - eexists. split; [|exact HQ]. apply insert_mono. by etrans.
Qed.

Lemma deposit_full w a b : 0 < w → in_range w a → in_range w b → put_field a 0 w b = b.
Proof. intros. unfold put_field. zbits. Qed.
Lemma deposit_top w a b len : 0 < len < w → in_range w a → in_range w b →
  extract2_val w b (bv_shl w a len) len = put_field a (w - len) len b.
Proof. intros. unfold extract2_val, bv_shl, put_field. zbits. Qed.
Lemma deposit_low w a b len : is_width w → 0 < len < w → in_range w a → in_range w b →
  rol w (extract2_val w b a len) len = put_field a 0 len b.
Proof.
  intros Hw Hl Ha Hb. assert (in_range w (extract2_val w b a len)) by (apply wrap_range; lia).
  rewrite rol_shifts by (done || lia). unfold bv_shl, bv_lshr, extract2_val, put_field. zbits.
Qed.
Lemma deposit_mask w a b ofs len : 0 ≤ ofs → 0 < len → ofs + len ≤ w → in_range w a → in_range w b →
  Z.lor (Z.land a (wrap w (sgn w (Z.lnot (Z.shiftl (Z.ones len) ofs)))))
    (bv_shl w (Z.land b (wrap w (Z.ones len))) ofs) = put_field a ofs len b.
Proof. intros. unfold bv_shl, put_field. zbits. Qed.
Lemma deposit_mask_top w a b ofs len : 0 ≤ ofs → 0 < len → ofs + len = w → in_range w a → in_range w b →
  Z.lor (Z.land a (wrap w (sgn w (Z.lnot (Z.shiftl (Z.ones len) ofs))))) (bv_shl w b ofs)
  = put_field a ofs len b.
Proof. intros. unfold bv_shl, put_field. zbits. Qed.

Lemma extract2_range w ah al ofs : 0 ≤ w → in_range w (extract2_val w ah al ofs).
Proof. intros. by apply wrap_range. Qed.

Lemma spec_deposit_mask t ofs len ret a1 a2 (t1 : nat) ρ g (Q : unit → vars → ghost → Prop) k k1 c1 x1 c2 x2 :
  0 ≤ ofs → 0 < len → ofs + len ≤ ty_width t → len ≠ ty_width t →
  dst ρ ret t k → src ρ a1 t c1 x1 → src ρ a2 t c2 x2 → dst ρ t1 t k1 → t1 ≠ ret → t1 ≠ a1 →
  (∀ v e, Q tt (<[ret := full k t (put_field c1 ofs len c2) (put_field x1 ofs len x2)]>
    (<[t1 := Var k1 t v e]> ρ)) g) →
  wpv ((if ofs + len <? ty_width t then tcg_gen_andi TT t t1 a2 (Z.ones len);; tcg_gen_shli t t1 t1 ofs
        else tcg_gen_shli t t1 a2 ofs);;
       tcg_gen_andi TT t ret a1 (sgn (ty_width t) (Z.lnot (Z.shiftl (Z.ones len) ofs)));;
       tcg_gen_or t ret ret t1) ρ g Q.
Proof.
  intros Ho Hl Hs Hne Hr S1 S2 H1 N1 N2 HQ. pose proof (ty_width_pos t).
  pose proof S1 as (_ & R1 & X1). pose proof S2 as (_ & R2 & X2). vopen. apply wpv_bind.
  destruct (Z.ltb_spec (ofs + len) (ty_width t)).
  - apply wpv_bind. vun spec_andi. eapply spec_shli; [lia|vd|vs|done|]. rewrite insert_insert_eq.
    apply wpv_bind. vun spec_andi. vbin spec_or. rewrite insert_insert_eq, !deposit_mask by done. apply HQ.
  - eapply spec_shli; [lia|vd|vs|done|].
    apply wpv_bind. vun spec_andi. vbin spec_or. rewrite insert_insert_eq, !deposit_mask_top by (done || lia). apply HQ.
Qed.

Lemma spec_deposit t ofs len :
  0 ≤ ofs → 0 < len → ofs + len ≤ ty_width t →
  binary_spec i (λ r a1 a2, tcg_gen_deposit TT t r a1 a2 ofs len) t any2 (λ a b, put_field a ofs len b).
Proof.
  intros Ho Hl Hs ret a1 a2 ρ g Q k c1 x1 c2 x2 Hr S1 S2 _ HQ.
  pose proof S1 as (_ & R1 & X1). pose proof S2 as (_ & R2 & X2).
  pose proof (ty_width_pos t). pose proof (ty_is_width t). pose proof (extract2_range (ty_width t)).
  apply wpv_bind, wpv_assert_field; [done..|]. destruct (Z.eqb_spec len (ty_width t)) as [->|].
  { assert (ofs = 0) as -> by lia. eapply spec_mov; [done..|]. by rewrite !deposit_full in HQ by (done || lia). }
  destruct (TCG_TARGET_HAS_deposit TT t && TCG_TARGET_deposit_valid TT t ofs len).
  { eapply spec_gen_deposit; [lia..|done|done|done|done|done]. }
  apply wpv_post. vopen. vnew t1 F1. apply wpv_bind.
  destruct (TCG_TARGET_HAS_extract2 TT t) eqn:HT; cbn [andb]; [destruct (Z.eqb_spec (ofs + len) (ty_width t));
    [|destruct (Z.eqb_spec ofs 0) as [->|]]|].
  - apply wpv_bind. eapply spec_shli; [lia|vd|vs|done|].
    eapply spec_gen_extract2; [lia|vd|vs|vs|by left|]. rewrite !deposit_top by (done || lia).
    replace (ty_width t - len) with ofs by lia. vfree. vdone HQ.
  - apply wpv_bind. eapply spec_gen_extract2; [lia|vd|vs|vs|by left|].
    eapply spec_rotli; [lia|vd|apply src_new; auto with lia|done|].
    rewrite !deposit_low by (done || lia). vfree. vdone HQ.
  - eapply spec_deposit_mask; [done..|vd|vs|vs|vd|neq|neq|]. intros v0 e0. vfree. vdone HQ.
  - eapply spec_deposit_mask; [done..|vd|vs|vs|vd|neq|neq|]. intros v0 e0. vfree. vdone HQ.
Qed.

Lemma spec_extract2 t ofs ret al ah ρ g (Q : unit → vars → ghost → Prop) k cl xl ch xh :
  let w := ty_width t in
  0 ≤ ofs ≤ w → dst ρ ret t k → src ρ al t cl xl → src ρ ah t ch xh →
  Q tt (<[ret := full k t (extract2_val w ch cl ofs) (extract2_val w xh xl ofs)]> ρ) g →
  wpv (tcg_gen_extract2 TT t ret al ah ofs) ρ g Q.
Proof.
  intros w Ho Hr Sl Sh HQ. pose proof Sl as (_ & Rl & Xl). pose proof Sh as (_ & Rh & Xh).
  pose proof (ty_width_pos t). fold w in Rl, Xl, Rh, Xh.
  eapply spec_gen_extract2; [done..| |done]. right. intros Ho'. apply wpv_post. vopen. vnew t0 F0.
  apply wpv_bind. eapply spec_shri; [lia|vd|vs|done|]. apply wpv_bind.
  eapply spec_deposit; [lia|lia|lia|vd|vs|vs|done|]. vfree.
  assert (E : ∀ h l, in_range w l → in_range w h →
    put_field (bv_lshr w l ofs) (w - ofs) ofs h = extract2_val w h l ofs).
  { intros. unfold put_field, bv_lshr, extract2_val. zbits. }
  rewrite <- !E in HQ by done. vdone HQ.
Qed.
End Spec.
