(* ===== verification/GenConvSpec.v ===== *)
(** What the generators of [GenAlu] promise, continued: reading and placing
    bit fields, byte swaps, absolute value, extension from 32 to 64 bits. *)
From S2P Require Import Prelude Cond Bitops Backend SymHelpers SymMemory Ops Temps Exec Logic Calls Vars GenCore.
From S2P Require Import GenCoreSpec GenAlu GenAluSpec.

Section Spec.
Context `{SL : ShadowLaws} {BL : BackendLaws B BS}.
Context (i : Input) (TT : Target) (tcg_env : nat).
Implicit Types (t ty : RegType).

Abbreviation wpv := (wpv i).
Abbreviation unary_spec := (unary_spec i).
Abbreviation binary_spec := (binary_spec i).

(** ** Bit fields *)

Lemma has_extu_bits t bits : has_extu TT t bits = true →
  (bits = 8 ∨ bits = 16 ∨ bits = 32) ∧ bits ≤ ty_width t ∧ (t = I32 → bits ≠ 32).
Proof.
  unfold has_extu. destruct t; cbn [ty_width]; [|destruct (Z.eqb_spec bits 32) as [->|]; [by auto with lia|]];
    destruct (Z.eqb_spec bits 16) as [->|]; try (split; [auto|done]);
    destruct (Z.eqb_spec bits 8) as [->|]; try done; split; auto; done.
Qed.
Lemma spec_gen_extu t bits : has_extu TT t bits = true → unary_spec (gen_extu TT t bits) t any1 (wrap bits).
Proof.
  intros (Hb & Hw & Ht)%has_extu_bits. unfold gen_extu. destruct Hb as [-> | [-> | ->]]; cbn.
  - apply spec_ext8u.
  - apply spec_ext16u.
  - destruct t; [by specialize (Ht eq_refl)|]. apply spec_ext32u.
Qed.
Lemma has_exts_bits t bits : has_exts TT t bits = true →
  (bits = 8 ∨ bits = 16 ∨ bits = 32) ∧ bits ≤ ty_width t ∧ (t = I32 → bits ≠ 32).
Proof.
  unfold has_exts. destruct t; cbn [ty_width]; [|destruct (Z.eqb_spec bits 32) as [->|]; [by auto with lia|]];
    destruct (Z.eqb_spec bits 16) as [->|]; try (split; [auto|done]);
    destruct (Z.eqb_spec bits 8) as [->|]; try done; split; auto; done.
Qed.
Lemma spec_gen_exts t bits :
  bits = 8 ∨ bits = 16 ∨ bits = 32 → (t = I32 → bits ≠ 32) →
  unary_spec (gen_exts TT t bits) t any1 (λ c, wrap (ty_width t) (sgn bits c)).
Proof.
  intros Hb Ht. unfold gen_exts. destruct Hb as [-> | [-> | ->]]; cbn.
  - apply spec_ext8s.
  - apply spec_ext16s.
  - destruct t; [by specialize (Ht eq_refl)|]. apply spec_ext32s.
Qed.

(** The rule for a generator that first asserts that the field is valid. *)
Lemma field_spec m t ofs len f :
  0 ≤ ofs → 0 < len → ofs + len ≤ ty_width t → unary_spec m t any1 f →
  unary_spec (λ r a, assert_field t ofs len;; m r a) t any1 f.
Proof.
  intros Ho Hl Hs Hm ret a ρ g Q k c x Hr Ha Hp HQ. apply wpv_bind, wpv_assert_field; [done..|].
  by eapply Hm.
Qed.

(** Two generators in sequence, for a result written in one formula. *)
Lemma spec_two m1 m2 t f1 f2 f :
  unary_spec m1 t any1 f1 → unary_spec m2 t any1 f2 →
  (∀ x, in_range (ty_width t) x → in_range (ty_width t) (f1 x)) →
  (∀ x, in_range (ty_width t) x → f2 (f1 x) = f x) →
  unary_spec (λ r a, m1 r a;; m2 r r) t any1 f.
Proof. intros H1 H2 Hr Hf. eapply unary_case; [by eapply (spec_then i m1 m2)|done|done]. Qed.

Lemma spec_gen_field h opc t ofs len f :
  0 ≤ ofs → 0 < len → ofs + len ≤ ty_width t → is_mov opc = false → op_def opc = ([t], [t], 2%nat) →
  (∀ c x p, call_ok i h [AExp (ty_width t) c x; ANum t ofs; ANum t len] I64
     (Exp (ty_width t) (f c) (f x)) p p) →
  (∀ c, op_val opc [c] [ofs; len] = Some [f c]) →
  unary_spec (λ ret arg,
    er ← temp_expr ret; ea ← temp_expr arg; co ← tcg_constant t ofs; cl ← tcg_constant t len;
    tcg_gen_callN h (Some er) [ea; co; cl];; tcg_gen_op4ii_t opc ret arg ofs len) t any1 f.
Proof.
  intros Ho Hl Hs Hmov Hdef Hh Hop ret a ρ g Q k c x Hr S1 _ HQ. apply wpv_post. vopen.
  apply wpv_bind; eapply wpv_temp_expr; [lk|]. apply wpv_bind; eapply wpv_temp_expr; [lk|].
  vconst zo ρ1 Hs1 Hzo. vconst zl ρ2 Hs2 Hzl. apply wpv_bind.
  apply (src_weaken _ _ _ _ _ _ Hs1), (src_weaken _ _ _ _ _ _ Hs2) in S1.
  eapply (wpv_half i _ opc ret [E a; V zo; V zl] _ [a] [ofs; len]) with (cs := [c]);
    [by apply Hh| |lk|done..| | |].
  - cbn. split; [by eapply src_expr|]. split; [eapply const_value_in; [lk|lia]|].
    split; [eapply const_value_in; [lk|lia]|done].
  - cbn. eauto 10 using src_value.
  - done.
  - eexists. split; [|exact HQ]. apply insert_mono. by etrans.
Qed.

Lemma zext_field w ofs len x : 0 ≤ ofs → 0 < len → ofs + len ≤ w → in_range w x →
  bv_lshr w (wrap (ofs + len) x) ofs = wrap len (Z.shiftr x ofs).
Proof. intros. unfold bv_lshr. zbits. Qed.
Lemma and_field w ofs len x : 0 ≤ ofs → 0 < len → ofs + len ≤ w → in_range w x →
  Z.land (bv_lshr w x ofs) (wrap w (Z.ones len)) = wrap len (Z.shiftr x ofs).
Proof. intros. unfold bv_lshr. zbits. Qed.
Lemma shift_field w ofs len x : 0 ≤ ofs → 0 < len → ofs + len ≤ w → in_range w x →
  bv_lshr w (bv_shl w x (w - len - ofs)) (w - len) = wrap len (Z.shiftr x ofs).
Proof. intros. unfold bv_lshr, bv_shl. zbits. Qed.

Lemma spec_extract t ofs len :
  0 ≤ ofs → 0 < len → ofs + len ≤ ty_width t →
  unary_spec (λ r a, tcg_gen_extract TT t r a ofs len) t any1 (λ c, wrap len (Z.shiftr c ofs)).
Proof.
  intros Ho Hl Hs. pose proof (ty_width_pos t). apply field_spec; [done..|].
  destruct (Z.eqb_spec (ofs + len) (ty_width t)); [|destruct (Z.eqb_spec ofs 0) as [->|];
    [|destruct (TCG_TARGET_HAS_extract TT t && TCG_TARGET_extract_valid TT t ofs len);
    [|destruct (has_extu TT t (ofs + len)) eqn:HT; [|destruct (_ || _) eqn:Hlen]]]].
  - eapply unary_case; [apply spec_shri; lia|done|]. intros x Hx. unfold bv_lshr. 
    replace (ty_width t - len) with ofs by lia. zbits.
  - eapply unary_case; [apply spec_andi|done|]. intros x Hx. zbits.
  - apply spec_gen_field; try done; [|by intros; apply guard_true, field_ok_spec].
    intros. by apply call_sym_extract, field_ok_spec.
  - apply (spec_two _ _ t _ _ _ (spec_gen_extu t _ HT) (spec_shri i t ofs ltac:(lia))).
    + intros. rng.
    + intros. by apply zext_field.
  - apply (spec_two _ _ t _ _ _ (spec_shri i t ofs ltac:(lia)) (spec_andi i TT t (Z.ones len))).
    + intros. rng.
    + intros. by apply and_field.
  - apply (spec_two _ _ t _ _ _ (spec_shli i t (ty_width t - len - ofs) ltac:(lia)) (spec_shri i t (ty_width t - len) ltac:(lia))).
    + intros. rng.
    + intros. by apply shift_field.
Qed.

Lemma sext_field w ofs len x : 0 ≤ ofs → 0 < len → ofs + len ≤ w → in_range w x →
  bv_ashr w (wrap w (sgn (ofs + len) x)) ofs = wrap w (sgn len (Z.shiftr x ofs)).
Proof. intros. unfold bv_ashr. zbits. Qed.
Lemma sshift_field w ofs len x : 0 ≤ ofs → 0 < len → ofs + len ≤ w → in_range w x →
  bv_ashr w (bv_shl w x (w - len - ofs)) (w - len) = wrap w (sgn len (Z.shiftr x ofs)).
Proof. intros. unfold bv_ashr, bv_shl. zbits. Qed.

Lemma spec_sextract t ofs len :
  0 ≤ ofs → 0 < len → ofs + len ≤ ty_width t →
  unary_spec (λ r a, tcg_gen_sextract TT t r a ofs len) t any1
    (λ c, wrap (ty_width t) (sgn len (Z.shiftr c ofs))).
Proof.
  intros Ho Hl Hs. pose proof (ty_width_pos t). apply field_spec; [done..|].
  destruct (Z.eqb_spec (ofs + len) (ty_width t)); [|destruct ((ofs =? 0) && _) eqn:Hlen;
    [|destruct (TCG_TARGET_HAS_sextract TT t && TCG_TARGET_extract_valid TT t ofs len);
    [|destruct (has_exts TT t (ofs + len)) eqn:HT; [|destruct (has_exts TT t len) eqn:HT']]]].
  - eapply unary_case; [apply spec_sari; lia|done|]. intros x Hx. unfold bv_ashr.
    replace (ty_width t - len) with ofs by lia. zbits.
  - assert (ofs = 0) as -> by lia. eapply unary_case; [apply spec_gen_exts|done|].
    + lia.
    + intros ->. cbn in Hs, n. lia.
    + intros x Hx. by rewrite Z.shiftr_0_r.
  - apply spec_gen_field; try done; [|by intros; apply guard_true, field_ok_spec].
    intros. by apply call_sym_sextract, field_ok_spec.
  - apply has_exts_bits in HT as (Hb & _ & Ht).
    apply (spec_two _ _ t _ _ _ (spec_gen_exts t _ Hb Ht) (spec_sari i t ofs ltac:(lia))).
    + intros. rng.
    + intros. by apply sext_field.
  - apply has_exts_bits in HT' as (Hb & _ & Ht).
    apply (spec_two _ _ t _ _ _ (spec_shri i t ofs ltac:(lia)) (spec_gen_exts t _ Hb Ht)).
    + intros. rng.
    + done.
  - apply (spec_two _ _ t _ _ _ (spec_shli i t (ty_width t - len - ofs) ltac:(lia)) (spec_sari i t (ty_width t - len) ltac:(lia))).
    + intros. rng.
    + intros. by apply sshift_field.
Qed.

(** A field in an otherwise zero word. *)
Definition place_field (w ofs len x : Z) : Z := wrap w (Z.shiftl (wrap len x) ofs).

Lemma spec_deposit_z t ofs len :
  0 ≤ ofs → 0 < len → ofs + len ≤ ty_width t →
  unary_spec (λ r a, tcg_gen_deposit_z TT t r a ofs len) t any1 (place_field (ty_width t) ofs len).
Proof.
  intros Ho Hl Hs. pose proof (ty_width_pos t). apply field_spec; [done..|].
  destruct (Z.eqb_spec (ofs + len) (ty_width t)); [|destruct (Z.eqb_spec ofs 0) as [->|];
    [|destruct (TCG_TARGET_HAS_deposit TT t && TCG_TARGET_deposit_valid TT t ofs len);
    [|destruct (has_extu TT t len) eqn:HT; [|destruct (has_extu TT t (ofs + len)) eqn:HT']]]].
  - eapply unary_case; [apply spec_shli; lia|done|]. intros x Hx. unfold bv_shl, place_field. zbits.
  - eapply unary_case; [apply spec_andi|done|]. intros x Hx. unfold place_field. zbits.
  - eapply unary_case; [apply (imm_left i (λ r a b, gen_deposit t r a b ofs len) t any2), spec_gen_deposit; lia|done|].
    intros x Hx. rewrite wrap_0. unfold put_field, place_field. zbits.
  - apply (spec_two _ _ t _ _ _ (spec_gen_extu t _ HT) (spec_shli i t ofs ltac:(lia))); [|done].
    intros. rng.
  - apply (spec_two _ _ t _ _ _ (spec_shli i t ofs ltac:(lia)) (spec_gen_extu t _ HT')).
    + intros. rng.
    + intros. unfold bv_shl, place_field. zbits.
  - apply (spec_two _ _ t _ _ _ (spec_andi i TT t (Z.ones len)) (spec_shli i t ofs ltac:(lia))).
    + intros. rng.
    + intros. unfold bv_shl, place_field. zbits.
Qed.

(** ** Byte swaps *)

Lemma spec_gen_bswap t len opc flags f :
  0 < len ≤ 8 → is_mov opc = false → op_def opc = ([t], [t], 1%nat) →
  (∀ c, in_range (ty_width t) c → bswap_domain (ty_width t) len c →
     op_val opc [c] [flags] = Some [bswap_val len c]) →
  (∀ c, bswap_domain (ty_width t) len c → bswap_val len c = f c) →
  unary_spec (λ r a, gen_bswap len opc r a flags) t
    (λ c x, bswap_domain (ty_width t) len c ∧ bswap_domain (ty_width t) len x) f.
Proof.
  intros Hl Hmov Hdef Hop Hf ret a ρ g Q k c x Hr S1 [Dc Dx] HQ. apply wpv_post. vopen.
  apply wpv_bind; eapply wpv_temp_expr; [lk|]. apply wpv_bind; eapply wpv_temp_expr; [lk|].
  vconst z ρ1 Hs1 Hz. apply wpv_bind. apply (src_weaken _ _ _ _ _ _ Hs1) in S1.
  rewrite <- !Hf in HQ by done.
  eapply (wpv_half i _ opc ret [E a; V z] _ [a] [flags]) with (cs := [c]);
    [intros; apply (call_sym_bswap i (ty_width t) len c x); [apply ty_reg_width|done]| |lk|done..| | |].
  - cbn. split; [by eapply src_expr|]. split; [|done]. eapply (const_value_in _ _ I64); [lk|cbn; lia].
  - cbn. eauto 10 using src_value.
  - apply Hop; [apply S1|done].
  - eexists. split; [|exact HQ]. by apply insert_mono.
Qed.

(** What the caller owes for the flags: with [IZ], operands that fit; and
    where the target swaps bytes itself, operands that fit and no sign
    extension, since the helper for the expression knows of neither. *)
Definition bswap16_pre (t : RegType) (flags c x : Z) : Prop :=
  if has_flag flags TCG_BSWAP_IZ || TCG_TARGET_HAS_bswap16 TT t then in_range 16 c ∧ in_range 16 x else True.

Lemma bswap16_parts w x (iz : bool) :
  16 < w → in_range w x → (iz = true → in_range 16 x) →
  let hi := if iz then bv_lshr w x 8 else wrap 8 (bv_lshr w x 8) in
  Z.lor hi (bv_ashr w (bv_shl w x (w - 8)) (w - 16)) = wrap w (sgn 16 (bswap_bytes 2 x)) ∧
  Z.lor hi (bv_shl w (wrap 8 x) 8) = bswap_bytes 2 x.
Proof.
  intros Hw Hx Hiz. unfold bv_lshr, bv_ashr, bv_shl. cbn [bswap_bytes]. change (8 * Z.of_nat 1) with 8.
  change (8 * Z.of_nat 0) with 0. destruct iz; [specialize (Hiz eq_refl)|]; cbv zeta; split; zbits.
Qed.

Lemma wpv_low_byte t (iz : bool) r ρ g (Q : unit → vars → ghost → Prop) k c x :
  ρ !! r = Some (full k t c x) → writable k = true →
  in_range (ty_width t) c → in_range (ty_width t) x →
  Q tt (<[r := full k t (if iz then c else wrap 8 c) (if iz then x else wrap 8 x)]> ρ) g →
  wpv (if negb iz then tcg_gen_ext8u TT t r r else mret tt) ρ g Q.
Proof.
  intros Hr Hk Hc Hx HQ. destruct iz; cbn [negb].
  - apply wpv_ret. by rewrite insert_id in HQ.
  - eapply spec_ext8u; [split; [by eexists _, _|done]|by split; [eexists|]|done|done].
Qed.

Lemma spec_bswap16 t flags :
  has_flag flags TCG_BSWAP_OS = negb (has_flag flags TCG_BSWAP_OZ) →
  (TCG_TARGET_HAS_bswap16 TT t = true → has_flag flags TCG_BSWAP_OS = false) →
  unary_spec (λ r a, tcg_gen_bswap16 TT t r a flags) t (bswap16_pre t flags)
    (bswap_flags (ty_width t) 2 flags).
Proof.
  intros Hfl HT ret a ρ g Q k c x Hr S1 Hp HQ. pose proof S1 as (_ & R1 & X1). pose proof (ty_width_16 t).
  pose proof (ty_width_pos t).
  apply wpv_bind, wpv_assert; [destruct (has_flag flags TCG_BSWAP_OS), (has_flag flags TCG_BSWAP_OZ); done|].
  unfold bswap16_pre in Hp. destruct (TCG_TARGET_HAS_bswap16 TT t).
  { specialize (HT eq_refl). rewrite orb_true_r in Hp. destruct Hp as [Rc Rx].
    assert (Hz : ∀ v, bswap_flags (ty_width t) 2 flags v = bswap_val 2 v).
    { intros v. unfold bswap_flags. unfold has_flag in HT. apply negb_false_iff in HT. by rewrite HT. }
    rewrite !Hz in HQ.
    eapply (spec_gen_bswap t 2); [lia|done|done| |by intros|exact Hr|exact S1|by split; left|exact HQ].
    intros v _ _. cbn. by rewrite Hz. }
  clear HT. rewrite orb_false_r in Hp. apply wpv_post. vopen. vnew t0 F0. vnew t1 F1.
  apply wpv_bind. eapply spec_shri; [lia|vd|vs|done|]. apply wpv_bind.
  set (iz := has_flag flags TCG_BSWAP_IZ) in *.
  destruct (bswap16_parts (ty_width t) c iz) as [Ec1 Ec2]; [done|done|by intros ->; apply Hp|].
  destruct (bswap16_parts (ty_width t) x iz) as [Ex1 Ex2]; [done|done|by intros ->; apply Hp|].
  assert (Hv : ∀ v, bswap_flags (ty_width t) 2 flags v =
    if has_flag flags TCG_BSWAP_OS then wrap (ty_width t) (sgn 16 (bswap_bytes 2 v)) else bswap_bytes 2 v).
  { intros u. unfold bswap_flags, has_flag. by destruct (Z.land flags TCG_BSWAP_OS =? 0). }
  rewrite !Hv in HQ.
  eapply wpv_low_byte; [lk|done|rng|rng|]. rewrite insert_insert_eq. apply wpv_bind.
  assert (Hhi : ∀ u, in_range (ty_width t) u →
    in_range (ty_width t) (if iz then bv_lshr (ty_width t) u 8 else wrap 8 (bv_lshr (ty_width t) u 8))).
  { intros. destruct iz; rng. }
  pose proof (Hhi c R1). pose proof (Hhi x X1). destruct (has_flag flags TCG_BSWAP_OS).
  - rewrite <- Ec1, <- Ex1 in HQ. apply wpv_bind. eapply spec_shli; [lia|vd|vs|done|].
    eapply spec_sari; [lia|vd|vs|done|]. rewrite insert_insert_eq. apply wpv_bind. vbin spec_or.
    apply wpv_bind. vfree. vfree. vdone HQ.
  - rewrite <- Ec2, <- Ex2 in HQ. destruct (has_flag flags TCG_BSWAP_OZ); [|done].
    apply wpv_bind. vun spec_ext8u. eapply spec_shli; [lia|vd|vs|done|]. rewrite insert_insert_eq.
    apply wpv_bind. vbin spec_or. apply wpv_bind. vfree. vfree. vdone HQ.
Qed.


Lemma spec_bswap32_i32 : unary_spec (tcg_gen_bswap32_i32 TT) I32 any1 bswap32.
Proof.
  unfold tcg_gen_bswap32_i32. destruct (TCG_TARGET_HAS_bswap32 TT I32).
  { intros ret a ρ g Q k c x Hr S1 _ HQ. pose proof S1 as (_ & R1 & X1). cbn in R1, X1.
    eapply (spec_gen_bswap I32 4); [lia|done|done|done| |exact Hr|exact S1| |exact HQ].
    - done.
    - split; right; left; done. }
  intros ret a ρ g Q k c x Hr S1 _ HQ. pose proof S1 as (_ & R1 & X1). cbn in R1, X1. apply wpv_post. vopen.
  rewrite <- !bswap32_expand in HQ by done.
  vnew t0 F0. vnew t1 F1. vconst z ρ1 Hs1 Hz. apply wpv_bind. eapply spec_shri; [cbn; lia|vd|vs|done|].
  apply wpv_bind. vbin spec_and. apply wpv_bind. vbin spec_and. apply wpv_bind.
  eapply spec_shli; [cbn; lia|vd|vs|done|]. apply wpv_bind. vbin spec_or. apply wpv_bind.
  eapply spec_shri; [cbn; lia|vd|vs|done|]. apply wpv_bind. eapply spec_shli; [cbn; lia|vd|vs|done|].
  apply wpv_bind. vbin spec_or. apply wpv_bind. vfree. vfree. vdone HQ.
Qed.


(** Without flags the bits above the sixteen are whatever the expansion leaves. *)
Definition bswap16_low (t : RegType) (v : Z) : Z :=
  if TCG_TARGET_HAS_bswap16 TT t then bswap_bytes 2 v
  else Z.lor (wrap 8 (bv_lshr (ty_width t) v 8)) (bv_shl (ty_width t) v 8).
Lemma bswap16_low_wrap t v : in_range (ty_width t) v → wrap 16 (bswap16_low t v) = bswap_bytes 2 v.
Proof.
  intros Hv. pose proof (ty_width_16 t). unfold bswap16_low.
  destruct (TCG_TARGET_HAS_bswap16 TT t); [apply wrap_small, (bswap_range 2)|].
  unfold bv_lshr, bv_shl. cbn [bswap_bytes]. change (8 * Z.of_nat 1) with 8. change (8 * Z.of_nat 0) with 0. zbits.
Qed.
Lemma spec_bswap16_low t :
  unary_spec (λ r a, tcg_gen_bswap16 TT t r a 0) t (bswap16_pre t 0) (bswap16_low t).
Proof.
  intros ret a ρ g Q k c x Hr S1 Hp HQ. pose proof S1 as (_ & R1 & X1). pose proof (ty_width_16 t).
  pose proof (ty_width_pos t). apply wpv_bind, wpv_assert; [done|].
  unfold bswap16_pre in Hp. unfold bswap16_low in HQ. destruct (TCG_TARGET_HAS_bswap16 TT t).
  { destruct Hp as [Rc Rx].
    eapply (spec_gen_bswap t 2); [lia|done|done| |by intros|exact Hr|exact S1|by split; left|exact HQ]. done. }
  apply wpv_post. vopen. vnew t0 F0. vnew t1 F1. apply wpv_bind. eapply spec_shri; [lia|vd|vs|done|].
  apply wpv_bind. vun spec_ext8u. rewrite insert_insert_eq. apply wpv_bind. eapply spec_shli; [lia|vd|vs|done|].
  apply wpv_bind. vbin spec_or. apply wpv_bind. vfree. vfree. vdone HQ.
Qed.

Lemma spec_bswap32_i64 flags :
  has_flag flags TCG_BSWAP_OS && has_flag flags TCG_BSWAP_OZ = false →
  (TCG_TARGET_HAS_bswap32 TT I64 = true → has_flag flags TCG_BSWAP_OS = false) →
  unary_spec (λ r a, tcg_gen_bswap32_i64 TT r a flags) I64 any1 (bswap_flags 64 4 flags).
Proof.
  intros Hfl HT ret a ρ g Q k c x Hr S1 Hp HQ. pose proof S1 as (_ & R1 & X1). cbn in R1, X1.
  apply wpv_bind, wpv_assert; [by destruct (has_flag flags TCG_BSWAP_OS), (has_flag flags TCG_BSWAP_OZ)|].
  assert (Hv : ∀ v, bswap_flags 64 4 flags v =
    if has_flag flags TCG_BSWAP_OS then wrap 64 (sgn 32 (bswap32 v)) else bswap32 v).
  { intros v. unfold bswap_flags, has_flag. by destruct (Z.land flags TCG_BSWAP_OS =? 0). }
  destruct (TCG_TARGET_HAS_bswap32 TT I64).
  { rewrite !Hv, (HT eq_refl) in HQ.
    eapply (spec_gen_bswap I64 4); [lia|done|done| |by intros|exact Hr|exact S1|split; right; left; done|exact HQ].
    intros v _ _. cbn -[bswap_flags bswap_val]. by rewrite Hv, (HT eq_refl). }
  clear HT. apply wpv_post. vopen.
  assert (Hw : ∀ v, bswap32 (wrap 32 v) = bswap32 v) by (intros; by apply bswap_wrap).
  destruct (bswap32_expand_64 (wrap 32 c)) as [Ec1 Ec2]; [by apply wrap_range|].
  destruct (bswap32_expand_64 (wrap 32 x)) as [Ex1 Ex2]; [by apply wrap_range|].
  rewrite <- bswap_round_low, Hw in Ec1, Ec2, Ex1, Ex2.
  vnew t0 F0. vnew t1 F1. vconst z ρ1 Hs1 Hz. apply wpv_bind. eapply spec_shri; [cbn; lia|vd|vs|done|].
  apply wpv_bind. vbin spec_and. apply wpv_bind. vbin spec_and. apply wpv_bind.
  eapply spec_shli; [cbn; lia|vd|vs|done|]. apply wpv_bind. vbin spec_or. apply wpv_bind.
  eapply spec_shli; [cbn; lia|vd|vs|done|]. apply wpv_bind. eapply spec_shri; [cbn; lia|vd|vs|done|].
  apply wpv_bind. rewrite !Hv in HQ. destruct (has_flag flags TCG_BSWAP_OS).
  - rewrite <- Ec2, <- Ex2 in HQ. eapply spec_sari; [cbn; lia|vd|vs|done|].
    apply wpv_bind. vbin spec_or. apply wpv_bind. vfree. vfree. vdone HQ.
  - rewrite <- Ec1, <- Ex1 in HQ. eapply spec_shri; [cbn; lia|vd|vs|done|].
    apply wpv_bind. vbin spec_or. apply wpv_bind. vfree. vfree. vdone HQ.
Qed.

Lemma spec_bswap64_i64 : unary_spec (tcg_gen_bswap64_i64 TT) I64 any1 bswap64.
Proof.
  unfold tcg_gen_bswap64_i64. destruct (TCG_TARGET_HAS_bswap64_i64 TT).
  { intros ret a ρ g Q k c x Hr S1 _ HQ.
    eapply (spec_gen_bswap I64 8); [lia|done|done|done| |exact Hr|exact S1| |exact HQ]; [done|].
    split; right; right; done. }
  intros ret a ρ g Q k c x Hr S1 _ HQ. pose proof S1 as (_ & R1 & X1). cbn in R1, X1. apply wpv_post. vopen.
  rewrite <- !bswap64_expand in HQ by done.
  vnew t0 F0. vnew t1 F1. vnew t2 F2. apply wpv_bind. eapply (wpv_movi i I64); [lk|done|].
  apply wpv_bind. eapply spec_shri; [cbn; lia|vd|vs|done|]. apply wpv_bind. vbin spec_and.
  apply wpv_bind. vbin spec_and. apply wpv_bind. eapply spec_shli; [cbn; lia|vd|vs|done|].
  apply wpv_bind. vbin spec_or. apply wpv_bind. eapply (wpv_movi i I64); [lk|done|].
  apply wpv_bind. eapply spec_shri; [cbn; lia|vd|vs|done|]. apply wpv_bind. vbin spec_and.
  apply wpv_bind. vbin spec_and. apply wpv_bind. eapply spec_shli; [cbn; lia|vd|vs|done|].
  apply wpv_bind. vbin spec_or. apply wpv_bind. eapply spec_shri; [cbn; lia|vd|vs|done|].
  apply wpv_bind. eapply spec_shli; [cbn; lia|vd|vs|done|]. apply wpv_bind. vbin spec_or.
  apply wpv_bind. vfree. apply wpv_bind. vfree. vfree. vdone HQ.
Qed.

Lemma spec_hswap_i32 : unary_spec (tcg_gen_hswap_i32 TT) I32 any1 hswap32.
Proof. by apply (spec_rotli i TT I32 16). Qed.
Lemma spec_wswap_i64 : unary_spec (tcg_gen_wswap_i64 TT) I64 any1 wswap64.
Proof. by apply (spec_rotli i TT I64 32). Qed.
Lemma spec_hswap_i64 : unary_spec (tcg_gen_hswap_i64 TT) I64 any1 hswap64.
Proof.
  intros ret a ρ g Q k c x Hr S1 _ HQ. pose proof S1 as (_ & R1 & X1). cbn in R1, X1.
  apply wpv_post. vopen. vnew t0 F0. vnew t1 F1. apply wpv_bind. eapply spec_rotli; [cbn; lia|vd|vs|done|].
  apply wpv_bind. vun spec_andi. apply wpv_bind. eapply spec_shli; [cbn; lia|vd|vs|done|].
  apply wpv_bind. eapply spec_shri; [cbn; lia|vd|vs|done|]. apply wpv_bind. vun spec_andi.
  apply wpv_bind. vbin spec_or. apply wpv_bind. vfree. vfree. vdone HQ.
Qed.

(** ** Absolute value *)

Lemma abs_value w x : 0 < w → in_range w x →
  let s := bv_ashr w x (w - 1) in bv_sub w (Z.lxor x s) s = wrap w (Z.abs (sgn w x)).
Proof.
  intros Hw Hx. rewrite sign_fill by done. pose proof Hx as [? ?]. pose proof (pow2_half w Hw).
  unfold bv_sub, sgn. rewrite (wrap_small w x) by done. destruct (Z.ltb_spec x (2 ^ (w - 1))); cbv zeta.
  - rewrite Z.lxor_0_r, Z.sub_0_r. f_equal. lia.
  - replace (2 ^ w - 1) with (wrap w (-1)) by (rewrite wrap_neg1, Z.ones_equiv by lia; lia).
    rewrite xor_ones by done. unfold bv_not. rewrite wrap_sub by lia. unfold wrap.
    rewrite <- (Z.mod_add (Z.lnot x - -1) 1) by lia. f_equal. unfold Z.lnot. lia.
Qed.

Lemma spec_abs t :
  unary_spec (tcg_gen_abs t) t any1 (λ c, wrap (ty_width t) (Z.abs (sgn (ty_width t) c))).
Proof.
  intros ret a ρ g Q k c x Hr S1 _ HQ. pose proof S1 as (_ & R1 & X1). pose proof (ty_width_pos t).
  rewrite <- !abs_value in HQ by (done || lia). apply wpv_post. vopen. vnew t0 F0. apply wpv_bind.
  eapply spec_sari; [lia|vd|vs|done|]. apply wpv_bind. vbin spec_xor. apply wpv_bind. vbin spec_sub.
  vfree. vdone HQ.
Qed.

(** ** Changes of size *)

(** A generator from one type to another. *)
Definition convert_spec (m : nat → nat → Gen unit) (t' t : RegType) (f : Z → Z) : Prop :=
  ∀ ret a ρ g (Q : unit → vars → ghost → Prop) k c x,
    dst ρ ret t' k → src ρ a t c x →
    Q tt (<[ret := full k t' (f c) (f x)]> ρ) g → wpv (m ret a) ρ g Q.

Lemma spec_gen_convert h opc t' t f :
  is_mov opc = false → op_def opc = ([t'], [t], 0%nat) →
  (∀ c x p, call_ok i h [AExp (ty_width t) c x] I64 (Exp (ty_width t') (f c) (f x)) p p) →
  (∀ c, op_val opc [c] [] = Some [f c]) →
  convert_spec (λ ret arg, er ← temp_expr ret; ea ← temp_expr arg;
    tcg_gen_callN h (Some er) [ea];; tcg_gen_op2_t opc ret arg) t' t f.
Proof.
  intros Hmov Hdef Hh Hop ret a ρ g Q k c x Hr S1 HQ. vopen.
  apply wpv_bind; eapply wpv_temp_expr; [lk|]. apply wpv_bind; eapply wpv_temp_expr; [lk|]. apply wpv_bind.
  eapply (wpv_half i _ opc ret [E a] _ [a] []) with (cs := [c]); [by apply Hh| |lk|done..| |done|done].
  - cbn. split; [by eapply src_expr|done].
  - cbn. split; [by eapply src_value|done].
Qed.
Lemma spec_extu_i32_i64 : convert_spec tcg_gen_extu_i32_i64 I64 I32 (λ c, c).
Proof. apply spec_gen_convert; try done. apply call_sym_zext_i32_i64. Qed.
Lemma spec_ext_i32_i64 : convert_spec tcg_gen_ext_i32_i64 I64 I32 (λ c, wrap 64 (sgn 32 c)).
Proof. apply spec_gen_convert; try done. apply call_sym_sext_i32_i64. Qed.

End Spec.
