(* ===== verification/GenWideSpec.v ===== *)
(** What the generators of [GenAlu] promise, concluded: truncation and
    concatenation, bit counts, double words, and loads and stores of host
    memory. *)
From S2P Require Import Prelude Cond Bitops Backend SymHelpers SymMemory Ops Temps Exec Logic Calls Vars GenCore.
From S2P Require Import GenCoreSpec GenAlu GenAluSpec GenConvSpec.

Section Spec.
Context `{SL : ShadowLaws} {BL : BackendLaws B BS}.
Context (i : Input) (TT : Target) (tcg_env : nat).
Implicit Types (t ty : RegType).

Abbreviation wpv := (wpv i).
Abbreviation unary_spec := (unary_spec i).
Abbreviation binary_spec := (binary_spec i).

(** ** Truncation and concatenation *)

(** The low half of a register is the truncated value. *)
Lemma wpv_mov_low r a ρ g (Q : unit → vars → ghost → Prop) k v0 e0 k' c e :
  ρ !! r = Some (Var k I32 v0 e0) → writable k = true → ρ !! a = Some (Var k' I64 (Num c) e) →
  Q tt (<[r := Var k I32 (Num (wrap 32 c)) e0]> ρ) g →
  wpv (tcg_emit_op (Op (INDEX_op_mov I32) [temp_arg r; temp_arg a])) ρ g Q.
Proof.
  intros Hr Hk Ha HQ σ Hc.
  eapply (wp_mov_cell i I32 r a σ g _ k false v0 (Num (wrap 32 c)));
    [apply (Hc _ _ Hr)|done|apply (Hc _ _ Ha)| |].
  { intros v (z & -> & Hz & Hw). cbn in Hw. exists z. split; [done|]. split; [done|].
    rewrite <- Hw. cbn. by rewrite wrap_wrap_le. }
  eexists. split; [|exact HQ]. by apply (covers_value _ _ _ _ (Var k I32 (Num (wrap 32 c)) e0) Hc Hr).
Qed.

Lemma wpv_truncate ret a ρ g (Q : unit → vars → ghost → Prop) k c x :
  dst ρ ret I32 k → src ρ a I64 c x →
  Q tt (<[ret := full k I32 (wrap 32 c) (wrap 32 x)]> ρ) g →
  wpv (tcg_gen_callN HELPER_sym_trunc_i64_i32 (Some (S ret)) [S a]) ρ g
    (λ _ ρ' g', wpv (tcg_gen_mov_concrete I32 ret a) ρ' g' Q).
Proof.
  intros Hr S1 HQ. destruct Hr as [(v & e & Hr) K]. destruct S1 as ((k1 & S1) & _).
  assert (Hne : ret ≠ a) by (intros ->; rewrite Hr in S1; discriminate).
  eapply wpv_callN_expr; [lk|].
  eapply (wpv_call_expr i _ ret [E a]); [apply (call_sym_trunc_i64_i32 i c x)| |lk|done|].
  { cbn. split; [|done]. eexists _, _, _. lk. }
  unfold tcg_gen_mov_concrete, tcg_gen_mov_internal. rewrite (proj2 (Nat.eqb_neq _ _)) by done.
  apply wpv_bind, wpv_ret. eapply wpv_mov_low; [lk|done|lk|]. by rewrite insert_insert_eq.
Qed.
Lemma spec_extrl : convert_spec i tcg_gen_extrl_i64_i32 I32 I64 (wrap 32).
Proof.
  intros ret a ρ g Q k c x Hr S1 HQ. vopen. apply wpv_bind; eapply wpv_temp_expr; [lk|].
  apply wpv_bind; eapply wpv_temp_expr; [lk|]. apply wpv_bind. by eapply wpv_truncate.
Qed.
Lemma spec_extrh : convert_spec i tcg_gen_extrh_i64_i32 I32 I64 (λ c, Z.shiftr c 32).
Proof.
  intros ret a ρ g Q k c x Hr S1 HQ. pose proof S1 as (_ & R1 & X1). cbn in R1, X1. apply wpv_post. vopen.
  assert (E : ∀ v, in_range 64 v → wrap 32 (Z.shiftr v 32) = Z.shiftr v 32) by (intros; zbits).
  rewrite <- (E c), <- (E x) in HQ by done. vnew t0 F0. apply wpv_bind.
  eapply spec_shri; [cbn; lia|vd|vs|done|]. apply wpv_bind; eapply wpv_temp_expr; [lk|].
  apply wpv_bind; eapply wpv_temp_expr; [lk|]. apply wpv_bind.
  eapply wpv_mono; [|eapply wpv_truncate; [vd|vs|]].
  { intros u ρ' g' H. apply wpv_bind, H. }
  cbv beta. vfree. vdone HQ.
Qed.

Lemma spec_extr lo hi a ρ g (Q : unit → vars → ghost → Prop) k k' c x :
  dst ρ lo I32 k → dst ρ hi I32 k' → lo ≠ hi → src ρ a I64 c x →
  Q tt (<[hi := full k' I32 (Z.shiftr c 32) (Z.shiftr x 32)]>
         (<[lo := full k I32 (wrap 32 c) (wrap 32 x)]> ρ)) g →
  wpv (tcg_gen_extr_i64_i32 lo hi a) ρ g Q.
Proof.
  intros Hl Hh Hne S1 HQ. destruct Hl as [(v & e & Hl) K]. pose proof S1 as ((k1 & H1) & _).
  assert (Hla : lo ≠ a) by (intros ->; rewrite Hl in H1; discriminate).
  apply wpv_bind. eapply spec_extrl; [by split; [eexists _, _|]|exact S1|].
  eapply spec_extrh; [vd|vs|done].
Qed.

Lemma concat_value lo hi : in_range 32 lo → in_range 32 hi →
  put_field lo 32 32 hi = join 32 lo hi ∧ Z.lor lo (bv_shl 64 hi 32) = join 32 lo hi.
Proof.
  intros Hl Hh. unfold join, bv_shl, put_field. rewrite <- Z.shiftl_mul_pow2 by lia.
  assert (E : Z.land (Z.shiftl hi 32) lo = 0) by zbits.
  rewrite Z.add_nocarry_lxor, Z.lxor_lor by done. split; zbits.
Qed.

Lemma spec_concat dest lo hi ρ g (Q : unit → vars → ghost → Prop) k c1 x1 c2 x2 :
  dst ρ dest I64 k → src ρ lo I32 c1 x1 → src ρ hi I32 c2 x2 →
  Q tt (<[dest := full k I64 (join 32 c1 c2) (join 32 x1 x2)]> ρ) g →
  wpv (tcg_gen_concat_i32_i64 TT dest lo hi) ρ g Q.
Proof.
  intros Hd S1 S2 HQ. pose proof S1 as (_ & R1 & X1). pose proof S2 as (_ & R2 & X2). cbn in R1, X1, R2, X2.
  destruct (concat_value c1 c2 R1 R2) as [Ec Ec']. destruct (concat_value x1 x2 X1 X2) as [Ex Ex'].
  assert (∀ v, in_range 32 v → in_range 64 v) by (intros; by apply (in_range_le 32)).
  apply wpv_post. vopen. vnew t0 F0. apply wpv_bind. eapply spec_extu_i32_i64; [vd|vs|]. apply wpv_bind.
  eapply spec_extu_i32_i64; [vd|vs|]. apply wpv_bind.
  destruct (TCG_TARGET_HAS_deposit TT I64 && TCG_TARGET_deposit_valid TT I64 32 32).
  - eapply spec_deposit; [lia|lia|cbn; lia|vd|apply src_new; auto| |done|].
    { apply src_insert; [apply src_new; auto|neq]. }
    rewrite Ec, Ex. vfree. vdone HQ.
  - apply wpv_bind. eapply spec_shli; [cbn; lia|vd| |done|].
    { apply src_insert; [apply src_new; auto|neq]. }
    eapply spec_or; [vd|apply src_insert; [apply src_new; auto|neq]|vs|done|]. cbn [ty_width].
    rewrite Ec', Ex'. vfree. vdone HQ.
Qed.
Lemma spec_extr32 lo hi a ρ g (Q : unit → vars → ghost → Prop) k k' c x :
  dst ρ lo I64 k → dst ρ hi I64 k' → lo ≠ hi → lo ≠ a → src ρ a I64 c x →
  Q tt (<[hi := full k' I64 (Z.shiftr c 32) (Z.shiftr x 32)]>
         (<[lo := full k I64 (wrap 32 c) (wrap 32 x)]> ρ)) g →
  wpv (tcg_gen_extr32_i64 TT lo hi a) ρ g Q.
Proof.
  intros Hl Hh Hne Hla S1 HQ. apply wpv_bind. eapply spec_ext32u; [done..|].
  eapply spec_shri; [cbn; lia|vd|vs|done|done].
Qed.
Lemma spec_concat32 : binary_spec (tcg_gen_concat32_i64 TT) I64 any2 (λ a b, put_field a 32 32 b).
Proof. by apply spec_deposit. Qed.

(** ** Bit counts

    Where the target counts bits itself, only the value is computed: the
    expression of the result stays as it was.  The helpers' results are made
    concrete. *)

Lemma wpv_op_value opc t ret ins cs n ρ g (Q : unit → vars → ghost → Prop) k v e :
  is_mov opc = false → (∃ tis, op_def opc = ([t], tis, 0%nat) ∧ vreads ρ ins tis cs) →
  op_val opc cs [] = Some [n] → ρ !! ret = Some (Var k t v e) → writable k = true →
  Q tt (<[ret := Var k t (Num n) e]> ρ) g →
  wpv (tcg_emit_op (Op opc (map temp_arg [ret] ++ map temp_arg ins ++ map const_arg []))) ρ g Q.
Proof. intros Hm (tis & Hd & Hin) Ho Hr Hk HQ. by eapply wpv_op. Qed.

Definition clz_val (t : RegType) (a b : Z) : Z := if a =? 0 then b else builtin_clz (ty_width t) a.

Lemma spec_clz_native t ret a1 a2 ρ g (Q : unit → vars → ghost → Prop) k v e c1 x1 c2 x2 :
  TCG_TARGET_HAS_clz TT t = true →
  ρ !! ret = Some (Var k t v e) → writable k = true → src ρ a1 t c1 x1 → src ρ a2 t c2 x2 →
  Q tt (<[ret := Var k t (Num (clz_val t c1 c2)) e]> ρ) g → wpv (tcg_gen_clz TT t ret a1 a2) ρ g Q.
Proof.
  intros HT Hr Hk S1 S2 HQ.
  assert (E : tcg_gen_clz TT t ret a1 a2 = tcg_gen_op3_t (INDEX_op_clz t) ret a1 a2).
  { destruct t; cbn; [unfold tcg_gen_clz_i32|unfold tcg_gen_clz_i64]; by rewrite HT. }
  rewrite E. eapply (wpv_op_value (INDEX_op_clz t) t ret [a1; a2] [c1; c2]); try done.
  exists [t; t]. split; [done|]. cbn. eauto using src_value.
Qed.
Lemma spec_ctpop_native t ret a ρ g (Q : unit → vars → ghost → Prop) k v e c x :
  TCG_TARGET_HAS_ctpop TT t = true →
  ρ !! ret = Some (Var k t v e) → writable k = true → src ρ a t c x →
  Q tt (<[ret := Var k t (Num (popcount (Z.to_nat (ty_width t)) c)) e]> ρ) g →
  wpv (match t with I32 => tcg_gen_ctpop_i32 TT ret a | I64 => tcg_gen_ctpop_i64 TT ret a end) ρ g Q.
Proof.
  intros HT Hr Hk S1 HQ.
  assert (E : match t with I32 => tcg_gen_ctpop_i32 TT ret a | I64 => tcg_gen_ctpop_i64 TT ret a end
    = tcg_gen_op2_t (INDEX_op_ctpop t) ret a).
  { destruct t; [unfold tcg_gen_ctpop_i32|unfold tcg_gen_ctpop_i64]; by rewrite HT. }
  rewrite E. eapply (wpv_op_value (INDEX_op_ctpop t) t ret [a] [c]); try done.
  exists [t]. split; [done|]. cbn. eauto using src_value.
Qed.

(** ** Double words *)

Lemma spec_gen_wide ext1 ext2 f1 f2 rl rh a1 a2 ρ g (Q : unit → vars → ghost → Prop) k k' c1 x1 c2 x2 :
  convert_spec i ext1 I64 I32 f1 → convert_spec i ext2 I64 I32 f2 →
  (∀ v, in_range 32 v → in_range 64 (f1 v)) → (∀ v, in_range 32 v → in_range 64 (f2 v)) →
  dst ρ rl I32 k → dst ρ rh I32 k' → rl ≠ rh → src ρ a1 I32 c1 x1 → src ρ a2 I32 c2 x2 →
  let p u v := bv_mul 64 (f1 u) (f2 v) in
  Q tt (<[rh := full k' I32 (Z.shiftr (p c1 c2) 32) (Z.shiftr (p x1 x2) 32)]>
         (<[rl := full k I32 (wrap 32 (p c1 c2)) (wrap 32 (p x1 x2))]> ρ)) g →
  wpv (gen_wide ext1 ext2 (tcg_gen_mul I64) rl rh a1 a2) ρ g Q.
Proof.
  intros H1 H2 F1 F2 Hl Hh Hne S1 S2 p HQ. pose proof S1 as (_ & R1 & X1). pose proof S2 as (_ & R2 & X2).
  cbn in R1, X1, R2, X2. apply wpv_post. vopen. vnew t0 G0. vnew t1 G1.
  apply wpv_bind. eapply H1; [vd|vs|]. apply wpv_bind. eapply H2; [vd|vs|]. apply wpv_bind.
  eapply spec_mul; [vd|apply src_insert; [apply src_new; auto|neq]|apply src_new; auto|done|]. apply wpv_bind.
  eapply spec_extr; [vd|vd|done|vs|]. apply wpv_bind. vfree. vfree. vdone HQ.
Qed.

Lemma spec_gen_addsub2_i32 op f rl rh al ah bl bh ρ g (Q : unit → vars → ghost → Prop) k k'
    c1 x1 c2 x2 c3 x3 c4 x4 :
  binary_spec op I64 any2 f → (∀ u v, in_range 64 (f u v)) →
  dst ρ rl I32 k → dst ρ rh I32 k' → rl ≠ rh →
  src ρ al I32 c1 x1 → src ρ ah I32 c2 x2 → src ρ bl I32 c3 x3 → src ρ bh I32 c4 x4 →
  let s a b c d := f (join 32 a b) (join 32 c d) in
  Q tt (<[rh := full k' I32 (Z.shiftr (s c1 c2 c3 c4) 32) (Z.shiftr (s x1 x2 x3 x4) 32)]>
         (<[rl := full k I32 (wrap 32 (s c1 c2 c3 c4)) (wrap 32 (s x1 x2 x3 x4))]> ρ)) g →
  wpv (gen_addsub2_i32 TT op rl rh al ah bl bh) ρ g Q.
Proof.
  intros Hop Hf Hl Hh Hne S1 S2 S3 S4 s HQ.
  assert (J : ∀ u v, in_range 32 u → in_range 32 v → in_range 64 (join 32 u v)).
  { intros u v [? ?] [? ?]. unfold join, in_range. lia. }
  pose proof S1 as (_ & R1 & X1). pose proof S2 as (_ & R2 & X2). pose proof S3 as (_ & R3 & X3).
  pose proof S4 as (_ & R4 & X4). cbn in R1, X1, R2, X2, R3, X3, R4, X4.
  apply wpv_post. vopen. vnew t0 G0. vnew t1 G1.
  apply wpv_bind. eapply spec_concat; [vd|vs|vs|]. apply wpv_bind. eapply spec_concat; [vd|vs|vs|].
  apply wpv_bind.
  eapply Hop; [vd|apply src_insert; [apply src_new; auto|neq]|apply src_new; auto|done|]. apply wpv_bind.
  eapply spec_extr; [vd|vd|done|apply src_new; apply Hf|]. apply wpv_bind. vfree. vfree. vdone HQ.
Qed.

Definition lo64 (v : Z) : Z := wrap 64 v.
Definition hi64 (v : Z) : Z := wrap 64 (Z.shiftr v 64).

Lemma add2_value al ah bl bh :
  in_range 64 al → in_range 64 bl →
  let s := wrap 128 (join 64 al ah + join 64 bl bh) in
  bv_add 64 al bl = lo64 s ∧
  bv_add 64 (bv_add 64 ah bh) (Z.b2z (cond_holds 64 TCG_COND_LTU (bv_add 64 al bl) al)) = hi64 s.
Proof.
  intros Ha Hb s. pose proof (split2_join 64 (ah + bh) (al + bl)) as H. cbn [cond_holds].
  replace ((ah + bh) * 2 ^ 64 + (al + bl)) with (join 64 al ah + join 64 bl bh) in H by (unfold join; lia).
  change (2 * 64) with 128 in H. fold s in H. specialize (H ltac:(lia)). injection H as H1 H2.
  unfold lo64, hi64, bv_add. rewrite H1, H2, (carry al bl 64) by done. split; [done|]. by rewrite wrap_add_l.
Qed.
Lemma sub2_value al ah bl bh :
  in_range 64 al → in_range 64 bl →
  let s := wrap 128 (join 64 al ah - join 64 bl bh) in
  bv_sub 64 al bl = lo64 s ∧
  bv_sub 64 (bv_sub 64 ah bh) (Z.b2z (cond_holds 64 TCG_COND_LTU al bl)) = hi64 s.
Proof.
  intros Ha Hb s. pose proof (split2_join 64 (ah - bh) (al - bl)) as H. cbn [cond_holds].
  replace ((ah - bh) * 2 ^ 64 + (al - bl)) with (join 64 al ah - join 64 bl bh) in H by (unfold join; lia).
  change (2 * 64) with 128 in H. fold s in H. specialize (H ltac:(lia)). injection H as H1 H2.
  unfold lo64, hi64, bv_sub. rewrite H1, H2, (borrow al bl 64) by done. split; [done|].
  by rewrite <- Z.add_opp_r, wrap_add_l.
Qed.

Lemma b2z_fits b : in_range 64 (Z.b2z b).
Proof. by destruct b. Qed.
Lemma lo64_fits v : in_range 64 (lo64 v).
Proof. by apply wrap_range. Qed.
Lemma hi64_fits v : in_range 64 (hi64 v).
Proof. by apply wrap_range. Qed.
#[local] Hint Resolve b2z_fits lo64_fits hi64_fits : range.

(** The carry is a comparison, so it is also a constraint on the path. *)
Lemma spec_add2_i64 rl rh al ah bl bh ρ g (Q : unit → vars → ghost → Prop) k k' env
    c1 x1 c2 x2 c3 x3 c4 x4 :
  dst ρ rl I64 k → dst ρ rh I64 k' → rl ≠ rh → ρ !! tcg_env = Some env →
  src ρ al I64 c1 x1 → src ρ ah I64 c2 x2 → src ρ bl I64 c3 x3 → src ρ bh I64 c4 x4 →
  let s a b c d := wrap 128 (join 64 a b + join 64 c d) in
  let carry a c := bv_add 64 a c <? a in
  Q tt (<[rl := full k I64 (lo64 (s c1 c2 c3 c4)) (lo64 (s x1 x2 x3 x4))]>
         (<[rh := full k' I64 (hi64 (s c1 c2 c3 c4)) (hi64 (s x1 x2 x3 x4))]> ρ))
    (assume g (Bool.eqb (carry x1 x3) (carry c1 c3))) →
  wpv (tcg_gen_add2_i64 tcg_env rl rh al ah bl bh) ρ g Q.
Proof.
  intros Hl Hh Hne He S1 S2 S3 S4 s cy HQ.
  pose proof S1 as (_ & R1 & X1). pose proof S2 as (_ & R2 & X2). pose proof S3 as (_ & R3 & X3).
  pose proof S4 as (_ & R4 & X4). cbn in R1, X1, R2, X2, R3, X3, R4, X4.
  destruct (add2_value c1 c2 c3 c4 R1 R3) as [Ec1 Ec2]. destruct (add2_value x1 x2 x3 x4 X1 X3) as [Ex1 Ex2].
  unfold s in HQ. rewrite <- Ec1, <- Ec2, <- Ex1, <- Ex2 in HQ. clear Ec1 Ec2 Ex1 Ex2.
  apply wpv_post. vopen. vnew t0 G0. vnew t1 G1.
  apply wpv_bind. vbin spec_add. apply wpv_bind.
  eapply (spec_setcond i tcg_env I64 TCG_COND_LTU); [vd|vs|vs|neq|neq|neq|lk|].
  apply wpv_bind. vbin spec_add. apply wpv_bind. vbin spec_add. apply wpv_bind. vun spec_mov.
  apply wpv_bind. vfree. vfree. vdone HQ.
Qed.
Lemma spec_sub2_i64 rl rh al ah bl bh ρ g (Q : unit → vars → ghost → Prop) k k' env
    c1 x1 c2 x2 c3 x3 c4 x4 :
  dst ρ rl I64 k → dst ρ rh I64 k' → rl ≠ rh → ρ !! tcg_env = Some env →
  src ρ al I64 c1 x1 → src ρ ah I64 c2 x2 → src ρ bl I64 c3 x3 → src ρ bh I64 c4 x4 →
  let s a b c d := wrap 128 (join 64 a b - join 64 c d) in
  Q tt (<[rl := full k I64 (lo64 (s c1 c2 c3 c4)) (lo64 (s x1 x2 x3 x4))]>
         (<[rh := full k' I64 (hi64 (s c1 c2 c3 c4)) (hi64 (s x1 x2 x3 x4))]> ρ))
    (assume g (Bool.eqb (x1 <? x3) (c1 <? c3))) →
  wpv (tcg_gen_sub2_i64 tcg_env rl rh al ah bl bh) ρ g Q.
Proof.
  intros Hl Hh Hne He S1 S2 S3 S4 s HQ.
  pose proof S1 as (_ & R1 & X1). pose proof S2 as (_ & R2 & X2). pose proof S3 as (_ & R3 & X3).
  pose proof S4 as (_ & R4 & X4). cbn in R1, X1, R2, X2, R3, X3, R4, X4.
  destruct (sub2_value c1 c2 c3 c4 R1 R3) as [Ec1 Ec2]. destruct (sub2_value x1 x2 x3 x4 X1 X3) as [Ex1 Ex2].
  unfold s in HQ. rewrite <- Ec1, <- Ec2, <- Ex1, <- Ex2 in HQ. clear Ec1 Ec2 Ex1 Ex2.
  apply wpv_post. vopen. vnew t0 G0. vnew t1 G1.
  apply wpv_bind. vbin spec_sub. apply wpv_bind.
  eapply (spec_setcond i tcg_env I64 TCG_COND_LTU); [vd|vs|vs|neq|neq|neq|lk|].
  apply wpv_bind. vbin spec_sub. apply wpv_bind. vbin spec_sub. apply wpv_bind. vun spec_mov.
  apply wpv_bind. vfree. vfree. vdone HQ.
Qed.

(** A value read by a call stays when the expression of a variable changes. *)
Definition holds_num (ρ : vars) (a : nat) (t : RegType) (c : Z) : Prop :=
  ∃ k e, ρ !! a = Some (Var k t (Num c) e).
Lemma num_kept ρ a t c r k ty v e e' :
  holds_num ρ a t c → ρ !! r = Some (Var k ty v e) → holds_num (<[r := Var k ty v e']> ρ) a t c.
Proof.
  intros (k1 & e1 & Ha) Hr. destruct (decide (a = r)) as [->|].
  - rewrite Ha in Hr. injection Hr as -> -> <- _. eexists _, _. lk.
  - eexists _, _. lk.
Qed.
Lemma num_weaken ρ ρ' a t c : ρ ⊆ ρ' → holds_num ρ a t c → holds_num ρ' a t c.
Proof. intros Hs (k & e & H). exists k, e. by eapply lookup_weaken. Qed.

(** The expression for the high word is computed, and then made concrete with
    the call of the helper for its value. *)
Lemma spec_mulu2_i64 rl rh a1 a2 ρ g (Q : unit → vars → ghost → Prop) k k' c1 x1 c2 x2 :
  dst ρ rl I64 k → dst ρ rh I64 k' → rl ≠ rh → src ρ a1 I64 c1 x1 → src ρ a2 I64 c2 x2 →
  Q tt (<[rl := full k I64 (lo64 (c1 * c2)) (lo64 (x1 * x2))]>
         (<[rh := full k' I64 (hi64 (c1 * c2)) (hi64 (c1 * c2))]> ρ)) g →
  wpv (tcg_gen_mulu2_i64 rl rh a1 a2) ρ g Q.
Proof.
  intros Hl Hh Hne S1 S2 HQ. apply wpv_post. vopen. vnew t0 G0. apply wpv_bind. vbin spec_mul.
  apply wpv_bind; eapply wpv_temp_expr; [lk|]. apply wpv_bind; eapply wpv_temp_expr; [lk|].
  apply wpv_bind; eapply wpv_temp_expr; [lk|]. rewrite insert_insert_eq.
  set (p := full TEMP_EBB I64 _ _).
  assert (T1 : src (<[t0 := p]> ρ) a1 I64 c1 x1) by vs. assert (T2 : src (<[t0 := p]> ρ) a2 I64 c2 x2) by vs.
  apply wpv_bind. eapply wpv_callN_expr; [lk|].
  eapply (wpv_call_expr i _ rh [V a1; E a1; V a2; E a2]); [apply (call_sym_muluh i c1 x1 c2 x2)| |lk|done|].
  { split; [by eapply src_value|]. split; [by apply (src_expr _ _ I64 c1 x1)|].
    split; [by eapply src_value|]. split; [by apply (src_expr _ _ I64 c2 x2)|done]. }
  apply wpv_bind. eapply (wpv_callN_num i _ rh [V a1; V a2]);
    [apply (call_muluh i c1 c2)| |lk|done|].
  { intros ρ' Hs. assert (Hv : ∀ a c x, src (<[t0 := p]> ρ) a I64 c x →
      holds_num (<[rh := Var k' I64 v (Exp 64 (snd (mulu64 c1 c2)) (snd (mulu64 c1 c2)))]> ρ') a I64 c).
    { intros a c x Ha. eapply num_kept; [|lk]. eapply num_weaken; [exact Hs|].
      eapply num_kept; [by eapply src_value|lk]. }
    split; [by eapply Hv|]. split; [by eapply Hv|done]. }
  apply wpv_bind. vun spec_mov. vfree. vdone HQ.
Qed.

(** The corrections for negative operands, taken from the high word of the
    unsigned product. *)
Definition sign_mask (a b : Z) : Z := Z.land (bv_ashr 64 a 63) b.
Lemma sign_mask_value a b : in_range 64 a → in_range 64 b →
  sign_mask a b = if a <? 2 ^ 63 then 0 else b.
Proof.
  intros Ha Hb. unfold sign_mask. change 63 with (64 - 1). rewrite sign_fill by (done || lia).
  destruct (a <? _); [done|]. replace (2 ^ 64 - 1) with (Z.ones 64) by done.
  rewrite Z.land_comm, Z.land_ones by lia. apply Z.mod_small, Hb.
Qed.
Lemma hi64_sub p q : hi64 (p - q * 2 ^ 64) = bv_sub 64 (hi64 p) q.
Proof.
  unfold hi64, bv_sub. rewrite !Z.shiftr_div_pow2 by lia.
  replace (p - q * 2 ^ 64) with (p + (- q) * 2 ^ 64) by lia. rewrite Z.div_add by lia.
  rewrite <- !Z.add_opp_r. by rewrite wrap_add_l.
Qed.
Lemma sgn64_bit a : in_range 64 a → sgn 64 a = a - (if a <? 2 ^ 63 then 0 else 2 ^ 64).
Proof. intros Ha. unfold sgn. rewrite wrap_small by done. change (64 - 1) with 63. destruct (a <? 2 ^ 63); lia. Qed.
Lemma mulsu_high a b : in_range 64 a → in_range 64 b →
  bv_sub 64 (hi64 (a * b)) (sign_mask a b) = hi64 (sgn 64 a * b).
Proof.
  intros Ha Hb. rewrite sign_mask_value, <- hi64_sub, sgn64_bit by done. f_equal. destruct (a <? _); lia.
Qed.
Lemma muls_high a b : in_range 64 a → in_range 64 b →
  bv_sub 64 (bv_sub 64 (hi64 (a * b)) (sign_mask a b)) (sign_mask b a) = hi64 (sgn 64 a * sgn 64 b).
Proof.
  intros Ha Hb. rewrite !sign_mask_value, <- !hi64_sub, !sgn64_bit by done.
  destruct (a <? _), (b <? _); try (f_equal; lia).
  set (z := a * b - b * 2 ^ 64 - a * 2 ^ 64).
  replace ((a - 2 ^ 64) * (b - 2 ^ 64)) with (z + 2 ^ 64 * 2 ^ 64) by (unfold z; lia).
  unfold hi64. rewrite !Z.shiftr_div_pow2, Z.div_add by lia.
  unfold wrap. rewrite <- (Z.mod_add (z / 2 ^ 64) 1) by lia. done.
Qed.
Lemma sgn_low a b :
  lo64 (sgn 64 a * b) = lo64 (a * b) ∧ lo64 (sgn 64 a * sgn 64 b) = lo64 (a * b).
Proof.
  unfold lo64. split; rewrite <- (wrap_mul 64 (sgn 64 a)), !wrap_sgn, wrap_mul by lia; done.
Qed.

Lemma spec_mulsu2_i64 rl rh a1 a2 ρ g (Q : unit → vars → ghost → Prop) k k' c1 x1 c2 x2 :
  dst ρ rl I64 k → dst ρ rh I64 k' → rl ≠ rh → src ρ a1 I64 c1 x1 → src ρ a2 I64 c2 x2 →
  Q tt (<[rl := full k I64 (lo64 (sgn 64 c1 * c2)) (lo64 (sgn 64 x1 * x2))]>
         (<[rh := full k' I64 (hi64 (sgn 64 c1 * c2)) (bv_sub 64 (hi64 (c1 * c2)) (sign_mask x1 x2))]> ρ)) g →
  wpv (tcg_gen_mulsu2_i64 rl rh a1 a2) ρ g Q.
Proof.
  intros Hl Hh Hne S1 S2 HQ. pose proof S1 as (_ & R1 & X1). pose proof S2 as (_ & R2 & X2).
  cbn in R1, X1, R2, X2. rewrite !(proj1 (sgn_low _ _)), <- mulsu_high in HQ by done.
  apply wpv_post. vopen. vnew t0 G0. vnew t1 G1. vnew t2 G2.
  apply wpv_bind. eapply spec_mulu2_i64; [vd|vd|neq|vs|vs|].
  apply wpv_bind. eapply spec_sari; [cbn; lia|vd|vs|done|]. apply wpv_bind. vbin spec_and.
  apply wpv_bind. vbin spec_sub. apply wpv_bind. vun spec_mov.
  apply wpv_bind. vfree. apply wpv_bind. vfree. vfree. vdone HQ.
Qed.

Lemma spec_muls2_i64 rl rh a1 a2 ρ g (Q : unit → vars → ghost → Prop) k k' c1 x1 c2 x2 :
  dst ρ rl I64 k → dst ρ rh I64 k' → rl ≠ rh → src ρ a1 I64 c1 x1 → src ρ a2 I64 c2 x2 →
  let high := if TCG_TARGET_HAS_mulu2 TT I64 || TCG_TARGET_HAS_muluh TT I64
              then bv_sub 64 (bv_sub 64 (hi64 (c1 * c2)) (sign_mask x1 x2)) (sign_mask x2 x1)
              else hi64 (sgn 64 c1 * sgn 64 c2) in
  Q tt (<[rl := full k I64 (lo64 (sgn 64 c1 * sgn 64 c2)) (lo64 (sgn 64 x1 * sgn 64 x2))]>
         (<[rh := full k' I64 (hi64 (sgn 64 c1 * sgn 64 c2)) high]> ρ)) g →
  wpv (tcg_gen_muls2_i64 TT rl rh a1 a2) ρ g Q.
Proof.
  intros Hl Hh Hne S1 S2 high HQ. pose proof S1 as (_ & R1 & X1). pose proof S2 as (_ & R2 & X2).
  cbn in R1, X1, R2, X2. rewrite !(proj2 (sgn_low _ _)) in HQ. unfold tcg_gen_muls2_i64, high in *.
  apply wpv_post. vopen. destruct (_ || _).
  - rewrite <- muls_high in HQ by done.
    vnew t0 G0. vnew t1 G1. vnew t2 G2. vnew t3 G3.
    apply wpv_bind. eapply spec_mulu2_i64; [vd|vd|neq|vs|vs|].
    apply wpv_bind. eapply spec_sari; [cbn; lia|vd|vs|done|].
    apply wpv_bind. eapply spec_sari; [cbn; lia|vd|vs|done|].
    apply wpv_bind. vbin spec_and. apply wpv_bind. vbin spec_and. apply wpv_bind. vbin spec_sub.
    apply wpv_bind. vbin spec_sub. apply wpv_bind. vun spec_mov.
    apply wpv_bind. vfree. apply wpv_bind. vfree. apply wpv_bind. vfree. vfree. vdone HQ.
  - vnew t0 G0. apply wpv_bind. vbin spec_mul. rewrite insert_insert_eq.
    set (p := full TEMP_EBB I64 _ _).
    assert (T1 : src (<[t0 := p]> ρ) a1 I64 c1 x1) by vs. assert (T2 : src (<[t0 := p]> ρ) a2 I64 c2 x2) by vs.
    apply wpv_bind. eapply (wpv_callN_num i _ rh [V a1; V a2]); [apply (call_mulsh i c1 c2)| |lk|done|].
    { intros ρ' Hs. split; [|split; [|done]]; eapply num_kept; [|lk| |lk];
        (eapply num_weaken; [exact Hs|]); by eapply src_value. }
    apply wpv_bind. vun spec_mov. vfree. vdone HQ.
Qed.
End Spec.
