(* ===== verification/GenMemSpec.v ===== *)
(** Host loads and stores: what the operations emitted by [tcg_gen_ldst_op] do
    to the two views of memory, the concrete one and the one under the inputs
    considered. *)
From S2P Require Import Prelude Cond Bitops Backend SymHelpers SymMemory Ops Temps Exec Logic Calls Vars GenCore.
From S2P Require Import GenCoreSpec GenAlu GenAluSpec GenConvSpec GenWideSpec.

Section Spec.
Context `{SL : ShadowLaws} {BL : BackendLaws B BS}.
Context (i : Input).
Implicit Types (t ty : RegType).

Abbreviation wpv := (wpv i).
Abbreviation wp := (wp i).

(** ** The operations on cells *)

(** The bytes at [a] in the two views. *)
Definition now (g : ghost) (n a : Z) : Z := le_join (Z.to_nat n) (gmem g) a.
Definition alt (g : ghost) (n a : Z) : Z := le_join (Z.to_nat n) (galt g) a.

Lemma models_load Γ σ g st n r a :
  models i Γ σ g st → 0 < n ≤ r → r ≤ 32 →
  le_join (Z.to_nat n) (mem st) a = now g n a ∧
  shadows i (8 * r) (now g n a) (alt g n a) (extend_load (_sym_read_memory (shadow st) (mem st) a n true) n r).
Proof.
  intros [_ _ Mm Mb Ma] Hn Hr. pose proof (load_correct i (shadow st) (mem st) a n r Hn Hr Mb) as H.
  rewrite (le_join_ext _ (mem st) (gmem g)), (le_join_ext _ (alt_byte _ _ _) (galt g)) in H by eauto.
  split; [|done]. apply le_join_ext. eauto.
Qed.

Lemma wp_load_host t r base co cl σ g (Q : unit → store → ghost → Prop) k v0 b o n :
  args_in σ [base; co; cl] [ANum I64 b; ANum I64 o; ANum I64 n] →
  0 < n ≤ ty_width t / 8 → σ !! r = Some (Cell k I64 true v0) → writable k = true →
  let a := wrap 64 (b + o) in
  Q tt (<[r := Cell k I64 true (Exp (ty_width t) (now g n a) (alt g n a))]> σ) g →
  wp (tcg_emit_op (OpCall (HELPER_sym_load_host t) (Some r) [base; co; cl])) σ g Q.
Proof.
  intros Hin Hn Hr Hk a. apply wp_emit.
  { eapply same_shape_insert; [apply same_shape_refl|done..]. }
  intros Γ st HΓ HM. destruct (args_exec _ _ _ _ _ _ _ HM Hin) as (vs & Hvs & Hoks).
  apply Forall2_cons_inv_l in Hoks as (v1 & vs1 & [E1 _] & Hoks & ->).
  apply Forall2_cons_inv_l in Hoks as (v2 & vs2 & [E2 _] & Hoks & ->).
  apply Forall2_cons_inv_l in Hoks as (v3 & vs3 & [E3 _] & Hoks & ->). apply Forall2_nil_inv_l in Hoks as ->.
  destruct (models_load Γ σ g st n (ty_width t / 8) a HM Hn) as [_ H]; [by destruct t|].
  set (e := extend_load _ _ _) in H.
  destruct (wr_cell i Γ σ g st r k I64 true v0 (Exp (ty_width t) (now g n a) (alt g n a)) (of_expr e) HΓ HM)
    as (W & M & _); [done|done|exists e; split; [done|by destruct t]|].
  eexists. split; [|exact M]. cbn in Hvs |- *. rewrite Hvs. cbn. rewrite E1, E2, E3. cbn.
  unfold sym_load_host_internal. fold a. fold e. by rewrite W.
Qed.

(** The value a load gives, from the bytes read. *)
Definition loaded (opc : LdStOpcode) (z : Z) : Z :=
  let '(n, signed, _) := ldst_def opc in
  if signed : bool then wrap (ty_width (ldst_type opc)) (sgn (8 * n) z) else z.

Lemma ldst_size opc :
  ldst_def opc = (data_size opc, (ldst_def opc).1.2, is_load opc) ∧
  0 < data_size opc ≤ ty_width (ldst_type opc) / 8.
Proof. by destruct opc as [[]|[]|[]|[]| | |[]|[]|[]| |[]]. Qed.
Lemma data_width opc : 0 < 8 * data_size opc ≤ ty_width (ldst_type opc) ∧ ty_width (ldst_type opc) ≤ 64.
Proof. by destruct opc as [[]|[]|[]|[]| | |[]|[]|[]| |[]]. Qed.

Lemma now_range Γ σ g st n a : models i Γ σ g st → 0 < n → in_range (8 * n) (now g n a).
Proof.
  intros [_ _ Mm Mb _] Hn. unfold now. rewrite <- (Z2Nat.id n) at 1 by lia. apply le_join_range.
  intros k. rewrite <- Mm. apply Mb.
Qed.
Lemma loaded_reg opc z :
  in_range (8 * data_size opc) z →
  let r := if (ldst_def opc).1.2 then wrap 64 (sgn (8 * data_size opc) z) else z in
  in_range 64 r ∧ wrap (ty_width (ldst_type opc)) r = loaded opc z.
Proof.
  intros Hz. pose proof (data_width opc). unfold loaded. destruct (ldst_def opc) as [[n s] l] eqn:E. cbn [fst snd].
  assert (n = data_size opc) as -> by (pose proof (proj1 (ldst_size opc)); congruence).
  destruct s; cbv zeta.
  - split; [by apply wrap_range|]. by rewrite wrap_wrap_le by lia.
  - split; [|apply wrap_small]; (eapply in_range_le; [|exact Hz]); lia.
Qed.

Lemma wp_ld opc r base ofs σ g (Q : unit → store → ghost → Prop) k v0 k' b :
  is_load opc = true → σ !! base = Some (Cell k' I64 false (Num b)) →
  σ !! r = Some (Cell k (ldst_type opc) false v0) → writable k = true →
  let z := now g (data_size opc) (wrap 64 (b + ofs)) in
  Q tt (<[r := Cell k (ldst_type opc) false (Num (loaded opc z))]> σ) g →
  wp (tcg_emit_op (OpLdSt opc r base ofs)) σ g Q.
Proof.
  intros Hl Hb Hr Hk z. apply wp_emit.
  { eapply same_shape_insert; [apply same_shape_refl|done..]. }
  intros Γ st HΓ HM. destruct (m_cells _ _ _ _ _ HM _ _ Hb) as (v & Hv & zb & -> & Hz & Hc).
  cbn in Hc. rewrite wrap_small in Hc by done. subst zb. destruct (ldst_size opc) as [Hdef Hn].
  destruct (loaded_reg opc z) as [R1 R2]; [eapply now_range; [done|lia]|].
  set (x := if (ldst_def opc).1.2 then wrap 64 (sgn (8 * data_size opc) z) else z) in R1, R2.
  destruct (wr_cell i Γ σ g st r k (ldst_type opc) false v0 (Num (loaded opc z)) (VNum x) HΓ HM) as (W & M & _);
    [done..|by exists x|].
  eexists. split; [|exact M]. cbn. unfold exec_ldst. rewrite Hdef, Hl, Hv. cbn.
  rewrite (proj1 (models_load Γ σ g st (data_size opc) 8 _ HM ltac:(pose proof (data_width opc); lia) ltac:(lia))).
  fold z x. by rewrite W.
Qed.

(** ** The two operations of a store *)

Lemma wp_emit2 o1 o2 σ g σ' g' (Q : unit → store → ghost → Prop) :
  same_shape σ σ' →
  (∀ Γ st, typed Γ σ → models i Γ σ g st →
     ∃ st', exec Γ [o1; o2] st = Ok (Fall st') ∧ models i Γ σ' g' st') →
  Q tt σ' g' → wp (tcg_emit_op o1;; tcg_emit_op o2) σ g Q.
Proof.
  intros Hs Hx HQ s Hok. cbn. exists [o1; o2], σ', g'. split; [done|]. pose proof Hok as [[Hm Hf Hc] Ht].
  split; [split; [by split|by eapply same_shape_typed]|]. split; [reflexivity|].
  split; [cbn; by rewrite <- app_assoc|].
  intros Γ st HΓ Hst. apply Hx; [by eapply ctx_typed|done].
Qed.

Definition after_store (g : ghost) (a n c x : Z) : ghost :=
  Ghost (gpath g) (store_bytes (gmem g) a n c) (store_bytes (galt g) a n x) (gguest g) (gheap g).

Lemma models_store Γ σ g st a n w z x o :
  models i Γ σ g st → 0 < n → 8 * n ≤ w → shadows i w (wrap w z) x o →
  models i Γ σ (after_store g a n (wrap w z) x)
    (set_mem (set_shadow st (_sym_write_memory (shadow st) a n o true)) (store_bytes (mem st) a n z)).
Proof.
  intros [Mc Mp Mm Mb Ma] Hn Hw Ho. split; cbn; try done.
  - intros k. rewrite store_bytes_wrap by done. by apply store_bytes_ext.
  - by apply store_bytes_range.
  - intros k. rewrite <- (store_bytes_ext _ _ a n x k (Ma k)).
    rewrite <- (store_correct i (shadow st) (mem st) a n w (wrap w z) x o) by done.
    unfold alt_byte. f_equal. by rewrite store_bytes_wrap.
Qed.

Lemma wp_store opc v e base co cl ofs σ g (Q : unit → store → ghost → Prop) k c x b :
  is_load opc = false → σ !! v = Some (Cell k (ldst_type opc) false (Num c)) →
  args_in σ [e; base; co; cl]
    [AExp (ty_width (ldst_type opc)) c x; ANum I64 b; ANum I64 (wrap 64 ofs); ANum I64 (data_size opc)] →
  Q tt σ (after_store g (wrap 64 (b + ofs)) (data_size opc) c x) →
  wp (tcg_emit_op (OpCall HELPER_sym_store_host None [e; base; co; cl]);;
      tcg_emit_op (OpLdSt opc v base ofs)) σ g Q.
Proof.
  intros Hl Hv Hin. apply wp_emit2; [apply same_shape_refl|].
  intros Γ st HΓ HM. destruct (args_exec _ _ _ _ _ _ _ HM Hin) as (vs & Hvs & Hoks).
  apply Forall2_cons_inv_l in Hoks as (v1 & vs1 & (o & E1 & Ho) & Hoks & ->).
  apply Forall2_cons_inv_l in Hoks as (v2 & vs2 & [E2 _] & Hoks & ->).
  apply Forall2_cons_inv_l in Hoks as (v3 & vs3 & [E3 _] & Hoks & ->).
  apply Forall2_cons_inv_l in Hoks as (v4 & vs4 & [E4 _] & Hoks & ->). apply Forall2_nil_inv_l in Hoks as ->.
  destruct Hin as (_ & [k' Hb] & _).
  destruct (m_cells _ _ _ _ _ HM _ _ Hv) as (rv & Hrv & z & -> & _ & Hz). cbn in Hz. subst c.
  destruct (m_cells _ _ _ _ _ HM _ _ Hb) as (rb & Hrb & zb & -> & Hzb & Hzb'). cbn in Hzb'.
  rewrite wrap_small in Hzb' by done. subst zb. pose proof (data_width opc) as [Hd Hw].
  eexists. split; [|apply (models_store Γ σ g st (wrap 64 (b + ofs)) (data_size opc) _ z x o HM); [lia|lia|done]].
  cbn in Hvs |- *. rewrite Hvs. cbn. rewrite E1, E2, E3, E4. cbn. unfold exec_ldst, helper_sym_store_host.
  rewrite (proj1 (ldst_size opc)), Hl, wrap_add_r by lia. change (rd Γ (set_shadow st ?s)) with (rd Γ st).
  rewrite Hrb. cbn. by rewrite Hrv.
Qed.

(** ** On variables *)

Lemma wpv_load_host t r base co cl ρ g (Q : unit → vars → ghost → Prop) k ty v0 e0 b o n :
  vargs_in ρ [V base; V co; V cl] [ANum I64 b; ANum I64 o; ANum I64 n] →
  0 < n ≤ ty_width t / 8 → ρ !! r = Some (Var k ty v0 e0) → writable k = true →
  let a := wrap 64 (b + o) in
  Q tt (<[r := Var k ty v0 (Exp (ty_width t) (now g n a) (alt g n a))]> ρ) g →
  wpv (tcg_emit_op (OpCall (HELPER_sym_load_host t) (Some (S r)) [base; co; cl])) ρ g Q.
Proof.
  intros Hin Hn Hr Hk a HQ σ Hc. pose proof (expr_writable k Hk) as Ek.
  eapply wp_load_host; [by apply (vargs_args σ ρ [V base; V co; V cl])|done|apply (Hc _ _ Hr)|cbn; by rewrite Ek|].
  eexists. split; [|exact HQ].
  by apply (covers_expr _ _ _ _ (Var k ty v0 (Exp (ty_width t) (now g n a) (alt g n a))) Hc Hr).
Qed.
Lemma wpv_ld opc r base ofs ρ g (Q : unit → vars → ghost → Prop) k v0 e0 k' e b :
  is_load opc = true → ρ !! base = Some (Var k' I64 (Num b) e) →
  ρ !! r = Some (Var k (ldst_type opc) v0 e0) → writable k = true →
  let z := now g (data_size opc) (wrap 64 (b + ofs)) in
  Q tt (<[r := Var k (ldst_type opc) (Num (loaded opc z)) e0]> ρ) g →
  wpv (tcg_emit_op (OpLdSt opc r base ofs)) ρ g Q.
Proof.
  intros Hl Hb Hr Hk z HQ σ Hc.
  eapply wp_ld; [done|apply (Hc _ _ Hb)|apply (Hc _ _ Hr)|done|].
  eexists. split; [|exact HQ]. by apply (covers_value _ _ _ _ (Var k (ldst_type opc) (Num (loaded opc z)) e0) Hc Hr).
Qed.
Lemma wpv_store opc v base co cl ofs ρ g (Q : unit → vars → ghost → Prop) k c x b :
  is_load opc = false → ρ !! v = Some (full k (ldst_type opc) c x) →
  vargs_in ρ [V base; V co; V cl] [ANum I64 b; ANum I64 (wrap 64 ofs); ANum I64 (data_size opc)] →
  Q tt ρ (after_store g (wrap 64 (b + ofs)) (data_size opc) c x) →
  wpv (tcg_emit_op (OpCall HELPER_sym_store_host None [S v; base; co; cl]);;
       tcg_emit_op (OpLdSt opc v base ofs)) ρ g Q.
Proof.
  intros Hl Hv Hin HQ σ Hc. eapply wp_store; [done|apply (Hc _ _ Hv)| |by exists ρ].
  apply (vargs_args σ ρ [E v; V base; V co; V cl]); [done|]. split; [by exists k, (ldst_type opc), (Num c)|done].
Qed.

(** ** The generator *)

Lemma data_const opc : wrap 64 (data_size opc) = data_size opc.
Proof. by destruct opc as [[]|[]|[]|[]| | |[]|[]|[]| |[]]. Qed.

Lemma spec_load t opc val base ofs ρ g (Q : unit → vars → ghost → Prop) k b xb :
  ldst_type opc = t → is_load opc = true → dst ρ val t k → src ρ base I64 b xb →
  let a := wrap 64 (b + ofs) in let z := now g (data_size opc) a in
  Q tt (<[val := Var k t (Num (loaded opc z)) (Exp (ty_width t) z (alt g (data_size opc) a))]> ρ) g →
  wpv (tcg_gen_ldst_op t opc val base ofs) ρ g Q.
Proof.
  intros <- Hl Hd Hb a z HQ. apply wpv_post. unfold tcg_gen_ldst_op. apply wpv_bind, wpv_assert.
  { by apply bool_decide_eq_true. }
  rewrite Hl. destruct (src_value _ _ _ _ _ Hb) as (kb & eb & Hlb). destruct Hd as [(v & e & Hr) Hw].
  apply wpv_bind. eapply wpv_temp_expr; [lk|].
  vconst co ρ1 Hs1 Hco. vconst cl ρ2 Hs2 Hcl.
  apply wpv_bind. eapply wpv_callN_expr; [lk|].
  eapply (wpv_load_host _ _ _ _ _ _ _ _ _ _ _ _ b (wrap 64 ofs) (data_size opc)); [|apply ldst_size|lk|done|].
  { split; [exists kb, eb; lk|]. split; [eexists _, _; lk|]. split; [|done].
    eexists _, _. rewrite <- (data_const opc). lk. }
  assert (Hv : holds_num ρ2 base I64 b) by (exists kb, eb; lk).
  rewrite wrap_add_r by lia. fold a z.
  destruct (num_kept _ _ _ _ val k (ldst_type opc) v e (Exp (ty_width (ldst_type opc)) z (alt g (data_size opc) a)) Hv
              ltac:(lk)) as (k1 & e1 & H1).
  eapply wpv_ld; [done|exact H1|lk|done|]. fold a z. vdone HQ.
Qed.

(** An unsigned load gives the two values of the bytes. *)
Definition unsigned (opc : LdStOpcode) : bool := negb (ldst_def opc).1.2.
Lemma spec_load_unsigned t opc val base ofs ρ g (Q : unit → vars → ghost → Prop) k b xb :
  ldst_type opc = t → is_load opc = true → unsigned opc = true → dst ρ val t k → src ρ base I64 b xb →
  let a := wrap 64 (b + ofs) in let n := data_size opc in
  Q tt (<[val := full k t (now g n a) (alt g n a)]> ρ) g →
  wpv (tcg_gen_ldst_op t opc val base ofs) ρ g Q.
Proof.
  intros Ht Hl Hu Hd Hb a n HQ. eapply spec_load; [done..|]. unfold loaded.
  unfold unsigned in Hu. destruct (ldst_def opc) as [[m []] l]; [done|]. by subst t.
Qed.

Lemma spec_store t opc val base ofs ρ g (Q : unit → vars → ghost → Prop) c x b xb :
  ldst_type opc = t → is_load opc = false → src ρ val t c x → src ρ base I64 b xb →
  Q tt ρ (after_store g (wrap 64 (b + ofs)) (data_size opc) c x) →
  wpv (tcg_gen_ldst_op t opc val base ofs) ρ g Q.
Proof.
  intros <- Hl [(k & Hv) _] Hb HQ. apply wpv_post. unfold tcg_gen_ldst_op. apply wpv_bind, wpv_assert.
  { by apply bool_decide_eq_true. }
  rewrite Hl. destruct (src_value _ _ _ _ _ Hb) as (kb & eb & Hlb).
  apply wpv_bind. eapply wpv_temp_expr; [lk|].
  vconst co ρ1 Hs1 Hco. vconst cl ρ2 Hs2 Hcl. eapply wpv_store; [done|lk| |].
  { split; [exists kb, eb; lk|]. split; [eexists _, _; lk|]. split; [|done].
    eexists _, _. rewrite <- (data_const opc). lk. }
  vdone HQ.
Qed.
End Spec.
