(* ===== verification/GenVec.v ===== *)
(** The generators of vector operations ([tcg/tcg-op-vec.c]).

    A symbolic helper for a vector reads the concrete operands from memory: the
    generated code allocates a buffer for each of them, stores the vector, calls
    the helper, and frees the buffers.

    What the host offers is a record: [tcg_can_emit_vec_op] is positive for an
    operation it emits as it is, negative for one it expands, and zero for one it
    does not have.  The list of operations that a front end announces in debug
    builds ([vecop_list]) is not modelled; nor are hosts of 32 bits. *)
From S2P Require Import Prelude Lanes Cond Bitops Backend VecOps SymVec Ops MemOp Temps GenCore.

Record VecHost := mkVecHost {
  TCG_TARGET_HAS_tst_vec : bool;
  tcg_can_emit_vec_op : VecOpcode → TCGType → Z → Z;
  tcg_expand_vec_op : VecOpcode → TCGType → Z → list TCGArg → Gen unit;
}.

(** ** Temporaries and constants ([tcg/tcg.c]) *)

Definition tcg_temp_new_ptr : Gen nat := tcg_temp_new I64.
Definition tcg_temp_new_vec (ty : TCGType) : Gen nat := tcg_temp_new_internal ty TEMP_EBB.
Definition tcg_temp_new_vec_matching (m : nat) : Gen nat :=
  t ← get_temp m;
  tcg_debug_assert (temp_allocated t);;
  tcg_temp_new_internal (base_type t) TEMP_EBB.
Definition tcg_temp_free_vec (t : nat) : Gen unit := tcg_temp_free_internal t.

(** An element repeated in 64 bits ([tcg/tcg-op-gvec.c]). *)
Definition dup_const (vece c : Z) : Gen Z :=
  if vece =? MO_8 then mret (wrap 64 (0x0101010101010101 * wrap 8 c))
  else if vece =? MO_16 then mret (wrap 64 (0x0001000100010001 * wrap 16 c))
  else if vece =? MO_32 then mret (wrap 64 (0x0000000100000001 * wrap 32 c))
  else if vece =? MO_64 then mret (wrap 64 c)
  else g_assert_not_reached.
(** The table of constants is indexed by [int64_t]. *)
Definition tcg_constant_vec (ty : TCGType) (vece v : Z) : Gen nat :=
  v ← dup_const vece v; tcg_constant_internal ty (sgn 64 v).
Definition tcg_constant_vec_matching (m : nat) (vece v : Z) : Gen nat :=
  t ← get_temp m;
  tcg_debug_assert (temp_allocated t);;
  tcg_constant_vec (base_type t) vece v.

(** ** Emitting operations *)

Definition vec_gen_2 (opc : VecOpcode) (type : TCGType) (vece : Z) (r a : TCGArg) : Gen unit :=
  tcg_emit_op (OpVec opc type vece [r; a]).
Definition vec_gen_3 (opc : VecOpcode) (type : TCGType) (vece : Z) (r a b : TCGArg) : Gen unit :=
  tcg_emit_op (OpVec opc type vece [r; a; b]).
Definition vec_gen_4 (opc : VecOpcode) (type : TCGType) (vece : Z) (r a b c : TCGArg) : Gen unit :=
  tcg_emit_op (OpVec opc type vece [r; a; b; c]).

(** [at->base_type >= type] *)
Definition type_ge (t1 t2 : TCGType) : bool := (type_code t2 <=? type_code t1)%nat.
Definition base_type_of (t : nat) : Gen TCGType := ts ← get_temp t; mret (base_type ts).

Definition vec_gen_op2 (opc : VecOpcode) (vece : Z) (r a : nat) : Gen unit :=
  type ← base_type_of r; at_ ← base_type_of a;
  tcg_debug_assert (type_ge at_ type);;
  vec_gen_2 opc type vece (temp_arg r) (temp_arg a).
Definition vec_gen_op3 (opc : VecOpcode) (vece : Z) (r a b : nat) : Gen unit :=
  type ← base_type_of r; at_ ← base_type_of a; bt ← base_type_of b;
  tcg_debug_assert (type_ge at_ type);;
  tcg_debug_assert (type_ge bt type);;
  vec_gen_3 opc type vece (temp_arg r) (temp_arg a) (temp_arg b).

(** ** Instrumentation *)

Definition vec_size (vector : nat) : Gen Z :=
  ty ← base_type_of vector;
  match ty with
  | TCG_TYPE_V64 => mret 64
  | TCG_TYPE_V128 => mret 128
  | TCG_TYPE_V256 => mret 256
  | _ => g_assert_not_reached
  end.

Definition gen_helper_malloc (ret size : nat) : Gen unit := tcg_gen_callN HELPER_malloc (Some ret) [size].
Definition gen_helper_free (p : nat) : Gen unit := tcg_gen_callN HELPER_free None [p].

Definition store_vector_in_memory (vector : nat) : Gen nat :=
  buffer_address ← tcg_temp_new_ptr;
  size ← vec_size vector; n ← tcg_constant_i64 (size / 8);
  gen_helper_malloc buffer_address n;;
  type ← base_type_of vector;
  vec_gen_3 INDEX_op_st_vec type 0 (temp_arg vector) (temp_arg buffer_address) (const_arg 0);;
  mret buffer_address.

Definition vec_vec_op_instrumentation (vece : Z) (r a b : nat) (sym_helper : Helper) : Gen unit :=
  buffer_address_a ← store_vector_in_memory a;
  buffer_address_b ← store_vector_in_memory b;
  size_a ← vec_size a; size_b ← vec_size b; size_r ← vec_size r;
  tcg_debug_assert ((size_a =? size_b) && (size_b =? size_r));;
  er ← temp_expr r; ea ← temp_expr a; eb ← temp_expr b;
  size ← tcg_constant_i64 size_a; ve ← tcg_constant_i64 vece;
  tcg_gen_callN sym_helper (Some er) [buffer_address_a; ea; buffer_address_b; eb; size; ve];;
  gen_helper_free buffer_address_a;;
  gen_helper_free buffer_address_b.

Definition vec_int32_op_instrumentation (vece : Z) (r a b : nat) (sym_helper : Helper) : Gen unit :=
  buffer_address_a ← store_vector_in_memory a;
  size_a ← vec_size a; size_r ← vec_size r;
  tcg_debug_assert (size_a =? size_r);;
  er ← temp_expr r; ea ← temp_expr a; eb ← temp_expr b;
  size ← tcg_constant_i64 size_a; ve ← tcg_constant_i64 vece;
  tcg_gen_callN sym_helper (Some er) [buffer_address_a; ea; b; eb; size; ve];;
  gen_helper_free buffer_address_a.

(** ** Moves, loads and stores *)

Definition tcg_gen_mov_vec (r a : nat) : Gen unit :=
  if (r =? a)%nat then mret tt
  else
    er ← temp_expr r; ea ← temp_expr a;
    tcg_gen_mov_concrete I64 er ea;;
    vec_gen_op2 INDEX_op_mov_vec 0 r a.

Definition tcg_gen_dupi_vec (vece : Z) (r : nat) (a : Z) : Gen unit :=
  ty ← base_type_of r; c ← tcg_constant_vec ty vece a; tcg_gen_mov_vec r c.

(** [tcg_gen_dup_i64_vec] and [tcg_gen_dup_i32_vec].  The helper takes the size of
    the vector before that of an element. *)
Definition tcg_gen_dup_vec (vece : Z) (r a : nat) : Gen unit :=
  er ← temp_expr r; ea ← temp_expr a;
  ve ← tcg_constant_i64 vece; size ← vec_size r; size ← tcg_constant_i64 size;
  tcg_gen_callN HELPER_sym_duplicate_value_into_vec (Some er) [ea; ve; size];;
  type ← base_type_of r;
  vec_gen_2 INDEX_op_dup_vec type vece (temp_arg r) (temp_arg a).
Definition tcg_gen_dup_i64_vec : Z → nat → nat → Gen unit := tcg_gen_dup_vec.
Definition tcg_gen_dup_i32_vec : Z → nat → nat → Gen unit := tcg_gen_dup_vec.

Definition tcg_gen_dup_mem_vec (vece : Z) (r b : nat) (ofs : Z) : Gen unit :=
  er ← temp_expr r;
  o ← tcg_constant_i64 ofs; size ← vec_size r; size ← tcg_constant_i64 size; ve ← tcg_constant_i64 vece;
  tcg_gen_callN HELPER_sym_load_and_duplicate_into_vec (Some er) [b; o; size; ve];;
  type ← base_type_of r;
  vec_gen_3 INDEX_op_dupm_vec type vece (temp_arg r) (temp_arg b) (const_arg ofs).

Definition vec_gen_ldst (opc : VecOpcode) (r b : nat) (o : Z) : Gen unit :=
  type ← base_type_of r; vec_gen_3 opc type 0 (temp_arg r) (temp_arg b) (const_arg o).

Definition tcg_gen_ld_vec (r b : nat) (o : Z) : Gen unit :=
  er ← temp_expr r; co ← tcg_constant_i64 o; size ← vec_size r; n ← tcg_constant_i64 (size / 8);
  tcg_gen_callN HELPER_sym_load_host_vec (Some er) [b; co; n];;
  vec_gen_ldst INDEX_op_ld_vec r b o.
Definition tcg_gen_st_vec (r b : nat) (o : Z) : Gen unit :=
  er ← temp_expr r; co ← tcg_constant_i64 o; size ← vec_size r; n ← tcg_constant_i64 (size / 8);
  tcg_gen_callN HELPER_sym_store_host None [er; b; co; n];;
  vec_gen_ldst INDEX_op_st_vec r b o.

Definition tcg_gen_stl_vec (r b : nat) (o : Z) (low_type : TCGType) : Gen unit :=
  type ← base_type_of r;
  tcg_debug_assert (type_ge low_type TCG_TYPE_V64);;
  tcg_debug_assert (type_ge type low_type);;
  length ← match low_type with
           | TCG_TYPE_V64 => mret 8
           | TCG_TYPE_V128 => mret 16
           | TCG_TYPE_V256 => mret 32
           | _ => g_assert_not_reached
           end;
  er ← temp_expr r; co ← tcg_constant_i64 o; n ← tcg_constant_i64 length;
  tcg_gen_callN HELPER_sym_store_host None [er; b; co; n];;
  vec_gen_3 INDEX_op_st_vec low_type 0 (temp_arg r) (temp_arg b) (const_arg o).

(** ** Logic *)

Definition tcg_gen_and_vec (vece : Z) (r a b : nat) : Gen unit :=
  vec_vec_op_instrumentation vece r a b (HELPER_sym_vec SYM_VEC_and);; vec_gen_op3 INDEX_op_and_vec 0 r a b.
Definition tcg_gen_or_vec (vece : Z) (r a b : nat) : Gen unit :=
  vec_vec_op_instrumentation vece r a b (HELPER_sym_vec SYM_VEC_or);; vec_gen_op3 INDEX_op_or_vec 0 r a b.
Definition tcg_gen_xor_vec (vece : Z) (r a b : nat) : Gen unit :=
  vec_vec_op_instrumentation vece r a b (HELPER_sym_vec SYM_VEC_xor);; vec_gen_op3 INDEX_op_xor_vec 0 r a b.

Definition tcg_gen_not_vec (vece : Z) (r a : nat) : Gen unit :=
  c ← tcg_constant_vec_matching r 0 (-1); tcg_gen_xor_vec 0 r a c.

(** The operations with a negated operand, and those with a negated result. *)
Definition tcg_gen_andc_vec (vece : Z) (r a b : nat) : Gen unit :=
  t ← tcg_temp_new_vec_matching r;
  tcg_gen_not_vec 0 t b;; tcg_gen_and_vec 0 r a t;;
  tcg_temp_free_vec t.
Definition tcg_gen_orc_vec (vece : Z) (r a b : nat) : Gen unit :=
  t ← tcg_temp_new_vec_matching r;
  tcg_gen_not_vec 0 t b;; tcg_gen_or_vec 0 r a t;;
  tcg_temp_free_vec t.
Definition tcg_gen_nand_vec (vece : Z) (r a b : nat) : Gen unit := tcg_gen_and_vec 0 r a b;; tcg_gen_not_vec 0 r r.
Definition tcg_gen_nor_vec (vece : Z) (r a b : nat) : Gen unit := tcg_gen_or_vec 0 r a b;; tcg_gen_not_vec 0 r r.
Definition tcg_gen_eqv_vec (vece : Z) (r a b : nat) : Gen unit := tcg_gen_xor_vec 0 r a b;; tcg_gen_not_vec 0 r r.

Definition tcg_gen_bitsel_vec (vece : Z) (r a b c : nat) : Gen unit :=
  type ← base_type_of r; at_ ← base_type_of a; bt ← base_type_of b; ct ← base_type_of c;
  tcg_debug_assert (type_ge at_ type);;
  tcg_debug_assert (type_ge bt type);;
  tcg_debug_assert (type_ge ct type);;
  t ← tcg_temp_new_vec type;
  tcg_gen_and_vec MO_8 t a b;; tcg_gen_andc_vec MO_8 r c a;; tcg_gen_or_vec MO_8 r r t;;
  tcg_temp_free_vec t.

(** ** Operations that a host may lack *)

Section Host.
Context (VH : VecHost).

Definition can_emit (opc : VecOpcode) (type : TCGType) (vece : Z) : bool := negb (tcg_can_emit_vec_op VH opc type vece =? 0).
Definition emits (opc : VecOpcode) (type : TCGType) (vece : Z) : bool := 0 <? tcg_can_emit_vec_op VH opc type vece.

(** Whether the host can do an operation, by itself or by the fallbacks below. *)
Definition can_emit_or_fallback (type : TCGType) (vece : Z) (opc : VecOpcode) : bool :=
  let can opc := can_emit opc type vece in
  can opc ||
  match opc with
  | INDEX_op_neg_vec => can INDEX_op_sub_vec
  | INDEX_op_abs_vec =>
      can INDEX_op_sub_vec &&
      (emits INDEX_op_smax_vec type vece || emits INDEX_op_sari_vec type vece || can INDEX_op_cmp_vec)
  | INDEX_op_usadd_vec => can INDEX_op_umin_vec || can INDEX_op_cmp_vec
  | INDEX_op_ussub_vec => can INDEX_op_umax_vec || can INDEX_op_cmp_vec
  | INDEX_op_cmpsel_vec | INDEX_op_smin_vec | INDEX_op_smax_vec | INDEX_op_umin_vec | INDEX_op_umax_vec =>
      can INDEX_op_cmp_vec
  | _ => false
  end.
(** The list, if there is one. *)
Definition tcg_can_emit_vecop_list (l : option (list VecOpcode)) (type : TCGType) (vece : Z) : bool :=
  match l with None => true | Some l => forallb (can_emit_or_fallback type vece) l end.

Definition do_op3 (vece : Z) (r a b : nat) (opc : VecOpcode) : Gen bool :=
  type ← base_type_of r; at_ ← base_type_of a; bt ← base_type_of b;
  tcg_debug_assert (type_ge at_ type);;
  tcg_debug_assert (type_ge bt type);;
  let can := tcg_can_emit_vec_op VH opc type vece in
  if 0 <? can then vec_gen_3 opc type vece (temp_arg r) (temp_arg a) (temp_arg b);; mret true
  else if can <? 0 then tcg_expand_vec_op VH opc type vece [temp_arg r; temp_arg a; temp_arg b];; mret true
  else mret false.
Definition do_op3_nofail (vece : Z) (r a b : nat) (opc : VecOpcode) : Gen unit :=
  ok ← do_op3 vece r a b opc; tcg_debug_assert ok.

(** An instrumented operation on two vectors. *)
Definition gen_sym_op3 (op : SymVecOp) (opc : VecOpcode) (vece : Z) (r a b : nat) : Gen unit :=
  vec_vec_op_instrumentation vece r a b (HELPER_sym_vec op);; do_op3_nofail vece r a b opc.
Definition tcg_gen_add_vec := gen_sym_op3 SYM_VEC_add INDEX_op_add_vec.
Definition tcg_gen_sub_vec := gen_sym_op3 SYM_VEC_sub INDEX_op_sub_vec.
Definition tcg_gen_mul_vec := gen_sym_op3 SYM_VEC_mul INDEX_op_mul_vec.
Definition tcg_gen_ssadd_vec := gen_sym_op3 SYM_VEC_signed_saturating_add INDEX_op_ssadd_vec.
Definition tcg_gen_sssub_vec := gen_sym_op3 SYM_VEC_signed_saturating_sub INDEX_op_sssub_vec.
Definition tcg_gen_shlv_vec := gen_sym_op3 SYM_VEC_shift_left INDEX_op_shlv_vec.
Definition tcg_gen_shrv_vec := gen_sym_op3 SYM_VEC_logical_shift_right INDEX_op_shrv_vec.
Definition tcg_gen_sarv_vec := gen_sym_op3 SYM_VEC_arithmetic_shift_right INDEX_op_sarv_vec.
Definition tcg_gen_rotlv_vec := gen_sym_op3 SYM_VEC_rotate_left INDEX_op_rotlv_vec.
Definition tcg_gen_rotrv_vec := gen_sym_op3 SYM_VEC_rotate_right INDEX_op_rotrv_vec.

Definition tcg_gen_neg_vec (vece : Z) (r a : nat) : Gen unit :=
  c ← tcg_constant_vec_matching r vece 0; tcg_gen_sub_vec vece r c a.

(** ** Shifts by an immediate and by a scalar *)

Definition do_shifti (opc : VecOpcode) (vece : Z) (r a : nat) (i : Z) : Gen unit :=
  type ← base_type_of r; at_ ← base_type_of a;
  tcg_debug_assert (bool_decide (at_ = type));;
  tcg_debug_assert ((0 <=? i) && (i <? Z.shiftl 8 vece));;
  if i =? 0 then tcg_gen_mov_vec r a
  else
    let can := tcg_can_emit_vec_op VH opc type vece in
    if 0 <? can then vec_gen_3 opc type vece (temp_arg r) (temp_arg a) (const_arg i)
    else
      tcg_debug_assert (can <? 0);;
      tcg_expand_vec_op VH opc type vece [temp_arg r; temp_arg a; const_arg i].

Definition gen_sym_shifti (op : SymVecOp) (opc : VecOpcode) (vece : Z) (r a : nat) (i : Z) : Gen unit :=
  c ← tcg_constant_i32 i;
  vec_int32_op_instrumentation vece r a c (HELPER_sym_vec_int32 op);;
  do_shifti opc vece r a i.
Definition tcg_gen_shli_vec := gen_sym_shifti SYM_VEC_shift_left INDEX_op_shli_vec.
Definition tcg_gen_shri_vec := gen_sym_shifti SYM_VEC_logical_shift_right INDEX_op_shri_vec.
Definition tcg_gen_sari_vec := gen_sym_shifti SYM_VEC_arithmetic_shift_right INDEX_op_sari_vec.
Definition tcg_gen_rotli_vec := gen_sym_shifti SYM_VEC_rotate_left INDEX_op_rotli_vec.
Definition tcg_gen_rotri_vec (vece : Z) (r a : nat) (i : Z) : Gen unit :=
  let bits := Z.shiftl 8 vece in
  tcg_debug_assert ((0 <=? i) && (i <? bits));;
  c ← tcg_constant_i32 i;
  vec_int32_op_instrumentation vece r a c (HELPER_sym_vec_int32 SYM_VEC_rotate_right);;
  do_shifti INDEX_op_rotli_vec vece r a (Z.land (- i) (bits - 1)).

Definition do_shifts (vece : Z) (r a s : nat) (opc : VecOpcode) : Gen unit :=
  type ← base_type_of r; at_ ← base_type_of a;
  tcg_debug_assert (type_ge at_ type);;
  let can := tcg_can_emit_vec_op VH opc type vece in
  if 0 <? can then vec_gen_3 opc type vece (temp_arg r) (temp_arg a) (temp_arg s)
  else if can <? 0 then tcg_expand_vec_op VH opc type vece [temp_arg r; temp_arg a; temp_arg s]
  else g_assert_not_reached.
Definition gen_sym_shifts (op : SymVecOp) (opc : VecOpcode) (vece : Z) (r a b : nat) : Gen unit :=
  vec_int32_op_instrumentation vece r a b (HELPER_sym_vec_int32 op);; do_shifts vece r a b opc.
Definition tcg_gen_shls_vec := gen_sym_shifts SYM_VEC_shift_left INDEX_op_shls_vec.
Definition tcg_gen_shrs_vec := gen_sym_shifts SYM_VEC_logical_shift_right INDEX_op_shrs_vec.
Definition tcg_gen_sars_vec := gen_sym_shifts SYM_VEC_arithmetic_shift_right INDEX_op_sars_vec.
Definition tcg_gen_rotls_vec := gen_sym_shifts SYM_VEC_rotate_left INDEX_op_rotls_vec.

(** ** Comparisons and selections *)

(** The call that follows a comparison or a selection, with the operands stored
    before it and the result after it, and the frees. *)
Definition gen_sym_after (sym_helper : Helper) (env : nat) (cond : TCGCond) (vece : Z) (r a b buffer_address_a buffer_address_b : nat)
    : Gen unit :=
  buffer_address_r ← store_vector_in_memory r;
  size_a ← vec_size a; size_b ← vec_size b; size_r ← vec_size r;
  tcg_debug_assert ((size_a =? size_b) && (size_b =? size_r));;
  er ← temp_expr r; ea ← temp_expr a; eb ← temp_expr b;
  c ← tcg_constant_i32 (cond_code cond);
  size ← tcg_constant_i64 size_a; ve ← tcg_constant_i64 vece;
  tcg_gen_callN sym_helper (Some er) [env; buffer_address_a; ea; buffer_address_b; eb; c; buffer_address_r; size; ve];;
  gen_helper_free buffer_address_a;;
  gen_helper_free buffer_address_b;;
  gen_helper_free buffer_address_r.

Definition tcg_gen_cmp_vec (env : nat) (cond : TCGCond) (vece : Z) (r a b : nat) : Gen unit :=
  type ← base_type_of r; at_ ← base_type_of a; bt ← base_type_of b;
  buffer_address_a ← store_vector_in_memory a;
  buffer_address_b ← store_vector_in_memory b;
  tcg_debug_assert (type_ge at_ type);;
  tcg_debug_assert (type_ge bt type);;
  let can := tcg_can_emit_vec_op VH INDEX_op_cmp_vec type vece in
  '(tt_, ai, bi, cond) ←
    (if negb (TCG_TARGET_HAS_tst_vec VH) && is_tst_cond cond then
       t ← tcg_temp_new_internal type TEMP_EBB;
       vec_gen_3 INDEX_op_and_vec type 0 (temp_arg t) (temp_arg a) (temp_arg b);;
       z ← tcg_constant_internal type 0;
       mret (Some t, t, z, tcg_tst_eqne_cond cond)
     else mret (None, a, b, cond));
  (if 0 <? can then
     vec_gen_4 INDEX_op_cmp_vec type vece (temp_arg r) (temp_arg ai) (temp_arg bi) (const_arg (cond_code cond))
   else
     tcg_debug_assert (can <? 0);;
     tcg_expand_vec_op VH INDEX_op_cmp_vec type vece
       [temp_arg r; temp_arg ai; temp_arg bi; const_arg (cond_code cond)]);;
  gen_sym_after HELPER_sym_cmp_vec env cond vece r a b buffer_address_a buffer_address_b;;
  match tt_ with Some t => tcg_temp_free_internal t | None => mret tt end.

Definition tcg_gen_cmpsel_vec (env : nat) (cond : TCGCond) (vece : Z) (r a b c d : nat) : Gen unit :=
  type ← base_type_of r; at_ ← base_type_of a; bt ← base_type_of b; ct ← base_type_of c; dt ← base_type_of d;
  tcg_debug_assert (type_ge at_ type);;
  tcg_debug_assert (type_ge bt type);;
  tcg_debug_assert (type_ge ct type);;
  tcg_debug_assert (type_ge dt type);;
  t ← tcg_temp_new_vec type;
  tcg_gen_cmp_vec env cond vece t a b;;
  tcg_gen_bitsel_vec vece r t c d;;
  tcg_temp_free_vec t.

Definition do_minmax (env : nat) (opc : VecOpcode) (cond : TCGCond) (vece : Z) (r a b : nat) : Gen unit :=
  buffer_address_a ← store_vector_in_memory a;
  buffer_address_b ← store_vector_in_memory b;
  ok ← do_op3 vece r a b opc;
  (if negb ok then tcg_gen_cmpsel_vec env cond vece r a b a b else mret tt);;
  gen_sym_after HELPER_sym_ternary_vec env cond vece r a b buffer_address_a buffer_address_b.
Definition tcg_gen_smin_vec (env : nat) := do_minmax env INDEX_op_smin_vec TCG_COND_LT.
Definition tcg_gen_umin_vec (env : nat) := do_minmax env INDEX_op_umin_vec TCG_COND_LTU.
Definition tcg_gen_smax_vec (env : nat) := do_minmax env INDEX_op_smax_vec TCG_COND_GT.
Definition tcg_gen_umax_vec (env : nat) := do_minmax env INDEX_op_umax_vec TCG_COND_GTU.

(** ** Operations with fallbacks *)

Definition tcg_gen_usadd_vec (env : nat) (vece : Z) (r a b : nat) : Gen unit :=
  vec_vec_op_instrumentation vece r a b (HELPER_sym_vec SYM_VEC_unsigned_saturating_add);;
  ok ← do_op3 vece r a b INDEX_op_usadd_vec;
  if negb ok then
    t ← tcg_temp_new_vec_matching r;
    tcg_gen_not_vec vece t b;; tcg_gen_umin_vec env vece t t a;; tcg_gen_add_vec vece r t b;;
    tcg_temp_free_vec t
  else mret tt.
Definition tcg_gen_ussub_vec (env : nat) (vece : Z) (r a b : nat) : Gen unit :=
  vec_vec_op_instrumentation vece r a b (HELPER_sym_vec SYM_VEC_unsigned_saturating_sub);;
  ok ← do_op3 vece r a b INDEX_op_ussub_vec;
  if negb ok then
    t ← tcg_temp_new_vec_matching r;
    tcg_gen_umax_vec env vece t a b;; tcg_gen_sub_vec vece r t b;;
    tcg_temp_free_vec t
  else mret tt.

Definition tcg_gen_abs_vec (env : nat) (vece : Z) (r a : nat) : Gen unit :=
  type ← base_type_of r;
  t ← tcg_temp_new_vec type;
  tcg_debug_assert (can_emit INDEX_op_sub_vec type vece);;
  (if emits INDEX_op_smax_vec type vece then
     tcg_gen_neg_vec vece t a;; tcg_gen_smax_vec env vece r a t
   else
     (if emits INDEX_op_sari_vec type vece then tcg_gen_sari_vec vece t a (Z.shiftl 8 vece - 1)
      else z ← tcg_constant_vec type vece 0; tcg_gen_cmp_vec env TCG_COND_LT vece t a z);;
     tcg_gen_xor_vec vece r a t;;
     tcg_gen_sub_vec vece r r t);;
  tcg_temp_free_vec t.
End Host.
