(* ===== verification/VecLogic.v ===== *)
(** The generator logic on vectors and on the buffers that hold them: rules for the
    vector operations, for [malloc] and [free], and for the helpers of
    [SymVec]. *)
From S2P Require Import Prelude Lanes Cond Bitops Backend VecOps SymHelpers SymMemory SymVec Ops Temps Exec Logic Calls Vars.
From S2P Require Import GenCore GenCoreSpec GenMemSpec GenVec.

Definition is_vec (ty : VarType) : bool := match ty with Reg _ => false | _ => true end.
Lemma vec_bits_width ty : is_vec ty = true → vec_bits (type_of ty) = var_width ty.
Proof. by destruct ty. Qed.
Lemma vec_width_shape ty vece : is_vec ty = true → 0 ≤ vece ≤ 3 → vec_shape (var_width ty) vece.
Proof. by destruct ty. Qed.

(** ** The heap *)

Definition with_heap (g : ghost) (H : list (option Block)) : ghost := Ghost (gpath g) (gmem g) (galt g) (gguest g) H.
(** [n] more blocks, all of them freed. *)
Definition spent (n : nat) (g : ghost) : ghost := with_heap g (gheap g ++ replicate n None).
(** A new block, and one that holds the vector [c] of [n] bytes. *)
Definition new_block (n : Z) : Block := mkBlock n (λ _, None).
Definition vec_block (n c : Z) : Block :=
  mkBlock n (λ j, if (0 <=? j) && (j <? 0 + n) then Some (byte_of c (j - 0)) else None).

Lemma spent_0 g : spent 0 g = g.
Proof. destruct g. unfold spent, with_heap. cbn. by rewrite app_nil_r. Qed.
Lemma spent_spent n m g : spent n (spent m g) = spent (m + n) g.
Proof. unfold spent, with_heap. cbn. by rewrite <- app_assoc, replicate_add. Qed.

(** The bytes that a helper reads from the block of a vector. *)
Definition block_mem (k : Block) : Mem := λ j, default 0 (block_bytes k j).
Lemma vec_block_holds n c : 0 ≤ n → in_range (8 * n) c → buffer_holds (block_mem (vec_block n c)) (8 * n) c.
Proof.
  intros Hn Hc. split.
  - intros j. unfold block_mem, vec_block. cbn. destruct (_ && _); [apply byte_of_range|done].
  - replace (8 * n / 8) with n by (rewrite Z.mul_comm; by rewrite Z.div_mul).
    rewrite (le_join_ext _ _ (λ j, byte_of c (j - 0))); [rewrite le_join_bytes0, wrap_small; [done|by rewrite Z2Nat.id]|].
    intros j Hj. unfold block_mem, vec_block. cbn. destruct (_ && _) eqn:E; [done|]. lia.
Qed.
Lemma read_vec_block {B : SymBackend} {SM : ShadowMemory B} (st : State) b n c :
  heap st !! b = Some (Some (vec_block n c)) →
  read_block st n (VBuf b) = Ok (block_mem (vec_block n c)).
Proof.
  intros Hb. unfold read_block, live_block. rewrite Hb. cbn [mbind res_bind block_size vec_block].
  rewrite !assert_true; [done| |lia]. apply forallb_forall. intros j (k & <- & Hk%in_seq)%in_map_iff.
  apply bool_decide_eq_true. cbn. destruct (_ && _) eqn:E; [done|]. lia.
Qed.

Section Rules.
Context `{SL : ShadowLaws} {BL : BackendLaws B BS}.
Context (i : Input).

Abbreviation wp := (wp i).
Abbreviation wpv := (wpv i).

(** ** Cells *)

(** The type of a temporary. *)
Lemma wp_get_value t σ g (Q : TCGTemp → store → ghost → Prop) k ty v :
  σ !! t = Some (Cell k ty false v) →
  (∀ ts, base_type ts = type_of ty → live ts → kind ts = k → Q ts σ g) → wp (get_temp t) σ g Q.
Proof.
  intros Ht HQ. apply wp_silent. intros s Hok. destruct (proj2 Hok t _ Ht) as (ts & te & H1 & _ & Hv & _ & Hl & _).
  unfold get_temp. rewrite H1. exists σ. destruct Hv as (Hb & _ & Hk & _). split; [by apply HQ|].
  split; [done|]. split; [reflexivity|]. by split.
Qed.

Lemma models_with_heap Γ σ g st H : models i Γ σ g st → models i Γ σ (with_heap g H) (set_heap st H).
Proof. intros []. by split. Qed.

Lemma wp_malloc r n σ g (Q : unit → store → ghost → Prop) k v0 k' m :
  σ !! n = Some (Cell k' I64 false (Num m)) → σ !! r = Some (Cell k I64 false v0) → writable k = true →
  Q tt (<[r := Cell k I64 false (Ptr (length (gheap g)))]> σ) (with_heap g (gheap g ++ [Some (new_block m)])) →
  wp (tcg_emit_op (OpCall HELPER_malloc (Some r) [n])) σ g Q.
Proof.
  intros Hn Hr Hk. apply wp_emit.
  { eapply same_shape_insert; [apply same_shape_refl|done..]. }
  intros Γ st HΓ HM. destruct (m_cells _ _ _ _ _ HM _ _ Hn) as (v & Hv & [N _]%num_cell).
  pose proof (m_heap _ _ _ _ _ HM) as Hh.
  pose proof (models_with_heap _ _ _ _ (gheap g ++ [Some (new_block m)]) HM) as HM'.
  destruct (wr_cell i Γ σ _ _ r k I64 false v0 (Ptr (length (gheap g))) (VBuf (length (gheap g))) HΓ HM') as (W & M & _);
    [done..|].
  eexists. split; [|exact M]. cbn. rewrite Hv. cbn. rewrite N. cbn. rewrite Hh. fold (new_block m). by rewrite W.
Qed.

Lemma wp_free p σ g (Q : unit → store → ghost → Prop) k b blk :
  σ !! p = Some (Cell k I64 false (Ptr b)) → gheap g !! b = Some (Some blk) →
  Q tt σ (with_heap g (<[b := None]> (gheap g))) →
  wp (tcg_emit_op (OpCall HELPER_free None [p])) σ g Q.
Proof.
  intros Hp Hb. apply wp_emit; [apply same_shape_refl|].
  intros Γ st HΓ HM. destruct (m_cells _ _ _ _ _ HM _ _ Hp) as (v & Hv & ->).
  eexists. split; [|by apply models_with_heap]. cbn. rewrite Hv. cbn. unfold live_block.
  rewrite (m_heap _ _ _ _ _ HM), Hb. done.
Qed.

(** Storing a vector at the start of a new block of its size. *)
Lemma wp_st_block ty v p σ g (Q : unit → store → ghost → Prop) k k' b c :
  is_vec ty = true → σ !! v = Some (Cell k ty false (Num c)) → σ !! p = Some (Cell k' I64 false (Ptr b)) →
  let n := var_width ty / 8 in
  gheap g !! b = Some (Some (new_block n)) →
  Q tt σ (with_heap g (<[b := Some (vec_block n c)]> (gheap g))) →
  wp (vec_gen_3 INDEX_op_st_vec (type_of ty) 0 (temp_arg v) (temp_arg p) (const_arg 0)) σ g Q.
Proof.
  intros Ht Hv Hp n Hb. apply wp_emit; [apply same_shape_refl|].
  intros Γ st HΓ HM. destruct (m_cells _ _ _ _ _ HM _ _ Hp) as (w & Hw & ->).
  destruct (m_cells _ _ _ _ _ HM _ _ Hv) as (z & Hz & c' & -> & Hc).
  assert (c' = c) as -> by (destruct ty; [done|by destruct Hc..]).
  eexists. split; [|by apply models_with_heap]. cbn. unfold exec_vec. cbn. rewrite Hz. cbn. rewrite Hw. cbn.
  unfold write_block, live_block. rewrite (m_heap _ _ _ _ _ HM), Hb, (vec_bits_width _ Ht). cbn. fold n.
  by rewrite assert_true by lia.
Qed.

(** An operation of a vector result, from what the registers hold. *)
Fixpoint vec_reads (σ : store) (ins : list nat) (tis : list VarType) (cs : list Z) : Prop :=
  match ins, tis, cs with
  | [], [], [] => True
  | t :: ins, ty :: tis, c :: cs => (∃ k, σ !! t = Some (Cell k ty false (Num c))) ∧ vec_reads σ ins tis cs
  | _, _, _ => False
  end.
Lemma vec_reads_exec Γ σ g st ins tis cs :
  models i Γ σ g st → vec_reads σ ins tis cs →
  ∃ zs, mapR (rd Γ st) ins = Ok (map VNum zs) ∧ Forall3 reg_holds tis zs cs ∧ length ins = length cs.
Proof.
  intros HM. revert tis cs. induction ins as [|t ins IH]; intros [|ty tis] [|c cs]; cbn; try done.
  { intros _. exists []. split; [done|]. by split; [constructor|]. }
  intros [(k & Ht) Hr]. destruct (m_cells _ _ _ _ _ HM _ _ Ht) as (v & Hv & z & -> & Hz).
  destruct (IH _ _ Hr) as (zs & Hzs & Hf & Hl). exists (z :: zs). rewrite Hv. cbn. rewrite Hzs. cbn.
  split; [done|]. split; [by constructor|]. by rewrite Hl.
Qed.

(** The operations that compute a vector from registers. *)
Definition vec_compute (opc : VecOpcode) : bool :=
  match opc with INDEX_op_ld_vec | INDEX_op_dupm_vec | INDEX_op_st_vec => false | _ => true end.

Lemma exec_vec_op Γ st opc ty vece r ins imms zs n :
  vec_compute opc = true → vec_op_def opc = (1, length ins, length imms)%nat →
  mapR (rd Γ st) ins = Ok (map VNum zs) →
  vec_op_val opc (vec_bits ty) (vece_element_size vece) (lane_count (vec_bits ty) vece) (map (wrap (vec_bits ty)) zs) imms = Some n →
  exec_vec Γ opc ty vece (map temp_arg (r :: ins) ++ map const_arg imms) st = wr Γ st r (VNum n).
Proof.
  intros Hc Hd Hr Hv. unfold exec_vec. rewrite Hd. cbn [map app firstn skipn length Nat.add].
  rewrite assert_true by (rewrite length_app, !length_map; apply Nat.eqb_eq; lia). cbn [mapR temp_of mbind res_bind].
  rewrite take_0, drop_0. cbn [mapR mbind res_bind]. rewrite <- (length_map temp_arg ins), take_app_length, drop_app_length, mapR_temp, mapR_const. cbn [mbind res_bind].
  rewrite Hr. cbn [mbind res_bind]. rewrite mapR_raw. cbn [mbind res_bind]. rewrite Hv. by destruct opc.
Qed.

Lemma wp_vec_op opc ty vece r ins imms σ g (Q : unit → store → ghost → Prop) k v0 tis cs n :
  vec_compute opc = true → vec_op_def opc = (1, length ins, length imms)%nat → is_vec ty = true →
  let size := var_width ty in
  σ !! r = Some (Cell k ty false v0) → writable k = true → vec_reads σ ins tis cs → in_range size n →
  (∀ zs, Forall3 reg_holds tis zs cs →
     vec_op_val opc size (vece_element_size vece) (lane_count size vece) (map (wrap size) zs) imms = Some n) →
  Q tt (<[r := Cell k ty false (Num n)]> σ) g →
  wp (tcg_emit_op (OpVec opc (type_of ty) vece (map temp_arg (r :: ins) ++ map const_arg imms))) σ g Q.
Proof.
  intros Hc Hd Ht size Hr Hk Hin Hn Hv. apply wp_emit.
  { eapply same_shape_insert; [apply same_shape_refl|done..]. }
  intros Γ st HΓ HM. destruct (vec_reads_exec _ _ _ _ _ _ _ HM Hin) as (zs & Hzs & Hf & _).
  destruct (wr_cell i Γ σ g st r k ty false v0 (Num n) (VNum n) HΓ HM) as (W & M & _); [done..| |].
  { exists n. split; [done|]. by destruct ty. }
  eexists. split; [|exact M]. cbn [exec_op]. pose proof (vec_bits_width _ Ht) as Hw.
  erewrite exec_vec_op; [by rewrite W|done..|]. rewrite Hw. by apply Hv.
Qed.

(** All operands are vectors of the type of the result. *)
Lemma vec_operands ty size zs cs :
  is_vec ty = true → size = var_width ty → Forall3 reg_holds (map (λ _, ty) cs) zs cs → map (wrap size) zs = cs.
Proof.
  intros Ht -> Hf. remember (map (λ _, ty) cs) as tis eqn:E. revert E.
  induction Hf as [|t z c tis zs cs Hz Hf IH]; intros E; [done|]. cbn in E. injection E as -> ->. cbn.
  rewrite IH by done. f_equal. destruct ty; [done|destruct Hz as [? ->]; by apply wrap_small..].
Qed.

(** ** Memory *)

(** The bytes that a helper and an operation read are those of the ghost state. *)
Lemma models_alt Γ σ g st n a : models i Γ σ g st → le_join n (alt_byte i (shadow st) (mem st)) a = le_join n (galt g) a.
Proof. intros HM. apply le_join_ext. intros k _. apply (m_alt _ _ _ _ _ HM). Qed.
Lemma models_now Γ σ g st n a : models i Γ σ g st → le_join n (mem st) a = le_join n (gmem g) a.
Proof. intros HM. apply le_join_ext. intros k _. apply (m_mem _ _ _ _ _ HM). Qed.

Lemma wp_mem_call h r args l σ g (Q : unit → store → ghost → Prop) k v0 w c x :
  args_in σ args l → σ !! r = Some (Cell k I64 true v0) → writable k = true →
  (∀ Γ vs st, models i Γ σ g st → Forall2 (arg_ok i) l vs →
     ∃ r, run_helper h vs st = ret_expr r st ∧ computes r i w c x) →
  Q tt (<[r := Cell k I64 true (Exp w c x)]> σ) g →
  wp (tcg_emit_op (OpCall h (Some r) args)) σ g Q.
Proof.
  intros Ha Hr Hk Hc. apply wp_emit.
  { eapply same_shape_insert; [apply same_shape_refl|done..]. }
  intros Γ st HΓ HM. destruct (args_exec _ _ _ _ _ _ _ HM Ha) as (vs & Hvs & Hoks).
  destruct (Hc Γ vs st HM Hoks) as (e & Hrun & o & -> & Hs).
  destruct (wr_cell i Γ σ g st r k I64 true v0 (Exp w c x) (of_expr o) HΓ HM) as (W & M & _); [done..|by exists o|].
  eexists. split; [|exact M]. cbn. rewrite Hvs. cbn. rewrite Hrun. cbn. by rewrite W.
Qed.

Lemma wp_ld_vec ty r base ofs σ g (Q : unit → store → ghost → Prop) k v0 k' b :
  is_vec ty = true → σ !! base = Some (Cell k' I64 false (Num b)) → σ !! r = Some (Cell k ty false v0) → writable k = true →
  Q tt (<[r := Cell k ty false (Num (now g (var_width ty / 8) (wrap 64 (b + ofs))))]> σ) g →
  wp (vec_gen_3 INDEX_op_ld_vec (type_of ty) 0 (temp_arg r) (temp_arg base) (const_arg ofs)) σ g Q.
Proof.
  intros Ht Hb Hr Hk. apply wp_emit.
  { eapply same_shape_insert; [apply same_shape_refl|done..]. }
  intros Γ st HΓ HM. destruct (m_cells _ _ _ _ _ HM _ _ Hb) as (v & Hv & zb & -> & Hz & Hc).
  cbn in Hc. rewrite wrap_small in Hc by done. subst zb. set (z := now g _ _).
  assert (Hn : var_width ty = 8 * (var_width ty / 8) ∧ 0 < var_width ty / 8) by (by destruct ty).
  pose proof (now_range i Γ σ g st (var_width ty / 8) (wrap 64 (b + ofs)) HM ltac:(lia)) as R. rewrite <- (proj1 Hn) in R.
  destruct (wr_cell i Γ σ g st r k ty false v0 (Num z) (VNum z) HΓ HM) as (W & M & _); [done..| |].
  { exists z. split; [done|]. by destruct ty. }
  eexists. split; [|exact M]. cbn. unfold exec_vec. cbn. rewrite Hv. cbn. rewrite (vec_bits_width _ Ht).
  rewrite (models_now _ _ _ _ _ _ HM). fold (now g (var_width ty / 8) (wrap 64 (b + ofs))). fold z. by rewrite W.
Qed.

Lemma wp_dupm_vec ty vece r base ofs σ g (Q : unit → store → ghost → Prop) k v0 k' b :
  is_vec ty = true → 0 ≤ vece ≤ 3 →
  σ !! base = Some (Cell k' I64 false (Num b)) → σ !! r = Some (Cell k ty false v0) → writable k = true →
  let w := vece_element_size vece in
  Q tt (<[r := Cell k ty false (Num (vdup (lane_count (var_width ty) vece) w (now g (w / 8) (wrap 64 (b + ofs)))))]> σ) g →
  wp (vec_gen_3 INDEX_op_dupm_vec (type_of ty) vece (temp_arg r) (temp_arg base) (const_arg ofs)) σ g Q.
Proof.
  intros Ht Hve Hb Hr Hk w. apply wp_emit.
  { eapply same_shape_insert; [apply same_shape_refl|done..]. }
  intros Γ st HΓ HM. destruct (m_cells _ _ _ _ _ HM _ _ Hb) as (v & Hv & zb & -> & Hz & Hc).
  cbn in Hc. rewrite wrap_small in Hc by done. subst zb. set (z := vdup _ _ _).
  destruct (vec_shape_facts _ _ (vec_width_shape _ _ Ht Hve)) as (Hw & _ & Hs & _). fold w in Hw, Hs.
  assert (R : in_range (var_width ty) z) by (rewrite Hs at 1; apply vdup_in; by apply width_pos).
  destruct (wr_cell i Γ σ g st r k ty false v0 (Num z) (VNum z) HΓ HM) as (W & M & _); [done..| |].
  { exists z. split; [done|]. by destruct ty. }
  eexists. split; [|exact M]. cbn. unfold exec_vec. cbn. rewrite Hv. cbn. rewrite (vec_bits_width _ Ht).
  rewrite (models_now _ _ _ _ _ _ HM). fold w. fold (now g (w / 8) (wrap 64 (b + ofs))). fold z. by rewrite W.
Qed.

(** A store of the low [n] bytes of a vector, and of its expression. *)
Lemma wp_store_vec ty low v e base co cl ofs σ g (Q : unit → store → ghost → Prop) k c x b :
  is_vec ty = true → is_vec low = true → var_width low ≤ var_width ty →
  let n := var_width low / 8 in
  σ !! v = Some (Cell k ty false (Num c)) →
  args_in σ [e; base; co; cl] [AExp (var_width ty) c x; ANum I64 b; ANum I64 (wrap 64 ofs); ANum I64 n] →
  Q tt σ (after_store g (wrap 64 (b + ofs)) n c x) →
  wp (tcg_emit_op (OpCall HELPER_sym_store_host None [e; base; co; cl]);;
      vec_gen_3 INDEX_op_st_vec (type_of low) 0 (temp_arg v) (temp_arg base) (const_arg ofs)) σ g Q.
Proof.
  intros Ht Hl Hw n Hv Hin. apply wp_emit2; [apply same_shape_refl|].
  intros Γ st HΓ HM. destruct (args_exec _ _ _ _ _ _ _ HM Hin) as (vs & Hvs & Hoks).
  apply Forall2_cons_inv_l in Hoks as (v1 & vs1 & (o & E1 & Ho) & Hoks & ->).
  apply Forall2_cons_inv_l in Hoks as (v2 & vs2 & [E2 _] & Hoks & ->).
  apply Forall2_cons_inv_l in Hoks as (v3 & vs3 & [E3 _] & Hoks & ->).
  apply Forall2_cons_inv_l in Hoks as (v4 & vs4 & [E4 _] & Hoks & ->). apply Forall2_nil_inv_l in Hoks as ->.
  destruct Hin as (_ & [k' Hb] & _).
  destruct (m_cells _ _ _ _ _ HM _ _ Hv) as (rv & Hrv & z & -> & Hz).
  assert (Hzc : in_range (var_width ty) z ∧ z = c) by (by destruct ty). destruct Hzc as [R <-].
  destruct (m_cells _ _ _ _ _ HM _ _ Hb) as (rb & Hrb & zb & -> & Hzb & Hzb'). cbn in Hzb'.
  rewrite wrap_small in Hzb' by done. subst zb.
  assert (Hn : 0 < n ∧ 8 * n = var_width low) by (subst n; by destruct low).
  pose proof (models_store i Γ σ g st (wrap 64 (b + ofs)) n (var_width ty) z x o HM ltac:(lia) ltac:(lia)) as HM'.
  rewrite (wrap_small (var_width ty) z) in HM' by done. specialize (HM' Ho).
  eexists. split; [|exact HM'].
  cbn in Hvs |- *. rewrite Hvs. cbn. rewrite E1, E2, E3, E4. cbn. unfold helper_sym_store_host, exec_vec.
  rewrite wrap_add_r by lia. change (rd Γ (set_shadow st ?s)) with (rd Γ st). cbn.
  rewrite Hrv. cbn. rewrite Hrb. cbn. by rewrite (vec_bits_width _ Hl).
Qed.

(** ** Calls *)

(** The arguments of a call, by name. *)
Ltac call_args :=
  repeat match goal with
  | H : Forall2 _ (_ :: _) _ |- _ => apply Forall2_cons_inv_l in H as (? & ? & ? & H & ->)
  | H : Forall2 _ [] _ |- _ => apply Forall2_nil_inv_l in H as ->
  end;
  repeat match goal with
  | H : arg_ok _ (ANum _ _) _ |- _ => destruct H as [? ?]
  | H : arg_ok _ (AExp _ _ _) _ |- _ => destruct H as (? & ? & ?)
  | H : arg_ok _ (APtr ?b) ?v |- _ => change (v = VBuf b) in H; subst v
  end;
  cbn [run_helper].
Ltac call_reads :=
  repeat (match goal with
          | H : num _ _ = Ok _ |- _ => rewrite H
          | H : as_expr _ = Ok _ |- _ => rewrite H
          | H : heap ?st !! ?b = Some (Some (vec_block _ _)) |- context [read_block ?st _ (VBuf ?b)] =>
              rewrite (read_vec_block st b _ _ H)
          end; cbn [mbind res_bind]).

Lemma heap_call_expr H h l w c x :
  (∀ vs st, Forall2 (arg_ok i) l vs → heap st = H → ∃ r, run_helper h vs st = ret_expr r st ∧ computes r i w c x) →
  ∀ p, heap_call_ok i H h l I64 (Exp w c x) p p.
Proof.
  intros Hc p vs st Hvs Hh Hp. destruct (Hc vs st Hvs Hh) as (r & E & o & Ho & Hs).
  exists (of_expr o), (trace st). rewrite E, Ho, set_trace_id. split; [done|]. split; [|done]. by exists o.
Qed.

Context (ty : VarType) (vece : Z) (Hty : is_vec ty = true) (Hvece : 0 ≤ vece ≤ 3).
Let size := var_width ty.
Let w := vece_element_size vece.
Let n := lane_count size vece.

Lemma block_holds c : in_range size c → buffer_holds (block_mem (vec_block (size / 8) c)) size c.
Proof.
  intros Hc. assert (E : size = 8 * (size / 8)) by (subst size; by destruct ty).
  pose proof (vec_block_holds (size / 8) c) as Hb. rewrite <- E in Hb. apply Hb; [|done]. subst size. by destruct ty.
Qed.

Lemma call_sym_vec op H b1 b2 c1 x1 c2 x2 p :
  H !! b1 = Some (Some (vec_block (size / 8) c1)) → H !! b2 = Some (Some (vec_block (size / 8) c2)) →
  in_range size c1 → in_range size c2 → Forall2 (vec_domain op w) (lanes n w x1) (lanes n w x2) →
  heap_call_ok i H (HELPER_sym_vec op)
    [APtr b1; AExp size c1 x1; APtr b2; AExp size c2 x2; ANum I64 size; ANum I64 vece] I64
    (Exp size (vmap2 n w (vec_meaning op w) c1 c2) (vmap2 n w (vec_meaning op w) x1 x2)) p p.
Proof.
  intros H1 H2 R1 R2 Hd. apply heap_call_expr. intros vs st Hvs <-. call_args. call_reads.
  eexists. split; [reflexivity|]. apply vec_vec_correct; auto using block_holds. by apply vec_width_shape.
Qed.

(** For elements that are at least as wide as the number. *)
Lemma call_sym_vec_int32 op H b1 c1 x1 c2 x2 p :
  2 ≤ vece → H !! b1 = Some (Some (vec_block (size / 8) c1)) → in_range size c1 → vec_domain op w 0 x2 →
  heap_call_ok i H (HELPER_sym_vec_int32 op)
    [APtr b1; AExp size c1 x1; ANum I32 c2; AExp 32 c2 x2; ANum I64 size; ANum I64 vece] I64
    (Exp size (vmap n w (λ x, vec_meaning op w x c2) c1) (vmap n w (λ x, vec_meaning op w x x2) x1)) p p.
Proof.
  intros H2 H1 R1 Hd. apply heap_call_expr. intros vs st Hvs <-. call_args. call_reads.
  eexists. split; [reflexivity|]. apply vec_int32_correct; auto using block_holds. by apply vec_width_shape.
Qed.

(** The outcome of a comparison of the elements of two vectors. *)
Definition outcomes (cond : TCGCond) (c1 c2 : Z) : list bool := zip_with (cond_holds w cond) (lanes n w c1) (lanes n w c2).
Definition same_outcomes (cond : TCGCond) (c1 c2 x1 x2 : Z) : bool :=
  agree w cond (lanes n w x1) (lanes n w x2) (outcomes cond c1 c2).

Lemma call_sym_cmp_vec cond H b1 b2 br c1 x1 c2 x2 p :
  let cr := vmap2 n w (cmp_element w cond) c1 c2 in cond_proper cond = true →
  H !! b1 = Some (Some (vec_block (size / 8) c1)) → H !! b2 = Some (Some (vec_block (size / 8) c2)) →
  H !! br = Some (Some (vec_block (size / 8) cr)) → in_range size c1 → in_range size c2 → in_range size cr →
  heap_call_ok i H HELPER_sym_cmp_vec
    [AAny; APtr b1; AExp size c1 x1; APtr b2; AExp size c2 x2; ANum I32 (cond_code cond); APtr br; ANum I64 size; ANum I64 vece]
    I64 (Exp size cr cr) p (p && same_outcomes cond c1 c2 x1 x2).
Proof.
  intros cr Hc H1 H2 H3 R1 R2 R3 vs st Hvs <- Hp. unfold call_effect. call_args. call_reads. unfold cond_arg. call_reads.
  unfold tci_cond. rewrite cond_of_code_code. cbn [mbind res_bind]. call_reads.
  match goal with S1 : shadows _ _ c1 x1 ?o1, S2 : shadows _ _ c2 x2 ?o2 |- _ =>
    destruct (cmp_vec_correct i (env_pc st) size vece cond _ c1 x1 o1 _ c2 x2 o2 (block_mem (vec_block (size / 8) cr)) (trace st)
      (vec_width_shape _ _ Hty Hvece) Hc (block_holds _ R1) (block_holds _ R2) (block_holds _ R3) S1 S2) as (tr & E & Ht)
  end.
  exists (of_expr None), tr. unfold ret_traced. rewrite E. split; [done|]. split; [by exists None|]. by rewrite Ht, Hp.
Qed.

(** No two elements in the same place are equal. *)
Definition distinct (c1 c2 : Z) : Prop := Forall2 (λ x y, x ≠ y) (lanes n w c1) (lanes n w c2).
Lemma distinct_taken cond c1 c2 :
  distinct c1 c2 → zip_with (sel_taken w cond) (lanes n w c1) (lanes n w c2) = outcomes cond c1 c2.
Proof.
  unfold distinct, outcomes. induction 1 as [|x y l1 l2 Hne _ IH]; cbn; [done|]. rewrite IH. f_equal.
  unfold sel_taken. replace (x =? y) with false by lia. apply orb_false_r.
Qed.

Lemma call_sym_ternary_vec cond H b1 b2 br c1 x1 c2 x2 p :
  let cr := vmap2 n w (sel_element w cond) c1 c2 in cond_proper cond = true → distinct c1 c2 →
  H !! b1 = Some (Some (vec_block (size / 8) c1)) → H !! b2 = Some (Some (vec_block (size / 8) c2)) →
  H !! br = Some (Some (vec_block (size / 8) cr)) → in_range size c1 → in_range size c2 → in_range size cr →
  heap_call_ok i H HELPER_sym_ternary_vec
    [AAny; APtr b1; AExp size c1 x1; APtr b2; AExp size c2 x2; ANum I32 (cond_code cond); APtr br; ANum I64 size; ANum I64 vece]
    I64 (Exp size cr (Lanes.join w (choose (outcomes cond c1 c2) (lanes n w x1) (lanes n w x2))))
    p (p && same_outcomes cond c1 c2 x1 x2).
Proof.
  intros cr Hc Hdis H1 H2 H3 R1 R2 R3 vs st Hvs <- Hp. unfold call_effect. call_args. call_reads. unfold cond_arg. call_reads.
  unfold tci_cond. rewrite cond_of_code_code. cbn [mbind res_bind]. call_reads.
  match goal with S1 : shadows _ _ c1 x1 ?o1, S2 : shadows _ _ c2 x2 ?o2 |- _ =>
    destruct (ternary_vec_correct i (env_pc st) size vece cond _ c1 x1 o1 _ c2 x2 o2 (block_mem (vec_block (size / 8) cr)) (trace st)
      (vec_width_shape _ _ Hty Hvece) Hc (block_holds _ R1) (block_holds _ R2) (block_holds _ R3) S1 S2) as (o & tr & E & Hs & Ht);
    fold w n in Hs, Ht; rewrite distinct_taken in Hs, Ht by done
  end.
  exists (of_expr o), tr. unfold ret_traced. rewrite E. split; [done|]. split; [by exists o|]. rewrite Ht, Hp. f_equal.
  destruct (bool_decide _) eqn:Eb; [|done]. apply bool_decide_eq_true in Eb as [E1 E2].
  rewrite E1, E2 in *. unfold same_outcomes, outcomes. cbn in * |-. simplify_eq. by rewrite agree_refl.
Qed.
End Rules.
