(* ===== verification/GenVecSpec.v ===== *)
(** What the generators of vector operations promise.

    Each rule accounts for the buffers: the generated code frees every block it
    allocates ([spent]). *)
From S2P Require Import Prelude Lanes Cond Bitops Backend VecOps SymHelpers SymMemory SymVec Ops MemOp Temps Exec Logic Calls Vars.
From S2P Require Import GenCore GenCoreSpec GenMemSpec GenAluSpec GenConvSpec GenVec VecLogic.

(** A vector that can be written: vector variables are temporaries of the basic
    block.  A vector operand. *)
Definition vdst (ρ : vars) (r : nat) (ty : VarType) : Prop := ∃ v e, ρ !! r = Some (Var TEMP_EBB ty v e).
Definition vsrc (ρ : vars) (a : nat) (ty : VarType) (c x : Z) : Prop :=
  (∃ k, ρ !! a = Some (full k ty c x)) ∧ in_range (var_width ty) c ∧ in_range (var_width ty) x.

(** ** Operands through updates *)

Lemma vsrc_weaken ty ρ ρ' a c x : ρ ⊆ ρ' → vsrc ρ a ty c x → vsrc ρ' a ty c x.
Proof. intros Hs ((k & H) & HR). split; [|done]. exists k. by eapply lookup_weaken. Qed.
Lemma vdst_weaken ty ρ ρ' r : ρ ⊆ ρ' → vdst ρ r ty → vdst ρ' r ty.
Proof. intros Hs (v & e & H). eexists _, _. by eapply lookup_weaken. Qed.
Lemma vsrc_other ty ρ a t v c x : t ≠ a → vsrc ρ a ty c x → vsrc (<[t := v]> ρ) a ty c x.
Proof. intros Hne ((k & H) & HR). split; [|done]. exists k. by rewrite lookup_insert_ne. Qed.
Lemma vdst_other ty ρ r t v : t ≠ r → vdst ρ r ty → vdst (<[t := v]> ρ) r ty.
Proof. intros Hne (u & e & H). eexists _, _. by rewrite lookup_insert_ne. Qed.
Lemma vsrc_here ty ρ r k c x : in_range (var_width ty) c → in_range (var_width ty) x → vsrc (<[r := full k ty c x]> ρ) r ty c x.
Proof. intros Rc Rx. split; [|done]. exists k. apply lookup_insert_eq. Qed.
Lemma vdst_here ty ρ r v e : vdst (<[r := Var TEMP_EBB ty v e]> ρ) r ty.
Proof. eexists _, _. apply lookup_insert_eq. Qed.
Lemma vdst_keep ty ρ t k v e r : ρ !! t = Some (Var TEMP_EBB ty v e) → vdst ρ r ty → vdst (<[t := Var TEMP_EBB ty k e]> ρ) r ty.
Proof. intros Ht Hr. destruct (decide (t = r)) as [->|]; [apply vdst_here|by apply vdst_other]. Qed.
Lemma fresh_apart (ρ : vars) t : ρ !! t = None → ∀ a, is_Some (ρ !! a) → t ≠ a.
Proof. intros Ht a [v Hv]. congruence. Qed.
Lemma vsrc_is ty ρ a c x : vsrc ρ a ty c x → is_Some (ρ !! a).
Proof. intros ((k & H) & _). eauto. Qed.
Lemma vdst_is ty ρ r : vdst ρ r ty → is_Some (ρ !! r).
Proof. intros (v & e & H). eauto. Qed.

(** The operands and results of the next step, through updates of others. *)
Ltac vx :=
  lazymatch goal with
  | |- vsrc (<[?r := full _ _ _ _]> _) ?r _ _ _ => apply vsrc_here; [try done..]
  | |- vdst (<[?r := _]> _) ?r _ => apply vdst_here
  | |- vsrc (<[_ := _]> _) _ _ _ _ => apply vsrc_other; [vne|vx]
  | |- vdst (<[_ := _]> _) _ _ => apply vdst_other; [vne|vx]
  | |- _ => done
  end
with vne :=
  first [ assumption | apply not_eq_sym; assumption
        | match goal with
          | H : ?ρ !! ?t = None |- ?t ≠ _ => apply (fresh_apart ρ t H); eauto using vsrc_is, vdst_is
          | H : ?ρ !! ?t = None |- _ ≠ ?t => apply not_eq_sym, (fresh_apart ρ t H); eauto using vsrc_is, vdst_is
          end ].
(** The end: temporaries are forgotten, the blocks are summed up. *)
Ltac vend HQ := rewrite ?spent_spent; eexists; (split; [|apply HQ]); vsub.

Section Spec.
Context `{SL : ShadowLaws} {BL : BackendLaws B BS}.
Context (i : Input).

Abbreviation wpv := (wpv i).

(** ** Rules on variables *)

Lemma wpv_base_type t ρ g Q v : ρ !! t = Some v → Q (type_of (vt v)) ρ g → wpv (base_type_of t) ρ g Q.
Proof.
  intros Ht HQ. apply wpv_bind. intros σ Hc. eapply wp_get_value; [apply (Hc _ _ Ht)|]. intros ts Hb _ _.
  exists ρ. split; [done|]. rewrite Hb. by apply wpv_ret.
Qed.
Lemma wpv_vec_size t ρ g Q v :
  ρ !! t = Some v → is_vec (vt v) = true → Q (var_width (vt v)) ρ g → wpv (vec_size t) ρ g Q.
Proof.
  intros Ht Hv HQ. apply wpv_bind. eapply wpv_base_type; [done|]. destruct (vt v); [done|by apply wpv_ret..].
Qed.
(** The temporaries that match another one, which must be allocated. *)
Lemma wpv_matching {A} (k : TCGType → Gen A) t ρ g Q v :
  ρ !! t = Some v → vk v = TEMP_EBB → wpv (k (type_of (vt v))) ρ g Q →
  wpv (ts ← get_temp t; tcg_debug_assert (temp_allocated ts);; k (base_type ts)) ρ g Q.
Proof.
  intros Ht Hk HQ. apply wpv_bind. intros σ Hc. eapply wp_get_value; [apply (Hc _ _ Ht)|]. intros ts Hb Hl Hkd.
  exists ρ. split; [done|]. apply wpv_bind, wpv_assert; [apply Hl; congruence|]. by rewrite Hb.
Qed.

Lemma wpv_callN_none h args ρ g Q :
  wpv (tcg_emit_op (OpCall h None args)) ρ g Q → wpv (tcg_gen_callN h None args) ρ g Q.
Proof. intros HQ. by apply wpv_bind, wpv_ret. Qed.

(** A helper that reads buffers. *)
Lemma wpv_heap_call h r os l ρ g (Q : unit → vars → ghost → Prop) k ty v0 e0 e' p' :
  heap_call_ok i (gheap g) h l I64 e' (gpath g) p' → vargs_in ρ os l →
  ρ !! r = Some (Var k ty v0 e0) → writable k = true →
  Q tt (<[r := Var k ty v0 e']> ρ) (Ghost p' (gmem g) (galt g) (gguest g) (gheap g)) →
  wpv (tcg_gen_callN h (Some (S r)) (map operand_temp os)) ρ g Q.
Proof.
  intros Hh Hin Hr Hk HQ. eapply wpv_callN_expr; [done|]. intros σ Hc. pose proof (expr_writable k Hk) as Ek.
  eapply wp_heap_call; [done|by eapply vargs_args|apply (Hc _ _ Hr)|cbn; by rewrite Ek|].
  eexists. split; [|exact HQ]. by apply (covers_expr _ _ _ _ (Var k ty v0 e') Hc Hr).
Qed.
(** A helper that reads memory. *)
Lemma wpv_mem_call h r os l ρ g (Q : unit → vars → ghost → Prop) k ty v0 e0 w c x :
  vargs_in ρ os l → ρ !! r = Some (Var k ty v0 e0) → writable k = true →
  (∀ Γ σ vs st, models i Γ σ g st → Forall2 (arg_ok i) l vs →
     ∃ r, run_helper h vs st = ret_expr r st ∧ computes r i w c x) →
  Q tt (<[r := Var k ty v0 (Exp w c x)]> ρ) g →
  wpv (tcg_gen_callN h (Some (S r)) (map operand_temp os)) ρ g Q.
Proof.
  intros Hin Hr Hk Hh HQ. eapply wpv_callN_expr; [done|]. intros σ Hc. pose proof (expr_writable k Hk) as Ek.
  eapply wp_mem_call; [by eapply vargs_args|apply (Hc _ _ Hr)|cbn; by rewrite Ek|eauto|].
  eexists. split; [|exact HQ]. by apply (covers_expr _ _ _ _ (Var k ty v0 (Exp w c x)) Hc Hr).
Qed.

Lemma wpv_vec_op opc ty vece r ins imms ρ g (Q : unit → vars → ghost → Prop) k v0 e0 cs n :
  vec_compute opc = true → vec_op_def opc = (1, length ins, length imms)%nat → is_vec ty = true →
  let size := var_width ty in
  ρ !! r = Some (Var k ty v0 e0) → writable k = true →
  Forall2 (λ t c, ∃ k e, ρ !! t = Some (Var k ty (Num c) e)) ins cs → in_range size n →
  vec_op_val opc size (vece_element_size vece) (lane_count size vece) cs imms = Some n →
  Q tt (<[r := Var k ty (Num n) e0]> ρ) g →
  wpv (tcg_emit_op (OpVec opc (type_of ty) vece (map temp_arg (r :: ins) ++ map const_arg imms))) ρ g Q.
Proof.
  intros Hc Hd Ht size Hr Hk Hin Hn Hv HQ σ Hcov.
  eapply (wp_vec_op i opc ty vece r ins imms σ g _ k v0 (map (λ _, ty) cs) cs n); try done.
  - apply (Hcov _ _ Hr).
  - clear -Hin Hcov. induction Hin as [|t c ins cs (k & e & Ht) _ IH]; cbn; [done|]. split; [|done]. exists k. apply (Hcov _ _ Ht).
  - intros zs Hf. by rewrite (vec_operands ty _ zs cs Ht eq_refl Hf).
  - eexists. split; [|exact HQ]. by apply (covers_value _ _ _ _ (Var k ty (Num n) e0) Hcov Hr).
Qed.

(** ** Buffers *)

Lemma wpv_malloc p n ρ g (Q : unit → vars → ghost → Prop) k v0 e0 k' en m :
  ρ !! n = Some (Var k' I64 (Num m) en) → ρ !! p = Some (Var k I64 v0 e0) → writable k = true →
  Q tt (<[p := Var k I64 (Ptr (length (gheap g))) e0]> ρ) (with_heap g (gheap g ++ [Some (new_block m)])) →
  wpv (tcg_emit_op (OpCall HELPER_malloc (Some p) [n])) ρ g Q.
Proof.
  intros Hn Hp Hk HQ σ Hc. eapply wp_malloc; [apply (Hc _ _ Hn)|apply (Hc _ _ Hp)|done|].
  eexists. split; [|exact HQ]. by apply (covers_value _ _ _ _ (Var k I64 (Ptr (length (gheap g))) e0) Hc Hp).
Qed.
Lemma wpv_st_block ty v p ρ g (Q : unit → vars → ghost → Prop) k e k' b ep c :
  is_vec ty = true → ρ !! v = Some (Var k ty (Num c) e) → ρ !! p = Some (Var k' I64 (Ptr b) ep) →
  let n := var_width ty / 8 in
  gheap g !! b = Some (Some (new_block n)) →
  Q tt ρ (with_heap g (<[b := Some (vec_block n c)]> (gheap g))) →
  wpv (vec_gen_3 INDEX_op_st_vec (type_of ty) 0 (temp_arg v) (temp_arg p) (const_arg 0)) ρ g Q.
Proof.
  intros Ht Hv Hp n Hb HQ σ Hc. eapply wp_st_block; [done|apply (Hc _ _ Hv)|apply (Hc _ _ Hp)|done|]. by exists ρ.
Qed.
Lemma wpv_free p ρ g (Q : unit → vars → ghost → Prop) k e b blk :
  ρ !! p = Some (Var k I64 (Ptr b) e) → gheap g !! b = Some (Some blk) →
  Q tt ρ (with_heap g (<[b := None]> (gheap g))) → wpv (gen_helper_free p) ρ g Q.
Proof.
  intros Hp Hb HQ. apply wpv_callN_none. intros σ Hc. eapply wp_free; [apply (Hc _ _ Hp)|done|]. by exists ρ.
Qed.

(** Storing a vector in a new buffer. *)
Lemma spec_store_vector vec ty ρ g (Q : nat → vars → ghost → Prop) k c e :
  is_vec ty = true → ρ !! vec = Some (Var k ty (Num c) e) →
  (∀ p ρ' ep, ρ ⊆ ρ' → ρ !! p = None → ρ' !! p = Some (Var TEMP_TB I64 (Ptr (length (gheap g))) ep) →
     Q p ρ' (with_heap g (gheap g ++ [Some (vec_block (var_width ty / 8) c)]))) →
  wpv (store_vector_in_memory vec) ρ g Q.
Proof.
  intros Ht Hv HQ. unfold store_vector_in_memory. apply wpv_bind, (wpv_temp_new i I64 TEMP_TB); [by right|]. intros p Hp.
  apply wpv_bind. eapply wpv_vec_size; [lk|done|]. cbn [vt]. set (m := var_width ty / 8).
  assert (Hm : const_num I64 m = m) by (subst m; by destruct ty).
  vconst n ρ1 Hs1 Hn. apply wpv_bind, wpv_bind, wpv_bind.
  assert (Hp1 : ρ1 !! p = Some (fresh_var TEMP_TB I64)) by lk.
  intros σ Hc. eapply wp_get_temp; [apply (Hc _ _ Hp1)|]. intros ts Hs _. exists ρ1. split; [done|]. rewrite Hs. clear σ Hc ts Hs.
  apply wpv_bind. eapply wpv_temp_expr; [done|]. apply wpv_bind. apply (wpv_constant i I64 0). intros z ρ2 Hs2 Hz.
  assert (Hp2 : ρ2 !! p = Some (fresh_var TEMP_TB I64)) by lk.
  eapply wpv_apart; [exact Hz|exact Hp2|]. intros Hne. unfold tcg_gen_mov_concrete, tcg_gen_mov_internal.
  rewrite (proj2 (Nat.eqb_neq _ _)) by done. apply wpv_bind, wpv_ret.
  eapply (wpv_mov_null i 64 0); [done..|]. eapply (wpv_malloc p n); [lk|lk|done|]. rewrite Hm.
  apply wpv_bind. eapply wpv_base_type; [lk|]. apply wpv_bind.
  assert (Hb : (gheap g ++ [Some (new_block m)]) !! length (gheap g) = Some (Some (new_block m)))
    by (by rewrite lookup_app_r, Nat.sub_diag by lia).
  eapply wpv_st_block; [done|lk|lk|exact Hb|]. apply wpv_ret. rewrite insert_insert_eq. cbn [gheap with_heap].
  rewrite insert_app_r_alt, Nat.sub_diag by lia. apply (HQ _ _ (Exp 64 0 0)); [|done|lk].
  apply map_subseteq_spec. intros u v Hu. lk.
Qed.

(** The blocks at the end of the heap. *)
Lemma block_at (H : list (option Block)) (l : list (option Block)) (j : nat) k :
  l !! j = Some k → (H ++ l) !! (length H + j)%nat = Some k.
Proof. intros Hj. rewrite lookup_app_r by lia. by replace (length H + j - length H)%nat with j by lia. Qed.
Lemma free_at (H l : list (option Block)) (j : nat) : <[(length H + j)%nat := None]> (H ++ l) = H ++ <[j := None]> l.
Proof. rewrite insert_app_r_alt by lia. by replace (length H + j - length H)%nat with j by lia. Qed.

(** Freeing the block [j] of those at the end. *)
Lemma spec_free_at p ρ g (Q : unit → vars → ghost → Prop) k e H l (j : nat) blk :
  ρ !! p = Some (Var k I64 (Ptr (length H + j)) e) → gheap g = H ++ l → l !! j = Some (Some blk) →
  Q tt ρ (with_heap g (H ++ <[j := None]> l)) → wpv (gen_helper_free p) ρ g Q.
Proof.
  intros Hp Hg Hj HQ. eapply wpv_free; [exact Hp|rewrite Hg; by apply block_at|]. by rewrite Hg, free_at.
Qed.

Lemma type_ge_refl t : type_ge t t = true.
Proof. apply Nat.leb_refl. Qed.

(** Operands of the type of the result. *)
Definition typed_as (ty : VarType) (ρ : vars) (t : nat) : Prop := ∃ v, ρ !! t = Some v ∧ vt v = ty.
Lemma wpv_type ty t ρ g Q : typed_as ty ρ t → Q (type_of ty) ρ g → wpv (base_type_of t) ρ g Q.
Proof. intros (v & Ht & <-) HQ. by eapply wpv_base_type. Qed.
Lemma wpv_types3 {A} ty (k : TCGType → Gen A) r a b ρ g Q :
  typed_as ty ρ r → typed_as ty ρ a → typed_as ty ρ b → wpv (k (type_of ty)) ρ g Q →
  wpv (type ← base_type_of r; at_ ← base_type_of a; bt ← base_type_of b;
       tcg_debug_assert (type_ge at_ type);; tcg_debug_assert (type_ge bt type);; k type) ρ g Q.
Proof.
  intros Hr Ha Hb Hk. do 3 (apply wpv_bind; apply (wpv_type ty); [done|]).
  do 2 (apply wpv_bind, wpv_assert; [apply type_ge_refl|]). done.
Qed.
Lemma typed_insert ty (ρ : vars) t r k v e : typed_as ty ρ t → ρ !! r = Some (Var k ty v e) →
  ∀ v' e', typed_as ty (<[r := Var k ty v' e']> ρ) t.
Proof.
  intros (u & Ht & Hu) Hr v' e'. destruct (decide (t = r)) as [->|].
  - eexists. by rewrite lookup_insert_eq.
  - exists u. by rewrite lookup_insert_ne.
Qed.
Lemma vsrc_typed ty ρ a c x : vsrc ρ a ty c x → typed_as ty ρ a.
Proof. intros ((k & H) & _). by eexists. Qed.
Lemma var_typed ty (ρ : vars) r k v e : ρ !! r = Some (Var k ty v e) → typed_as ty ρ r.
Proof. intros H. by eexists. Qed.

Section Op.
Context (ty : VarType) (vece : Z) (Hty : is_vec ty = true) (Hvece : 0 ≤ vece ≤ 3).
Let size := var_width ty.
Let w := vece_element_size vece.
Let n := lane_count size vece.

Lemma vsize_const : const_num I64 size = size.
Proof. subst size. by destruct ty. Qed.
Lemma vece_const : const_num I64 vece = vece.
Proof. apply wrap_small. split; [lia|]. cbn. lia. Qed.

(** Two operands in buffers. *)
Lemma spec_store_two a b ρ g {A} (k : nat → nat → Gen A) Q k1 c1 e1 k2 c2 e2 :
  ρ !! a = Some (Var k1 ty (Num c1) e1) → ρ !! b = Some (Var k2 ty (Num c2) e2) →
  (∀ p q ρ' ep eq, ρ ⊆ ρ' → ρ !! p = None → ρ !! q = None →
     ρ' !! p = Some (Var TEMP_TB I64 (Ptr (length (gheap g) + 0)) ep) →
     ρ' !! q = Some (Var TEMP_TB I64 (Ptr (length (gheap g) + 1)) eq) →
     wpv (k p q) ρ' (with_heap g (gheap g ++ [Some (vec_block (size / 8) c1); Some (vec_block (size / 8) c2)])) Q) →
  wpv (p ← store_vector_in_memory a; q ← store_vector_in_memory b; k p q) ρ g Q.
Proof.
  intros Ha Hb HQ. apply wpv_bind. eapply spec_store_vector; [done|exact Ha|]. intros p ρ1 ep Hs1 Np Hp.
  apply wpv_bind. eapply spec_store_vector; [done|lk|]. intros q ρ2 eq Hs2 Nq Hq. cbn [gheap with_heap] in *.
  rewrite length_app in Hq. fold size. rewrite <- app_assoc. apply (HQ p q ρ2 ep eq).
  - by etrans.
  - done.
  - apply eq_None_not_Some. intros [v Hv]. rewrite (lookup_weaken _ _ _ _ Hv Hs1) in Nq. done.
  - rewrite Nat.add_0_r. lk.
  - done.
Qed.

Lemma spec_vec_vec op r a b ρ g (Q : unit → vars → ghost → Prop) v0 e0 c1 x1 c2 x2 :
  ρ !! r = Some (Var TEMP_EBB ty v0 e0) → vsrc ρ a ty c1 x1 → vsrc ρ b ty c2 x2 →
  Forall2 (vec_domain op w) (lanes n w x1) (lanes n w x2) →
  let f := vmap2 n w (vec_meaning op w) in
  Q tt (<[r := Var TEMP_EBB ty v0 (Exp size (f c1 c2) (f x1 x2))]> ρ) (spent 2 g) →
  wpv (vec_vec_op_instrumentation vece r a b (HELPER_sym_vec op)) ρ g Q.
Proof.
  intros Hr [(k1 & Ha) [R1 _]] [(k2 & Hb) [R2 _]] Hd f HQ. apply wpv_post. eapply spec_store_two; [exact Ha|exact Hb|].
  intros p q ρ1 ep eq Hs Np Nq Hp Hq.
  apply wpv_bind; eapply wpv_vec_size; [lk|done|]; apply wpv_bind; eapply wpv_vec_size; [lk|done|];
    apply wpv_bind; eapply wpv_vec_size; [lk|done|]; cbn [vt full].
  apply wpv_bind, wpv_assert; [by rewrite !Z.eqb_refl|].
  do 3 (apply wpv_bind; eapply wpv_temp_expr; [lk|]). vconst cs ρ2 Hs2 Hcs. vconst cv ρ3 Hs3 Hcv. apply wpv_bind.
  eapply (wpv_heap_call _ _ [V p; E a; V q; E b; V cs; V cv]); [| |lk|done|].
  - apply (call_sym_vec i ty vece Hty Hvece op _ (length (gheap g) + 0) (length (gheap g) + 1) c1 x1 c2 x2);
      [by apply (block_at (gheap g) _ 0)|by apply (block_at (gheap g) _ 1)|done..].
  - split; [eexists _, _; lk|]. split; [eexists _, _, _; lk|]. split; [eexists _, _; lk|]. split; [eexists _, _, _; lk|].
    split; [|split; [|done]]; cbn.
    + exists TEMP_CONST, (Exp 64 size size). fold size in Hcs. unfold const_var, full in Hcs. rewrite vsize_const in Hcs. lk.
    + exists TEMP_CONST, (Exp 64 vece vece). unfold const_var, full in Hcv. rewrite vece_const in Hcv. lk.
  - cbn [gpath gmem galt gguest gheap with_heap]. apply wpv_bind. eapply spec_free_at; [lk|reflexivity..|]. cbn.
    eapply spec_free_at; [lk|reflexivity..|]. cbn. vdone HQ.
Qed.

(** A vector and a number: for elements that are at least as wide as the number. *)
Lemma spec_vec_int32 op r a b ρ g (Q : unit → vars → ghost → Prop) v0 e0 c1 x1 c2 x2 :
  2 ≤ vece → ρ !! r = Some (Var TEMP_EBB ty v0 e0) → vsrc ρ a ty c1 x1 → (∃ k, ρ !! b = Some (full k I32 c2 x2)) →
  vec_domain op w 0 x2 →
  let f c := vmap n w (λ y, vec_meaning op w y c) in
  Q tt (<[r := Var TEMP_EBB ty v0 (Exp size (f c2 c1) (f x2 x1))]> ρ) (spent 1 g) →
  wpv (vec_int32_op_instrumentation vece r a b (HELPER_sym_vec_int32 op)) ρ g Q.
Proof.
  intros Hv2 Hr [(k1 & Ha) [R1 _]] (k2 & Hb) Hd f HQ. apply wpv_post, wpv_bind. eapply spec_store_vector; [done|exact Ha|].
  intros p ρ1 ep Hs Np Hp.
  apply wpv_bind; eapply wpv_vec_size; [lk|done|]; apply wpv_bind; eapply wpv_vec_size; [lk|done|]; cbn [vt full].
  apply wpv_bind, wpv_assert; [by rewrite Z.eqb_refl|].
  do 3 (apply wpv_bind; eapply wpv_temp_expr; [lk|]). vconst cs ρ2 Hs2 Hcs. vconst cv ρ3 Hs3 Hcv. apply wpv_bind.
  eapply (wpv_heap_call _ _ [V p; E a; V b; E b; V cs; V cv]); [| |lk|done|].
  - apply (call_sym_vec_int32 i ty vece Hty Hvece op _ (length (gheap g)) c1 x1 c2 x2); [done| |done|done].
    rewrite <- (Nat.add_0_r (length (gheap g))). by apply (block_at (gheap g) _ 0).
  - split; [eexists _, _; lk|]. split; [eexists _, _, _; lk|]. split; [eexists _, _; lk|]. split; [eexists _, _, _; lk|].
    split; [|split; [|done]]; cbn.
    + exists TEMP_CONST, (Exp 64 size size). fold size in Hcs. unfold const_var, full in Hcs. rewrite vsize_const in Hcs. lk.
    + exists TEMP_CONST, (Exp 64 vece vece). unfold const_var, full in Hcv. rewrite vece_const in Hcv. lk.
  - cbn [gpath gmem galt gguest gheap with_heap]. eapply (spec_free_at p _ _ _ _ _ (gheap g) _ 0); [rewrite Nat.add_0_r; lk|reflexivity..|].
    cbn. vdone HQ.
Qed.

(** ** Operations of two vectors *)

Definition vec_binary_spec (m : nat → nat → nat → Gen unit) (ready : nat → nat → nat → Prop)
    (pre : Z → Z → Z → Z → Prop) (f : Z → Z → Z) : Prop :=
  ∀ r a b ρ g (Q : unit → vars → ghost → Prop) c1 x1 c2 x2,
    ready r a b → vdst ρ r ty → vsrc ρ a ty c1 x1 → vsrc ρ b ty c2 x2 → pre c1 x1 c2 x2 →
    (∀ m, Q tt (<[r := full TEMP_EBB ty (f c1 c2) (f x1 x2)]> ρ) (spent m g)) → wpv (m r a b) ρ g Q.
Definition anywhere (r a b : nat) : Prop := True.

(** The value, after the expression. *)
Definition value3_spec (m : nat → nat → nat → Gen unit) (ready : nat → nat → nat → Prop) (pre : Z → Z → Z → Z → Prop) (f : Z → Z → Z)
    : Prop :=
  ∀ r a b ρ g (Q : unit → vars → ghost → Prop) v0 e0 c1 x1 c2 x2,
    ready r a b →
    let e := Exp size (f c1 c2) (f x1 x2) in
    let ρ' := <[r := Var TEMP_EBB ty v0 e]> ρ in
    ρ !! r = Some (Var TEMP_EBB ty v0 e0) → vsrc ρ a ty c1 x1 → vsrc ρ b ty c2 x2 → pre c1 x1 c2 x2 →
    (∀ m, Q tt (<[r := full TEMP_EBB ty (f c1 c2) (f x1 x2)]> ρ) (spent m g)) → wpv (m r a b) ρ' g Q.

Lemma vsrc_value ρ a c x : vsrc ρ a ty c x → ∃ k e, ρ !! a = Some (Var k ty (Num c) e).
Proof. intros ((k & H) & _). by eexists _, _. Qed.
Lemma value_kept (ρ : vars) a r k v0 e0 e' c :
  ρ !! r = Some (Var k ty v0 e0) → (∃ k e, ρ !! a = Some (Var k ty (Num c) e)) →
  ∃ k1 e1, <[r := Var k ty v0 e']> ρ !! a = Some (Var k1 ty (Num c) e1).
Proof.
  intros Hr (k1 & e1 & Ha). destruct (decide (a = r)) as [->|].
  - rewrite Hr in Ha. injection Ha as -> -> ->. eexists _, _. apply lookup_insert_eq.
  - eexists _, _. rewrite lookup_insert_ne by done. exact Ha.
Qed.

Lemma spec_instrumented op m ready pre :
  (∀ c1 x1 c2 x2, pre c1 x1 c2 x2 → Forall2 (vec_domain op w) (lanes n w x1) (lanes n w x2)) →
  let f := vmap2 n w (vec_meaning op w) in
  value3_spec m ready pre f →
  vec_binary_spec (λ r a b, vec_vec_op_instrumentation vece r a b (HELPER_sym_vec op);; m r a b) ready pre f.
Proof.
  intros Hpre f Hm r a b ρ g Q c1 x1 c2 x2 Hready (v0 & e0 & Hr) Ha Hb Hp HQ. apply wpv_bind.
  eapply spec_vec_vec; [exact Hr|exact Ha|exact Hb|by eapply Hpre|]. eapply Hm; [done..|].
  intros k. rewrite spent_spent. apply HQ.
Qed.

(** An operation that is emitted. *)
Lemma wpv_emit_op3 opc r a b ρ g (Q : unit → vars → ghost → Prop) v0 e0 c1 c2 z :
  vec_compute opc = true → vec_op_def opc = (1, 2, 0)%nat → ρ !! r = Some (Var TEMP_EBB ty v0 e0) →
  (∃ k e, ρ !! a = Some (Var k ty (Num c1) e)) → (∃ k e, ρ !! b = Some (Var k ty (Num c2) e)) →
  ∀ ve, vec_op_val opc size (vece_element_size ve) (lane_count size ve) [c1; c2] [] = Some z → in_range size z →
  Q tt (<[r := Var TEMP_EBB ty (Num z) e0]> ρ) g →
  wpv (vec_gen_3 opc (type_of ty) ve (temp_arg r) (temp_arg a) (temp_arg b)) ρ g Q.
Proof.
  intros Hc Hd Hr Ha Hb ve Hv Hz HQ. eapply (wpv_vec_op opc ty ve r [a; b] []); try done. repeat constructor; done.
Qed.

Lemma value_emitted opc ready ve pre f :
  vec_compute opc = true → vec_op_def opc = (1, 2, 0)%nat →
  (∀ c1 x1 c2 x2, in_range size c1 → in_range size c2 → pre c1 x1 c2 x2 →
     vec_op_val opc size (vece_element_size ve) (lane_count size ve) [c1; c2] [] = Some (f c1 c2) ∧ in_range size (f c1 c2)) →
  value3_spec (λ r a b, vec_gen_3 opc (type_of ty) ve (temp_arg r) (temp_arg a) (temp_arg b)) ready pre f.
Proof.
  intros Hc Hd Hf r a b ρ g Q v0 e0 c1 x1 c2 x2 _ e ρ' Hr Ha Hb Hp HQ.
  destruct (Hf c1 x1 c2 x2) as [Hv Hz]; [apply Ha|apply Hb|done|].
  subst ρ'. eapply (wpv_emit_op3 opc r a b _ g Q); [done|done|lk|..|exact Hv|done|].
  - eapply value_kept; [exact Hr|by eapply vsrc_value].
  - eapply value_kept; [exact Hr|by eapply vsrc_value].
  - rewrite insert_insert_eq, <- (spent_0 g). apply HQ.
Qed.

(** After the expression of the result is there, the types are the same. *)
Lemma value3_types m ready pre f :
  value3_spec (m (type_of ty)) ready pre f →
  value3_spec (λ r a b, type ← base_type_of r; at_ ← base_type_of a; bt ← base_type_of b;
    tcg_debug_assert (type_ge at_ type);; tcg_debug_assert (type_ge bt type);; m type r a b) ready pre f.
Proof.
  intros Hm r a b ρ g Q v0 e0 c1 x1 c2 x2 Hrd e ρ' Hr Ha Hb Hp HQ. subst ρ'.
  apply (wpv_types3 ty (λ t, m t r a b)); [eapply var_typed; lk|eapply typed_insert; eauto using vsrc_typed..|]. eauto.
Qed.

(** An operation that the host emits, or expands into other operations.  The
    expansion computes the value, and may compute the expression again from
    operands other than the result. *)
Definition apart (r a b : nat) : Prop := r ≠ a ∧ r ≠ b.
Definition expands (VH : VecHost) (opc : VecOpcode) (pre : Z → Z → Z → Z → Prop) (f : Z → Z → Z) : Prop :=
  value3_spec (λ r a b, tcg_expand_vec_op VH opc (type_of ty) vece [temp_arg r; temp_arg a; temp_arg b]) apart pre f.
Definition op3_ready (VH : VecHost) (opc : VecOpcode) pre f (r a b : nat) : Prop :=
  let can := tcg_can_emit_vec_op VH opc (type_of ty) vece in
  0 < can ∨ can < 0 ∧ apart r a b ∧ expands VH opc pre f.

(** The result of the operation on its operands, as documented. *)
Definition op3_val (opc : VecOpcode) (pre : Z → Z → Z → Z → Prop) (f : Z → Z → Z) : Prop :=
  vec_compute opc = true ∧ vec_op_def opc = (1, 2, 0)%nat ∧
  ∀ c1 x1 c2 x2, in_range size c1 → in_range size c2 → pre c1 x1 c2 x2 →
    vec_op_val opc size w n [c1; c2] [] = Some (f c1 c2) ∧ in_range size (f c1 c2).

Lemma value_do_op3 VH opc pre f (k : nat → nat → nat → bool → Gen unit) :
  op3_val opc pre f → (∀ r a b, k r a b true = mret tt) →
  value3_spec (λ r a b, ok ← do_op3 VH vece r a b opc; k r a b ok) (op3_ready VH opc pre f) pre f.
Proof.
  intros (Hc & Hd & Hf) Hk r a b ρ g Q v0 e0 c1 x1 c2 x2 Hrd e ρ' Hr Ha Hb Hp HQ. subst ρ'. apply wpv_bind.
  apply (wpv_types3 ty (λ type, let can := tcg_can_emit_vec_op VH opc type vece in
    if 0 <? can then vec_gen_3 opc type vece (temp_arg r) (temp_arg a) (temp_arg b);; mret true
    else if can <? 0 then tcg_expand_vec_op VH opc type vece [temp_arg r; temp_arg a; temp_arg b];; mret true
    else mret false)); [eapply var_typed; lk|eapply typed_insert; eauto using vsrc_typed..|].
  cbv zeta. destruct Hrd as [Hcan|(Hcan & Hap & Hex)].
  - replace (0 <? _) with true by lia. apply wpv_bind.
    eapply (value_emitted opc anywhere vece pre f); [done..|]. intros m. apply wpv_ret. rewrite Hk. by apply wpv_ret.
  - replace (0 <? _) with false by lia. replace (_ <? 0) with true by lia. apply wpv_bind.
    eapply Hex; [done..|]. intros m. apply wpv_ret. rewrite Hk. by apply wpv_ret.
Qed.

Lemma spec_op3 VH op opc pre :
  let f := vmap2 n w (vec_meaning op w) in
  (∀ c1 x1 c2 x2, pre c1 x1 c2 x2 → Forall2 (vec_domain op w) (lanes n w x1) (lanes n w x2)) →
  op3_val opc pre f →
  vec_binary_spec (gen_sym_op3 VH op opc vece) (op3_ready VH opc pre f) pre f.
Proof.
  intros f Hd Hv. apply (spec_instrumented op (λ r a b, do_op3_nofail VH vece r a b opc)); [done|].
  by apply (value_do_op3 VH opc pre f (λ _ _ _, tcg_debug_assert)).
Qed.

(** ** Arithmetic and shifts *)

Lemma shape : vec_shape size vece.
Proof. by apply vec_width_shape. Qed.
Lemma w_pos : 0 < w.
Proof. apply width_pos. by destruct (vec_shape_facts _ _ shape). Qed.
Lemma size_lanes : size = Z.of_nat n * w.
Proof. by destruct (vec_shape_facts _ _ shape) as (_ & _ & ? & _). Qed.
Lemma vmap2_size f a b : (∀ x y, in_range w x → in_range w y → in_range w (f x y)) → in_range size (vmap2 n w f a b).
Proof. intros Hf. rewrite size_lanes. apply vmap2_range; [apply w_pos|done]. Qed.

Lemma elements_val op opc pre :
  vec_compute opc = true → vec_op_def opc = (1, 2, 0)%nat → element_op opc w = Some (vec_meaning op w) →
  op3_val opc pre (vmap2 n w (vec_meaning op w)).
Proof.
  intros Hc Hd He. split; [done|]. split; [done|]. intros c1 x1 c2 x2 R1 R2 _. unfold vec_op_val. rewrite He. split; [by destruct (bit_op opc size), (shift_op opc w) as [[[] ?]|]|].
  apply vmap2_size. intros. apply vec_meaning_range; auto using w_pos.
Qed.

(** The amounts of the run are less than the width of an element; for rotations
    those under the inputs considered as well. *)
Definition amounts_ok (op : SymVecOp) (c1 x1 c2 x2 : Z) : Prop :=
  Forall (λ s, s < w) (lanes n w c2) ∧ Forall2 (vec_domain op w) (lanes n w x1) (lanes n w x2).
Lemma shifts_val op opc :
  vec_compute opc = true → vec_op_def opc = (1, 2, 0)%nat → element_op opc w = None → bit_op opc size = None →
  shift_op opc w = Some (Elements, vec_meaning op w) →
  op3_val opc (amounts_ok op) (vmap2 n w (vec_meaning op w)).
Proof.
  intros Hc Hd He Hb Hs. split; [done|]. split; [done|]. intros c1 x1 c2 x2 R1 R2 [Hp _]. unfold vec_op_val. rewrite He, Hb, Hs.
  replace (forallb _ _) with true; [split; [done|]|].
  - apply vmap2_size. intros. apply vec_meaning_range; auto using w_pos.
  - symmetry. pose proof (lanes_range n w c2 ltac:(pose proof w_pos; lia)) as Hr. apply forallb_forall. intros s Hin.
    rewrite Forall_forall in Hp, Hr. specialize (Hp _ Hin). specialize (Hr _ Hin). unfold amount_ok, in_range in *. lia.
Qed.

Lemma no_domain op x1 x2 : vec_rotates op = false → Forall2 (vec_domain op w) (lanes n w x1) (lanes n w x2).
Proof.
  intros Hr. assert (length (lanes n w x1) = length (lanes n w x2)) by (by rewrite !lanes_length).
  apply Forall2_same_length_lookup_2; [done|]. intros. by unfold vec_domain; rewrite Hr.
Qed.

(** The documented results of the operations on two vectors. *)
Definition vec_arith : list (SymVecOp * VecOpcode) :=
  [(SYM_VEC_add, INDEX_op_add_vec); (SYM_VEC_sub, INDEX_op_sub_vec); (SYM_VEC_mul, INDEX_op_mul_vec);
   (SYM_VEC_signed_saturating_add, INDEX_op_ssadd_vec); (SYM_VEC_signed_saturating_sub, INDEX_op_sssub_vec);
   (SYM_VEC_unsigned_saturating_add, INDEX_op_usadd_vec); (SYM_VEC_unsigned_saturating_sub, INDEX_op_ussub_vec)].
Definition vec_shifts : list (SymVecOp * VecOpcode) :=
  [(SYM_VEC_shift_left, INDEX_op_shlv_vec); (SYM_VEC_logical_shift_right, INDEX_op_shrv_vec);
   (SYM_VEC_arithmetic_shift_right, INDEX_op_sarv_vec); (SYM_VEC_rotate_left, INDEX_op_rotlv_vec);
   (SYM_VEC_rotate_right, INDEX_op_rotrv_vec)].
Lemma arith_val op opc : (op, opc) ∈ vec_arith →
  vec_rotates op = false ∧ op3_val opc any2 (vmap2 n w (vec_meaning op w)).
Proof.
  unfold vec_arith. intros H. repeat (apply elem_of_cons in H as [[= -> ->]|H]; [split; [done|]; by apply elements_val|]). by apply not_elem_of_nil in H.
Qed.
Lemma shift_val op opc : (op, opc) ∈ vec_shifts → op3_val opc (amounts_ok op) (vmap2 n w (vec_meaning op w)).
Proof.
  unfold vec_shifts. intros H. repeat (apply elem_of_cons in H as [[= -> ->]|H]; [by apply shifts_val|]). by apply not_elem_of_nil in H.
Qed.

Lemma spec_arith VH op opc : (op, opc) ∈ vec_arith →
  let f := vmap2 n w (vec_meaning op w) in
  vec_binary_spec (gen_sym_op3 VH op opc vece) (op3_ready VH opc any2 f) any2 f.
Proof.
  intros [Hr Hv]%arith_val f. apply spec_op3; [|done]. intros. by apply no_domain.
Qed.
Lemma spec_shift VH op opc : (op, opc) ∈ vec_shifts →
  let f := vmap2 n w (vec_meaning op w) in
  vec_binary_spec (gen_sym_op3 VH op opc vece) (op3_ready VH opc (amounts_ok op) f) (amounts_ok op) f.
Proof. intros Hv%shift_val f. apply spec_op3; [|done]. by intros ? ? ? ? [_ ?]. Qed.

(** ** Logic *)

Lemma binary_ext m ready pre f f' :
  (∀ c x, in_range size c → in_range size x → f c x = f' c x) →
  vec_binary_spec m ready pre f → vec_binary_spec m ready pre f'.
Proof.
  intros He Hm r a b ρ g Q c1 x1 c2 x2 Hr Hd Ha Hb Hp HQ. eapply Hm; [done..|].
  rewrite !He by (apply Ha || apply Hb). done.
Qed.

Lemma spec_bits op opc f :
  vec_rotates op = false → vec_meaning op w = f → bitwise f → (∀ x y, in_range size x → in_range size y → in_range size (f x y)) →
  vec_compute opc = true → vec_op_def opc = (1, 2, 0)%nat →
  (∀ size w n c1 c2, vec_op_val opc size w n [c1; c2] [] = Some (f c1 c2)) →
  vec_binary_spec (λ r a b, vec_vec_op_instrumentation vece r a b (HELPER_sym_vec op);; vec_gen_op3 opc 0 r a b) anywhere any2 f.
Proof.
  intros Hro Hf Hb Hr Hc Hd Hv.
  assert (E : ∀ c x, in_range size c → in_range size x → vmap2 n w (vec_meaning op w) c x = f c x).
  { intros c x Rc Rx. rewrite Hf. apply vmap2_bitwise; [done|apply w_pos|]. rewrite <- size_lanes. auto. }
  apply (binary_ext _ _ _ _ _ E). apply (spec_instrumented op (λ r a b, vec_gen_op3 opc 0 r a b)).
  { intros. by apply no_domain. }
  apply (value3_types (λ type r a b, vec_gen_3 opc type 0 (temp_arg r) (temp_arg a) (temp_arg b))).
  apply value_emitted; [done|done|]. intros c1 x1 c2 x2 R1 R2 _. rewrite E by done. split; [by rewrite Hv|auto].
Qed.
Lemma size_nonneg : 0 ≤ size.
Proof. subst size. by destruct ty. Qed.
Lemma spec_and_vec : vec_binary_spec (tcg_gen_and_vec vece) anywhere any2 Z.land.
Proof. apply spec_bits; try done; [apply land_bitwise|]. intros. apply land_range; [apply size_nonneg|done]. Qed.
Lemma spec_or_vec : vec_binary_spec (tcg_gen_or_vec vece) anywhere any2 Z.lor.
Proof. apply spec_bits; try done; [apply lor_bitwise|]. intros. apply lor_range; [apply size_nonneg|done..]. Qed.
Lemma spec_xor_vec : vec_binary_spec (tcg_gen_xor_vec vece) anywhere any2 Z.lxor.
Proof. apply spec_bits; try done; [apply lxor_bitwise|]. intros. apply lxor_range; [apply size_nonneg|done..]. Qed.
End Op.

(** ** Constants *)

Lemma dup_const_spec vece v :
  0 ≤ vece ≤ 3 → let w := vece_element_size vece in dup_const vece v = mret (vdup (Z.to_nat (64 / w)) w v).
Proof.
  intros Hv. assert (vece = 0 ∨ vece = 1 ∨ vece = 2 ∨ vece = 3) as Hc by lia. clear Hv.
  unfold dup_const. destruct Hc as [-> | [-> | [-> | ->]]]; cbn [Z.eqb MO_8 MO_16 MO_32 MO_64 Pos.eqb]; f_equal.
  - change (Z.to_nat _) with 8%nat. change (vece_element_size 0) with 8. rewrite !vdup_S, vdup_0 by lia.
    pose proof (wrap_range 8 v ltac:(lia)) as R. unfold in_range in R. rewrite wrap_small; [lia|split; lia].
  - change (Z.to_nat _) with 4%nat. change (vece_element_size 1) with 16. rewrite !vdup_S, vdup_0 by lia.
    pose proof (wrap_range 16 v ltac:(lia)) as R. unfold in_range in R. rewrite wrap_small; [lia|split; lia].
  - change (Z.to_nat _) with 2%nat. change (vece_element_size 2) with 32. rewrite !vdup_S, vdup_0 by lia.
    pose proof (wrap_range 32 v ltac:(lia)) as R. unfold in_range in R. rewrite wrap_small; [lia|split; lia].
  - change (Z.to_nat _) with 1%nat. change (vece_element_size 3) with 64. rewrite !vdup_S, vdup_0 by lia. lia.
Qed.

Lemma const_vec_value ty vece v :
  is_vec ty = true → 0 ≤ vece ≤ 3 → let w := vece_element_size vece in
  const_num ty (sgn 64 (vdup (Z.to_nat (64 / w)) w v)) = vdup (lane_count (var_width ty) vece) w v.
Proof.
  intros Ht Hv w. set (m := Z.to_nat (64 / w)). set (y := vdup m w v).
  assert (Hm : (0 < m)%nat ∧ Z.of_nat m * w = 64 ∧ 0 < w).
  { subst m w. assert (vece = 0 ∨ vece = 1 ∨ vece = 2 ∨ vece = 3) as [-> | [-> | [-> | ->]]] by lia; vm_compute; auto with lia. }
  destruct Hm as (Hm & Hmw & Hw). assert (R : in_range 64 y) by (rewrite <- Hmw; by apply vdup_in).
  assert (Hd : ∀ k, vdup k 64 (sgn 64 y) = vdup (k * m) w v).
  { intros k. rewrite <- (vdup_wrap k 64), wrap_sgn, vdup_wrap by lia. rewrite <- Hmw. by apply vdup_vdup. }
  assert (Hn : ∀ s, 0 ≤ s → lane_count (s * 64) vece = (Z.to_nat s * m)%nat).
  { intros s Hs. unfold lane_count, m. fold w. rewrite <- Hmw, Z.mul_assoc, !Z.div_mul by lia. lia. }
  destruct ty; [done|..]; cbn [const_num var_width].
  - rewrite wrap_sgn, wrap_small by (done || lia). change 64 with (1 * 64). rewrite Hn by lia. by rewrite Nat.mul_1_l.
  - rewrite Hd. change 128 with (2 * 64). by rewrite Hn by lia.
  - rewrite Hd. change 256 with (4 * 64). by rewrite Hn by lia.
Qed.

Lemma spec_constant_vec ty vece v ρ g (Q : nat → vars → ghost → Prop) :
  is_vec ty = true → 0 ≤ vece ≤ 3 → let c := vdup (lane_count (var_width ty) vece) (vece_element_size vece) v in
  (∀ z ρ' u, ρ ⊆ ρ' → ρ' !! z = Some (const_var ty u) → const_num ty u = c → vsrc ρ' z ty c c → Q z ρ' g) →
  wpv (tcg_constant_vec (type_of ty) vece v) ρ g Q.
Proof.
  intros Ht Hv c HQ. unfold tcg_constant_vec. rewrite dup_const_spec by done. apply wpv_bind, wpv_ret.
  apply wpv_constant_internal. intros z ρ' Hs Hz. pose proof (const_vec_value ty vece v Ht Hv) as E. cbv zeta in E. fold c in E.
  eapply HQ; [done|exact Hz|exact E|]. split.
  - exists TEMP_CONST. rewrite Hz. unfold const_var. by rewrite E.
  - enough (in_range (var_width ty) c) by done.
    destruct (vec_shape_facts _ _ (vec_width_shape _ _ Ht Hv)) as (Hw & _ & Hs' & _). rewrite Hs' at 1. apply vdup_in. by apply width_pos.
Qed.
Lemma spec_constant_matching m ty vece v ρ g (Q : nat → vars → ghost → Prop) :
  is_vec ty = true → 0 ≤ vece ≤ 3 → vdst ρ m ty →
  let c := vdup (lane_count (var_width ty) vece) (vece_element_size vece) v in
  (∀ z ρ' u, ρ ⊆ ρ' → ρ' !! z = Some (const_var ty u) → const_num ty u = c → vsrc ρ' z ty c c → Q z ρ' g) →
  wpv (tcg_constant_vec_matching m vece v) ρ g Q.
Proof.
  intros Ht Hv (v0 & e0 & Hm) c HQ. eapply (wpv_matching (λ t, tcg_constant_vec t vece v)); [exact Hm|done|].
  by apply spec_constant_vec.
Qed.
Lemma vec_ones ty : is_vec ty = true → vdup (lane_count (var_width ty) 0) (vece_element_size 0) (-1) = Z.ones (var_width ty).
Proof. by destruct ty. Qed.

(** ** Generators composed of others *)

Section Composed.
Context (ty : VarType) (Hty : is_vec ty = true).
Let size := var_width ty.

Definition vec_unary_spec (m : nat → nat → Gen unit) (ready : nat → nat → Prop) (f : Z → Z) : Prop :=
  ∀ r a ρ g (Q : unit → vars → ghost → Prop) c x,
    ready r a → vdst ρ r ty → vsrc ρ a ty c x →
    (∀ m, Q tt (<[r := full TEMP_EBB ty (f c) (f x)]> ρ) (spent m g)) → wpv (m r a) ρ g Q.
Definition anywhere2 (r a : nat) : Prop := True.

Lemma size_pos : 0 < size.
Proof. subst size. by destruct ty. Qed.
Lemma not_range c : in_range size (bv_not size c).
Proof. apply wrap_range. pose proof size_pos. lia. Qed.
Lemma not_lxor c : in_range size c → Z.lxor c (Z.ones size) = bv_not size c.
Proof. intros Hc. pose proof size_pos. unfold bv_not. zbits. Qed.

Lemma spec_not_vec vece : vec_unary_spec (tcg_gen_not_vec vece) anywhere2 (bv_not size).
Proof.
  intros r a ρ g Q c x _ Hd Ha HQ. apply wpv_post, wpv_bind.
  eapply (spec_constant_matching r ty 0); [done|lia|done|]. intros z ρ1 u Hs Hz _ Hc. rewrite vec_ones in Hc by done. fold size in Hc.
  eapply (spec_xor_vec ty 0 Hty ltac:(lia)); [done|by eapply vdst_weaken|by eapply vsrc_weaken|exact Hc|done|].
  intros m. rewrite !not_lxor by apply Ha. eexists. split; [|apply (HQ m)]. by apply insert_mono.
Qed.

Lemma spec_new_matching r ρ g (Q : nat → vars → ghost → Prop) :
  vdst ρ r ty → (∀ t, ρ !! t = None → Q t (<[t := fresh_var TEMP_EBB ty]> ρ) g) → wpv (tcg_temp_new_vec_matching r) ρ g Q.
Proof.
  intros (v & e & Hr) HQ. eapply (wpv_matching (λ ty, tcg_temp_new_internal ty TEMP_EBB)); [exact Hr|done|].
  apply wpv_temp_new; [by left|done].
Qed.

Lemma spec_negated_operand (m : nat → nat → nat → Gen unit) f :
  vec_binary_spec ty m anywhere any2 f →
  vec_binary_spec ty (λ r a b, t ← tcg_temp_new_vec_matching r; tcg_gen_not_vec 0 t b;; m r a t;; tcg_temp_free_vec t)
    anywhere any2 (λ x y, f x (bv_not size y)).
Proof.
  intros Hm r a b ρ g Q c1 x1 c2 x2 _ Hd Ha Hb _ HQ. apply wpv_post, wpv_bind, spec_new_matching; [done|]. intros t Ht.
  apply wpv_bind, (spec_not_vec 0) with (c := c2) (x := x2); [done|vx|vx|]. intros m1. apply wpv_bind.
  eapply Hm; [done|vx|vx|vx; apply not_range|done|]. intros m2. 
  assert (t ≠ r) by vne. eapply wpv_temp_free; [rewrite lookup_insert_ne by done; apply lookup_insert_eq|done|]. vend HQ.
Qed.
Lemma spec_negated_result (m : nat → nat → nat → Gen unit) f :
  (∀ x y, in_range size x → in_range size y → in_range size (f x y)) →
  vec_binary_spec ty m anywhere any2 f →
  vec_binary_spec ty (λ r a b, m r a b;; tcg_gen_not_vec 0 r r) anywhere any2 (λ x y, bv_not size (f x y)).
Proof.
  intros Hf Hm r a b ρ g Q c1 x1 c2 x2 _ Hd Ha Hb _ HQ. apply wpv_post, wpv_bind. eapply Hm; [done..|]. intros m1.
  assert (R : in_range size (f c1 c2) ∧ in_range size (f x1 x2)) by (split; apply Hf; apply Ha || apply Hb). destruct R.
  eapply spec_not_vec; [done|vx|vx|]. intros m2. rewrite insert_insert_eq. vend HQ.
Qed.

Lemma spec_andc_vec vece : vec_binary_spec ty (tcg_gen_andc_vec vece) anywhere any2 (λ x y, Z.land x (bv_not size y)).
Proof. apply spec_negated_operand, spec_and_vec; [done|lia]. Qed.
Lemma spec_orc_vec vece : vec_binary_spec ty (tcg_gen_orc_vec vece) anywhere any2 (λ x y, Z.lor x (bv_not size y)).
Proof. apply spec_negated_operand, spec_or_vec; [done|lia]. Qed.
Lemma spec_nand_vec vece : vec_binary_spec ty (tcg_gen_nand_vec vece) anywhere any2 (λ x y, bv_not size (Z.land x y)).
Proof. apply spec_negated_result, spec_and_vec; [|done|lia]. intros. apply land_range; [pose proof size_pos; lia|done]. Qed.
Lemma spec_nor_vec vece : vec_binary_spec ty (tcg_gen_nor_vec vece) anywhere any2 (λ x y, bv_not size (Z.lor x y)).
Proof. apply spec_negated_result, spec_or_vec; [|done|lia]. intros. apply lor_range; [pose proof size_pos; lia|done..]. Qed.
Lemma spec_eqv_vec vece : vec_binary_spec ty (tcg_gen_eqv_vec vece) anywhere any2 (λ x y, bv_not size (Z.lxor x y)).
Proof. apply spec_negated_result, spec_xor_vec; [|done|lia]. intros. apply lxor_range; [pose proof size_pos; lia|done..]. Qed.

(** [bitsel]: the bits of [b] where those of [a] are set, else those of [c]. *)
Definition bitsel_val (a b c : Z) : Z := Z.lor (Z.land c (bv_not size a)) (Z.land a b).
Lemma spec_bitsel_vec vece r a b c ρ g (Q : unit → vars → ghost → Prop) c1 x1 c2 x2 c3 x3 :
  vdst ρ r ty → vsrc ρ a ty c1 x1 → vsrc ρ b ty c2 x2 → vsrc ρ c ty c3 x3 →
  (∀ m, Q tt (<[r := full TEMP_EBB ty (bitsel_val c1 c2 c3) (bitsel_val x1 x2 x3)]> ρ) (spent m g)) →
  wpv (tcg_gen_bitsel_vec vece r a b c) ρ g Q.
Proof.
  intros Hd Ha Hb Hc HQ. pose proof size_pos as Hs. apply wpv_post. unfold tcg_gen_bitsel_vec.
  assert (Hr : typed_as ty ρ r) by (destruct Hd as (v & e & H); by eapply var_typed).
  do 4 (apply wpv_bind, (wpv_type ty); [eauto using vsrc_typed|]). do 3 (apply wpv_bind, wpv_assert; [apply type_ge_refl|]).
  apply wpv_bind, wpv_temp_new; [by left|]. intros t Ht. assert (t ≠ r) by vne. apply wpv_bind.
  eapply (spec_and_vec ty 0 Hty ltac:(lia)); [done|vx|vx|vx|done|]. intros m1. apply wpv_bind.
  eapply (spec_andc_vec 0); [done|vx|vx|vx|done|]. intros m2. apply wpv_bind.
  assert (R : ∀ x y, in_range size x → in_range size (Z.land x y)) by (intros; apply land_range; [lia|done]).
  destruct Ha as (? & ? & ?), Hc as (? & ? & ?).
  eapply (spec_or_vec ty 0 Hty ltac:(lia)); [done|vx|vx; auto|vx; auto|done|]. intros m3.
  eapply wpv_temp_free; [lk|done|]. vend HQ.
Qed.

(** ** Moves *)

Lemma spec_mov_vec : vec_unary_spec tcg_gen_mov_vec anywhere2 (λ x, x).
Proof.
  intros r a ρ g Q c x _ (v0 & e0 & Hr) Ha HQ. pose proof Ha as [(k & Hl) [Rc _]]. unfold tcg_gen_mov_vec. rewrite <- (spent_0 g).
  destruct (Nat.eqb_spec r a) as [->|Hne].
  - apply wpv_ret. specialize (HQ 0%nat). rewrite Hr in Hl. injection Hl as <- -> ->. by rewrite insert_id in HQ by done.
  - do 2 (apply wpv_bind; eapply wpv_temp_expr; [done|]). apply wpv_bind. unfold tcg_gen_mov_concrete, tcg_gen_mov_internal.
    rewrite (proj2 (Nat.eqb_neq _ _)) by lia. apply wpv_bind, wpv_ret. eapply wpv_mov_expr; [done..|].
    apply wpv_bind, (wpv_type ty); [eapply var_typed; lk|]. apply wpv_bind, (wpv_type ty); [eapply var_typed; lk|].
    apply wpv_bind, wpv_assert; [apply type_ge_refl|].
    eapply (wpv_vec_op INDEX_op_mov_vec ty 0 r [a] []); [done..|lk|done|by repeat econstructor; lk|exact Rc|done|].
    rewrite insert_insert_eq. apply HQ.
Qed.
Lemma spec_dupi_vec vece r a ρ g (Q : unit → vars → ghost → Prop) :
  0 ≤ vece ≤ 3 → vdst ρ r ty → let c := vdup (lane_count size vece) (vece_element_size vece) a in
  (∀ m, Q tt (<[r := full TEMP_EBB ty c c]> ρ) (spent m g)) → wpv (tcg_gen_dupi_vec vece r a) ρ g Q.
Proof.
  intros Hv Hd c HQ. apply wpv_post, wpv_bind, (wpv_type ty); [destruct Hd as (v & e & H); by eapply var_typed|].
  apply wpv_bind, spec_constant_vec; [done|done|]. intros z ρ1 u Hs _ _ Hz. eapply spec_mov_vec; [done|by eapply vdst_weaken|exact Hz|].
  intros m. eexists. split; [|apply (HQ m)]. by apply insert_mono.
Qed.

(** ** Negation *)

Lemma vmap2_zero k v f c : 0 ≤ v → vmap2 k v f (vdup k v 0) c = vmap k v (f 0) c.
Proof.
  intros Hv. assert (E : vdup k v 0 = 0).
  { induction k as [|k IH]; [done|]. rewrite vdup_S, IH by done. change (wrap v 0) with 0. lia. }
  rewrite E. unfold vmap2, vmap. f_equal. clear E. revert c. induction k as [|k IH]; intros c; cbn; [done|].
  by rewrite Z.shiftr_0_l, IH.
Qed.
Lemma spec_neg_vec VH vece :
  0 ≤ vece ≤ 3 → let w := vece_element_size vece in let n := lane_count size vece in
  vec_unary_spec (tcg_gen_neg_vec VH vece)
    (λ r a, op3_ready ty vece VH INDEX_op_sub_vec any2 (vmap2 n w (bv_sub w)) r a a) (vmap n w (bv_neg w)).
Proof.
  intros Hv w n r a ρ g Q c x Hrd Hd Ha HQ. apply wpv_post, wpv_bind.
  eapply (spec_constant_matching r ty vece); [done..|]. intros z ρ1 u Hs Hz _ Hc.
  assert (Hne : r ≠ z) by (destruct Hd as (v & e & H); apply not_eq_sym; eapply const_ne; [exact Hz|lk|done]).
  eapply (spec_arith ty vece Hty Hv VH SYM_VEC_sub INDEX_op_sub_vec);
    [by repeat constructor| |by eapply vdst_weaken|exact Hc|by eapply vsrc_weaken|done|].
  - destruct Hrd as [?|(? & [? ?] & ?)]; [by left|]. right. split; [done|]. by split; [split|].
  - intros m. fold size w n. pose proof (w_pos ty vece Hty Hv). fold w in H. rewrite !vmap2_zero by lia.
    eexists. split; [|apply (HQ m)]. unfold vec_meaning, bv_sub, bv_neg. cbn [Z.sub Z.add]. by apply insert_mono.
Qed.

(** ** Shifts by a number *)

Section Shift.
Context (vece : Z) (Hvece : 0 ≤ vece ≤ 3).
Let w := vece_element_size vece.
Let n := lane_count size vece.

(** The value, after the expression, from the vector [a]: [fc] in the run, [fx] under
    the inputs considered. *)
Definition value2_spec (m : nat → nat → Gen unit) (ready : nat → nat → Prop) (fc fx : Z → Z) : Prop :=
  ∀ r a ρ g (Q : unit → vars → ghost → Prop) v0 e0 c x,
    ready r a → ρ !! r = Some (Var TEMP_EBB ty v0 e0) → vsrc ρ a ty c x →
    (∀ m, Q tt (<[r := full TEMP_EBB ty (fc c) (fx x)]> ρ) (spent m g)) →
    wpv (m r a) (<[r := Var TEMP_EBB ty v0 (Exp size (fc c) (fx x))]> ρ) g Q.

(** What the host does with a shift by [s]. *)
Definition shifti_ready (VH : VecHost) (opc : VecOpcode) (f : Z → Z) (s : Z) (r a : nat) : Prop :=
  let can := tcg_can_emit_vec_op VH opc (type_of ty) vece in
  0 < can ∨ can < 0 ∧ r ≠ a ∧
    value2_spec (λ r a, tcg_expand_vec_op VH opc (type_of ty) vece [temp_arg r; temp_arg a; const_arg s]) (λ r a, r ≠ a) f f.

Definition shifti_val (opc : VecOpcode) (f : Z → Z → Z) : Prop :=
  vec_compute opc = true ∧ vec_op_def opc = (1, 1, 1)%nat ∧ element_op opc w = None ∧ bit_op opc size = None ∧
  shift_op opc w = Some (Immediate, f).

Lemma value_do_shifti VH opc f s :
  shifti_val opc f → (∀ x, in_range w x → in_range w (f x s)) → (∀ x, in_range w x → f x 0 = x) → 0 ≤ s < w →
  value2_spec (λ r a, do_shifti VH opc vece r a s) (shifti_ready VH opc (vmap n w (λ x, f x s)) s)
    (vmap n w (λ x, f x s)) (vmap n w (λ x, f x s)).
Proof.
  intros (Hc & Hd & He & Hb & Hso) Hf Hf0 Hi r a ρ g Q v0 e0 c x Hrd Hr Ha HQ. pose proof Ha as [(k & Hl) [Rc Rx]].
  pose proof (w_pos ty vece Hty Hvece) as Hw. fold w in Hw. pose proof (size_lanes ty vece Hty Hvece) as Hsz. fold size w n in Hsz.
  apply wpv_bind, (wpv_type ty); [eapply var_typed; lk|].
  apply wpv_bind, (wpv_type ty); [eapply typed_insert; [by eapply vsrc_typed|done]|].
  apply wpv_bind, wpv_assert; [by apply bool_decide_eq_true|]. apply wpv_bind, wpv_assert.
  { change (Z.shiftl 8 vece) with w. lia. }
  destruct (Z.eqb_spec s 0) as [->|Hi0].
  - assert (Ec : vmap n w (λ x, f x 0) c = c) by (apply vmap_id; [done|by rewrite <- Hsz|done]).
    assert (Ex : vmap n w (λ x, f x 0) x = x) by (apply vmap_id; [done|by rewrite <- Hsz|done]).
    rewrite Ec, Ex in *. apply spec_mov_vec with (c := c) (x := x); [done|apply vdst_here| |].
    + destruct (decide (r = a)) as [->|]; [|by apply vsrc_other]. rewrite Hr in Hl. injection Hl as <- -> ->. by apply vsrc_here.
    + intros m. rewrite insert_insert_eq. apply HQ.
  - cbv zeta. destruct Hrd as [Hcan|(Hcan & Hne & Hex)].
    + replace (0 <? _) with true by lia.
      eapply (wpv_vec_op opc ty vece r [a] [s] _ _ _ TEMP_EBB _ _ [c] (vmap n w (λ x, f x s) c)); [done..|lk|done| | | |].
      * constructor; [|constructor]. eapply value_kept; [exact Hr|by eexists _, _].
      * fold size. rewrite Hsz. by apply vmap_range.
      * fold size w n. unfold vec_op_val. rewrite He, Hb, Hso. replace (amount_ok w s) with true by (unfold amount_ok; lia). done.
      * rewrite insert_insert_eq, <- (spent_0 g). apply HQ.
    + replace (0 <? _) with false by lia. apply wpv_bind, wpv_assert; [lia|]. by eapply Hex.
Qed.

Definition vec_shiftis : list (SymVecOp * VecOpcode) :=
  [(SYM_VEC_shift_left, INDEX_op_shli_vec); (SYM_VEC_logical_shift_right, INDEX_op_shri_vec);
   (SYM_VEC_arithmetic_shift_right, INDEX_op_sari_vec); (SYM_VEC_rotate_left, INDEX_op_rotli_vec)].
Lemma vec_width : is_width w.
Proof. by destruct (vec_shape_facts _ _ (shape ty vece Hty Hvece)). Qed.
Lemma shift_zero op opc x : (op, opc) ∈ vec_shiftis → in_range w x → vec_meaning op w x 0 = x.
Proof.
  pose proof vec_width as Hw. pose proof (width_pos w Hw). intros Hin Hx. unfold vec_shiftis in Hin.
  repeat (apply elem_of_cons in Hin as [[= -> _]|Hin]); [..|by apply not_elem_of_nil in Hin]; cbn [vec_meaning].
  - unfold bv_shl. by rewrite Z.shiftl_0_r, wrap_small.
  - apply Z.shiftr_0_r.
  - unfold bv_ashr. by rewrite Z.shiftr_0_r, wrap_sgn, wrap_small by (done || lia).
  - by apply rol_0.
Qed.
Lemma shiftis_val op opc : (op, opc) ∈ vec_shiftis → shifti_val opc (vec_meaning op w).
Proof.
  unfold vec_shiftis. intros H. repeat (apply elem_of_cons in H as [[= -> ->]|H]; [by repeat split|]). by apply not_elem_of_nil in H.
Qed.
Lemma amount_domain op s : s < w → vec_domain op w 0 s.
Proof. by intros ? ?. Qed.
Lemma amount_in s : 0 ≤ s < w → in_range w s ∧ in_range 32 s.
Proof.
  intros Hs. assert (w ≤ 64) by (pose proof vec_width as Hw; unfold is_width in Hw; lia).
  assert (w < 2 ^ w) by (apply Z.pow_gt_lin_r; lia). split; split; lia.
Qed.

(** A generator whose value is shifted by an immediate, after the helper for [op]. *)
Lemma spec_sym_shifti op (m : nat → nat → Gen unit) ready s :
  2 ≤ vece → 0 ≤ s < w → let f := vmap n w (λ x, vec_meaning op w x s) in
  value2_spec m ready f f →
  vec_unary_spec (λ r a, c ← tcg_constant_i32 s; vec_int32_op_instrumentation vece r a c (HELPER_sym_vec_int32 op);; m r a) ready f.
Proof.
  intros Hv2 Hs f Hm r a ρ g Q c x Hrd (v0 & e0 & Hr) Ha HQ. apply wpv_post. vconst z ρ1 Hs1 Hz. apply wpv_bind.
  eapply (spec_vec_int32 ty vece Hty Hvece op r a z ρ1 g _ v0 e0 c x s s); [done|lk|by eapply vsrc_weaken| |apply amount_domain; lia|].
  { exists TEMP_CONST. rewrite Hz. unfold const_var. cbn [const_num]. by rewrite wrap_small by (by apply amount_in). }
  eapply Hm; [done|lk|by eapply vsrc_weaken|]. intros k. rewrite spent_spent. eexists. split; [|apply HQ]. by apply insert_mono.
Qed.
Lemma spec_shifti VH op opc s :
  (op, opc) ∈ vec_shiftis → 2 ≤ vece → 0 ≤ s < w → let f := vmap n w (λ x, vec_meaning op w x s) in
  vec_unary_spec (λ r a, gen_sym_shifti VH op opc vece r a s) (shifti_ready VH opc f s) f.
Proof.
  intros Hin Hv2 Hs f. apply spec_sym_shifti; [done..|]. apply (value_do_shifti VH opc (vec_meaning op w)); [by apply shiftis_val| | |done].
  - intros x Hx. apply vec_meaning_range; [apply width_pos, vec_width|done|by apply amount_in].
  - intros x Hx. by eapply shift_zero.
Qed.

(** A rotation to the right by an immediate is one to the left. *)
Lemma rol_neg x s : in_range w x → 0 ≤ s < w → rol w x (Z.land (- s) (w - 1)) = ror w x s.
Proof.
  intros Hx Hs. pose proof vec_width as Hw. rewrite land_width by done. apply (range_ext w); [apply rol_range; lia|apply ror_range; lia|].
  intros j Hj. rewrite testbit_rol, testbit_ror by done. rewrite Zminus_mod_idemp_r. do 2 f_equal. lia.
Qed.
Lemma vmap_ext f f' a : (∀ x, in_range w x → f x = f' x) → vmap n w f a = vmap n w f' a.
Proof.
  intros Hf. unfold vmap. f_equal. pose proof (lanes_range n w a ltac:(pose proof (width_pos w vec_width); lia)) as Hl.
  induction Hl; cbn; [done|]. by rewrite Hf, IHHl.
Qed.
Lemma spec_rotri_vec VH s :
  2 ≤ vece → 0 ≤ s < w → let f := vmap n w (λ x, ror w x s) in let s' := Z.land (- s) (w - 1) in
  vec_unary_spec (λ r a, tcg_gen_rotri_vec VH vece r a s) (shifti_ready VH INDEX_op_rotli_vec (vmap n w (λ x, rol w x s')) s') f.
Proof.
  intros Hv2 Hs f s' r a ρ g Q c x Hrd Hd Ha HQ. apply wpv_bind, wpv_assert; [change (Z.shiftl 8 vece) with w; lia|].
  assert (E : ∀ y, vmap n w (λ x, rol w x s') y = f y) by (intros y; apply vmap_ext; intros; by apply rol_neg).
  assert (Hs' : 0 ≤ s' < w) by (subst s'; pose proof vec_width; rewrite land_width by done; apply Z.mod_pos_bound; lia).
  eapply (spec_sym_shifti SYM_VEC_rotate_right (λ r a, do_shifti VH INDEX_op_rotli_vec vece r a s')); [done|done| |exact Hrd|done..].
  intros r' a' ρ' g' Q' v0 e0 c' x' Hrd' Hr' Ha' HQ'. cbn [vec_meaning] in *. fold f in HQ' |- *. rewrite <- !E in *.
  eapply (value_do_shifti VH INDEX_op_rotli_vec (rol w)); [by repeat split| | |done|exact Hrd'|done..].
  - intros. apply rol_range. lia.
  - intros. apply rol_0; [apply vec_width|done].
Qed.

(** Shifts by a scalar, on a host that emits them. *)
Lemma wpv_vec_shift opc f r a b ρ g (Q : unit → vars → ghost → Prop) v0 e0 c1 c2 :
  vec_compute opc = true → vec_op_def opc = (1, 2, 0)%nat → element_op opc w = None → bit_op opc size = None →
  shift_op opc w = Some (Scalar, f) → (∀ x, in_range w x → in_range w (f x c2)) → 0 ≤ c2 < w →
  ρ !! r = Some (Var TEMP_EBB ty v0 e0) → (∃ k e, ρ !! a = Some (Var k ty (Num c1) e)) →
  (∃ k e, ρ !! b = Some (Var k I32 (Num c2) e)) →
  Q tt (<[r := Var TEMP_EBB ty (Num (vmap n w (λ x, f x c2) c1)) e0]> ρ) g →
  wpv (vec_gen_3 opc (type_of ty) vece (temp_arg r) (temp_arg a) (temp_arg b)) ρ g Q.
Proof.
  intros Hc Hd He Hb Hs Hf Hc2 Hr (ka & ea & Ha) (kb & eb & Hlb) HQ σ Hcov.
  pose proof (size_lanes ty vece Hty Hvece) as Hsz. fold size w n in Hsz.
  eapply (wp_vec_op i opc ty vece r [a; b] [] σ g _ TEMP_EBB v0 [ty; Reg I32] [c1; c2] (vmap n w (λ x, f x c2) c1)); try done.
  - apply (Hcov _ _ Hr).
  - split; [exists ka; apply (Hcov _ _ Ha)|]. split; [exists kb; apply (Hcov _ _ Hlb)|done].
  - fold size. rewrite Hsz. apply vmap_range; [apply width_pos, vec_width|done].
  - intros zs Hz. inversion Hz as [|? z1 ? ? zs1 ? H1 Hz1]; subst. inversion Hz1 as [|? z2 ? ? zs2 ? H2 Hz2]; subst.
    inversion Hz2; subst. destruct H2 as [R2 E2]. fold size w n. cbn [map].
    rewrite (wrap_small size z1) by (destruct ty; [done|by destruct H1..]).
    assert (z1 = c1) as -> by (destruct ty; [done|by destruct H1..]).
    unfold vec_op_val. rewrite He, Hb, Hs, wrap_wrap_le by (subst size; destruct ty; cbn; [done|lia..]).
    cbn [ty_width] in E2. rewrite E2. replace (amount_ok w c2) with true by (unfold amount_ok; lia). done.
  - eexists. split; [|exact HQ]. by apply (covers_value _ _ _ _ (Var TEMP_EBB ty (Num (vmap n w (λ x, f x c2) c1)) e0) Hcov Hr).
Qed.
Definition vec_shiftss : list (SymVecOp * VecOpcode) :=
  [(SYM_VEC_shift_left, INDEX_op_shls_vec); (SYM_VEC_logical_shift_right, INDEX_op_shrs_vec);
   (SYM_VEC_arithmetic_shift_right, INDEX_op_sars_vec); (SYM_VEC_rotate_left, INDEX_op_rotls_vec)].
Lemma spec_shifts VH op opc r a b ρ g (Q : unit → vars → ghost → Prop) c1 x1 c2 x2 :
  (op, opc) ∈ vec_shiftss → 2 ≤ vece → 0 < tcg_can_emit_vec_op VH opc (type_of ty) vece → r ≠ b →
  vdst ρ r ty → vsrc ρ a ty c1 x1 → src ρ b I32 c2 x2 → c2 < w → vec_domain op w 0 x2 →
  let f c := vmap n w (λ x, vec_meaning op w x c) in
  (∀ m, Q tt (<[r := full TEMP_EBB ty (f c2 c1) (f x2 x1)]> ρ) (spent m g)) →
  wpv (gen_sym_shifts VH op opc vece r a b) ρ g Q.
Proof.
  intros Hin Hv2 Hcan Hne (v0 & e0 & Hr) Ha ((kb & Hb) & Rc & Rx) Hc2 Hd f HQ. apply wpv_bind.
  eapply spec_vec_int32; [done..|exact Hr|exact Ha|by exists kb|done|]. fold size w n.
  apply wpv_bind, (wpv_type ty); [eapply var_typed; lk|].
  apply wpv_bind, (wpv_type ty); [eapply typed_insert; [by eapply vsrc_typed|done]|].
  apply wpv_bind, wpv_assert; [apply type_ge_refl|]. cbv zeta. replace (0 <? _) with true by lia.
  assert (H : vec_compute opc = true ∧ vec_op_def opc = (1, 2, 0)%nat ∧ element_op opc w = None ∧ bit_op opc size = None ∧
    shift_op opc w = Some (Scalar, vec_meaning op w)).
  { unfold vec_shiftss in Hin. repeat (apply elem_of_cons in Hin as [[= -> ->]|Hin]; [by repeat split|]). by apply not_elem_of_nil in Hin. }
  destruct H as (H1 & H2 & H3 & H4 & H5). assert (Hc0 : 0 ≤ c2 < w) by (destruct Rc; lia).
  eapply (wpv_vec_shift opc (vec_meaning op w) r a b); [done..| |done|lk| | |].
  - intros y Hy. apply vec_meaning_range; [apply width_pos, vec_width|done|by apply amount_in].
  - eapply value_kept; [exact Hr|by eapply vsrc_value].
  - eexists _, _. lk.
  - rewrite insert_insert_eq. apply HQ.
Qed.
End Shift.

(** ** Comparisons *)

Section Compare.
Context (vece : Z) (Hvece : 0 ≤ vece ≤ 3).
Let w := vece_element_size vece.
Let n := lane_count size vece.

(** The heap after [m] blocks were allocated and freed on top of two buffers, and
    after these and a third one are freed. *)
Lemma all_freed (H : list (option Block)) (m : nat) Ba Bb Br :
  <[(length H + (2 + m))%nat := None]> (H ++ <[1%nat := None]> (<[0%nat := None]> ([Ba; Bb] ++ replicate m None ++ [Br])))
  = H ++ replicate (3 + m) None.
Proof.
  rewrite free_at. f_equal. assert (E : <[m := None]> (replicate m None ++ [Br]) = replicate (S m) None); 
    [|change (None :: None :: <[m := None]> (replicate m None ++ [Br]) = None :: None :: replicate (S m) None); by rewrite E].
  rewrite insert_app_r_alt by (rewrite length_replicate; lia). by rewrite length_replicate, Nat.sub_diag, replicate_S_end.
Qed.

Lemma top_block (m : nat) (Ba Bb Br : option Block) : ([Ba; Bb] ++ replicate m None ++ [Br]) !! (2 + m)%nat = Some Br.
Proof.
  change ((replicate m None ++ [Br]) !! m = Some Br). rewrite lookup_app_r by (rewrite length_replicate; lia).
  by rewrite length_replicate, Nat.sub_diag.
Qed.
Lemma last_block (m : nat) (Ba Bb Br : option Block) :
  <[1%nat := None]> (<[0%nat := None]> ([Ba; Bb] ++ replicate m None ++ [Br])) !! (2 + m)%nat = Some Br.
Proof. exact (top_block m None None Br). Qed.

(** The call after the operation: the operands are in the buffers [p] and [q], the
    result is in its variable. *)
Lemma spec_after h env cond r a b p q ρ g (Q : unit → vars → ghost → Prop) H m e0 venv cr xr p' c1 x1 c2 x2 ep eq :
  let Ba := Some (vec_block (size / 8) c1) in let Bb := Some (vec_block (size / 8) c2) in let Br := Some (vec_block (size / 8) cr) in
  ρ !! r = Some (Var TEMP_EBB ty (Num cr) e0) → ρ !! env = Some venv →
  (∃ k v, ρ !! a = Some (Var k ty v (Exp size c1 x1))) → (∃ k v, ρ !! b = Some (Var k ty v (Exp size c2 x2))) →
  ρ !! p = Some (Var TEMP_TB I64 (Ptr (length H + 0)) ep) → ρ !! q = Some (Var TEMP_TB I64 (Ptr (length H + 1)) eq) →
  gheap g = H ++ [Ba; Bb] ++ replicate m None →
  heap_call_ok i (H ++ [Ba; Bb] ++ replicate m None ++ [Br]) h
    [AAny; APtr (length H + 0); AExp size c1 x1; APtr (length H + 1); AExp size c2 x2; ANum I32 (cond_code cond);
     APtr (length H + (2 + m)); ANum I64 size; ANum I64 vece] I64 (Exp size cr xr) (gpath g) p' →
  Q tt (<[r := full TEMP_EBB ty cr xr]> ρ) (Ghost p' (gmem g) (galt g) (gguest g) (H ++ replicate (3 + m) None)) →
  wpv (gen_sym_after h env cond vece r a b p q) ρ g Q.
Proof.
  intros Ba Bb Br Hr He (ka & va & Ha) (kb & vb & Hb) Hp Hq Hg Hcall HQ. apply wpv_post, wpv_bind.
  eapply spec_store_vector; [done|exact Hr|]. intros pr ρ1 er Hs Nr Hpr.
  assert (Hl : length (gheap g) = (length H + (2 + m))%nat) by (rewrite Hg, !length_app, length_replicate; cbn; lia).
  rewrite Hl in Hpr. fold size Br. rewrite Hg, <- !app_assoc.
  do 3 (apply wpv_bind; eapply wpv_vec_size; [lk|done|]; cbn [vt]).
  apply wpv_bind, wpv_assert; [by rewrite !Z.eqb_refl|]. do 3 (apply wpv_bind; eapply wpv_temp_expr; [lk|]).
  vconst cc ρ2 Hs2 Hcc. vconst cs ρ3 Hs3 Hcs. vconst cv ρ4 Hs4 Hcv. apply wpv_bind.
  eapply (wpv_heap_call _ _ [V env; V p; E a; V q; E b; V cc; V pr; V cs; V cv]); [exact Hcall| |lk|done|].
  - unfold const_var, full in Hcc, Hcs, Hcv. fold size in Hcs.
    rewrite (vsize_const ty vece Hty : const_num I64 size = size) in Hcs. rewrite (vece_const ty vece Hty Hvece) in Hcv. cbn [const_num ty_width] in Hcc. rewrite cond_code_fits in Hcc.
    split; [eexists; lk|]. split; [eexists _, _; lk|]. split; [eexists _, _, _; lk|]. split; [eexists _, _; lk|].
    split; [eexists _, _, _; lk|]. split; [eexists _, _; lk|]. split; [eexists _, _; lk|]. split; [eexists _, _; lk|].
    split; [eexists _, _; lk|done].
  - cbn [gpath gmem galt gguest gheap with_heap].
    apply wpv_bind. eapply spec_free_at; [lk|reflexivity|reflexivity|]. apply wpv_bind.
    eapply spec_free_at; [lk|reflexivity|reflexivity|]. eapply wpv_free; [lk| |].
    { cbn [gheap with_heap]. apply block_at, last_block. }
    cbn [gpath gmem galt gguest gheap with_heap]. rewrite all_freed. vdone HQ.
Qed.

(** The state after the call: the comparisons of the run are assumed of the inputs
    considered. *)
Definition compared (cond : TCGCond) (c1 c2 x1 x2 : Z) (m : nat) (g : ghost) : ghost :=
  Ghost (gpath g && same_outcomes ty vece cond c1 c2 x1 x2) (gmem g) (galt g) (gguest g) (gheap g ++ replicate m None).

(** What the host does with a comparison: an expansion keeps the expression of a
    result that is an operand, which the call reads. *)
Definition cmp_ready (VH : VecHost) (cond : TCGCond) (r a b : nat) : Prop :=
  let can := tcg_can_emit_vec_op VH INDEX_op_cmp_vec (type_of ty) vece in
  0 < can ∨ can < 0 ∧
    ∀ ρ g (Q : unit → vars → ghost → Prop) v0 e0 c1 x1 c2 x2,
      ρ !! r = Some (Var TEMP_EBB ty v0 e0) → vsrc ρ a ty c1 x1 → vsrc ρ b ty c2 x2 →
      (∀ e m, (r = a ∨ r = b → e = e0) → Q tt (<[r := Var TEMP_EBB ty (Num (vmap2 n w (cmp_element w cond) c1 c2)) e]> ρ) (spent m g)) →
      wpv (tcg_expand_vec_op VH INDEX_op_cmp_vec (type_of ty) vece [temp_arg r; temp_arg a; temp_arg b; const_arg (cond_code cond)])
        ρ g Q.

Lemma cmp_size cond c1 c2 : in_range size (vmap2 n w (cmp_element w cond) c1 c2).
Proof.
  apply (vmap2_size ty vece Hty Hvece). intros. apply cmp_element_range. pose proof (w_pos ty vece Hty Hvece). lia.
Qed.
(** The operation, before the call. *)
Lemma value_cmp VH cond r a b ρ g (Q : unit → vars → ghost → Prop) v0 e0 c1 x1 c2 x2 :
  let can := tcg_can_emit_vec_op VH INDEX_op_cmp_vec (type_of ty) vece in
  cmp_ready VH cond r a b → ρ !! r = Some (Var TEMP_EBB ty v0 e0) → vsrc ρ a ty c1 x1 → vsrc ρ b ty c2 x2 →
  (∀ e m, (r = a ∨ r = b → e = e0) →
     Q tt (<[r := Var TEMP_EBB ty (Num (vmap2 n w (cmp_element w cond) c1 c2)) e]> ρ) (spent m g)) →
  wpv (if 0 <? can then
     vec_gen_4 INDEX_op_cmp_vec (type_of ty) vece (temp_arg r) (temp_arg a) (temp_arg b) (const_arg (cond_code cond))
   else
     tcg_debug_assert (can <? 0);;
     tcg_expand_vec_op VH INDEX_op_cmp_vec (type_of ty) vece
       [temp_arg r; temp_arg a; temp_arg b; const_arg (cond_code cond)]) ρ g Q.
Proof.
  intros can Hrd Hr Ha Hb HQ. destruct Hrd as [Hcan|(Hcan & Hex)]; fold can in Hcan.
  - replace (0 <? can) with true by lia. rewrite <- (spent_0 g).
    eapply (wpv_vec_op INDEX_op_cmp_vec ty vece r [a; b] [cond_code cond]); [done..| |apply (cmp_size cond c1 c2)| |by apply HQ].
    + by constructor; [eapply vsrc_value|constructor; [eapply vsrc_value|]].
    + fold size w n. unfold vec_op_val. cbn. by rewrite cond_of_code_code.
  - replace (0 <? can) with false by lia. apply wpv_bind, wpv_assert; [lia|]. eapply Hex; done.
Qed.

(** The halves that the operation does not change. *)
Lemma expr_kept (ρ : vars) a r k v0 e0 v' e' c x :
  ρ !! r = Some (Var k ty v0 e0) → (r = a → e' = e0) → (∃ k', ρ !! a = Some (full k' ty c x)) →
  ∃ k1 v1, <[r := Var k ty v' e']> ρ !! a = Some (Var k1 ty v1 (Exp size c x)).
Proof.
  intros Hr He (k' & Ha). destruct (decide (r = a)) as [->|].
  - rewrite lookup_insert_eq, He by done. rewrite Hr in Ha. injection Ha as <- -> ->. by eexists _, _.
  - rewrite lookup_insert_ne by done. by eexists _, _.
Qed.
Lemma fixed_ne (ρ : vars) env venv r v e :
  ρ !! env = Some venv → vk venv = TEMP_FIXED → ρ !! r = Some (Var TEMP_EBB ty v e) → r ≠ env.
Proof. intros He Hk Hr ->. rewrite He in Hr. by injection Hr as ->. Qed.

Lemma spec_cmp_vec VH env cond r a b ρ g (Q : unit → vars → ghost → Prop) venv c1 x1 c2 x2 :
  cond_proper cond = true → is_tst_cond cond = false ∨ TCG_TARGET_HAS_tst_vec VH = true → cmp_ready VH cond r a b →
  ρ !! env = Some venv → vk venv = TEMP_FIXED → vdst ρ r ty → vsrc ρ a ty c1 x1 → vsrc ρ b ty c2 x2 →
  let cr := vmap2 n w (cmp_element w cond) c1 c2 in
  (∀ m, Q tt (<[r := full TEMP_EBB ty cr cr]> ρ) (compared cond c1 c2 x1 x2 m g)) →
  wpv (tcg_gen_cmp_vec VH env cond vece r a b) ρ g Q.
Proof.
  intros Hc Ht Hrd He Hk (v0 & e0 & Hr) Ha Hb cr HQ. pose proof Ha as [(ka & Hla) [R1 _]]. pose proof Hb as [(kb & Hlb) [R2 _]].
  pose proof (fixed_ne _ _ _ _ _ _ He Hk Hr) as Hne. apply wpv_post. unfold tcg_gen_cmp_vec.
  apply wpv_bind, (wpv_type ty); [by eapply var_typed|]. do 2 (apply wpv_bind, (wpv_type ty); [by eapply vsrc_typed|]).
  eapply (spec_store_two ty Hty); [exact Hla|exact Hlb|]. intros p q ρ1 ep eq Hs Np Nq Hp Hq.
  do 2 (apply wpv_bind, wpv_assert; [apply type_ge_refl|]). cbv zeta.
  replace (negb (TCG_TARGET_HAS_tst_vec VH) && is_tst_cond cond) with false by (destruct Ht as [-> | ->]; [by rewrite andb_false_r|done]).
  apply wpv_bind, wpv_ret. cbn beta iota. apply wpv_bind.
  eapply value_cmp; [exact Hrd|lk|by eapply vsrc_weaken|by eapply vsrc_weaken|]. fold cr. intros e m Hal. apply wpv_bind.
  eapply (spec_after HELPER_sym_cmp_vec env cond r a b p q _ _ _ (gheap g) m); [lk|lk|..].
  - eapply expr_kept; [lk|auto|eexists; lk].
  - eapply expr_kept; [lk|auto|eexists; lk].
  - lk.
  - lk.
  - cbn. by rewrite <- app_assoc.
  - apply (call_sym_cmp_vec i ty vece Hty Hvece cond); try done; [by apply block_at..| |apply cmp_size].
    apply block_at, top_block.
  - apply wpv_ret. rewrite insert_insert_eq. eexists. split; [|apply (HQ (3 + m)%nat)]. vsub.
Qed.

(** ** Minima and maxima *)

Definition lane (v : Z) (k : nat) : Z := wrap w (Z.shiftr v (Z.of_nat k * w)).
Lemma lane_range v k : in_range w (lane v k).
Proof. apply wrap_range. pose proof (w_pos ty vece Hty Hvece). lia. Qed.
Lemma lanes_lane v : lanes n w v = map (lane v) (seq 0 n).
Proof. apply lanes_seq. pose proof (w_pos ty vece Hty Hvece). lia. Qed.
Lemma lane_vmap2 f a b k :
  (∀ x y, in_range w x → in_range w y → in_range w (f x y)) → (k < n)%nat → lane (vmap2 n w f a b) k = f (lane a k) (lane b k).
Proof.
  intros Hf Hk. pose proof (lanes_vmap2 size vece f a b (shape ty vece Hty Hvece) Hf) as E. cbv zeta in E. fold w n in E.
  rewrite !lanes_lane, zip_with_fmap_l, zip_with_fmap_r, zip_with_diag in E. apply (f_equal (λ l, l !! k)) in E.
  rewrite !list_lookup_fmap, lookup_seq_lt in E by done. cbn in E. by injection E.
Qed.
Lemma lanes_inj a b : in_range size a → in_range size b → (∀ k, (k < n)%nat → lane a k = lane b k) → a = b.
Proof.
  intros Ra Rb He. pose proof (w_pos ty vece Hty Hvece) as Hw. pose proof (size_lanes ty vece Hty Hvece) as Hsz. fold size w n in Hw, Hsz.
  rewrite <- (join_lanes n w a), <- (join_lanes n w b) by (done || by rewrite <- Hsz). f_equal. rewrite !lanes_lane.
  apply map_ext_in. intros k Hk%in_seq. apply He. lia.
Qed.
Lemma lane_bitsel t a b k :
  (k < n)%nat → lane (bitsel_val t a b) k = Z.lor (Z.land (lane b k) (bv_not w (lane t k))) (Z.land (lane t k) (lane a k)).
Proof.
  intros Hk. pose proof (w_pos ty vece Hty Hvece) as Hw. pose proof (size_lanes ty vece Hty Hvece) as Hsz. fold size w n in Hw, Hsz.
  assert (Hb : 0 ≤ Z.of_nat k * w ∧ Z.of_nat k * w + w ≤ size) by (rewrite Hsz; nia).
  unfold lane, bitsel_val, bv_not. generalize dependent (Z.of_nat k * w). intros o [? ?]. zbits.
Qed.
Lemma bitsel_sel cond a b :
  in_range size a → in_range size b →
  bitsel_val (vmap2 n w (cmp_element w cond) a b) a b = vmap2 n w (sel_element w cond) a b.
Proof.
  intros Ra Rb. pose proof (w_pos ty vece Hty Hvece) as Hw. fold w in Hw. pose proof size_pos.
  apply lanes_inj.
  - apply lor_range; [lia|apply land_range; [lia|done]|apply land_range; [lia|apply cmp_size]].
  - apply (vmap2_size ty vece Hty Hvece). intros. by apply sel_element_range.
  - intros k Hk. rewrite lane_bitsel, !lane_vmap2 by (done || (intros; first [by apply sel_element_range | apply cmp_element_range; lia])).
    pose proof (lane_range a k). pose proof (lane_range b k). generalize dependent (lane a k). generalize dependent (lane b k). intros y Hy x Hx.
    unfold cmp_element, sel_element, bv_not. destruct (cond_holds w cond x y); zbits.
Qed.

(** The vector of the elements chosen in the run. *)
Definition chosen (cond : TCGCond) (c1 c2 x1 x2 : Z) : Z :=
  Lanes.join w (choose (outcomes ty vece cond c1 c2) (lanes n w x1) (lanes n w x2)).
(** It is the minimum or maximum if the elements compare as in the run. *)
Lemma chosen_sel cond c1 c2 x1 x2 :
  same_outcomes ty vece cond c1 c2 x1 x2 = true → chosen cond c1 c2 x1 x2 = vmap2 n w (sel_element w cond) x1 x2.
Proof.
  unfold same_outcomes, chosen, vmap2, agree. fold size w n. intros Hs. f_equal. rewrite <- choose_cond. f_equal. revert Hs.
  assert (length (outcomes ty vece cond c1 c2) = length (zip_with (cond_holds w cond) (lanes n w x1) (lanes n w x2))) as Hl.
  { unfold outcomes. by rewrite !length_zip_with, !lanes_length. }
  revert Hl. generalize (outcomes ty vece cond c1 c2) as l1, (zip_with (cond_holds w cond) (lanes n w x1) (lanes n w x2)) as l2.
  induction l1 as [|b1 l1 IH]; intros [|b2 l2] Hl Hs; try done. cbn in *. apply andb_true_iff in Hs as [Hb Hs].
  apply Bool.eqb_prop in Hb as ->. f_equal. apply IH; [lia|done].
Qed.

Definition vec_minmax : list (VecOpcode * TCGCond) :=
  [(INDEX_op_smin_vec, TCG_COND_LT); (INDEX_op_umin_vec, TCG_COND_LTU); (INDEX_op_smax_vec, TCG_COND_GT); (INDEX_op_umax_vec, TCG_COND_GTU)].
Lemma minmax_val opc cond : (opc, cond) ∈ vec_minmax →
  cond_proper cond = true ∧ is_tst_cond cond = false ∧ op3_val ty vece opc any2 (vmap2 n w (sel_element w cond)).
Proof.
  unfold vec_minmax. intros H. pose proof (w_pos ty vece Hty Hvece).
  repeat (apply elem_of_cons in H as [[= -> ->]|H]; [split; [done|]; split; [done|]; split; [done|]; split; [done|]; intros; split; [done|];
    apply (vmap2_size ty vece Hty Hvece); intros; by apply sel_element_range|]). by apply not_elem_of_nil in H.
Qed.

Lemma spec_cmpsel_vec VH env cond r a b c d ρ g (Q : unit → vars → ghost → Prop) venv c1 x1 c2 x2 c3 x3 c4 x4 :
  cond_proper cond = true → is_tst_cond cond = false ∨ TCG_TARGET_HAS_tst_vec VH = true →
  (∀ t, apart t a b → cmp_ready VH cond t a b) → ρ !! env = Some venv → vk venv = TEMP_FIXED →
  vdst ρ r ty → vsrc ρ a ty c1 x1 → vsrc ρ b ty c2 x2 → vsrc ρ c ty c3 x3 → vsrc ρ d ty c4 x4 →
  let t := vmap2 n w (cmp_element w cond) c1 c2 in
  (∀ m, Q tt (<[r := full TEMP_EBB ty (bitsel_val t c3 c4) (bitsel_val t x3 x4)]> ρ) (compared cond c1 c2 x1 x2 m g)) →
  wpv (tcg_gen_cmpsel_vec VH env cond vece r a b c d) ρ g Q.
Proof.
  intros Hc Ht Hrd He Hk Hd Ha Hb Hc3 Hd4 tv HQ. apply wpv_post. unfold tcg_gen_cmpsel_vec.
  assert (Hr : typed_as ty ρ r) by (destruct Hd as (v & e & H); by eapply var_typed).
  do 5 (apply wpv_bind, (wpv_type ty); [eauto using vsrc_typed|]). do 4 (apply wpv_bind, wpv_assert; [apply type_ge_refl|]).
  apply wpv_bind, wpv_temp_new; [by left|]. intros t Nt. assert (t ≠ r ∧ t ≠ a ∧ t ≠ b ∧ t ≠ env) as (N1 & N2 & N3 & N4).
  { repeat split; vne. }
  apply wpv_bind. eapply spec_cmp_vec; [done|done|by apply Hrd|by rewrite lookup_insert_ne|done|vx|vx|vx|]. intros m.
  apply wpv_bind. eapply spec_bitsel_vec; [vx|apply vsrc_here; apply cmp_size|vx|vx|]. intros m'.
  eapply wpv_temp_free; [lk|done|]. eexists. split; [|unfold compared, spent, with_heap in *; cbn; rewrite <- app_assoc, <- replicate_add; apply (HQ (m + m')%nat)]. vsub.
Qed.

(** What the host does with a minimum or maximum: it emits it, or compares and
    selects. *)
Definition minmax_ready (VH : VecHost) (opc : VecOpcode) (cond : TCGCond) (r a b : nat) : Prop :=
  let can := tcg_can_emit_vec_op VH opc (type_of ty) vece in
  0 < can ∨ can = 0 ∧ apart r a b ∧ ∀ t, apart t a b → cmp_ready VH cond t a b.

Lemma value_minmax VH env opc cond r a b ρ g (Q : unit → vars → ghost → Prop) v0 e0 venv c1 x1 c2 x2 :
  (opc, cond) ∈ vec_minmax → minmax_ready VH opc cond r a b → ρ !! env = Some venv → vk venv = TEMP_FIXED →
  ρ !! r = Some (Var TEMP_EBB ty v0 e0) → vsrc ρ a ty c1 x1 → vsrc ρ b ty c2 x2 →
  (∀ e m g', (r = a ∨ r = b → e = e0) → g' = spent m g ∨ g' = compared cond c1 c2 x1 x2 m g →
     Q tt (<[r := Var TEMP_EBB ty (Num (vmap2 n w (sel_element w cond) c1 c2)) e]> ρ) g') →
  wpv (do_op3 VH vece r a b opc) ρ g (λ ok ρ' g',
    wpv (if negb ok then tcg_gen_cmpsel_vec VH env cond vece r a b a b else mret tt) ρ' g' Q).
Proof.
  intros Hin Hrd He Hk Hr Ha Hb HQ. destruct (minmax_val _ _ Hin) as (Hc & Ht & Hcp & Hdef & Hval).
  apply (wpv_types3 ty (λ type, let can := tcg_can_emit_vec_op VH opc type vece in
    if 0 <? can then vec_gen_3 opc type vece (temp_arg r) (temp_arg a) (temp_arg b);; mret true
    else if can <? 0 then tcg_expand_vec_op VH opc type vece [temp_arg r; temp_arg a; temp_arg b];; mret true
    else mret false)); [by eapply var_typed|by eapply vsrc_typed|by eapply vsrc_typed|]. cbv zeta.
  destruct (Hval c1 x1 c2 x2) as [Ev Rv]; [apply Ha|apply Hb|done|].
  destruct Hrd as [Hcan|(-> & [N1 N2] & Hcmp)].
  - replace (0 <? _) with true by lia. apply wpv_bind. eapply wpv_emit_op3; [done..|exact Hr|by eapply vsrc_value|by eapply vsrc_value|exact Ev|done|].
    apply wpv_ret, wpv_ret. apply (HQ e0 0%nat); [done|left]. by rewrite spent_0.
  - apply wpv_ret. eapply spec_cmpsel_vec; [done|by left|done|exact He|done|by eexists _, _|exact Ha|exact Hb|exact Ha|exact Hb|].
    intros m. rewrite bitsel_sel by (apply Ha || apply Hb). apply (HQ _ m); [by intros [? | ?]|by right].
Qed.

Lemma spec_minmax VH env opc cond r a b ρ g (Q : unit → vars → ghost → Prop) venv c1 x1 c2 x2 :
  (opc, cond) ∈ vec_minmax → minmax_ready VH opc cond r a b → ρ !! env = Some venv → vk venv = TEMP_FIXED →
  vdst ρ r ty → vsrc ρ a ty c1 x1 → vsrc ρ b ty c2 x2 → distinct ty vece c1 c2 →
  (∀ m, Q tt (<[r := full TEMP_EBB ty (vmap2 n w (sel_element w cond) c1 c2) (chosen cond c1 c2 x1 x2)]> ρ)
     (compared cond c1 c2 x1 x2 m g)) →
  wpv (do_minmax VH env opc cond vece r a b) ρ g Q.
Proof.
  intros Hin Hrd He Hk (v0 & e0 & Hr) Ha Hb Hdis HQ. destruct (minmax_val _ _ Hin) as (Hc & _ & _).
  pose proof Ha as [(ka & Hla) [R1 _]]. pose proof Hb as [(kb & Hlb) [R2 _]].
  pose proof (fixed_ne _ _ _ _ _ _ He Hk Hr) as Hne. apply wpv_post.
  eapply (spec_store_two ty Hty); [exact Hla|exact Hlb|]. intros p q ρ1 ep eq Hs Np Nq Hp Hq.
  set (g1 := with_heap g _). set (cr := vmap2 n w (sel_element w cond) c1 c2) in *.
  assert (Rr : in_range size cr) by (apply (vmap2_size ty vece Hty Hvece); intros; by apply sel_element_range).
  apply wpv_bind. eapply wpv_mono; [intros ok ρ2 g2 Hok; apply wpv_bind; exact Hok|].
  eapply value_minmax; [exact Hin|done|lk|done|lk|by eapply vsrc_weaken|by eapply vsrc_weaken|]. fold cr. intros e m g2 Hal Hg2.
  assert (Hpath : gpath g2 && same_outcomes ty vece cond c1 c2 x1 x2 = gpath g && same_outcomes ty vece cond c1 c2 x1 x2).
  { destruct Hg2 as [-> | ->]; [done|]. cbn. by rewrite <- andb_assoc, andb_diag. }
  eapply (spec_after HELPER_sym_ternary_vec env cond r a b p q _ _ _ (gheap g) m); [lk|lk|..].
  - eapply expr_kept; [lk|auto|eexists; lk].
  - eapply expr_kept; [lk|auto|eexists; lk].
  - lk.
  - lk.
  - destruct Hg2 as [-> | ->]; cbn; by rewrite <- app_assoc.
  - apply (call_sym_ternary_vec i ty vece Hty Hvece cond); try done; [by apply block_at..|]. apply block_at, top_block.
  - rewrite Hpath. replace (gmem g2) with (gmem g) by (by destruct Hg2 as [-> | ->]).
    replace (galt g2) with (galt g) by (by destruct Hg2 as [-> | ->]). replace (gguest g2) with (gguest g) by (by destruct Hg2 as [-> | ->]).
    rewrite insert_insert_eq. eexists. split; [|apply (HQ (3 + m)%nat)]. vsub.
Qed.

(** ** Absolute values *)

Definition abs_element (x : Z) : Z := wrap w (Z.abs (sgn w x)).

Lemma lane_vmap f a k : (∀ x, in_range w x → in_range w (f x)) → (k < n)%nat → lane (vmap n w f a) k = f (lane a k).
Proof.
  intros Hf Hk. pose proof (w_pos ty vece Hty Hvece) as Hw. fold w in Hw.
  assert (E : lanes n w (vmap n w f a) = map f (lanes n w a)).
  { unfold vmap. replace n with (length (map f (lanes n w a))) at 1 by (by rewrite length_map, lanes_length).
    apply lanes_join; [done|]. pose proof (lanes_range n w a ltac:(lia)) as Hl. induction Hl; constructor; auto. }
  rewrite !lanes_lane, map_map in E. apply (f_equal (λ l, l !! k)) in E.
  rewrite !list_lookup_fmap, lookup_seq_lt in E by done. cbn in E. by injection E.
Qed.
Lemma lane_bits f a b k : bitwise f → lane (f a b) k = f (lane a k) (lane b k).
Proof.
  intros Hf. pose proof (w_pos ty vece Hty Hvece). fold w in H. unfold lane. rewrite <- (proj1 (Hf w _ _ ltac:(lia))).
  by rewrite <- (proj2 (Hf (Z.of_nat k * w) a b ltac:(lia))).
Qed.

(** [(x ^ s) - s], where [s] is the sign of [x] in every bit. *)
Lemma abs_sign x :
  in_range size x →
  let s := vmap n w (λ x, bv_ashr w x (w - 1)) x in vmap2 n w (bv_sub w) (Z.lxor x s) s = vmap n w abs_element x.
Proof.
  intros Hx s. pose proof (w_pos ty vece Hty Hvece) as Hw. pose proof (size_lanes ty vece Hty Hvece) as Hsz. fold size w n in Hw, Hsz.
  assert (Rs : ∀ x, in_range w x → in_range w (bv_ashr w x (w - 1))) by (intros; apply wrap_range; lia).
  assert (Ra : ∀ x, in_range w x → in_range w (abs_element x)) by (intros; apply wrap_range; lia).
  assert (Rm : ∀ x y, in_range w x → in_range w y → in_range w (bv_sub w x y)) by (intros; apply wrap_range; lia).
  apply lanes_inj.
  - by apply (vmap2_size ty vece Hty Hvece).
  - rewrite Hsz. by apply vmap_range.
  - intros k Hk. rewrite lane_vmap2, (lane_bits Z.lxor) by (done || apply lxor_bitwise). subst s. rewrite !lane_vmap by done. apply abs_value; [done|apply lane_range].
Qed.

Lemma spec_abs_vec VH env :
  2 ≤ vece → emits VH INDEX_op_smax_vec (type_of ty) vece = false →
  emits VH INDEX_op_sari_vec (type_of ty) vece = true → emits VH INDEX_op_sub_vec (type_of ty) vece = true →
  vec_unary_spec (tcg_gen_abs_vec VH env vece) anywhere2 (vmap n w abs_element).
Proof.
  intros Hv2 Hmax Hsar Hsub r a ρ g Q c x _ Hd Ha HQ. pose proof (w_pos ty vece Hty Hvece) as Hw.
  pose proof (size_lanes ty vece Hty Hvece) as Hsz. fold size w n in Hw, Hsz. pose proof Ha as (_ & Rc & Rx). fold size in Rc, Rx.
  assert (Rs : ∀ y, in_range size (vmap n w (λ x, bv_ashr w x (w - 1)) y))
    by (intros; rewrite Hsz; apply vmap_range; [done|intros; apply wrap_range; lia]).
  apply wpv_post. apply wpv_bind, (wpv_type ty); [destruct Hd as (v & e & H); by eapply var_typed|].
  apply wpv_bind, wpv_temp_new; [by left|]. intros t Nt. assert (t ≠ r) by vne.
  apply wpv_bind, wpv_assert. { unfold emits, can_emit in *. apply negb_true_iff, Z.eqb_neq. lia. }
  rewrite Hmax, Hsar. unfold emits in *. apply wpv_bind, wpv_bind. change (Z.shiftl 8 vece) with w.
  eapply (spec_shifti vece Hvece VH SYM_VEC_arithmetic_shift_right INDEX_op_sari_vec (w - 1)); [by repeat constructor|done|fold w; lia| |vx|vx|].
  { left. lia. } cbn [vec_meaning]. fold w n. intros m1. apply wpv_bind.
  eapply (spec_xor_vec ty vece Hty Hvece); [done|vx|vx|vx; apply Rs|done|]. intros m2.
  eapply (spec_arith ty vece Hty Hvece VH SYM_VEC_sub INDEX_op_sub_vec); [by repeat constructor|left; lia|vx| |vx; apply Rs|done|].
  { apply vsrc_here; apply lxor_range; auto; pose proof size_pos; lia. }
  intros m3. cbn [vec_meaning]. fold size w n. rewrite !abs_sign by done. eapply wpv_temp_free; [lk|done|].
  vend HQ.
Qed.

(** ** Saturating operations, on a host that has them *)

Lemma spec_usadd_vec VH env :
  let f := vmap2 n w (bv_uadd_sat w) in
  vec_binary_spec ty (tcg_gen_usadd_vec VH env vece) (op3_ready ty vece VH INDEX_op_usadd_vec any2 f) any2 f.
Proof.
  intros f. destruct (arith_val ty vece Hty Hvece SYM_VEC_unsigned_saturating_add INDEX_op_usadd_vec) as [Hr Hv]; [by repeat constructor|].
  eapply (spec_instrumented ty vece Hty Hvece SYM_VEC_unsigned_saturating_add); [intros; by apply no_domain|].
  by apply (value_do_op3 ty vece Hty VH INDEX_op_usadd_vec any2 f (λ r a b ok, if negb ok then
    t ← tcg_temp_new_vec_matching r; tcg_gen_not_vec vece t b;; tcg_gen_umin_vec VH env vece t t a;;
    tcg_gen_add_vec VH vece r t b;; tcg_temp_free_vec t else mret tt)).
Qed.
Lemma spec_ussub_vec VH env :
  let f := vmap2 n w (bv_usub_sat w) in
  vec_binary_spec ty (tcg_gen_ussub_vec VH env vece) (op3_ready ty vece VH INDEX_op_ussub_vec any2 f) any2 f.
Proof.
  intros f. destruct (arith_val ty vece Hty Hvece SYM_VEC_unsigned_saturating_sub INDEX_op_ussub_vec) as [Hr Hv]; [by repeat constructor|].
  eapply (spec_instrumented ty vece Hty Hvece SYM_VEC_unsigned_saturating_sub); [intros; by apply no_domain|].
  by apply (value_do_op3 ty vece Hty VH INDEX_op_ussub_vec any2 f (λ r a b ok, if negb ok then
    t ← tcg_temp_new_vec_matching r; tcg_gen_umax_vec VH env vece t a b;; tcg_gen_sub_vec VH vece r t b;;
    tcg_temp_free_vec t else mret tt)).
Qed.
End Compare.

(** ** Loads and stores *)

Lemma wpv_ld_vec r base ofs ρ g (Q : unit → vars → ghost → Prop) v0 e0 k' e b :
  ρ !! base = Some (Var k' I64 (Num b) e) → ρ !! r = Some (Var TEMP_EBB ty v0 e0) →
  Q tt (<[r := Var TEMP_EBB ty (Num (now g (size / 8) (wrap 64 (b + ofs)))) e0]> ρ) g →
  wpv (vec_gen_3 INDEX_op_ld_vec (type_of ty) 0 (temp_arg r) (temp_arg base) (const_arg ofs)) ρ g Q.
Proof.
  intros Hb Hr HQ σ Hc. eapply wp_ld_vec; [done|apply (Hc _ _ Hb)|apply (Hc _ _ Hr)|done|].
  eexists. split; [|exact HQ]. by apply (covers_value _ _ _ _ (Var TEMP_EBB ty (Num (now g (size / 8) (wrap 64 (b + ofs)))) e0) Hc Hr).
Qed.
Lemma wpv_dupm_vec vece r base ofs ρ g (Q : unit → vars → ghost → Prop) v0 e0 k' e b :
  0 ≤ vece ≤ 3 → ρ !! base = Some (Var k' I64 (Num b) e) → ρ !! r = Some (Var TEMP_EBB ty v0 e0) →
  let w := vece_element_size vece in
  let z := vdup (lane_count size vece) w (now g (w / 8) (wrap 64 (b + ofs))) in
  Q tt (<[r := Var TEMP_EBB ty (Num z) e0]> ρ) g →
  wpv (vec_gen_3 INDEX_op_dupm_vec (type_of ty) vece (temp_arg r) (temp_arg base) (const_arg ofs)) ρ g Q.
Proof.
  intros Hv Hb Hr w z HQ σ Hc. eapply wp_dupm_vec; [done|done|apply (Hc _ _ Hb)|apply (Hc _ _ Hr)|done|].
  eexists. split; [|exact HQ]. by apply (covers_value _ _ _ _ (Var TEMP_EBB ty (Num z) e0) Hc Hr).
Qed.
(** The three numbers that a helper for memory takes. *)
Lemma call_args3 b o m vs :
  Forall2 (arg_ok i) [ANum I64 b; ANum I64 o; ANum I64 m] vs →
  ∃ v1 v2 v3, vs = [v1; v2; v3] ∧ num I64 v1 = Ok b ∧ num I64 v2 = Ok o ∧ num I64 v3 = Ok m.
Proof.
  intros Hvs. apply Forall2_cons_inv_l in Hvs as (v1 & vs1 & [E1 _] & Hvs & ->). apply Forall2_cons_inv_l in Hvs as (v2 & vs2 & [E2 _] & Hvs & ->).
  apply Forall2_cons_inv_l in Hvs as (v3 & vs3 & [E3 _] & Hvs & ->). apply Forall2_nil_inv_l in Hvs as ->. by exists v1, v2, v3.
Qed.

Lemma spec_ld_vec r base ofs ρ g (Q : unit → vars → ghost → Prop) b xb :
  vdst ρ r ty → src ρ base I64 b xb → let a := wrap 64 (b + ofs) in
  Q tt (<[r := full TEMP_EBB ty (now g (size / 8) a) (alt g (size / 8) a)]> ρ) g →
  wpv (tcg_gen_ld_vec r base ofs) ρ g Q.
Proof.
  intros (v0 & e0 & Hr) Hb a HQ. destruct (src_value _ _ _ _ _ Hb) as (kb & eb & Hlb). apply wpv_post.
  assert (Hn : 0 < size / 8 ≤ 32 ∧ size = 8 * (size / 8)) by (subst size; by destruct ty).
  assert (Hne : r ≠ base) by (intros ->; rewrite Hr in Hlb; by simplify_eq).
  apply wpv_bind. eapply wpv_temp_expr; [lk|]. vconst co ρ1 Hs1 Hco. apply wpv_bind. eapply wpv_vec_size; [lk|done|]. cbn [vt]. fold size.
  vconst cn ρ2 Hs2 Hcn. apply wpv_bind. unfold const_var, full in Hco, Hcn. cbn [const_num ty_width] in Hco, Hcn.
  rewrite (wrap_small 64 (size / 8)) in Hcn by (split; lia).
  eapply (wpv_mem_call _ r [V base; V co; V cn] [ANum I64 b; ANum I64 (wrap 64 ofs); ANum I64 (size / 8)] _ _ _ _ _ _ _ size
    (now g (size / 8) a) (alt g (size / 8) a)); [|lk|done| |].
  - split; [eexists _, _; lk|]. split; [eexists _, _; lk|]. split; [eexists _, _; lk|done].
  - intros Γ σ vs st HM Hvs.
    destruct (call_args3 _ _ _ _ Hvs) as (v1 & v2 & v3 & -> & E1 & E2 & E3).
    eexists. split; [cbn [run_helper]; rewrite E1; cbn [mbind res_bind]; rewrite E2; cbn [mbind res_bind]; rewrite E3; reflexivity|].
    eexists. split; [reflexivity|]. unfold helper_sym_load_host_vec, sym_load_host_internal. rewrite wrap_add_r by lia. fold a.
    pose proof (proj2 (models_load i Γ σ g st (size / 8) (size / 8) a HM ltac:(lia) ltac:(lia))) as Hl.
    rewrite <- (proj2 Hn) in Hl. exact Hl.
  - apply wpv_bind, (wpv_type ty); [eapply var_typed; lk|].
    eapply wpv_ld_vec; [lk|lk|]. fold a. rewrite insert_insert_eq. vdone HQ.
Qed.

Lemma spec_dup_mem_vec vece r base ofs ρ g (Q : unit → vars → ghost → Prop) b xb :
  2 ≤ vece ≤ 3 → vdst ρ r ty → src ρ base I64 b xb →
  let w := vece_element_size vece in let n := lane_count size vece in let a := wrap 64 (b + ofs) in
  Q tt (<[r := full TEMP_EBB ty (vdup n w (now g (w / 8) a)) (vdup n w (alt g (w / 8) a))]> ρ) g →
  wpv (tcg_gen_dup_mem_vec vece r base ofs) ρ g Q.
Proof.
  intros Hv (v0 & e0 & Hr) Hb w n a HQ. assert (Hv3 : 0 ≤ vece ≤ 3) by lia. assert (Hv2 : 2 ≤ vece) by lia. destruct (src_value _ _ _ _ _ Hb) as (kb & eb & Hlb). apply wpv_post.
  assert (Hne : r ≠ base) by (intros ->; rewrite Hr in Hlb; by simplify_eq).
  apply wpv_bind. eapply wpv_temp_expr; [lk|]. vconst co ρ1 Hs1 Hco. apply wpv_bind. eapply wpv_vec_size; [lk|done|]. cbn [vt]. fold size.
  vconst cs ρ2 Hs2 Hcs. vconst cv ρ3 Hs3 Hcv. apply wpv_bind. unfold const_var, full in Hco, Hcs, Hcv.
  rewrite (vsize_const ty vece Hty : const_num I64 size = size) in Hcs. rewrite (vece_const ty vece Hty Hv3) in Hcv. cbn [const_num ty_width] in Hco.
  eapply (wpv_mem_call _ r [V base; V co; V cs; V cv] [ANum I64 b; ANum I64 (wrap 64 ofs); ANum I64 size; ANum I64 vece] _ _ _ _ _ _ _ size
    (vdup n w (now g (w / 8) a)) (vdup n w (alt g (w / 8) a))); [|lk|done| |].
  - split; [eexists _, _; lk|]. split; [eexists _, _; lk|]. split; [eexists _, _; lk|]. split; [eexists _, _; lk|done].
  - intros Γ σ vs st HM Hvs. apply Forall2_cons_inv_l in Hvs as (v1 & vs1 & [E1 _] & Hvs & ->).
    destruct (call_args3 _ _ _ _ Hvs) as (v2 & v3 & v4 & -> & E2 & E3 & E4).
    eexists. split; [cbn [run_helper]; rewrite E1; cbn [mbind res_bind]; rewrite E2; cbn [mbind res_bind]; rewrite E3; cbn [mbind res_bind]; rewrite E4; reflexivity|].
    pose proof (load_duplicate_correct i (shadow st) (mem st) b (wrap 64 ofs) size vece (vec_width_shape _ _ Hty Hv3) Hv2 (m_bytes _ _ _ _ _ HM)) as H.
    cbv zeta in H. fold w n in H. rewrite wrap_add_r in H by lia. fold a in H.
    rewrite (models_now _ _ _ _ _ _ _ HM), (models_alt _ _ _ _ _ _ _ HM) in H. exact H.
  - apply wpv_bind, (wpv_type ty); [eapply var_typed; lk|].
    eapply wpv_dupm_vec; [lia|lk|lk|]. fold w n a. rewrite insert_insert_eq. vdone HQ.
Qed.

(** A store of a vector, or of its low part. *)
Lemma spec_store_low low r base co cl ofs ρ g (Q : unit → vars → ghost → Prop) c x b xb :
  is_vec low = true → var_width low ≤ size → vsrc ρ r ty c x → src ρ base I64 b xb →
  ρ !! co = Some (const_var I64 ofs) → ρ !! cl = Some (const_var I64 (var_width low / 8)) →
  Q tt ρ (after_store g (wrap 64 (b + ofs)) (var_width low / 8) c x) →
  wpv (tcg_gen_callN HELPER_sym_store_host None [S r; base; co; cl];;
       vec_gen_3 INDEX_op_st_vec (type_of low) 0 (temp_arg r) (temp_arg base) (const_arg ofs)) ρ g Q.
Proof.
  intros Hl Hw ((k & Hr) & _) Hb Hco Hcl HQ. destruct (src_value _ _ _ _ _ Hb) as (kb & eb & Hlb).
  unfold tcg_gen_callN. intros σ Hc. eapply (wp_store_vec i ty low); [done..|apply (Hc _ _ Hr)| |by exists ρ].
  apply (vargs_args σ ρ [E r; V base; V co; V cl]); [done|]. split; [eexists _, _, _; exact Hr|]. split; [by eexists _, _|].
  split; [by eexists _, _|]. split; [|done]. eexists _, _. rewrite Hcl. unfold const_var, full. cbn [const_num ty_width].
  rewrite wrap_small; [done|]. apply (count_fits I64). by destruct low.
Qed.
(** The type of a variable is the same after an operation. *)
Lemma wpv_type_later o (f : TCGType → TCGOp) r ρ g (Q : unit → vars → ghost → Prop) :
  typed_as ty ρ r → wpv (tcg_emit_op o;; tcg_emit_op (f (type_of ty))) ρ g Q →
  wpv (tcg_emit_op o;; type ← base_type_of r; tcg_emit_op (f type)) ρ g Q.
Proof.
  intros (v & Hr & <-) Hm σ Hc s Hok. specialize (Hm σ Hc s Hok). destruct (Hc _ _ Hr) as [Hl _].
  destruct (proj2 Hok _ _ Hl) as (ts & te & H1 & _ & (Hb & _) & _).
  unfold base_type_of, mbind, gen_bind, tcg_emit_op, get_temp in *. cbn in *. rewrite H1. cbn. by rewrite Hb.
Qed.

Lemma spec_st_vec r base ofs ρ g (Q : unit → vars → ghost → Prop) c x b xb :
  vsrc ρ r ty c x → src ρ base I64 b xb →
  Q tt ρ (after_store g (wrap 64 (b + ofs)) (size / 8) c x) → wpv (tcg_gen_st_vec r base ofs) ρ g Q.
Proof.
  intros Hr Hb HQ. pose proof Hr as ((k & Hlr) & _). pose proof Hb as ((kb & Hlb) & Rb). apply wpv_post.
  apply wpv_bind. eapply wpv_temp_expr; [lk|]. vconst co ρ1 Hs1 Hco. apply wpv_bind. eapply wpv_vec_size; [lk|done|]. cbn [vt full]. fold size.
  vconst cn ρ2 Hs2 Hcn.
  apply (wpv_type_later (OpCall HELPER_sym_store_host None [S r; base; co; cn])
    (λ type, OpVec INDEX_op_st_vec type 0 [temp_arg r; temp_arg base; const_arg ofs])); [eapply var_typed; lk|].
  eapply (spec_store_low ty); [done|done|split; [eexists; lk|apply Hr]|split; [eexists; lk|exact Rb]|lk|lk|]. vdone HQ.
Qed.
Lemma spec_stl_vec low r base ofs ρ g (Q : unit → vars → ghost → Prop) c x b xb :
  is_vec low = true → var_width low ≤ size → vsrc ρ r ty c x → src ρ base I64 b xb →
  Q tt ρ (after_store g (wrap 64 (b + ofs)) (var_width low / 8) c x) → wpv (tcg_gen_stl_vec r base ofs (type_of low)) ρ g Q.
Proof.
  intros Hl Hw Hr Hb HQ. pose proof Hr as ((k & Hlr) & _). pose proof Hb as ((kb & Hlb) & Rb). apply wpv_post.
  apply wpv_bind, (wpv_type ty); [by eapply vsrc_typed|].
  apply wpv_bind, wpv_assert; [by destruct low|]. apply wpv_bind, wpv_assert; [subst size; destruct ty, low; cbn in *; try done; lia|].
  apply wpv_bind. replace (match type_of low with TCG_TYPE_V64 => _ | _ => _ end) with (mret (M := Gen) (var_width low / 8)) by (by destruct low).
  apply wpv_ret. apply wpv_bind. eapply wpv_temp_expr; [lk|]. vconst co ρ1 Hs1 Hco. vconst cn ρ2 Hs2 Hcn.
  eapply spec_store_low; [done|done|split; [eexists; lk|apply Hr]|split; [eexists; lk|exact Rb]|lk|lk|]. vdone HQ.
Qed.
End Composed.
End Spec.
