(* ===== verification/GenLdst.v ===== *)
(** The generators of guest accesses ([tcg/tcg-op-ldst.c]) and the remaining ones of
    [tcg/tcg-op.c]: barriers, discards, 128-bit moves and the exits of a block.

    The callbacks of plugins are not emitted (no plugin is loaded), and the host
    has 64-bit registers and is little-endian. *)
From S2P Require Import Prelude Cond Bitops Ops MemOp Atomics Temps GenCore GenAlu.

Definition TCG_MO_LD_LD : Z := 0x01.
Definition TCG_MO_ST_LD : Z := 0x02.
Definition TCG_MO_LD_ST : Z := 0x04.
Definition TCG_MO_ST_ST : Z := 0x08.
Definition TCG_MO_ALL : Z := 0x0F.
Definition TCG_BAR_SC : Z := 0x30.

(** What the host's memory accesses can do. *)
Record HostMem := mkHostMem {
  TCG_TARGET_DEFAULT_MO : Z;
  tcg_target_has_memory_bswap : Z → bool;
  TCG_TARGET_HAS_qemu_st8_i32 : bool;
}.

Definition lift_res {A} (r : Res A) : Gen A := λ s,
  match r with Ok a => GOk a s | Abort => GAssert end.

Section Generators.
Context (TT : Target) (HM : HostMem) (tcg_env : nat) (tb : GuestTb).

(** ** Barriers and discards *)

Definition tcg_gen_mb (mb_type : Z) : Gen unit :=
  let parallel := if CONFIG_USER_ONLY tb then CF_PARALLEL tb else true in
  if parallel then tcg_emit_op (OpMb mb_type) else mret tt.

Definition tcg_gen_discard (arg : nat) : Gen unit :=
  ea ← temp_expr arg;
  tcg_emit_op (OpDiscard ea);;
  tcg_emit_op (OpDiscard arg).

Definition tcg_gen_req_mo (type : Z) : Gen unit :=
  let type := Z.land type (guest_mo tb) in
  let type := without type (TCG_TARGET_DEFAULT_MO HM) in
  if type =? 0 then mret tt else tcg_gen_mb (Z.lor type TCG_BAR_SC).

(** ** Guest accesses *)

Definition preserve_addr (addr : nat) : Gen nat :=
  temp ← tcg_temp_ebb_new I64;
  match addr_type tb with
  | I32 => tcg_gen_extu_i32_i64 temp addr
  | I64 => tcg_gen_mov I64 temp addr
  end;;
  mret temp.

Definition gen_ld (t : RegType) (val addr : nat) (oi : Z) : Gen unit :=
  tcg_emit_op (OpGuestLd (addr_type tb) t val addr oi).
Definition gen_st (st8 : bool) (t : RegType) (val addr : nat) (oi : Z) : Gen unit :=
  tcg_emit_op (OpGuestSt st8 (addr_type tb) t val addr oi).

(** The expression of the loaded value, and the update of the symbolic memory. *)
Definition gen_sym_load (t : RegType) (val addr size mmu_idx : nat) : Gen unit :=
  ev ← temp_expr val; ea ← temp_expr addr;
  tcg_gen_callN (HELPER_sym_load_guest t) (Some ev) [tcg_env; addr; ea; size; mmu_idx].
Definition gen_sym_store (t : RegType) (val addr size mmu_idx : nat) : Gen unit :=
  ev ← temp_expr val; ea ← temp_expr addr;
  tcg_gen_callN (HELPER_sym_store_guest t) None [tcg_env; val; ev; addr; ea; size; mmu_idx].

Definition swaps (memop : Z) : bool := has memop MO_BSWAP && negb (tcg_target_has_memory_bswap HM memop).
Definition bswap_flags_of (memop : Z) : Z :=
  if has memop MO_SIGN then Z.lor TCG_BSWAP_IZ TCG_BSWAP_OS else Z.lor TCG_BSWAP_IZ TCG_BSWAP_OZ.

Definition tcg_gen_qemu_ld_i32_int (val addr : nat) (idx memop : Z) : Gen unit :=
  tcg_gen_req_mo (Z.lor TCG_MO_LD_LD TCG_MO_ST_LD);;
  orig_memop ← lift_res (tcg_canonicalize_memop tb memop false false);
  let memop :=
    if swaps orig_memop then
      let memop := without orig_memop MO_BSWAP in
      if Z.land memop MO_SSIZE =? Z.lor MO_SIGN MO_16 then without memop MO_SIGN else memop
    else orig_memop in
  copy_addr ← preserve_addr addr;
  gen_ld I32 val addr (make_memop_idx memop idx);;
  load_size ← tcg_constant_i64 (Z.shiftl 1 (Z.land memop MO_SIZE));
  mmu_idx ← tcg_constant_i64 idx;
  gen_sym_load I32 val copy_addr load_size mmu_idx;;
  if has (Z.lxor orig_memop memop) MO_BSWAP then
    let size := Z.land orig_memop MO_SIZE in
    if size =? MO_16 then tcg_gen_bswap16 TT I32 val val (bswap_flags_of orig_memop)
    else if size =? MO_32 then tcg_gen_bswap32_i32 TT val val
    else g_assert_not_reached
  else mret tt.

Definition tcg_gen_qemu_ld_i64_int (val addr : nat) (idx memop : Z) : Gen unit :=
  tcg_gen_req_mo (Z.lor TCG_MO_LD_LD TCG_MO_ST_LD);;
  orig_memop ← lift_res (tcg_canonicalize_memop tb memop true false);
  let memop :=
    if swaps orig_memop then
      let memop := without orig_memop MO_BSWAP in
      if has memop MO_SIGN && (Z.land memop MO_SIZE <? MO_64) then without memop MO_SIGN else memop
    else orig_memop in
  copy_addr ← preserve_addr addr;
  gen_ld I64 val addr (make_memop_idx memop idx);;
  mmu_idx ← tcg_constant_i64 idx;
  load_size ← tcg_constant_i64 (Z.shiftl 1 (Z.land memop MO_SIZE));
  gen_sym_load I64 val copy_addr load_size mmu_idx;;
  if has (Z.lxor orig_memop memop) MO_BSWAP then
    let size := Z.land orig_memop MO_SIZE in
    if size =? MO_16 then tcg_gen_bswap16 TT I64 val val (bswap_flags_of orig_memop)
    else if size =? MO_32 then tcg_gen_bswap32_i64 TT val val (bswap_flags_of orig_memop)
    else if size =? MO_64 then tcg_gen_bswap64_i64 TT val val
    else g_assert_not_reached
  else mret tt.

(** The value to store in the host's byte order: [swap] is the temporary that
    holds it when it is not the original one. *)
Definition gen_swapped (t : RegType) (memop : Z) (val : nat) : Gen (nat * Z * option nat) :=
  if swaps memop then
    swap ← tcg_temp_ebb_new t;
    let size := Z.land memop MO_SIZE in
    match t with
    | I32 =>
        if size =? MO_16 then tcg_gen_bswap16 TT I32 swap val 0
        else if size =? MO_32 then tcg_gen_bswap32_i32 TT swap val
        else g_assert_not_reached
    | I64 =>
        if size =? MO_16 then tcg_gen_bswap16 TT I64 swap val 0
        else if size =? MO_32 then tcg_gen_bswap32_i64 TT swap val 0
        else if size =? MO_64 then tcg_gen_bswap64_i64 TT swap val
        else g_assert_not_reached
    end;;
    mret (swap, without memop MO_BSWAP, Some swap)
  else mret (val, memop, None).
Definition free_swap (swap : option nat) : Gen unit :=
  match swap with Some swap => tcg_temp_free_internal swap | None => mret tt end.

Definition tcg_gen_qemu_st_i32_int (val addr : nat) (idx memop : Z) : Gen unit :=
  tcg_gen_req_mo (Z.lor TCG_MO_LD_ST TCG_MO_ST_ST);;
  memop ← lift_res (tcg_canonicalize_memop tb memop false true);
  '(val, memop, swap) ← gen_swapped I32 memop val;
  gen_st (TCG_TARGET_HAS_qemu_st8_i32 HM && (Z.land memop MO_SIZE =? MO_8)) I32 val addr (make_memop_idx memop idx);;
  store_size ← tcg_constant_i64 (Z.shiftl 1 (Z.land memop MO_SIZE));
  mmu_idx ← tcg_constant_i64 idx;
  gen_sym_store I32 val addr store_size mmu_idx;;
  free_swap swap.

Definition tcg_gen_qemu_st_i64_int (val addr : nat) (idx memop : Z) : Gen unit :=
  tcg_gen_req_mo (Z.lor TCG_MO_LD_ST TCG_MO_ST_ST);;
  memop ← lift_res (tcg_canonicalize_memop tb memop true true);
  '(val, memop, swap) ← gen_swapped I64 memop val;
  gen_st false I64 val addr (make_memop_idx memop idx);;
  mmu_idx ← tcg_constant_i64 idx;
  store_size ← tcg_constant_i64 (Z.shiftl 1 (Z.land memop MO_SIZE));
  gen_sym_store I64 val addr store_size mmu_idx;;
  free_swap swap.

(** The entry points check the type of the address and the size. *)
Definition check_access (a : RegType) (ok : bool) (m : Gen unit) : Gen unit :=
  tcg_debug_assert (bool_decide (a = addr_type tb));;
  tcg_debug_assert ok;;
  m.
Definition tcg_gen_qemu_ld_i32_chk (val addr : nat) (idx memop : Z) (a : RegType) : Gen unit :=
  check_access a (Z.land memop MO_SIZE <=? MO_32) (tcg_gen_qemu_ld_i32_int val addr idx memop).
Definition tcg_gen_qemu_st_i32_chk (val addr : nat) (idx memop : Z) (a : RegType) : Gen unit :=
  check_access a (Z.land memop MO_SIZE <=? MO_32) (tcg_gen_qemu_st_i32_int val addr idx memop).
Definition tcg_gen_qemu_ld_i64_chk (val addr : nat) (idx memop : Z) (a : RegType) : Gen unit :=
  check_access a (Z.land memop MO_SIZE <=? MO_64) (tcg_gen_qemu_ld_i64_int val addr idx memop).
Definition tcg_gen_qemu_st_i64_chk (val addr : nat) (idx memop : Z) (a : RegType) : Gen unit :=
  check_access a (Z.land memop MO_SIZE <=? MO_64) (tcg_gen_qemu_st_i64_int val addr idx memop).

(** ** 128 bits *)

(** The halves of a 128-bit variable. *)
Definition TCGV128_LOW (t : nat) : nat := t.
Definition TCGV128_HIGH (t : nat) : nat := S t.
Definition tcg_temp_ebb_new_i128 : Gen nat := tcg_temp_new_internal TCG_TYPE_I128 TEMP_EBB.

Definition tcg_gen_extr_i128_i64 (lo hi arg : nat) : Gen unit :=
  tcg_gen_mov I64 lo (TCGV128_LOW arg);; tcg_gen_mov I64 hi (TCGV128_HIGH arg).
Definition tcg_gen_concat_i64_i128 (ret lo hi : nat) : Gen unit :=
  tcg_gen_mov I64 (TCGV128_LOW ret) lo;; tcg_gen_mov I64 (TCGV128_HIGH ret) hi.
Definition tcg_gen_mov_i128 (dst src : nat) : Gen unit :=
  if (dst =? src)%nat then mret tt
  else
    tcg_gen_mov I64 (TCGV128_LOW dst) (TCGV128_LOW src);;
    tcg_gen_mov I64 (TCGV128_HIGH dst) (TCGV128_HIGH src).
Definition tcg_gen_ld_i128 (ret base : nat) (offset : Z) : Gen unit :=
  tcg_gen_ldst_op I64 (INDEX_op_ld I64) (TCGV128_LOW ret) base offset;;
  tcg_gen_ldst_op I64 (INDEX_op_ld I64) (TCGV128_HIGH ret) base (offset + 8).
Definition tcg_gen_st_i128 (val base : nat) (offset : Z) : Gen unit :=
  tcg_gen_ldst_op I64 (INDEX_op_st I64) (TCGV128_LOW val) base offset;;
  tcg_gen_ldst_op I64 (INDEX_op_st I64) (TCGV128_HIGH val) base (offset + 8).

(** The address of the second half. *)
Definition gen_addr_p8 (addr : nat) : Gen nat :=
  t ← tcg_temp_ebb_new (addr_type tb);
  tcg_gen_addi (addr_type tb) t addr 8;;
  mret t.

Definition tcg_gen_qemu_ld_i128_int (val addr : nat) (idx memop : Z) : Gen unit :=
  tcg_debug_assert (check_max_alignment tb (get_alignment_bits memop));;
  tcg_gen_req_mo (Z.lor TCG_MO_LD_LD TCG_MO_ST_LD);;
  let memop := reduce_atomicity tb memop in
  '(mop0, mop1) ← lift_res (canonicalize_memop_i128_as_i64 (tcg_target_has_memory_bswap HM) memop);
  let need_bswap := has (Z.lxor mop0 memop) MO_BSWAP in
  let '(x, y) := if Z.land memop MO_BSWAP =? MO_LE then (TCGV128_LOW val, TCGV128_HIGH val)
                 else (TCGV128_HIGH val, TCGV128_LOW val) in
  gen_ld I64 x addr (make_memop_idx mop0 idx);;
  mmu_idx ← tcg_constant_i64 idx;
  load_size ← tcg_constant_i64 (Z.shiftl 1 MO_64);
  gen_sym_load I64 x addr load_size mmu_idx;;
  (if need_bswap then tcg_gen_bswap64_i64 TT x x else mret tt);;
  addr_p8 ← gen_addr_p8 addr;
  gen_ld I64 y addr_p8 (make_memop_idx mop1 idx);;
  gen_sym_load I64 y addr_p8 load_size mmu_idx;;
  tcg_temp_free_internal addr_p8;;
  (if need_bswap then tcg_gen_bswap64_i64 TT y y else mret tt).

Definition tcg_gen_qemu_st_i128_int (val addr : nat) (idx memop : Z) : Gen unit :=
  tcg_debug_assert (check_max_alignment tb (get_alignment_bits memop));;
  tcg_gen_req_mo (Z.lor TCG_MO_ST_LD TCG_MO_ST_ST);;
  let memop := reduce_atomicity tb memop in
  '(mop0, mop1) ← lift_res (canonicalize_memop_i128_as_i64 (tcg_target_has_memory_bswap HM) memop);
  let '(x, y) := if Z.land memop MO_BSWAP =? MO_LE then (TCGV128_LOW val, TCGV128_HIGH val)
                 else (TCGV128_HIGH val, TCGV128_LOW val) in
  '(x, b) ← (if has (Z.lxor mop0 memop) MO_BSWAP then
               b ← tcg_temp_ebb_new I64; tcg_gen_bswap64_i64 TT b x;; mret (b, Some b)
             else mret (x, None));
  gen_st false I64 x addr (make_memop_idx mop0 idx);;
  mmu_idx ← tcg_constant_i64 idx;
  store_size ← tcg_constant_i64 (Z.shiftl 1 MO_64);
  gen_sym_store I64 x addr store_size mmu_idx;;
  addr_p8 ← gen_addr_p8 addr;
  match b with
  | Some b =>
      tcg_gen_bswap64_i64 TT b y;;
      gen_st false I64 b addr_p8 (make_memop_idx mop1 idx);;
      gen_sym_store I64 b addr_p8 store_size mmu_idx;;
      tcg_temp_free_internal b
  | None =>
      gen_st false I64 y addr_p8 (make_memop_idx mop1 idx);;
      gen_sym_store I64 y addr_p8 store_size mmu_idx
  end;;
  tcg_temp_free_internal addr_p8.

Definition tcg_gen_qemu_ld_i128_chk (val addr : nat) (idx memop : Z) (a : RegType) : Gen unit :=
  check_access a ((Z.land memop MO_SIZE =? MO_128) && negb (has memop MO_SIGN))
    (tcg_gen_qemu_ld_i128_int val addr idx memop).
Definition tcg_gen_qemu_st_i128_chk (val addr : nat) (idx memop : Z) (a : RegType) : Gen unit :=
  check_access a ((Z.land memop MO_SIZE =? MO_128) && negb (has memop MO_SIGN))
    (tcg_gen_qemu_st_i128_int val addr idx memop).

(** ** Extension as an access would do it *)

Definition tcg_gen_ext_i32 (ret val : nat) (opc : Z) : Gen unit :=
  let s := Z.land opc MO_SSIZE in
  if s =? Z.lor MO_SIGN MO_8 then tcg_gen_ext8s TT I32 ret val
  else if s =? MO_8 then tcg_gen_ext8u TT I32 ret val
  else if s =? Z.lor MO_SIGN MO_16 then tcg_gen_ext16s TT I32 ret val
  else if s =? MO_16 then tcg_gen_ext16u TT I32 ret val
  else if (s =? MO_32) || (s =? Z.lor MO_SIGN MO_32) then tcg_gen_mov I32 ret val
  else g_assert_not_reached.
Definition tcg_gen_ext_i64 (ret val : nat) (opc : Z) : Gen unit :=
  let s := Z.land opc MO_SSIZE in
  if s =? Z.lor MO_SIGN MO_8 then tcg_gen_ext8s TT I64 ret val
  else if s =? MO_8 then tcg_gen_ext8u TT I64 ret val
  else if s =? Z.lor MO_SIGN MO_16 then tcg_gen_ext16s TT I64 ret val
  else if s =? MO_16 then tcg_gen_ext16u TT I64 ret val
  else if s =? Z.lor MO_SIGN MO_32 then tcg_gen_ext32s_i64 TT ret val
  else if s =? MO_32 then tcg_gen_ext32u_i64 TT ret val
  else if (s =? MO_64) || (s =? Z.lor MO_SIGN MO_64) then tcg_gen_mov I64 ret val
  else g_assert_not_reached.

(** ** Compare-and-exchange *)

Definition tcg_gen_qemu_ld_int (t : RegType) : nat → nat → Z → Z → Gen unit :=
  match t with I32 => tcg_gen_qemu_ld_i32_int | I64 => tcg_gen_qemu_ld_i64_int end.
Definition tcg_gen_qemu_st_int (t : RegType) : nat → nat → Z → Z → Gen unit :=
  match t with I32 => tcg_gen_qemu_st_i32_int | I64 => tcg_gen_qemu_st_i64_int end.
Definition tcg_gen_ext (t : RegType) : nat → nat → Z → Gen unit :=
  match t with I32 => tcg_gen_ext_i32 | I64 => tcg_gen_ext_i64 end.

Definition tcg_gen_nonatomic_cmpxchg_int (t : RegType) (retv addr cmpv newv : nat) (idx memop : Z) : Gen unit :=
  t1 ← tcg_temp_ebb_new t; t2 ← tcg_temp_ebb_new t;
  tcg_gen_ext t t2 cmpv (Z.land memop MO_SIZE);;
  tcg_gen_qemu_ld_int t t1 addr idx (without memop MO_SIGN);;
  tcg_gen_movcond tcg_env t TCG_COND_EQ t2 t1 t2 newv t1;;
  tcg_gen_qemu_st_int t t2 addr idx memop;;
  tcg_temp_free_internal t2;;
  (if has memop MO_SIGN then tcg_gen_ext t retv t1 memop else tcg_gen_mov t retv t1);;
  tcg_temp_free_internal t1.
Definition tcg_gen_nonatomic_cmpxchg_i32_int := tcg_gen_nonatomic_cmpxchg_int I32.
Definition tcg_gen_nonatomic_cmpxchg_i64_int := tcg_gen_nonatomic_cmpxchg_int I64.

Definition maybe_extend_addr64 (addr : nat) : Gen nat :=
  match addr_type tb with
  | I32 => a64 ← tcg_temp_ebb_new I64; tcg_gen_extu_i32_i64 a64 addr;; mret a64
  | I64 => mret addr
  end.
Definition maybe_free_addr64 (a64 : nat) : Gen unit :=
  match addr_type tb with I32 => tcg_temp_free_internal a64 | I64 => mret tt end.

(** The helper for an access, by size and byte order; the host has 64-bit and
    128-bit atomic operations. *)
Definition gen_atomic (h : Z → Helper) (ret addr : nat) (vals : list nat) (memop oi : Z) : Gen unit :=
  a64 ← maybe_extend_addr64 addr;
  c ← tcg_constant_i32 oi;
  tcg_gen_callN (h (Z.land memop (Z.lor MO_SIZE MO_BSWAP))) (Some ret) (tcg_env :: a64 :: vals ++ [c]);;
  maybe_free_addr64 a64.

Definition tcg_gen_atomic_cmpxchg_i32_int (retv addr cmpv newv : nat) (idx memop : Z) : Gen unit :=
  if CF_PARALLEL tb then
    memop ← lift_res (tcg_canonicalize_memop tb memop false false);
    gen_atomic HELPER_atomic_cmpxchg retv addr [cmpv; newv] memop (make_memop_idx (without memop MO_SIGN) idx);;
    (if has memop MO_SIGN then tcg_gen_ext_i32 retv retv memop else mret tt)
  else tcg_gen_nonatomic_cmpxchg_i32_int retv addr cmpv newv idx memop.
Definition tcg_gen_atomic_cmpxchg_i64_int (retv addr cmpv newv : nat) (idx memop : Z) : Gen unit :=
  if CF_PARALLEL tb then
    if Z.land memop MO_SIZE =? MO_64 then
      memop ← lift_res (tcg_canonicalize_memop tb memop true false);
      gen_atomic HELPER_atomic_cmpxchg retv addr [cmpv; newv] memop (make_memop_idx memop idx)
    else
      c32 ← tcg_temp_ebb_new I32; n32 ← tcg_temp_ebb_new I32; r32 ← tcg_temp_ebb_new I32;
      tcg_gen_extrl_i64_i32 c32 cmpv;;
      tcg_gen_extrl_i64_i32 n32 newv;;
      tcg_gen_atomic_cmpxchg_i32_int r32 addr c32 n32 idx (without memop MO_SIGN);;
      tcg_temp_free_internal c32;; tcg_temp_free_internal n32;;
      tcg_gen_extu_i32_i64 retv r32;;
      tcg_temp_free_internal r32;;
      (if has memop MO_SIGN then tcg_gen_ext_i64 retv retv memop else mret tt)
  else tcg_gen_nonatomic_cmpxchg_i64_int retv addr cmpv newv idx memop.

Definition tcg_gen_nonatomic_cmpxchg_i128_int (retv addr cmpv newv : nat) (idx memop : Z) : Gen unit :=
  oldv ← tcg_temp_ebb_new_i128; tmpv ← tcg_temp_ebb_new_i128;
  t0 ← tcg_temp_ebb_new I64; t1 ← tcg_temp_ebb_new I64; z ← tcg_constant_i64 0;
  tcg_gen_qemu_ld_i128_int oldv addr idx memop;;
  tcg_gen_xor I64 t0 (TCGV128_LOW oldv) (TCGV128_LOW cmpv);;
  tcg_gen_xor I64 t1 (TCGV128_HIGH oldv) (TCGV128_HIGH cmpv);;
  tcg_gen_or I64 t0 t0 t1;;
  tcg_gen_movcond_i64 tcg_env TCG_COND_EQ (TCGV128_LOW tmpv) t0 z (TCGV128_LOW newv) (TCGV128_LOW oldv);;
  tcg_gen_movcond_i64 tcg_env TCG_COND_EQ (TCGV128_HIGH tmpv) t0 z (TCGV128_HIGH newv) (TCGV128_HIGH oldv);;
  tcg_gen_qemu_st_i128_int tmpv addr idx memop;;
  tcg_gen_mov_i128 retv oldv;;
  tcg_temp_free_internal t0;; tcg_temp_free_internal t1;;
  tcg_temp_free_internal tmpv;; tcg_temp_free_internal oldv.
Definition tcg_gen_atomic_cmpxchg_i128_int (retv addr cmpv newv : nat) (idx memop : Z) : Gen unit :=
  if CF_PARALLEL tb then
    gen_atomic HELPER_atomic_cmpxchg retv addr [cmpv; newv] memop (make_memop_idx memop idx)
  else tcg_gen_nonatomic_cmpxchg_i128_int retv addr cmpv newv idx memop.

(** ** Read-modify-write *)

Definition do_nonatomic_op (t : RegType) (ret addr val : nat) (idx memop : Z) (new_val : bool)
    (gen : nat → nat → nat → Gen unit) : Gen unit :=
  t1 ← tcg_temp_ebb_new t; t2 ← tcg_temp_ebb_new t;
  memop ← lift_res (tcg_canonicalize_memop tb memop (bool_decide (t = I64)) false);
  tcg_gen_qemu_ld_int t t1 addr idx memop;;
  tcg_gen_ext t t2 val memop;;
  gen t2 t1 t2;;
  tcg_gen_qemu_st_int t t2 addr idx memop;;
  tcg_gen_ext t ret (if new_val then t2 else t1) memop;;
  tcg_temp_free_internal t1;; tcg_temp_free_internal t2.
Definition do_nonatomic_op_i32 := do_nonatomic_op I32.
Definition do_nonatomic_op_i64 := do_nonatomic_op I64.

Definition do_atomic_op_i32 (ret addr val : nat) (idx memop : Z) (o : AtomicOp) : Gen unit :=
  memop ← lift_res (tcg_canonicalize_memop tb memop false false);
  gen_atomic (HELPER_atomic_op o) ret addr [val] memop (make_memop_idx (without memop MO_SIGN) idx);;
  (if has memop MO_SIGN then tcg_gen_ext_i32 ret ret memop else mret tt).
Definition do_atomic_op_i64 (ret addr val : nat) (idx memop : Z) (o : AtomicOp) : Gen unit :=
  memop ← lift_res (tcg_canonicalize_memop tb memop true false);
  if Z.land memop MO_SIZE =? MO_64 then
    gen_atomic (HELPER_atomic_op o) ret addr [val] memop (make_memop_idx (without memop MO_SIGN) idx)
  else
    v32 ← tcg_temp_ebb_new I32; r32 ← tcg_temp_ebb_new I32;
    tcg_gen_extrl_i64_i32 v32 val;;
    do_atomic_op_i32 r32 addr v32 idx (without memop MO_SIGN) o;;
    tcg_temp_free_internal v32;;
    tcg_gen_extu_i32_i64 ret r32;;
    tcg_temp_free_internal r32;;
    (if has memop MO_SIGN then tcg_gen_ext_i64 ret ret memop else mret tt).

Definition tcg_gen_mov2 (t : RegType) (r a b : nat) : Gen unit := tcg_gen_mov t r b.

(** [GEN_ATOMIC_HELPER]: the operation, and whether the new value is returned. *)
Definition atomic_gen (t : RegType) (o : AtomicRmw) : nat → nat → nat → Gen unit :=
  match o with
  | RMW_add => tcg_gen_add t | RMW_and => tcg_gen_and t | RMW_or => tcg_gen_or t | RMW_xor => tcg_gen_xor t
  | RMW_smin => tcg_gen_smin tcg_env t | RMW_umin => tcg_gen_umin tcg_env t
  | RMW_smax => tcg_gen_smax tcg_env t | RMW_umax => tcg_gen_umax tcg_env t
  end.
Definition atomic_parts (t : RegType) (o : AtomicOp) : (nat → nat → nat → Gen unit) * bool :=
  match o with
  | ATOMIC_fetch r => (atomic_gen t r, false)
  | ATOMIC_op_fetch r => (atomic_gen t r, true)
  | ATOMIC_xchg => (tcg_gen_mov2 t, false)
  end.
Definition GEN_ATOMIC_HELPER_i32 (o : AtomicOp) (ret addr val : nat) (idx memop : Z) (a : RegType) : Gen unit :=
  check_access a (Z.land memop MO_SIZE <=? MO_32)
    (if CF_PARALLEL tb then do_atomic_op_i32 ret addr val idx memop o
     else let '(gen, new_val) := atomic_parts I32 o in do_nonatomic_op_i32 ret addr val idx memop new_val gen).
Definition GEN_ATOMIC_HELPER_i64 (o : AtomicOp) (ret addr val : nat) (idx memop : Z) (a : RegType) : Gen unit :=
  check_access a (Z.land memop MO_SIZE <=? MO_64)
    (if CF_PARALLEL tb then do_atomic_op_i64 ret addr val idx memop o
     else let '(gen, new_val) := atomic_parts I64 o in do_nonatomic_op_i64 ret addr val idx memop new_val gen).

(** ** Exits of a block *)

Definition TB_EXIT_IDXMAX : Z := 1.
Definition TB_EXIT_REQUESTED : Z := 3.

(** [tcg_gen_exit_tb], with the address of the block's descriptor (0 for NULL). *)
Definition tcg_gen_exit_tb (block idx : Z) : Gen unit :=
  (if block =? 0 then tcg_debug_assert (idx =? 0)
   else if idx <=? TB_EXIT_IDXMAX then mret tt
   else tcg_debug_assert (idx =? TB_EXIT_REQUESTED));;
  tcg_gen_callN HELPER_sym_collect_garbage None [];;
  tcg_emit_op (OpExitTb (block + idx)).
Definition tcg_gen_goto_tb (CF_NO_GOTO_TB : bool) (idx : Z) : Gen unit :=
  tcg_debug_assert (negb CF_NO_GOTO_TB);;
  tcg_debug_assert (idx <=? TB_EXIT_IDXMAX);;
  tcg_gen_callN HELPER_sym_collect_garbage None [];;
  tcg_emit_op (OpGotoTb idx).
Definition tcg_gen_lookup_and_goto_ptr (CF_NO_GOTO_PTR : bool) : Gen unit :=
  if CF_NO_GOTO_PTR then tcg_gen_exit_tb 0 0
  else
    ptr ← tcg_temp_ebb_new I64;
    tcg_gen_callN HELPER_lookup_tb_ptr (Some ptr) [tcg_env];;
    tcg_gen_callN HELPER_sym_collect_garbage None [];;
    tcg_emit_op (OpGotoPtr ptr);;
    tcg_temp_free_internal ptr.
End Generators.
