(* ===== verification/GenLdstSpec.v ===== *)
(** What the generators of guest accesses promise ([tcg/tcg-op-ldst.c]): the
    translation of the address, the two views of memory, and the constraint that
    pins a symbolic address. *)
From S2P Require Import Prelude Cond Bitops Backend SymHelpers SymMemory Ops MemOp Atomics Temps Exec GuestBytes Logic Calls Vars.
From S2P Require Import GenCore GenCoreSpec GenAlu GenAluSpec GenConvSpec GenWideSpec GenMemSpec GenLdst.

(** ** Guest memory in one piece *)

(** An access of [memop] at the guest address [a] is aligned and goes to the host
    bytes from [h] on. *)
Definition mapped (G : Guest) (acc : MMUAccessType) (idx memop a h : Z) : Prop :=
  Z.land a (Z.ones (get_alignment_bits memop)) = 0 ∧
  ∀ k, 0 ≤ k < memop_size memop → tlb_vaddr_to_host G acc idx (wrap (target_long_bits G) (a + k)) = Some (h + k).

Lemma mapped_host G acc idx memop a h :
  mapped G acc idx memop a h → in_range (target_long_bits G) a → 0 < memop_size memop → host_of G acc idx a = h.
Proof.
  intros [_ H] Ha Hn. unfold host_of. specialize (H 0 ltac:(lia)). rewrite !Z.add_0_r, wrap_small in H by done.
  by rewrite H.
Qed.

(** The operation that is emitted may have lost flags of the original one. *)
Definition same_access (mop memop : Z) : Prop :=
  get_alignment_bits mop = get_alignment_bits memop ∧ Z.land mop MO_SIZE = Z.land memop MO_SIZE.
Lemma same_size mop memop : same_access mop memop → memop_size mop = memop_size memop.
Proof. intros [_ H]. unfold memop_size. by rewrite H. Qed.
Lemma mapped_bytes G acc idx memop mop a h :
  mapped G acc idx memop a h → same_access mop memop → 0 ≤ idx < 16 →
  guest_bytes G acc (make_memop_idx mop idx) a = Some (span h (Z.to_nat (memop_size memop))).
Proof.
  intros [Ha Hm] Hs Hi. unfold guest_bytes. destruct (memop_idx_roundtrip mop idx Hi) as [-> ->].
  rewrite (same_size _ _ Hs). destruct Hs as [-> _]. rewrite Ha, Z.eqb_refl. apply host_bytes_span.
  pose proof (memop_size_pos memop). intros k Hk. apply Hm. lia.
Qed.

(** ** The access that is emitted *)

Definition is64 (t : RegType) : bool := match t with I32 => false | I64 => true end.

(** The value is not sign-extended: the access is unsigned, or as wide as the type. *)
Definition unsigned_access (t : RegType) (memop : Z) : Prop :=
  has memop MO_SIGN = false ∨ 8 * memop_size memop = ty_width t.

Lemma size_fits t op : 8 * memop_size op ≤ ty_width t ↔ Z.land op MO_SIZE ≤ (if is64 t then MO_64 else MO_32).
Proof.
  unfold memop_size. rewrite Z.shiftl_1_l.
  assert (0 ≤ Z.land op MO_SIZE) by (apply Z.land_nonneg; right; done).
  destruct t; cbn [is64 ty_width].
  - change 32 with (8 * 2 ^ MO_32). rewrite <- Z.mul_le_mono_pos_l by lia. symmetry. apply Z.pow_le_mono_r_iff; [lia|done].
  - change 64 with (8 * 2 ^ MO_64). rewrite <- Z.mul_le_mono_pos_l by lia. symmetry. apply Z.pow_le_mono_r_iff; [lia|done].
Qed.

Lemma canonical_access tb t st memop :
  0 ≤ memop < 2048 → check_max_alignment tb (get_alignment_bits memop) = true → 8 * memop_size memop ≤ ty_width t →
  ∃ op, tcg_canonicalize_memop tb memop (is64 t) st = Ok op ∧ 0 ≤ op < 2048 ∧ same_access op memop ∧
    has op MO_BSWAP = has memop MO_BSWAP && negb (Z.land memop MO_SIZE =? MO_8) ∧
    (st = true ∨ unsigned_access t memop → has op MO_SIGN = false).
Proof.
  intros Hm Hc Hw. pose proof (canonicalize_spec tb memop (is64 t) st Hm Hc) as H. apply size_fits in Hw as Hf.
  replace (Z.land memop MO_SIZE <=? (if is64 t then MO_64 else MO_32)) with true in H by lia.
  destruct H as (op & -> & Hr & Hop & _). exists op. split; [done|]. split; [done|]. unfold canonical_of in Hop.
  apply andb_prop in Hop as [Hop _]. apply andb_prop in Hop as [Hop Hs]. apply andb_prop in Hop as [Hop Hb].
  apply andb_prop in Hop as [H1 H2]. apply Z.eqb_eq in H1, H2. apply eqb_prop in Hb, Hs.
  split; [by split|]. split; [done|]. rewrite Hs. intros [->|[->|Hu]]; [by rewrite andb_false_r|done|].
  replace (Z.land memop MO_SIZE <? _) with false; [by rewrite andb_false_r|]. symmetry. apply Z.ltb_ge.
  assert (memop_size memop = 2 ^ (if is64 t then MO_64 else MO_32)) as He
    by (destruct t; cbn [is64 ty_width] in *; change (2 ^ MO_64) with 8; change (2 ^ MO_32) with 4; lia).
  apply size_code in He; [|by destruct t]. by rewrite He.
Qed.

Definition unswapped_ok (op : Z) : bool :=
  let m := without op MO_BSWAP in
  (get_alignment_bits m =? get_alignment_bits op) && (Z.land m MO_SIZE =? Z.land op MO_SIZE) &&
  negb (has m MO_BSWAP) && Bool.eqb (has m MO_SIGN) (has op MO_SIGN) &&
  Bool.eqb (has (Z.lxor op m) MO_BSWAP) (has op MO_BSWAP) &&
  (has op MO_SIGN || negb (Z.land m MO_SSIZE =? Z.lor MO_SIGN MO_16)).
Lemma unswapped op :
  0 ≤ op < 2048 → let m := without op MO_BSWAP in
  same_access m op ∧ has m MO_BSWAP = false ∧ has m MO_SIGN = has op MO_SIGN ∧
  has (Z.lxor op m) MO_BSWAP = has op MO_BSWAP ∧
  (has op MO_SIGN = false → (Z.land m MO_SSIZE =? Z.lor MO_SIGN MO_16) = false).
Proof.
  intros Hop. assert (H : unswapped_ok op = true) by (revert op Hop; apply forall_memop; by vm_compute).
  unfold unswapped_ok in H. set (m := without op MO_BSWAP) in *. apply andb_prop in H as [H H6].
  apply andb_prop in H as [H H5]. apply andb_prop in H as [H H4]. apply andb_prop in H as [H H3].
  apply andb_prop in H as [H1 H2]. apply Z.eqb_eq in H1, H2. apply eqb_prop in H4, H5. apply negb_true_iff in H3.
  repeat (split; [done|]). intros E. rewrite E in H6. by apply negb_true_iff in H6.
Qed.

Lemma unsigned_ssize op : 0 ≤ op < 2048 → has op MO_SIGN = false → Z.land op MO_SSIZE = Z.land op MO_SIZE.
Proof.
  intros Hop Hs. assert (H : has op MO_SIGN || (Z.land op MO_SSIZE =? Z.land op MO_SIZE) = true).
  { clear Hs. revert op Hop. apply forall_memop. by vm_compute. }
  rewrite Hs in H. by apply Z.eqb_eq in H.
Qed.

(** ** Moving an operation past steps that emit none *)

Definition push (o : TCGOp) (s : TCGContext) : TCGContext :=
  mkContext (nb_globals s) (temps s) (free_temps s) (const_table s) (ops s ++ [o]) (nb_labels s).
Definition ops_blind {A} (m : Gen A) : Prop :=
  ∀ s o, m (push o s) = match m s with GOk a s' => GOk a (push o s') | GOverflow => GOverflow | GAssert => GAssert end.

Lemma blind_bind {A C} (m : Gen A) (k : A → Gen C) :
  ops_blind m → (∀ a, ops_blind (k a)) → ops_blind (m ≫= k).
Proof. intros Hm Hk s o. unfold mbind, gen_bind. rewrite Hm. destruct (m s); [apply Hk|done..]. Qed.
Lemma blind_get_temp n : ops_blind (get_temp n).
Proof. intros s o. unfold get_temp. cbn. by destruct (temps s !! n). Qed.
Lemma blind_set_temp n f : ops_blind (set_temp n f).
Proof. intros s o. unfold set_temp. cbn. by destruct (temps s !! n). Qed.
Lemma blind_assert b : ops_blind (tcg_debug_assert b).
Proof. intros s o. by destruct b. Qed.
Lemma blind_alloc : ops_blind tcg_temp_alloc.
Proof. intros s o. unfold tcg_temp_alloc. cbn [push temps]. by destruct (_ <=? _)%nat. Qed.
Lemma blind_temp_expr n : ops_blind (temp_expr n).
Proof.
  apply blind_bind; [apply blind_get_temp|]. intros ts. apply blind_bind; [apply blind_assert|]. intros _.
  apply blind_bind; [apply blind_get_temp|]. intros te. apply blind_bind; [apply blind_assert|]. done.
Qed.
Lemma blind_constant ty v : ops_blind (tcg_constant_internal ty v).
Proof.
  intros s o. unfold tcg_constant_internal at 1 2. cbn [push const_table].
  destruct (const_table s !! (ty, v)); [done|]. revert s o. apply blind_bind; [apply blind_alloc|]. intros ts.
  apply blind_bind; [apply blind_set_temp|]. intros _. apply blind_bind; [done|]. intros _.
  apply blind_bind; [apply blind_alloc|]. intros te. apply blind_bind; [apply blind_set_temp|]. done.
Qed.

Lemma emit_later {A C} o (m : Gen A) (k : A → Gen C) s :
  ops_blind m → (tcg_emit_op o;; x ← m; k x) s = (x ← m; tcg_emit_op o;; k x) s.
Proof.
  intros Hm. unfold mbind, gen_bind. change (tcg_emit_op o s) with (GOk tt (push o s)). cbv beta iota.
  rewrite Hm. by destruct (m s).
Qed.

Section Spec.
Context `{SL : ShadowLaws} {BL : BackendLaws B BS}.
Context (i : Input).
Implicit Types (t ty : RegType).

Abbreviation wpv := (wpv i).
Abbreviation wp := (wp i).

(** ** The operations on cells *)

(** The value a load gives, from the bytes read. *)
Definition guest_value (t : RegType) (mop z : Z) : Z :=
  let z := in_order mop z in
  wrap (ty_width t) (if has mop MO_SIGN then sgn (8 * memop_size mop) z else z).

Lemma wp_guest_ld (a : RegType) t r addr mop memop idx σ g (Q : unit → store → ghost → Prop) k v0 k' b h :
  0 ≤ idx < 16 → same_access mop memop → 8 * memop_size memop ≤ ty_width t →
  σ !! addr = Some (Cell k' a false (Num b)) → σ !! r = Some (Cell k t false v0) → writable k = true →
  mapped (gguest g) MMU_DATA_LOAD idx memop b h →
  Q tt (<[r := Cell k t false (Num (guest_value t mop (now g (memop_size memop) h)))]> σ) g →
  wp (tcg_emit_op (OpGuestLd a t r addr (make_memop_idx mop idx))) σ g Q.
Proof.
  intros Hi Hs Hw Ha Hr Hk Hmap. apply wp_emit.
  { eapply same_shape_insert; [apply same_shape_refl|done..]. }
  intros Γ st HΓ HM. destruct (m_cells _ _ _ _ _ HM _ _ Ha) as (v & Hv & zb & -> & Hz & Hc). cbn in Hc.
  pose proof (memop_size_pos memop) as Hp. pose proof (same_size _ _ Hs) as Hn.
  set (z := now g (memop_size memop) h). set (y := in_order mop z).
  set (x := if has mop MO_SIGN then wrap 64 (sgn (8 * memop_size mop) y) else y).
  assert (Ry : in_range (8 * memop_size mop) y) by (apply in_order_range; rewrite Hn; by eapply now_range).
  assert (Hx : in_range 64 x ∧ wrap (ty_width t) x = guest_value t mop z).
  { unfold x, guest_value. fold y. pose proof (ty_width_pos t). rewrite <- Hn in Hw. destruct (has mop MO_SIGN).
    - split; [by apply wrap_range|]. by rewrite wrap_wrap_le by lia.
    - split; [|done]. eapply in_range_le; [|exact Ry]. lia. }
  destruct (wr_cell i Γ σ g st r k t false v0 (Num (guest_value t mop z)) (VNum x) HΓ HM) as (W & M & _);
    [done..|by exists x|].
  eexists. split; [|exact M]. cbn. unfold exec_guest_ld. rewrite Hv. cbn. rewrite Hc, (m_guest _ _ _ _ _ HM).
  rewrite (mapped_bytes _ _ _ _ _ _ _ Hmap Hs Hi), load_list_span. cbn.
  destruct (memop_idx_roundtrip mop idx Hi) as [-> _].
  rewrite (le_join_ext _ _ (gmem g)) by (intros; apply HM).
  change (le_join (Z.to_nat (memop_size memop)) (gmem g) h) with z. fold y. fold x. by rewrite W.
Qed.

(** The expression of the bytes, and the constraint on the address. *)
Lemma wp_sym_load t r env addr ea cl cm σ g (Q : unit → store → ghost → Prop) k v0 b xb n idx memop h :
  args_in σ [env; addr; ea; cl; cm] [AAny; ANum I64 b; AExp 64 b xb; ANum I64 n; ANum I64 idx] →
  target_long_bits (gguest g) = 64 → mapped (gguest g) MMU_DATA_LOAD idx memop b h →
  n = memop_size memop → n ≤ ty_width t / 8 → σ !! r = Some (Cell k I64 true v0) → writable k = true →
  Q tt (<[r := Cell k I64 true (Exp (ty_width t) (now g n h) (alt g n h))]> σ) (assume g (xb =? b)) →
  wp (tcg_emit_op (OpCall (HELPER_sym_load_guest t) (Some r) [env; addr; ea; cl; cm])) σ g Q.
Proof.
  intros Hin Hb64 Hmap Hn Hw Hr Hk. pose proof (memop_size_pos memop) as Hpos. apply wp_emit.
  { eapply same_shape_insert; [apply same_shape_refl|done..]. }
  intros Γ st HΓ HM. destruct (args_exec _ _ _ _ _ _ _ HM Hin) as (vs & Hvs & Hoks).
  apply Forall2_cons_inv_l in Hoks as (v1 & vs1 & _ & Hoks & ->).
  apply Forall2_cons_inv_l in Hoks as (v2 & vs2 & [E2 R2] & Hoks & ->).
  apply Forall2_cons_inv_l in Hoks as (v3 & vs3 & (o & E3 & Ho) & Hoks & ->).
  apply Forall2_cons_inv_l in Hoks as (v4 & vs4 & [E4 _] & Hoks & ->).
  apply Forall2_cons_inv_l in Hoks as (v5 & vs5 & [E5 _] & Hoks & ->). apply Forall2_nil_inv_l in Hoks as ->.
  cbn in R2. destruct (models_load i Γ σ g st n (ty_width t / 8) h HM) as [_ H]; [lia|by destruct t|].
  set (e := extend_load _ _ _) in H. set (tr := pin_address (env_pc st) b 64 o (trace st)).
  assert (HM' : models i Γ σ (assume g (xb =? b)) (set_trace st tr)).
  { destruct HM as [Mc Mp Mm Mb Ma Mg]. split; try done.
    change (path_holds i tr = gpath g && (xb =? b)). unfold tr. by rewrite (pin_address_path i _ _ _ _ xb), Mp by done. }
  destruct (wr_cell i Γ σ _ _ r k I64 true v0 (Exp (ty_width t) (now g n h) (alt g n h)) (of_expr e) HΓ HM')
    as (W & M & _); [done|done|exists e; split; [done|by destruct t]|].
  eexists. split; [|exact M]. cbn in Hvs |- *. rewrite Hvs. cbn. rewrite E2. cbn. rewrite E3. cbn. rewrite E4. cbn.
  rewrite E5. cbn. unfold sym_load_guest_internal. rewrite (m_guest _ _ _ _ _ HM), Hb64, (wrap_small 64 b) by done.
  rewrite (mapped_host _ _ _ _ _ _ Hmap) by (rewrite ?Hb64; done || lia). fold tr e. cbn. by rewrite W.
Qed.

(** The two operations of a store.  The expression is written as it is, so the
    value must be stored in the host's byte order. *)
Lemma models_mem Γ σ g st m' :
  models i Γ σ g (set_mem st m') → ∀ m, (∀ k, m k = m' k) → models i Γ σ g (set_mem st m).
Proof.
  intros [Mc Mp Mm Mb Ma Mg] m H. split; cbn in *; try done.
  - intros k. rewrite H. apply Mm.
  - intros k. rewrite H. apply Mb.
  - intros k. rewrite <- Ma. unfold alt_byte. by rewrite H.
Qed.

Lemma models_store_low Γ σ g st h n c x c0 x0 :
  0 < n → wrap (8 * n) c = wrap (8 * n) c0 → wrap (8 * n) x = wrap (8 * n) x0 →
  models i Γ σ (after_store g h n c x) st → models i Γ σ (after_store g h n c0 x0) st.
Proof.
  intros Hn Hc Hx [Mc Mp Mm Mb Ma Mg]. split; cbn in *; try done.
  - intros k. by rewrite Mm, <- (store_bytes_wrap _ _ _ c (8 * n)), Hc, store_bytes_wrap.
  - intros k. by rewrite Ma, <- (store_bytes_wrap _ _ _ x (8 * n)), Hx, store_bytes_wrap.
Qed.

Lemma wp_guest_st st8 t v ev env addr ea cl cm mop memop σ g (Q : unit → store → ghost → Prop) k c x b xb n idx h c0 x0 :
  0 ≤ idx < 16 → same_access mop memop → has mop MO_BSWAP = false → 8 * memop_size memop ≤ ty_width t →
  n = memop_size memop → σ !! v = Some (Cell k t false (Num c)) →
  args_in σ [env; v; ev; addr; ea; cl; cm]
    [AAny; ANum t c; AExp (ty_width t) c x; ANum I64 b; AExp 64 b xb; ANum I64 n; ANum I64 idx] →
  target_long_bits (gguest g) = 64 → mapped (gguest g) MMU_DATA_STORE idx memop b h →
  wrap (8 * n) c = wrap (8 * n) c0 → wrap (8 * n) x = wrap (8 * n) x0 →
  Q tt σ (assume (after_store g h n c0 x0) (xb =? b)) →
  wp (tcg_emit_op (OpGuestSt st8 I64 t v addr (make_memop_idx mop idx));;
      tcg_emit_op (OpCall (HELPER_sym_store_guest t) None [env; v; ev; addr; ea; cl; cm])) σ g Q.
Proof.
  intros Hi Hs Hbs Hw Hn Hv Hin Hb64 Hmap Hc0 Hx0. pose proof (memop_size_pos memop). apply wp_emit2; [apply same_shape_refl|].
  intros Γ st HΓ HM. destruct (args_exec _ _ _ _ _ _ _ HM Hin) as (vs & Hvs & Hoks).
  apply Forall2_cons_inv_l in Hoks as (v1 & vs1 & _ & Hoks & ->).
  apply Forall2_cons_inv_l in Hoks as (v2 & vs2 & [E2 _] & Hoks & ->).
  apply Forall2_cons_inv_l in Hoks as (v3 & vs3 & (o & E3 & Ho) & Hoks & ->).
  apply Forall2_cons_inv_l in Hoks as (v4 & vs4 & [E4 R4] & Hoks & ->).
  apply Forall2_cons_inv_l in Hoks as (v5 & vs5 & (oa & E5 & Hoa) & Hoks & ->).
  apply Forall2_cons_inv_l in Hoks as (v6 & vs6 & [E6 _] & Hoks & ->).
  apply Forall2_cons_inv_l in Hoks as (v7 & vs7 & [E7 _] & Hoks & ->). apply Forall2_nil_inv_l in Hoks as ->.
  destruct Hin as (_ & _ & _ & [k' Hb] & _).
  destruct (m_cells _ _ _ _ _ HM _ _ Hv) as (rv & Hrv & z & -> & _ & Hz). cbn in Hz. subst c.
  destruct (m_cells _ _ _ _ _ HM _ _ Hb) as (rb & Hrb & zb & -> & Hzb & Hzb'). cbn in Hzb', R4.
  rewrite wrap_small in Hzb' by done. subst zb.
  pose proof (models_store i Γ σ g st h n (ty_width t) z x o HM ltac:(lia) ltac:(lia) Ho) as HM1.
  set (m' := store_list (mem st) (span h (Z.to_nat (memop_size memop))) (in_order mop (wrap (8 * memop_size mop) z))).
  assert (Hm : ∀ k, m' k = store_bytes (mem st) h n z k).
  { intros j. unfold m', in_order. rewrite Hbs, store_list_span, Z2Nat.id, (same_size _ _ Hs) by lia. subst n.
    by apply store_bytes_wrap. }
  pose proof (models_mem Γ σ _ _ _ HM1 m' Hm) as HM2.
  apply (models_store_low _ _ _ _ _ _ _ _ c0 x0) in HM2; [|lia|done..].
  set (tr := pin_address (env_pc st) b 64 oa (trace st)).
  eexists. split.
  - cbn in Hvs |- *. unfold exec_guest_st. rewrite Hrb. cbn. rewrite (wrap_small 64 b) by done. rewrite Hrv. cbn.
    rewrite (m_guest _ _ _ _ _ HM), (mapped_bytes _ _ _ _ _ _ _ Hmap Hs Hi). cbn.
    destruct (memop_idx_roundtrip mop idx Hi) as [-> _]. fold m'. change (rd Γ (set_mem st m')) with (rd Γ st).
    rewrite Hvs. cbn. rewrite E2. cbn. rewrite E3. cbn. rewrite E4. cbn. rewrite E5. cbn. rewrite E6. cbn. rewrite E7. cbn.
    unfold sym_store_guest_internal. rewrite (m_guest _ _ _ _ _ HM), (mapped_host _ _ _ _ _ _ Hmap) by (rewrite ?Hb64; done || lia).
    fold tr. reflexivity.
  - destruct HM2 as [Mc Mp Mm Mb Ma Mg]. split; try done.
    change (path_holds i tr = gpath g && (xb =? b)). unfold tr.
    by rewrite (pin_address_path i _ _ _ _ xb), (m_path _ _ _ _ _ HM) by done.
Qed.

(** ** On variables *)

Lemma wpv_ext {A} (m m' : Gen A) ρ g Q : (∀ s, m s = m' s) → wpv m' ρ g Q → wpv m ρ g Q.
Proof. intros E H σ Hc s Hs. rewrite E. by apply H. Qed.
Lemma wpv_emit_later {A C} o (m : Gen A) (k : A → Gen C) ρ g Q :
  ops_blind m → wpv (x ← m; tcg_emit_op o;; k x) ρ g Q → wpv (tcg_emit_op o;; x ← m; k x) ρ g Q.
Proof. intros Hm. apply wpv_ext. intros s. by apply emit_later. Qed.

Lemma wpv_guest_ld (a : RegType) t r addr mop memop idx ρ g (Q : unit → vars → ghost → Prop) k v0 e0 k' e b h :
  0 ≤ idx < 16 → same_access mop memop → 8 * memop_size memop ≤ ty_width t →
  ρ !! addr = Some (Var k' a (Num b) e) → ρ !! r = Some (Var k t v0 e0) → writable k = true →
  mapped (gguest g) MMU_DATA_LOAD idx memop b h →
  Q tt (<[r := Var k t (Num (guest_value t mop (now g (memop_size memop) h))) e0]> ρ) g →
  wpv (tcg_emit_op (OpGuestLd a t r addr (make_memop_idx mop idx))) ρ g Q.
Proof.
  intros Hi Hs Hw Ha Hr Hk Hm HQ σ Hc.
  eapply wp_guest_ld; [done..|apply (Hc _ _ Ha)|apply (Hc _ _ Hr)|done|done|].
  eexists. split; [|exact HQ].
  by apply (covers_value _ _ _ _ (Var k t (Num (guest_value t mop (now g (memop_size memop) h))) e0) Hc Hr).
Qed.

Lemma wpv_sym_load t r env addr cl cm ρ g (Q : unit → vars → ghost → Prop) k ty v0 e0 k' b xb n idx memop h ve :
  ρ !! env = Some ve → ρ !! addr = Some (full k' I64 b xb) → holds_num ρ cl I64 n → holds_num ρ cm I64 idx →
  target_long_bits (gguest g) = 64 → mapped (gguest g) MMU_DATA_LOAD idx memop b h →
  n = memop_size memop → n ≤ ty_width t / 8 → ρ !! r = Some (Var k ty v0 e0) → writable k = true →
  Q tt (<[r := Var k ty v0 (Exp (ty_width t) (now g n h) (alt g n h))]> ρ) (assume g (xb =? b)) →
  wpv (tcg_emit_op (OpCall (HELPER_sym_load_guest t) (Some (S r)) [env; addr; S addr; cl; cm])) ρ g Q.
Proof.
  intros He Ha Hl Hm H64 Hmap Hn Hw Hr Hk HQ σ Hc. pose proof (expr_writable k Hk) as Ek.
  eapply wp_sym_load; [|done..|apply (Hc _ _ Hr)|cbn; by rewrite Ek|].
  { apply (vargs_args σ ρ [V env; V addr; E addr; V cl; V cm]); [done|]. split; [by exists ve|].
    split; [by eexists _, _|]. split; [by eexists _, _, _|]. split; [exact Hl|]. by split. }
  eexists. split; [|exact HQ].
  by apply (covers_expr _ _ _ _ (Var k ty v0 (Exp (ty_width t) (now g n h) (alt g n h))) Hc Hr).
Qed.

Lemma wpv_guest_st st8 t v env addr cl cm mop memop ρ g (Q : unit → vars → ghost → Prop) k c x k' b xb n idx h ve c0 x0 :
  0 ≤ idx < 16 → same_access mop memop → has mop MO_BSWAP = false → 8 * memop_size memop ≤ ty_width t →
  n = memop_size memop → ρ !! v = Some (full k t c x) →
  ρ !! env = Some ve → ρ !! addr = Some (full k' I64 b xb) → holds_num ρ cl I64 n → holds_num ρ cm I64 idx →
  target_long_bits (gguest g) = 64 → mapped (gguest g) MMU_DATA_STORE idx memop b h →
  wrap (8 * n) c = wrap (8 * n) c0 → wrap (8 * n) x = wrap (8 * n) x0 →
  Q tt ρ (assume (after_store g h n c0 x0) (xb =? b)) →
  wpv (tcg_emit_op (OpGuestSt st8 I64 t v addr (make_memop_idx mop idx));;
       tcg_emit_op (OpCall (HELPER_sym_store_guest t) None [env; v; S v; addr; S addr; cl; cm])) ρ g Q.
Proof.
  intros Hi Hs Hbs Hw Hn Hv He Ha Hl Hm H64 Hmap Hc0 Hx0 HQ σ Hc.
  eapply wp_guest_st; [done..|apply (Hc _ _ Hv)| |done|done|done|done|by exists ρ].
  apply (vargs_args σ ρ [V env; V v; E v; V addr; E addr; V cl; V cm]); [done|].
  split; [by exists ve|]. split; [by eexists _, _|]. split; [by eexists _, _, _|]. split; [by eexists _, _|].
  split; [by eexists _, _, _|]. split; [exact Hl|]. by split.
Qed.

(** ** Steps of the generators *)

Context (TT : Target) (HM : HostMem) (tcg_env : nat) (tb : GuestTb).

Lemma wpv_lift {A} (r : Res A) a ρ g (Q : A → vars → ghost → Prop) :
  r = Ok a → Q a ρ g → wpv (lift_res r) ρ g Q.
Proof. intros -> HQ. by apply wpv_ret. Qed.

Lemma wpv_req_mo type ρ g (Q : unit → vars → ghost → Prop) : Q tt ρ g → wpv (tcg_gen_req_mo HM tb type) ρ g Q.
Proof.
  intros HQ. unfold tcg_gen_req_mo, tcg_gen_mb. destruct (_ =? 0); [by apply wpv_ret|].
  destruct (if CONFIG_USER_ONLY tb then CF_PARALLEL tb else true); [|by apply wpv_ret].
  intros σ Hc. apply wp_emit with (σ' := σ) (g' := g); [apply same_shape_refl| |by exists ρ].
  intros Γ st _ HM'. by exists st.
Qed.

Lemma wpv_preserve_addr addr ρ g (Q : nat → vars → ghost → Prop) k b xb :
  addr_type tb = I64 → ρ !! addr = Some (full k I64 b xb) →
  (∀ c, ρ !! c = None → Q c (<[c := full TEMP_EBB I64 b xb]> ρ) g) →
  wpv (preserve_addr tb addr) ρ g Q.
Proof.
  intros Ht Ha HQ. unfold preserve_addr. rewrite Ht. vnew c Hc. apply wpv_bind.
  eapply wpv_mov; [lk|done|lk|]. rewrite insert_insert_eq. apply wpv_ret. by apply HQ.
Qed.

Lemma wpv_two_consts {A} u v (k : nat → nat → Gen A) ρ g Q :
  (∀ x y ρ', ρ ⊆ ρ' → holds_num ρ' x I64 (wrap 64 u) → holds_num ρ' y I64 (wrap 64 v) → wpv (k x y) ρ' g Q) →
  wpv (x ← tcg_constant_i64 u; y ← tcg_constant_i64 v; k x y) ρ g Q.
Proof.
  intros H. vconst x ρ1 H1 Hx. vconst y ρ2 H2 Hy. apply H; [by etrans|eexists _, _; lk|eexists _, _; exact Hy].
Qed.

Lemma size_const mop : wrap 64 (Z.shiftl 1 (Z.land mop MO_SIZE)) = memop_size mop.
Proof.
  unfold memop_size. rewrite Z.shiftl_1_l. apply wrap_small. change MO_SIZE with (Z.ones 3).
  rewrite Z.land_ones by lia. pose proof (Z.mod_pos_bound mop (2 ^ 3)). split; [apply Z.pow_nonneg; lia|].
  apply Z.pow_lt_mono_r; lia.
Qed.

(** The expression of a loaded value. *)
Lemma wpv_gen_sym_load t val copy cl cm mop memop idx ρ g (Q : unit → vars → ghost → Prop) k v0 e0 kc b xb h ve :
  0 ≤ idx < 16 → same_access mop memop → 8 * memop_size memop ≤ ty_width t → target_long_bits (gguest g) = 64 →
  ρ !! copy = Some (full kc I64 b xb) → ρ !! val = Some (Var k t v0 e0) → writable k = true → ρ !! tcg_env = Some ve →
  ρ !! cl = Some (const_var I64 (Z.shiftl 1 (Z.land mop MO_SIZE))) → ρ !! cm = Some (const_var I64 idx) →
  mapped (gguest g) MMU_DATA_LOAD idx memop b h →
  let n := memop_size memop in
  Q tt (<[val := Var k t v0 (Exp (ty_width t) (now g n h) (alt g n h))]> ρ) (assume g (xb =? b)) →
  wpv (gen_sym_load tcg_env t val copy cl cm) ρ g Q.
Proof.
  intros Hi Hs Hw H64 Hc Hv Hk He Hcl Hcm Hm n HQ. unfold const_var, full in Hcl, Hcm. cbn [const_num var_width] in Hcl, Hcm.
  rewrite size_const, (same_size _ _ Hs) in Hcl. cbn [ty_width] in Hcm. rewrite (wrap_small 64 idx) in Hcm by (split; lia).
  unfold gen_sym_load. do 2 (apply wpv_bind; eapply wpv_temp_expr; [lk|]). eapply wpv_callN_expr; [lk|].
  eapply wpv_sym_load; [done..|by eexists _, _|by eexists _, _|done|done|done| |done|done|exact HQ].
  apply Z.div_le_lower_bound; lia.
Qed.

(** What an access by a generator of type [t] must satisfy: the address has 64
    bits, the code is one of the enumeration and fits the type, and the host leaves
    the swap of the bytes to the generator. *)
Definition views (g : ghost) : Prop := bytes (gmem g) ∧ bytes (galt g).
Record access_ok (t : RegType) (idx memop : Z) (g : ghost) : Prop := {
  ao_type : addr_type tb = I64;
  ao_bits : target_long_bits (gguest g) = 64;
  ao_views : views g;
  ao_idx : 0 ≤ idx < 16;
  ao_memop : 0 ≤ memop < 2048;
  ao_align : check_max_alignment tb (get_alignment_bits memop) = true;
  ao_size : 8 * memop_size memop ≤ ty_width t;
  ao_order : has memop MO_BSWAP = true → ∀ m, tcg_target_has_memory_bswap HM m = false;
}.

Lemma view_range g n a : views g → 0 < n → in_range (8 * n) (now g n a) ∧ in_range (8 * n) (alt g n a).
Proof.
  intros [H1 H2] Hn. unfold now, alt.
  split; rewrite <- (Z2Nat.id n) at 1 by lia; by apply le_join_range.
Qed.

(** A byte has one order. *)
Lemma in_order_byte memop z :
  Z.land memop MO_SIZE = MO_8 → in_range 8 z → in_order memop z = z.
Proof.
  intros Hs Hz. unfold in_order, memop_size. rewrite Hs. destruct (has memop MO_BSWAP); [|done].
  change (Z.to_nat (Z.shiftl 1 MO_8)) with 1%nat. cbn [bswap_bytes]. rewrite Z.lor_0_r, Z.shiftl_0_r. by apply wrap_small.
Qed.
Lemma in_order_code memop z n :
  has memop MO_BSWAP = true → Z.land memop MO_SIZE = n → in_order memop z = bswap_bytes (Z.to_nat (2 ^ n)) z.
Proof. intros Hb Hn. unfold in_order, memop_size. by rewrite Hb, Hn, Z.shiftl_1_l. Qed.

(** The swap after a load of both types. *)
Definition swap_back (t : RegType) (op : Z) (val : nat) : Gen unit :=
  let size := Z.land op MO_SIZE in
  match t with
  | I32 =>
      if size =? MO_16 then tcg_gen_bswap16 TT I32 val val (bswap_flags_of op)
      else if size =? MO_32 then tcg_gen_bswap32_i32 TT val val
      else g_assert_not_reached
  | I64 =>
      if size =? MO_16 then tcg_gen_bswap16 TT I64 val val (bswap_flags_of op)
      else if size =? MO_32 then tcg_gen_bswap32_i64 TT val val (bswap_flags_of op)
      else if size =? MO_64 then tcg_gen_bswap64_i64 TT val val
      else g_assert_not_reached
  end.
Lemma spec_swap_back t op val ρ g (Q : unit → vars → ghost → Prop) k c x :
  0 ≤ op < 2048 → has op MO_BSWAP = true → has op MO_SIGN = false → Z.land op MO_SIZE ≠ MO_8 →
  8 * memop_size op ≤ ty_width t →
  dst ρ val t k → src ρ val t c x → in_range (8 * memop_size op) c → in_range (8 * memop_size op) x →
  Q tt (<[val := full k t (in_order op c) (in_order op x)]> ρ) g →
  wpv (swap_back t op val) ρ g Q.
Proof.
  intros Hop Hb Hs H8 Hw Hd Hv Hc Hx HQ. apply size_fits in Hw.
  assert (0 ≤ Z.land op MO_SIZE) by (apply Z.land_nonneg; right; done).
  unfold swap_back, bswap_flags_of. rewrite Hs.
  rewrite !(in_order_code op _ _ Hb eq_refl) in HQ.
  unfold memop_size in Hc, Hx. rewrite Z.shiftl_1_l in Hc, Hx.
  assert (Z.land op MO_SIZE = 1 ∨ Z.land op MO_SIZE = 2 ∨ (Z.land op MO_SIZE = 3 ∧ t = I64)) as Hn.
  { unfold MO_8, MO_32, MO_64 in *. destruct t; cbn [is64] in Hw; [lia|].
    assert (Z.land op MO_SIZE = 1 ∨ Z.land op MO_SIZE = 2 ∨ Z.land op MO_SIZE = 3) by lia. tauto. }
  destruct Hn as [E|[E|[E ->]]]; rewrite E in *.
  - assert (Hg : wpv (tcg_gen_bswap16 TT t val val (Z.lor TCG_BSWAP_IZ TCG_BSWAP_OZ)) ρ g Q).
    { eapply spec_bswap16; [done|done|exact Hd|exact Hv| |exact HQ].
      unfold bswap16_pre. by destruct (_ || _). }
    by destruct t.
  - destruct t; [by eapply spec_bswap32_i32|].
    by eapply spec_bswap32_i64.
  - by eapply spec_bswap64_i64.
Qed.

(** The code that is emitted for a canonical unsigned one. *)
Definition emitted (op : Z) : Z := if swaps HM op then without op MO_BSWAP else op.
Lemma emitted_spec op memop :
  0 ≤ op < 2048 → has op MO_SIGN = false → same_access op memop →
  (has op MO_BSWAP = true → ∀ m, tcg_target_has_memory_bswap HM m = false) →
  same_access (emitted op) memop ∧ has (emitted op) MO_BSWAP = false ∧ has (emitted op) MO_SIGN = false ∧
  has (Z.lxor op (emitted op)) MO_BSWAP = has op MO_BSWAP ∧ swaps HM op = has op MO_BSWAP.
Proof.
  intros Hop Hs [A1 A2] Ho. unfold emitted, swaps. destruct (has op MO_BSWAP) eqn:Hb.
  - rewrite Ho by done. cbn. destruct (unswapped op Hop) as ([A3 A4] & ? & S & X & _).
    split; [split; congruence|]. split; [done|]. split; [congruence|]. by rewrite X.
  - cbn. rewrite Z.lxor_nilpotent. by repeat split.
Qed.

Lemma in_order_canonical op memop z :
  Z.land op MO_SIZE = Z.land memop MO_SIZE → has op MO_BSWAP = has memop MO_BSWAP && negb (Z.land memop MO_SIZE =? MO_8) →
  in_range (8 * memop_size memop) z → in_order op z = in_order memop z.
Proof.
  intros Hs Hb Hz. destruct (Z.eqb_spec (Z.land memop MO_SIZE) MO_8) as [E|_].
  - unfold memop_size in Hz. rewrite E in Hz.
    change (8 * Z.shiftl 1 MO_8) with 8 in Hz. rewrite !in_order_byte by (congruence || done). done.
  - rewrite andb_true_r in Hb. unfold in_order, memop_size. by rewrite Hb, Hs.
Qed.

Lemma wpv_ld_tail t val copy cl cm op memop idx ρ g (Q : unit → vars → ghost → Prop) k e0 kc b xb h ve :
  access_ok t idx memop g → 0 ≤ op < 2048 → same_access op memop → has op MO_SIGN = false →
  has op MO_BSWAP = has memop MO_BSWAP && negb (Z.land memop MO_SIZE =? MO_8) →
  let n := memop_size memop in let mop := emitted op in
  ρ !! copy = Some (full kc I64 b xb) → ρ !! val = Some (Var k t (Num (guest_value t mop (now g n h))) e0) →
  writable k = true → ρ !! tcg_env = Some ve →
  ρ !! cl = Some (const_var I64 (Z.shiftl 1 (Z.land mop MO_SIZE))) → ρ !! cm = Some (const_var I64 idx) →
  mapped (gguest g) MMU_DATA_LOAD idx memop b h →
  Q tt (<[val := full k t (in_order memop (now g n h)) (in_order memop (alt g n h))]> ρ) (assume g (xb =? b)) →
  wpv (gen_sym_load tcg_env t val copy cl cm;;
       if has (Z.lxor op mop) MO_BSWAP then swap_back t op val else mret tt) ρ g Q.
Proof.
  intros [] Hop Hsa Hs Hb n mop Hc Hv Hk He Hcl Hcm Hm HQ. pose proof (memop_size_pos memop) as Hpos.
  destruct (emitted_spec op memop Hop Hs Hsa) as (A & B1 & B2 & B3 & _).
  { rewrite Hb. intros H. apply andb_prop in H as [H _]. auto. }
  fold mop in A, B1, B2, B3. apply wpv_bind. eapply wpv_gen_sym_load; [done..|].
  destruct (view_range g n h) as [Rn Ra]; [done..|].
  assert (Hg : guest_value t mop (now g n h) = now g n h).
  { unfold guest_value, in_order. rewrite B1, B2. apply wrap_small. eapply in_range_le; [|exact Rn]. lia. }
  rewrite Hg. fold n. change (Var k t _ _) with (full k t (now g n h) (alt g n h)).
  rewrite <- !(in_order_canonical op memop _ (proj2 Hsa) Hb) in HQ by done. rewrite B3. destruct (has op MO_BSWAP) eqn:E.
  - pose proof (same_size _ _ Hsa) as Hsz.
    eapply (spec_swap_back t op val _ _ Q k (now g n h) (alt g n h)); rewrite ?Hsz; [done..| |done|by apply dst_new| |done|done|by rewrite insert_insert_eq].
    + destruct Hsa as [_ ->]. intros H. rewrite H in Hb. cbn in Hb. by rewrite andb_false_r in Hb.
    + apply src_new; (eapply in_range_le; [|eassumption]); lia.
  - apply wpv_ret. unfold in_order in HQ. by rewrite E in HQ.
Qed.

(** A load gives the bytes in the guest's order, in both views, and pins the
    address. *)
Lemma spec_qemu_ld t val addr idx memop ρ g (Q : unit → vars → ghost → Prop) k b xb h ve :
  access_ok t idx memop g → unsigned_access t memop →
  dst ρ val t k → src ρ addr I64 b xb → ρ !! tcg_env = Some ve → val ≠ tcg_env →
  mapped (gguest g) MMU_DATA_LOAD idx memop b h →
  let n := memop_size memop in
  Q tt (<[val := full k t (in_order memop (now g n h)) (in_order memop (alt g n h))]> ρ) (assume g (xb =? b)) →
  wpv (tcg_gen_qemu_ld_int TT HM tcg_env tb t val addr idx memop) ρ g Q.
Proof.
  intros A Hu Hd Ha He Hne Hm n HQ. pose proof A as [].
  destruct (canonical_access tb t false memop) as (op & Hc & Hop & Hsa & Hb & Hs); [done..|].
  specialize (Hs (or_intror Hu)). destruct Hd as [(v0 & e0 & Hv) Hk]. destruct Ha as ((ka & Ha) & _).
  destruct (emitted_spec op memop Hop Hs Hsa) as (A1 & _).
  { rewrite Hb. intros H. apply andb_prop in H as [H _]. auto. }
  destruct (unswapped op Hop) as (_ & _ & U1 & _ & U2). specialize (U2 Hs). rewrite Hs in U1.
  apply wpv_post. destruct t; cbn [tcg_gen_qemu_ld_int is64] in *.
  - apply wpv_bind, wpv_req_mo, wpv_bind. eapply wpv_lift; [exact Hc|]. cbv zeta. rewrite U2.
    change (if swaps HM op then without op MO_BSWAP else op) with (emitted op).
    apply wpv_bind. eapply wpv_preserve_addr; [done..|]. intros copy Hcp. unfold gen_ld at 1. rewrite ao_type0.
    apply wpv_bind. eapply wpv_guest_ld; [done|exact A1|done|lk|lk|done|exact Hm|].
    vconst cl ρ1 H1 Hcl. vconst cm ρ2 H2 Hcm.
    eapply (wpv_ld_tail I32); [exact A|done..|lk|lk|done|lk|lk|exact Hcm|exact Hm|]. vdone HQ.
  - apply wpv_bind, wpv_req_mo, wpv_bind. eapply wpv_lift; [exact Hc|]. cbv zeta. rewrite U1.
    change (if swaps HM op then without op MO_BSWAP else op) with (emitted op).
    apply wpv_bind. eapply wpv_preserve_addr; [done..|]. intros copy Hcp. unfold gen_ld at 1. rewrite ao_type0.
    apply wpv_bind. eapply wpv_guest_ld; [done|exact A1|done|lk|lk|done|exact Hm|].
    vconst cm ρ1 H1 Hcm. vconst cl ρ2 H2 Hcl.
    eapply (wpv_ld_tail I64); [exact A|done..|lk|lk|done|lk|exact Hcl|lk|exact Hm|]. vdone HQ.
Qed.

(** ** Stores *)

(** Where the host swaps 16 bits itself, the value to swap must fit: the bits above
    are mixed into the expression. *)
Definition native_swap (t : RegType) (memop : Z) : bool :=
  has memop MO_BSWAP && (Z.land memop MO_SIZE =? MO_16) && TCG_TARGET_HAS_bswap16 TT t.
Definition fits_swap (t : RegType) (memop c x : Z) : Prop :=
  native_swap t memop = true → in_range (8 * memop_size memop) c ∧ in_range (8 * memop_size memop) x.

Lemma in_order_low op memop z :
  Z.land op MO_SIZE = Z.land memop MO_SIZE → has op MO_BSWAP = has memop MO_BSWAP && negb (Z.land memop MO_SIZE =? MO_8) →
  wrap (8 * memop_size memop) (in_order op z) = wrap (8 * memop_size memop) (in_order memop z).
Proof.
  intros Hs Hb. unfold in_order, memop_size. rewrite Hb, Hs. destruct (has memop MO_BSWAP); [|done].
  destruct (Z.eqb_spec (Z.land memop MO_SIZE) MO_8) as [->|]; [|done].
  change (Z.to_nat (Z.shiftl 1 MO_8)) with 1%nat. change (8 * Z.shiftl 1 MO_8) with 8. cbn [bswap_bytes negb andb].
  by rewrite Z.lor_0_r, Z.shiftl_0_r, wrap_wrap.
Qed.

Lemma in_order_wrap memop z :
  let n := memop_size memop in wrap (8 * n) (in_order memop z) = wrap (8 * n) (in_order memop (wrap (8 * n) z)).
Proof.
  intros n. pose proof (memop_size_pos memop). unfold in_order. fold n. destruct (has memop MO_BSWAP).
  - by rewrite bswap_wrap by lia.
  - by rewrite wrap_wrap by lia.
Qed.

Lemma spec_swapped t op val swap ρ g (Q : unit → vars → ghost → Prop) k c x :
  let size := Z.land op MO_SIZE in
  has op MO_BSWAP = true → size ≠ MO_8 → 8 * memop_size op ≤ ty_width t → fits_swap t op c x →
  dst ρ swap t k → src ρ val t c x →
  (∀ c' x', wrap (8 * memop_size op) c' = in_order op c → wrap (8 * memop_size op) x' = in_order op x →
     Q tt (<[swap := full k t c' x']> ρ) g) →
  wpv (match t with
       | I32 =>
           if size =? MO_16 then tcg_gen_bswap16 TT I32 swap val 0
           else if size =? MO_32 then tcg_gen_bswap32_i32 TT swap val
           else g_assert_not_reached
       | I64 =>
           if size =? MO_16 then tcg_gen_bswap16 TT I64 swap val 0
           else if size =? MO_32 then tcg_gen_bswap32_i64 TT swap val 0
           else if size =? MO_64 then tcg_gen_bswap64_i64 TT swap val
           else g_assert_not_reached
       end) ρ g Q.
Proof.
  intros size Hb H8 Hw Hf Hd Hv HQ. apply size_fits in Hw. pose proof Hv as (_ & Rc & Rx).
  assert (0 ≤ size) by (apply Z.land_nonneg; right; done).
  rewrite !(in_order_code op _ _ Hb eq_refl) in HQ. unfold fits_swap, native_swap in Hf. rewrite Hb in Hf.
  unfold memop_size in Hf, HQ. rewrite Z.shiftl_1_l in Hf, HQ. fold size in Hf, HQ, Hw.
  assert (size = 1 ∨ size = 2 ∨ (size = 3 ∧ t = I64)) as Hn.
  { unfold MO_8, MO_32, MO_64 in *. destruct t; cbn [is64] in Hw; [lia|].
    assert (size = 1 ∨ size = 2 ∨ size = 3) by lia. tauto. }
  clearbody size. destruct Hn as [->|[->|[-> ->]]].
  - assert (Hg : wpv (tcg_gen_bswap16 TT t swap val 0) ρ g Q); [|by destruct t].
    eapply spec_bswap16_low; [exact Hd|exact Hv| |apply HQ; by apply bswap16_low_wrap].
    unfold bswap16_pre. cbn in Hf |- *. destruct (TCG_TARGET_HAS_bswap16 TT t); [by apply Hf|done].
  - destruct t.
    + eapply spec_bswap32_i32; [done..|]. apply HQ; apply wrap_small, (bswap_range 4).
    + eapply spec_bswap32_i64; [done|done|exact Hd|exact Hv|done|]. apply HQ; apply wrap_small, (bswap_range 4).
  - eapply spec_bswap64_i64; [done..|]. apply HQ; apply wrap_small, (bswap_range 8).
Qed.

(** The value to store, in the host's order. *)
Lemma spec_gen_swapped t idx op memop val ρ g (Q : nat * Z * option nat → vars → ghost → Prop) c x :
  access_ok t idx memop g → 0 ≤ op < 2048 → same_access op memop → has op MO_SIGN = false →
  has op MO_BSWAP = has memop MO_BSWAP && negb (Z.land memop MO_SIZE =? MO_8) → fits_swap t memop c x →
  src ρ val t c x →
  let low z := wrap (8 * memop_size memop) z in
  (∀ v k c' x' swap ρ', ρ ⊆ ρ' → ρ' !! v = Some (full k t c' x') →
     low c' = low (in_order memop c) → low x' = low (in_order memop x) →
     swap = None ∨ (swap = Some v ∧ ρ !! v = None ∧ k = TEMP_EBB) → Q (v, emitted op, swap) ρ' g) →
  wpv (gen_swapped TT HM t op val) ρ g Q.
Proof.
  intros [] Hop Hsa Hs Hb Hf Hv low HQ. pose proof (memop_size_pos memop) as Hpos. pose proof Hv as ((kv & Hlk) & _).
  destruct (emitted_spec op memop Hop Hs Hsa) as (_ & _ & _ & _ & E).
  { rewrite Hb. intros H. apply andb_prop in H as [H _]. auto. }
  pose proof (same_size _ _ Hsa) as Hsz. pose proof (proj2 Hsa) as Hsc.
  assert (Hlow : ∀ z z', low z = low (in_order op z') → low z = low (in_order memop z')).
  { unfold low. intros z z' ->. by apply in_order_low. }
  unfold gen_swapped. unfold emitted in HQ. rewrite E in *. destruct (has op MO_BSWAP) eqn:Hb'.
  - vnew swap Fs. apply wpv_bind. symmetry in Hb. apply andb_prop in Hb as [Hb H8].
    eapply (spec_swapped t op val swap _ _ _ TEMP_EBB c x); [done| |by rewrite Hsz| |vd|vs|].
    { rewrite Hsc. intros Hx. by rewrite Hx in H8. }
    { unfold fits_swap, native_swap in *. rewrite Hsz, Hb', Hsc. by rewrite Hb in Hf. }
    intros c' x' Hc Hx. apply wpv_ret. rewrite insert_insert_eq. eapply HQ; [|lk| | |by right].
    + by apply insert_subseteq.
    + apply Hlow. rewrite <- Hc, Hsz. unfold low. by rewrite wrap_wrap by lia.
    + apply Hlow. rewrite <- Hx, Hsz. unfold low. by rewrite wrap_wrap by lia.
  - apply wpv_ret. eapply HQ; [done|exact Hlk| | |by left].
    + apply Hlow. unfold in_order. by rewrite Hb'.
    + apply Hlow. unfold in_order. by rewrite Hb'.
Qed.

Lemma wpv_assoc {A C D} (m : Gen A) (k : A → Gen C) (k' : C → Gen D) ρ g Q :
  wpv ((m ≫= k) ≫= k') ρ g Q → wpv (x ← m; y ← k x; k' y) ρ g Q.
Proof. apply wpv_ext. intros s. unfold mbind, gen_bind. by destruct (m s). Qed.

(** The store and the update of the symbolic memory. *)
Lemma wpv_gen_sym_store st8 t v addr cl cm mop memop idx ρ g (Q : unit → vars → ghost → Prop) k c x k' b xb h ve c0 x0 :
  access_ok t idx memop g → same_access mop memop → has mop MO_BSWAP = false →
  ρ !! v = Some (full k t c x) → ρ !! tcg_env = Some ve → ρ !! addr = Some (full k' I64 b xb) →
  ρ !! cl = Some (const_var I64 (Z.shiftl 1 (Z.land mop MO_SIZE))) → ρ !! cm = Some (const_var I64 idx) →
  mapped (gguest g) MMU_DATA_STORE idx memop b h →
  let n := memop_size memop in
  wrap (8 * n) c = wrap (8 * n) c0 → wrap (8 * n) x = wrap (8 * n) x0 →
  Q tt ρ (assume (after_store g h n c0 x0) (xb =? b)) →
  wpv (gen_st tb st8 t v addr (make_memop_idx mop idx);; gen_sym_store tcg_env t v addr cl cm) ρ g Q.
Proof.
  intros [] Hs Hb Hv He Ha Hcl Hcm Hm n Hc0 Hx0 HQ. unfold const_var, full in Hcl, Hcm. cbn [const_num var_width] in Hcl, Hcm.
  rewrite size_const, (same_size _ _ Hs) in Hcl. cbn [ty_width] in Hcm. rewrite (wrap_small 64 idx) in Hcm by (split; lia).
  unfold gen_st, gen_sym_store. rewrite ao_type0.
  apply wpv_emit_later; [apply blind_temp_expr|]. apply wpv_bind. eapply wpv_temp_expr; [lk|].
  apply wpv_emit_later; [apply blind_temp_expr|]. apply wpv_bind. eapply wpv_temp_expr; [lk|].
  eapply wpv_guest_st; [done..|by eexists _, _|by eexists _, _|done|exact Hm|exact Hc0|exact Hx0|exact HQ].
Qed.

Lemma wpv_free_swap swap v ρ g (Q : unit → vars → ghost → Prop) (ρ0 : vars) w :
  ρ0 ⊆ ρ → ρ !! v = Some w → swap = None ∨ (swap = Some v ∧ ρ0 !! v = None ∧ vk w = TEMP_EBB) →
  Q tt ρ0 g → wpv (free_swap swap) ρ g Q.
Proof.
  intros Hs Hv [->|(-> & Hn & Hk)] HQ; apply wpv_post; cbn.
  - apply wpv_ret. by exists ρ0.
  - eapply wpv_temp_free; [exact Hv|done|]. exists ρ0. split; [|done].
    apply map_subseteq_spec. intros u y Hu. rewrite lookup_delete_ne by congruence. by eapply lookup_weaken.
Qed.

(** A store changes the bytes in both views and pins the address; only the low bits
    matter. *)
Lemma spec_qemu_st_low t val addr idx memop ρ g (Q : unit → vars → ghost → Prop) c x b xb h ve c0 x0 :
  access_ok t idx memop g → fits_swap t memop c x →
  src ρ val t c x → src ρ addr I64 b xb → ρ !! tcg_env = Some ve →
  mapped (gguest g) MMU_DATA_STORE idx memop b h →
  let n := memop_size memop in
  wrap (8 * n) (in_order memop c) = wrap (8 * n) c0 → wrap (8 * n) (in_order memop x) = wrap (8 * n) x0 →
  Q tt ρ (assume (after_store g h n c0 x0) (xb =? b)) →
  wpv (tcg_gen_qemu_st_int TT HM tcg_env tb t val addr idx memop) ρ g Q.
Proof.
  intros A Hf Hv Ha He Hm n Hc0 Hx0 HQ. pose proof A as []. pose proof (memop_size_pos memop) as Hpos.
  destruct (canonical_access tb t true memop) as (op & Hc & Hop & Hsa & Hb & Hs); [done..|].
  specialize (Hs (or_introl eq_refl)). destruct Ha as ((ka & Ha) & _).
  destruct (emitted_spec op memop Hop Hs Hsa) as (A1 & A2 & _).
  { rewrite Hb. intros H. apply andb_prop in H as [H _]. auto. }
  destruct t; cbn [tcg_gen_qemu_st_int is64] in *.
  - apply wpv_bind, wpv_req_mo, wpv_bind. eapply wpv_lift; [exact Hc|].
    apply wpv_bind. eapply spec_gen_swapped; [exact A|done..|]. intros v k c' x' swap ρ1 S1 Hv' Hc' Hx' Hsw.
    apply wpv_emit_later; [apply blind_constant|]. vconst cl ρ2 S2 Hcl.
    apply wpv_emit_later; [apply blind_constant|]. vconst cm ρ3 S3 Hcm.
    apply wpv_assoc, wpv_bind. eapply wpv_gen_sym_store; [exact A|done..|lk|lk|lk|lk|exact Hcm|exact Hm|by etrans|by etrans|].
    eapply (wpv_free_swap _ v _ _ _ ρ); [by etrans; [|etrans]|lk|exact Hsw|exact HQ].
  - apply wpv_bind, wpv_req_mo, wpv_bind. eapply wpv_lift; [exact Hc|].
    apply wpv_bind. eapply spec_gen_swapped; [exact A|done..|]. intros v k c' x' swap ρ1 S1 Hv' Hc' Hx' Hsw.
    apply wpv_emit_later; [apply blind_constant|]. vconst cm ρ2 S2 Hcm.
    apply wpv_emit_later; [apply blind_constant|]. vconst cl ρ3 S3 Hcl.
    apply wpv_assoc, wpv_bind. eapply wpv_gen_sym_store; [exact A|done..|lk|lk|lk|exact Hcl|lk|exact Hm|by etrans|by etrans|].
    eapply (wpv_free_swap _ v _ _ _ ρ); [by etrans; [|etrans]|lk|exact Hsw|exact HQ].
Qed.
Lemma spec_qemu_st t val addr idx memop ρ g (Q : unit → vars → ghost → Prop) c x b xb h ve :
  access_ok t idx memop g → fits_swap t memop c x →
  src ρ val t c x → src ρ addr I64 b xb → ρ !! tcg_env = Some ve →
  mapped (gguest g) MMU_DATA_STORE idx memop b h →
  let n := memop_size memop in
  Q tt ρ (assume (after_store g h n (in_order memop c) (in_order memop x)) (xb =? b)) →
  wpv (tcg_gen_qemu_st_int TT HM tcg_env tb t val addr idx memop) ρ g Q.
Proof. intros. by eapply spec_qemu_st_low. Qed.

(** ** Read-modify-write *)

(** The extension of the operand. *)
Lemma spec_ext t op :
  has op MO_SIGN = false → 0 ≤ op < 2048 → 8 * memop_size op ≤ ty_width t →
  unary_spec i (λ r a, tcg_gen_ext TT t r a op) t any1 (wrap (8 * memop_size op)).
Proof.
  intros Hs Hop Hw. apply size_fits in Hw as Hf.
  pose proof (unsigned_ssize op Hop Hs) as Hsz.
  assert (0 ≤ Z.land op MO_SIZE) by (apply Z.land_nonneg; right; done).
  intros ret a ρ g Q k c x Hd Ha _ HQ. unfold memop_size in HQ. rewrite Z.shiftl_1_l in HQ.
  assert (Z.land op MO_SIZE = 0 ∨ Z.land op MO_SIZE = 1 ∨ Z.land op MO_SIZE = 2 ∨ (Z.land op MO_SIZE = 3 ∧ t = I64)) as Hn.
  { unfold MO_32, MO_64 in *. destruct t; cbn [is64] in Hf; [lia|].
    assert (Z.land op MO_SIZE = 0 ∨ Z.land op MO_SIZE = 1 ∨ Z.land op MO_SIZE = 2 ∨ Z.land op MO_SIZE = 3) by lia. tauto. }
  destruct Hn as [E|[E|[E|[E ->]]]]; try destruct t; cbn [tcg_gen_ext]; unfold tcg_gen_ext_i32, tcg_gen_ext_i64;
    cbv zeta; rewrite Hsz, E in *.
  - by eapply spec_ext8u.
  - by eapply spec_ext8u.
  - by eapply spec_ext16u.
  - by eapply spec_ext16u.
  - pose proof Ha as (_ & Hc & Hx). rewrite !wrap_small in HQ by done. by eapply spec_mov.
  - by eapply spec_ext32u.
  - pose proof Ha as (_ & Hc & Hx). rewrite !wrap_small in HQ by done. by eapply spec_mov.
Qed.

(** The canonical code asks for the same access. *)
Lemma access_canonical t idx op memop g :
  access_ok t idx memop g → 0 ≤ op < 2048 → same_access op memop →
  has op MO_BSWAP = has memop MO_BSWAP && negb (Z.land memop MO_SIZE =? MO_8) → access_ok t idx op g.
Proof.
  intros [] Hop Hsa Hb. split; try done.
  - by rewrite (proj1 Hsa).
  - by rewrite (same_size _ _ Hsa).
  - rewrite Hb. intros H. apply andb_prop in H as [H _]. auto.
Qed.
Lemma mapped_canonical G acc idx op memop b h :
  same_access op memop → mapped G acc idx memop b h → mapped G acc idx op b h.
Proof. intros Hsa [H1 H2]. split; [by rewrite (proj1 Hsa)|]. by rewrite (same_size _ _ Hsa). Qed.
Lemma fits_canonical t op memop c x :
  same_access op memop → has op MO_BSWAP = has memop MO_BSWAP && negb (Z.land memop MO_SIZE =? MO_8) →
  fits_swap t memop c x → fits_swap t op c x.
Proof.
  unfold fits_swap, native_swap. intros Hsa -> Hf. rewrite (same_size _ _ Hsa), (proj2 Hsa). intros H. apply Hf.
  destruct (has memop MO_BSWAP); [|done]. by destruct (Z.land memop MO_SIZE =? MO_8).
Qed.

Lemma loaded_range t idx memop g h :
  access_ok t idx memop g → let n := memop_size memop in
  in_range (ty_width t) (in_order memop (now g n h)) ∧ in_range (ty_width t) (in_order memop (alt g n h)).
Proof.
  intros [] n. pose proof (memop_size_pos memop). destruct (view_range g n h) as [Rn Ra]; [done..|].
  split; (eapply in_range_le; [|apply in_order_range; eassumption]); lia.
Qed.
Lemma low_range t idx memop g :
  access_ok t idx memop g → ∀ z, in_range (ty_width t) (wrap (8 * memop_size memop) z).
Proof.
  intros [] z. pose proof (memop_size_pos memop). eapply in_range_le; [|apply (wrap_range (8 * memop_size memop))]; lia.
Qed.

(** The operation on the value in memory and the extended operand; the old or the
    new value, extended, is the result. *)
Lemma spec_nonatomic_op t gen (f : Z → Z → Z) ret addr val idx memop (new_val : bool) ρ g
    (Q : unit → vars → ghost → Prop) k b xb cv xv h ve :
  binary_spec i gen t any2 f →
  (∀ u v, in_range (ty_width t) u → in_range (ty_width t) v → in_range (ty_width t) (f u v)) →
  access_ok t idx memop g → unsigned_access t memop →
  dst ρ ret t k → src ρ addr I64 b xb → src ρ val t cv xv → ρ !! tcg_env = Some ve →
  mapped (gguest g) MMU_DATA_LOAD idx memop b h → mapped (gguest g) MMU_DATA_STORE idx memop b h →
  let n := memop_size memop in let low z := wrap (8 * n) z in let p := xb =? b in
  let oc := in_order memop (now g n h) in let ox := in_order memop (alt g n h) in
  let nc := f oc (low cv) in let nx := f ox (low xv) in
  fits_swap t memop nc nx →
  Q tt (<[ret := full k t (if new_val then low nc else oc) (if new_val then low nx else ox)]> ρ)
    (assume (after_store (assume g p) h n (in_order memop (low nc)) (in_order memop (low nx))) p) →
  wpv (do_nonatomic_op TT HM tcg_env tb t ret addr val idx memop new_val gen) ρ g Q.
Proof.
  intros Hgen Hfr A Hu Hd Ha Hv He Hml Hms n low p oc ox nc nx Hfit HQ. pose proof A as [].
  pose proof (memop_size_pos memop) as Hpos.
  destruct (canonical_access tb t false memop) as (op & Hc & Hop & Hsa & Hb & Hs); [done..|].
  specialize (Hs (or_intror Hu)). pose proof (same_size _ _ Hsa) as Hsz. pose proof (proj2 Hsa) as Hsc.
  pose proof (access_canonical t idx op memop g A Hop Hsa Hb) as A'.
  destruct (view_range g n h) as [Rn Ra]; [done..|]. fold n in Hsz.
  destruct (loaded_range t idx memop g h A) as [Rw1 Rw2]. fold n oc in Rw1. fold n ox in Rw2.
  pose proof (low_range t idx memop g A) as Rl. fold n in Rl. change (wrap (8 * n)) with low in Rl.
  pose proof (Rl cv). pose proof (Rl xv). pose proof (Rl nc). pose proof (Rl nx). pose proof (Rl oc). pose proof (Rl ox).
  assert (in_range (ty_width t) nc ∧ in_range (ty_width t) nx) as [? ?] by (split; by apply Hfr).
  pose proof (spec_ext t op Hs Hop ltac:(rewrite Hsz; done)) as Hext. rewrite Hsz in Hext. fold low in Hext.
  apply wpv_post. vopen. vnew t1 F1. vnew t2 F2. apply wpv_bind. eapply wpv_lift.
  { replace (bool_decide (t = I64)) with (is64 t) by (by destruct t). exact Hc. }
  apply wpv_bind. eapply spec_qemu_ld; [exact A'|by left|vd|vs|lk|neq|by eapply mapped_canonical|].
  rewrite Hsz, !(in_order_canonical op memop _ Hsc Hb) by done. fold oc ox p.
  apply wpv_bind. eapply Hext; [vd|vs|done|]. apply wpv_bind. eapply Hgen; [vd|vs|vs|done|].
  rewrite insert_insert_eq. change (wrap (8 * n)) with low. fold nc nx. apply wpv_bind.
  eapply (spec_qemu_st_low t t2 addr idx op _ _ _ nc nx b xb h _ (in_order memop (low nc)) (in_order memop (low nx))).
  { by destruct A'. }
  { by eapply fits_canonical. }
  1,2: vs.
  { lk. }
  { by eapply mapped_canonical. }
  1,2: rewrite Hsz, (in_order_low op memop) by done; by apply in_order_wrap.
  rewrite Hsz. apply wpv_bind.
  replace oc with (low oc) in HQ by (by apply wrap_small, in_order_range). 
  replace ox with (low ox) in HQ by (by apply wrap_small, in_order_range).
  destruct new_val; (eapply Hext; [vd|vs|done|]; apply wpv_bind; vfree; vfree; vdone HQ).
Qed.
End Spec.
