(* ===== verification/GenNames.v ===== *)
(** The functions of tcg/tcg-op.c under their own names: the instances, for
    [i32] and for [i64], of the generators that are written once over
    [RegType], and the loads and stores over [tcg_gen_ldst_op]. *)
From S2P Require Import Prelude Ops Temps GenCore GenAlu.

Section Names.
Context (TT : Target) (tcg_env : nat).

Definition tcg_gen_ldst_op_i32 := tcg_gen_ldst_op I32.
Definition tcg_gen_ldst_op_i64 := tcg_gen_ldst_op I64.
Definition tcg_gen_mov_i32_internal := tcg_gen_mov_internal I32.
Definition tcg_gen_mov_i32 := tcg_gen_mov I32.
Definition tcg_gen_mov_i32_concrete := tcg_gen_mov_concrete I32.
Definition tcg_gen_add_i32 := tcg_gen_add I32.
Definition tcg_gen_addi_i32 := tcg_gen_addi I32.
Definition tcg_gen_sub_i32 := tcg_gen_sub I32.
Definition tcg_gen_subfi_i32 := tcg_gen_subfi I32.
Definition tcg_gen_subi_i32 := tcg_gen_subi I32.
Definition tcg_gen_neg_i32 := tcg_gen_neg I32.
Definition tcg_gen_and_i32 := tcg_gen_and I32.
Definition tcg_gen_andi_i32 := tcg_gen_andi TT I32.
Definition tcg_gen_or_i32 := tcg_gen_or I32.
Definition tcg_gen_ori_i32 := tcg_gen_ori I32.
Definition tcg_gen_xor_i32 := tcg_gen_xor I32.
Definition tcg_gen_xori_i32 := tcg_gen_xori TT I32.
Definition tcg_gen_not_i32 := tcg_gen_not TT I32.
Definition tcg_gen_shl_i32 := tcg_gen_shl I32.
Definition tcg_gen_shli_i32 := tcg_gen_shli I32.
Definition tcg_gen_shr_i32 := tcg_gen_shr I32.
Definition tcg_gen_shri_i32 := tcg_gen_shri I32.
Definition tcg_gen_sar_i32 := tcg_gen_sar I32.
Definition tcg_gen_sari_i32 := tcg_gen_sari I32.
Definition tcg_gen_brcond_i32 := tcg_gen_brcond tcg_env I32.
Definition tcg_gen_brcondi_i32 := tcg_gen_brcondi tcg_env I32.
Definition tcg_gen_setcond_i32 := tcg_gen_setcond tcg_env I32.
Definition tcg_gen_setcondi_i32 := tcg_gen_setcondi tcg_env I32.
Definition tcg_gen_negsetcond_i32 := tcg_gen_negsetcond TT tcg_env I32.
Definition tcg_gen_negsetcondi_i32 := tcg_gen_negsetcondi TT tcg_env I32.
Definition tcg_gen_mul_i32 := tcg_gen_mul I32.
Definition tcg_gen_muli_i32 := tcg_gen_muli I32.
Definition tcg_gen_div_i32 := tcg_gen_div TT I32.
Definition tcg_gen_rem_i32 := tcg_gen_rem TT I32.
Definition tcg_gen_divu_i32 := tcg_gen_divu TT I32.
Definition tcg_gen_remu_i32 := tcg_gen_remu TT I32.
Definition tcg_gen_andc_i32 := tcg_gen_andc TT I32.
Definition tcg_gen_eqv_i32 := tcg_gen_eqv TT I32.
Definition tcg_gen_nand_i32 := tcg_gen_nand TT I32.
Definition tcg_gen_nor_i32 := tcg_gen_nor TT I32.
Definition tcg_gen_orc_i32 := tcg_gen_orc TT I32.
Definition tcg_gen_clzi_i32 := tcg_gen_clzi TT I32.
Definition tcg_gen_ctzi_i32 := tcg_gen_ctzi TT tcg_env I32.
Definition tcg_gen_clrsb_i32 := tcg_gen_clrsb TT I32.
Definition tcg_gen_rotl_i32 := tcg_gen_rotl TT I32.
Definition tcg_gen_rotli_i32 := tcg_gen_rotli TT I32.
Definition tcg_gen_rotr_i32 := tcg_gen_rotr TT I32.
Definition tcg_gen_rotri_i32 := tcg_gen_rotri TT I32.
Definition tcg_gen_deposit_i32 := tcg_gen_deposit TT I32.
Definition tcg_gen_deposit_z_i32 := tcg_gen_deposit_z TT I32.
Definition tcg_gen_extract_i32 := tcg_gen_extract TT I32.
Definition tcg_gen_sextract_i32 := tcg_gen_sextract TT I32.
Definition tcg_gen_extract2_i32 := tcg_gen_extract2 TT I32.
Definition tcg_gen_ext8s_i32 := tcg_gen_ext8s TT I32.
Definition tcg_gen_ext16s_i32 := tcg_gen_ext16s TT I32.
Definition tcg_gen_ext8u_i32 := tcg_gen_ext8u TT I32.
Definition tcg_gen_ext16u_i32 := tcg_gen_ext16u TT I32.
Definition tcg_gen_bswap16_i32 := tcg_gen_bswap16 TT I32.
Definition tcg_gen_smin_i32 := tcg_gen_smin tcg_env I32.
Definition tcg_gen_umin_i32 := tcg_gen_umin tcg_env I32.
Definition tcg_gen_smax_i32 := tcg_gen_smax tcg_env I32.
Definition tcg_gen_umax_i32 := tcg_gen_umax tcg_env I32.
Definition tcg_gen_abs_i32 := tcg_gen_abs I32.
Definition tcg_gen_ld8u_i32 : nat → nat → Z → Gen unit := tcg_gen_ldst_op I32 (INDEX_op_ld8u I32).
Definition tcg_gen_ld8s_i32 : nat → nat → Z → Gen unit := tcg_gen_ldst_op I32 (INDEX_op_ld8s I32).
Definition tcg_gen_ld16u_i32 : nat → nat → Z → Gen unit := tcg_gen_ldst_op I32 (INDEX_op_ld16u I32).
Definition tcg_gen_ld16s_i32 : nat → nat → Z → Gen unit := tcg_gen_ldst_op I32 (INDEX_op_ld16s I32).
Definition tcg_gen_ld_i32 : nat → nat → Z → Gen unit := tcg_gen_ldst_op I32 (INDEX_op_ld I32).
Definition tcg_gen_st8_i32 : nat → nat → Z → Gen unit := tcg_gen_ldst_op I32 (INDEX_op_st8 I32).
Definition tcg_gen_st16_i32 : nat → nat → Z → Gen unit := tcg_gen_ldst_op I32 (INDEX_op_st16 I32).
Definition tcg_gen_st_i32 : nat → nat → Z → Gen unit := tcg_gen_ldst_op I32 (INDEX_op_st I32).
Definition tcg_gen_mov_i64_internal := tcg_gen_mov_internal I64.
Definition tcg_gen_mov_i64 := tcg_gen_mov I64.
Definition tcg_gen_mov_i64_concrete := tcg_gen_mov_concrete I64.
Definition tcg_gen_ld8u_i64 : nat → nat → Z → Gen unit := tcg_gen_ldst_op I64 (INDEX_op_ld8u I64).
Definition tcg_gen_ld8s_i64 : nat → nat → Z → Gen unit := tcg_gen_ldst_op I64 (INDEX_op_ld8s I64).
Definition tcg_gen_ld16u_i64 : nat → nat → Z → Gen unit := tcg_gen_ldst_op I64 (INDEX_op_ld16u I64).
Definition tcg_gen_ld16s_i64 : nat → nat → Z → Gen unit := tcg_gen_ldst_op I64 (INDEX_op_ld16s I64).
Definition tcg_gen_ld32u_i64 : nat → nat → Z → Gen unit := tcg_gen_ldst_op I64 INDEX_op_ld32u_i64.
Definition tcg_gen_ld32s_i64 : nat → nat → Z → Gen unit := tcg_gen_ldst_op I64 INDEX_op_ld32s_i64.
Definition tcg_gen_ld_i64 : nat → nat → Z → Gen unit := tcg_gen_ldst_op I64 (INDEX_op_ld I64).
Definition tcg_gen_st8_i64 : nat → nat → Z → Gen unit := tcg_gen_ldst_op I64 (INDEX_op_st8 I64).
Definition tcg_gen_st16_i64 : nat → nat → Z → Gen unit := tcg_gen_ldst_op I64 (INDEX_op_st16 I64).
Definition tcg_gen_st32_i64 : nat → nat → Z → Gen unit := tcg_gen_ldst_op I64 INDEX_op_st32_i64.
Definition tcg_gen_st_i64 : nat → nat → Z → Gen unit := tcg_gen_ldst_op I64 (INDEX_op_st I64).
Definition tcg_gen_add_i64 := tcg_gen_add I64.
Definition tcg_gen_sub_i64 := tcg_gen_sub I64.
Definition tcg_gen_and_i64 := tcg_gen_and I64.
Definition tcg_gen_or_i64 := tcg_gen_or I64.
Definition tcg_gen_xor_i64 := tcg_gen_xor I64.
Definition tcg_gen_shl_i64 := tcg_gen_shl I64.
Definition tcg_gen_shr_i64 := tcg_gen_shr I64.
Definition tcg_gen_sar_i64 := tcg_gen_sar I64.
Definition tcg_gen_mul_i64 := tcg_gen_mul I64.
Definition tcg_gen_addi_i64 := tcg_gen_addi I64.
Definition tcg_gen_subfi_i64 := tcg_gen_subfi I64.
Definition tcg_gen_subi_i64 := tcg_gen_subi I64.
Definition tcg_gen_neg_i64 := tcg_gen_neg I64.
Definition tcg_gen_andi_i64 := tcg_gen_andi TT I64.
Definition tcg_gen_ori_i64 := tcg_gen_ori I64.
Definition tcg_gen_xori_i64 := tcg_gen_xori TT I64.
Definition tcg_gen_shli_i64 := tcg_gen_shli I64.
Definition tcg_gen_shri_i64 := tcg_gen_shri I64.
Definition tcg_gen_sari_i64 := tcg_gen_sari I64.
Definition tcg_gen_brcond_i64 := tcg_gen_brcond tcg_env I64.
Definition tcg_gen_brcondi_i64 := tcg_gen_brcondi tcg_env I64.
Definition tcg_gen_setcond_i64 := tcg_gen_setcond tcg_env I64.
Definition tcg_gen_setcondi_i64 := tcg_gen_setcondi tcg_env I64.
Definition tcg_gen_negsetcondi_i64 := tcg_gen_negsetcondi TT tcg_env I64.
Definition tcg_gen_negsetcond_i64 := tcg_gen_negsetcond TT tcg_env I64.
Definition tcg_gen_muli_i64 := tcg_gen_muli I64.
Definition tcg_gen_div_i64 := tcg_gen_div TT I64.
Definition tcg_gen_rem_i64 := tcg_gen_rem TT I64.
Definition tcg_gen_divu_i64 := tcg_gen_divu TT I64.
Definition tcg_gen_remu_i64 := tcg_gen_remu TT I64.
Definition tcg_gen_ext8s_i64 := tcg_gen_ext8s TT I64.
Definition tcg_gen_ext16s_i64 := tcg_gen_ext16s TT I64.
Definition tcg_gen_ext8u_i64 := tcg_gen_ext8u TT I64.
Definition tcg_gen_ext16u_i64 := tcg_gen_ext16u TT I64.
Definition tcg_gen_bswap16_i64 := tcg_gen_bswap16 TT I64.
Definition tcg_gen_not_i64 := tcg_gen_not TT I64.
Definition tcg_gen_andc_i64 := tcg_gen_andc TT I64.
Definition tcg_gen_eqv_i64 := tcg_gen_eqv TT I64.
Definition tcg_gen_nand_i64 := tcg_gen_nand TT I64.
Definition tcg_gen_nor_i64 := tcg_gen_nor TT I64.
Definition tcg_gen_orc_i64 := tcg_gen_orc TT I64.
Definition tcg_gen_clzi_i64 := tcg_gen_clzi TT I64.
Definition tcg_gen_ctzi_i64 := tcg_gen_ctzi TT tcg_env I64.
Definition tcg_gen_clrsb_i64 := tcg_gen_clrsb TT I64.
Definition tcg_gen_rotl_i64 := tcg_gen_rotl TT I64.
Definition tcg_gen_rotli_i64 := tcg_gen_rotli TT I64.
Definition tcg_gen_rotr_i64 := tcg_gen_rotr TT I64.
Definition tcg_gen_rotri_i64 := tcg_gen_rotri TT I64.
Definition tcg_gen_deposit_i64 := tcg_gen_deposit TT I64.
Definition tcg_gen_deposit_z_i64 := tcg_gen_deposit_z TT I64.
Definition tcg_gen_extract_i64 := tcg_gen_extract TT I64.
Definition tcg_gen_sextract_i64 := tcg_gen_sextract TT I64.
Definition tcg_gen_extract2_i64 := tcg_gen_extract2 TT I64.
Definition tcg_gen_smin_i64 := tcg_gen_smin tcg_env I64.
Definition tcg_gen_umin_i64 := tcg_gen_umin tcg_env I64.
Definition tcg_gen_smax_i64 := tcg_gen_smax tcg_env I64.
Definition tcg_gen_umax_i64 := tcg_gen_umax tcg_env I64.
Definition tcg_gen_abs_i64 := tcg_gen_abs I64.
End Names.
