(* ===== verification/Hosts.v ===== *)
(** The hosts: the [TCG_TARGET_HAS_*] macros of tcg/<host>/tcg-target.h for
    three 64-bit hosts, with what tcg.h defines for those a host leaves out.
    The theorems about generators hold for every host; these are the hosts of
    the concrete runs. *)
From S2P Require Import Prelude Ops MemOp GenCore GenLdst.

Definition both (b : bool) (t : RegType) : bool := b.
Definition by_type (b32 b64 : bool) (t : RegType) : bool := match t with I32 => b32 | I64 => b64 end.

Definition x86_64 (have_bmi1 have_popcnt : bool) : Target := {|
  TCG_TARGET_HAS_not := both true;
  TCG_TARGET_HAS_div := both false;
  TCG_TARGET_HAS_div2 := both true;
  TCG_TARGET_HAS_rem := both false;
  TCG_TARGET_HAS_andc := both have_bmi1;
  TCG_TARGET_HAS_orc := both false;
  TCG_TARGET_HAS_eqv := both false;
  TCG_TARGET_HAS_nand := both false;
  TCG_TARGET_HAS_nor := both false;
  TCG_TARGET_HAS_rot := both true;
  TCG_TARGET_HAS_ext8s := both true;
  TCG_TARGET_HAS_ext16s := both true;
  TCG_TARGET_HAS_ext8u := both true;
  TCG_TARGET_HAS_ext16u := both true;
  TCG_TARGET_HAS_ext32s_i64 := true;
  TCG_TARGET_HAS_ext32u_i64 := true;
  TCG_TARGET_HAS_extr_i64_i32 := true;
  TCG_TARGET_HAS_bswap16 := both true;
  TCG_TARGET_HAS_bswap32 := both true;
  TCG_TARGET_HAS_bswap64_i64 := true;
  TCG_TARGET_HAS_clz := both true;
  TCG_TARGET_HAS_ctz := both true;
  TCG_TARGET_HAS_ctpop := both have_popcnt;
  TCG_TARGET_HAS_deposit := both true;
  TCG_TARGET_deposit_valid := λ _ ofs len, (ofs =? 0) && ((len =? 8) || (len =? 16));
  TCG_TARGET_HAS_extract := both true;
  TCG_TARGET_extract_valid := λ t ofs len, ((ofs =? 8) && (len =? 8)) || match t with I32 => false | I64 => ofs + len =? 32 end;
  TCG_TARGET_HAS_sextract := by_type true false;
  TCG_TARGET_HAS_extract2 := both true;
  TCG_TARGET_HAS_negsetcond := both true;
  TCG_TARGET_HAS_add2 := both true;
  TCG_TARGET_HAS_sub2 := both true;
  TCG_TARGET_HAS_mulu2 := both true;
  TCG_TARGET_HAS_muls2 := both true;
  TCG_TARGET_HAS_muluh := both false;
  TCG_TARGET_HAS_mulsh := both false;
|}.

Definition aarch64 : Target := {|
  TCG_TARGET_HAS_not := both true;
  TCG_TARGET_HAS_div := both true;
  TCG_TARGET_HAS_div2 := both false;
  TCG_TARGET_HAS_rem := both true;
  TCG_TARGET_HAS_andc := both true;
  TCG_TARGET_HAS_orc := both true;
  TCG_TARGET_HAS_eqv := both true;
  TCG_TARGET_HAS_nand := both false;
  TCG_TARGET_HAS_nor := both false;
  TCG_TARGET_HAS_rot := both true;
  TCG_TARGET_HAS_ext8s := both true;
  TCG_TARGET_HAS_ext16s := both true;
  TCG_TARGET_HAS_ext8u := both true;
  TCG_TARGET_HAS_ext16u := both true;
  TCG_TARGET_HAS_ext32s_i64 := true;
  TCG_TARGET_HAS_ext32u_i64 := true;
  TCG_TARGET_HAS_extr_i64_i32 := false;
  TCG_TARGET_HAS_bswap16 := both true;
  TCG_TARGET_HAS_bswap32 := both true;
  TCG_TARGET_HAS_bswap64_i64 := true;
  TCG_TARGET_HAS_clz := both true;
  TCG_TARGET_HAS_ctz := both true;
  TCG_TARGET_HAS_ctpop := both false;
  TCG_TARGET_HAS_deposit := both true;
  TCG_TARGET_deposit_valid := λ _ _ _, true;
  TCG_TARGET_HAS_extract := both true;
  TCG_TARGET_extract_valid := λ _ _ _, true;
  TCG_TARGET_HAS_sextract := both true;
  TCG_TARGET_HAS_extract2 := both true;
  TCG_TARGET_HAS_negsetcond := both true;
  TCG_TARGET_HAS_add2 := both true;
  TCG_TARGET_HAS_sub2 := both true;
  TCG_TARGET_HAS_mulu2 := both false;
  TCG_TARGET_HAS_muls2 := both false;
  TCG_TARGET_HAS_muluh := by_type false true;
  TCG_TARGET_HAS_mulsh := by_type false true;
|}.

Definition sparc64 (use_vis3_instructions : bool) : Target := {|
  TCG_TARGET_HAS_not := both true;
  TCG_TARGET_HAS_div := both true;
  TCG_TARGET_HAS_div2 := both false;
  TCG_TARGET_HAS_rem := both false;
  TCG_TARGET_HAS_andc := both true;
  TCG_TARGET_HAS_orc := both true;
  TCG_TARGET_HAS_eqv := both false;
  TCG_TARGET_HAS_nand := both false;
  TCG_TARGET_HAS_nor := both false;
  TCG_TARGET_HAS_rot := both false;
  TCG_TARGET_HAS_ext8s := both false;
  TCG_TARGET_HAS_ext16s := both false;
  TCG_TARGET_HAS_ext8u := both false;
  TCG_TARGET_HAS_ext16u := both false;
  TCG_TARGET_HAS_ext32s_i64 := true;
  TCG_TARGET_HAS_ext32u_i64 := true;
  TCG_TARGET_HAS_extr_i64_i32 := false;
  TCG_TARGET_HAS_bswap16 := both false;
  TCG_TARGET_HAS_bswap32 := both false;
  TCG_TARGET_HAS_bswap64_i64 := false;
  TCG_TARGET_HAS_clz := both false;
  TCG_TARGET_HAS_ctz := both false;
  TCG_TARGET_HAS_ctpop := both false;
  TCG_TARGET_HAS_deposit := both false;
  TCG_TARGET_deposit_valid := λ _ _ _, true;
  TCG_TARGET_HAS_extract := both false;
  TCG_TARGET_extract_valid := λ _ _ _, true;
  TCG_TARGET_HAS_sextract := both false;
  TCG_TARGET_HAS_extract2 := both false;
  TCG_TARGET_HAS_negsetcond := both true;
  TCG_TARGET_HAS_add2 := both true;
  TCG_TARGET_HAS_sub2 := both true;
  TCG_TARGET_HAS_mulu2 := by_type true false;
  TCG_TARGET_HAS_muls2 := by_type true false;
  TCG_TARGET_HAS_muluh := by_type false use_vis3_instructions;
  TCG_TARGET_HAS_mulsh := both false;
|}.

(** The memory accesses of the hosts; the generators ask about codes of at most 64
    bits only. *)
Definition x86_64_mem (have_movbe : bool) : HostMem := {|
  TCG_TARGET_DEFAULT_MO := without TCG_MO_ALL TCG_MO_ST_LD;
  tcg_target_has_memory_bswap := λ _, have_movbe;
  TCG_TARGET_HAS_qemu_st8_i32 := false;
|}.
Definition aarch64_mem : HostMem := {|
  TCG_TARGET_DEFAULT_MO := 0;
  tcg_target_has_memory_bswap := λ _, false;
  TCG_TARGET_HAS_qemu_st8_i32 := false;
|}.
Definition sparc64_mem : HostMem := {|
  TCG_TARGET_DEFAULT_MO := 0;
  tcg_target_has_memory_bswap := λ _, true;
  TCG_TARGET_HAS_qemu_st8_i32 := false;
|}.
