(* ===== verification/VecHosts.v ===== *)
(** Two hosts for vector operations: which ones they emit, and how they expand
    others ([tcg/i386/tcg-target.c.inc] and [tcg/aarch64/tcg-target.c.inc]).

    An expansion calls the generators again, which may ask the host for another
    expansion: [x86_vec_host] is the host in which these are nested at most
    [depth] times. *)
From S2P Require Import Prelude Lanes Cond Bitops Backend VecOps SymVec Ops MemOp Temps GenCore GenAlu GenNames GenVec.

(** ** x86 *)

Record X86Features := mkX86Features {
  have_avx2 : bool;
  have_avx512vl : bool;
  have_avx512bw : bool;
  have_avx512dq : bool;
  have_avx512vbmi2 : bool;
}.

Definition x86_can_emit_vec_op (F : X86Features) (opc : VecOpcode) (type : TCGType) (vece : Z) : Z :=
  match opc with
  | INDEX_op_add_vec | INDEX_op_sub_vec | INDEX_op_and_vec | INDEX_op_or_vec | INDEX_op_xor_vec | INDEX_op_andc_vec
  | INDEX_op_orc_vec | INDEX_op_nand_vec | INDEX_op_nor_vec | INDEX_op_eqv_vec | INDEX_op_not_vec | INDEX_op_bitsel_vec => 1
  | INDEX_op_cmp_vec | INDEX_op_cmpsel_vec => -1
  | INDEX_op_rotli_vec => if have_avx512vl F && (MO_32 <=? vece) then 1 else -1
  | INDEX_op_shli_vec | INDEX_op_shri_vec => if vece =? MO_8 then -1 else 1
  | INDEX_op_sari_vec =>
      if vece =? MO_8 then -1
      else if (vece =? MO_16) || (vece =? MO_32) then 1
      else if vece =? MO_64 then
        if have_avx512vl F then 1 else if type_ge type TCG_TYPE_V256 then -1 else 0
      else 0
  | INDEX_op_shls_vec | INDEX_op_shrs_vec => Z.b2z (MO_16 <=? vece)
  | INDEX_op_sars_vec =>
      if (vece =? MO_16) || (vece =? MO_32) then 1 else if vece =? MO_64 then Z.b2z (have_avx512vl F) else 0
  | INDEX_op_rotls_vec => if MO_16 <=? vece then -1 else 0
  | INDEX_op_shlv_vec | INDEX_op_shrv_vec =>
      if vece =? MO_16 then Z.b2z (have_avx512bw F)
      else if (vece =? MO_32) || (vece =? MO_64) then Z.b2z (have_avx2 F) else 0
  | INDEX_op_sarv_vec =>
      if vece =? MO_16 then Z.b2z (have_avx512bw F)
      else if vece =? MO_32 then Z.b2z (have_avx2 F)
      else if vece =? MO_64 then Z.b2z (have_avx512vl F) else 0
  | INDEX_op_rotlv_vec | INDEX_op_rotrv_vec =>
      if vece =? MO_16 then if have_avx512vbmi2 F then -1 else 0
      else if (vece =? MO_32) || (vece =? MO_64) then if have_avx512vl F then 1 else if have_avx2 F then -1 else 0
      else 0
  | INDEX_op_mul_vec =>
      if vece =? MO_8 then -1 else if vece =? MO_64 then Z.b2z (have_avx512dq F) else 1
  | INDEX_op_ssadd_vec | INDEX_op_usadd_vec | INDEX_op_sssub_vec | INDEX_op_ussub_vec => Z.b2z (vece <=? MO_16)
  | INDEX_op_smin_vec | INDEX_op_smax_vec | INDEX_op_umin_vec | INDEX_op_umax_vec | INDEX_op_abs_vec =>
      Z.b2z ((vece <=? MO_32) || have_avx512vl F)
  | _ => 0
  end.

Section X86.
Context (F : X86Features) (TT : Target) (env : nat).

Section Expand.
Context (VH : VecHost).

Definition expand_vec_shi (type : TCGType) (vece : Z) (right_ : bool) (v0 v1 : nat) (imm : Z) : Gen unit :=
  tcg_debug_assert (vece =? MO_8);;
  mask ← (if right_ then tcg_gen_shri_vec VH MO_16 v0 v1 imm;; mret (wrap 8 (Z.shiftr 0xff imm))
          else tcg_gen_shli_vec VH MO_16 v0 v1 imm;; mret (wrap 8 (Z.shiftl 0xff imm)));
  c ← tcg_constant_vec type MO_8 mask; tcg_gen_and_vec MO_8 v0 v0 c.

Definition expand_vec_sari (type : TCGType) (vece : Z) (v0 v1 : nat) (imm : Z) : Gen unit :=
  if vece =? MO_8 then
    t1 ← tcg_temp_new_vec type;
    t2 ← tcg_temp_new_vec type;
    vec_gen_3 INDEX_op_x86_punpckl_vec type MO_8 (temp_arg t1) (temp_arg v1) (temp_arg v1);;
    vec_gen_3 INDEX_op_x86_punpckh_vec type MO_8 (temp_arg t2) (temp_arg v1) (temp_arg v1);;
    tcg_gen_sari_vec VH MO_16 t1 t1 (imm + 8);;
    tcg_gen_sari_vec VH MO_16 t2 t2 (imm + 8);;
    vec_gen_3 INDEX_op_x86_packss_vec type MO_8 (temp_arg v0) (temp_arg t1) (temp_arg t2);;
    tcg_temp_free_vec t1;; tcg_temp_free_vec t2
  else if vece =? MO_64 then
    t1 ← tcg_temp_new_vec type;
    (if imm <=? 32 then
       tcg_gen_sari_vec VH MO_32 t1 v1 (Z.min imm 31);;
       tcg_gen_shri_vec VH MO_64 v0 v1 imm;;
       vec_gen_4 INDEX_op_x86_blend_vec type MO_32 (temp_arg v0) (temp_arg v0) (temp_arg t1) (const_arg 0xaa)
     else
       z ← tcg_constant_vec type MO_64 0; tcg_gen_cmp_vec VH env TCG_COND_GT MO_64 t1 z v1;;
       tcg_gen_shri_vec VH MO_64 v0 v1 imm;;
       tcg_gen_shli_vec VH MO_64 t1 t1 (64 - imm);;
       tcg_gen_or_vec MO_64 v0 v0 t1);;
    tcg_temp_free_vec t1
  else g_assert_not_reached.

Definition expand_vec_rotli (type : TCGType) (vece : Z) (v0 v1 : nat) (imm : Z) : Gen unit :=
  if negb (vece =? MO_8) && have_avx512vbmi2 F then
    vec_gen_4 INDEX_op_x86_vpshldi_vec type vece (temp_arg v0) (temp_arg v1) (temp_arg v1) (const_arg imm)
  else
    t ← tcg_temp_new_vec type;
    tcg_gen_shli_vec VH vece t v1 imm;;
    tcg_gen_shri_vec VH vece v0 v1 (Z.shiftl 8 vece - imm);;
    tcg_gen_or_vec vece v0 v0 t;;
    tcg_temp_free_vec t.

Definition expand_vec_rotv (type : TCGType) (vece : Z) (v0 v1 sh : nat) (right_ : bool) : Gen unit :=
  if have_avx512vbmi2 F then
    vec_gen_4 (if right_ then INDEX_op_x86_vpshrdv_vec else INDEX_op_x86_vpshldv_vec) type vece
      (temp_arg v0) (temp_arg v1) (temp_arg v1) (temp_arg sh)
  else
    t ← tcg_temp_new_vec type;
    tcg_gen_dupi_vec vece t (Z.shiftl 8 vece);;
    tcg_gen_sub_vec VH vece t t sh;;
    (if right_ then tcg_gen_shlv_vec VH vece t v1 t;; tcg_gen_shrv_vec VH vece v0 v1 sh
     else tcg_gen_shrv_vec VH vece t v1 t;; tcg_gen_shlv_vec VH vece v0 v1 sh);;
    tcg_gen_or_vec vece v0 v0 t;;
    tcg_temp_free_vec t.

Definition expand_vec_rotls (type : TCGType) (vece : Z) (v0 v1 lsh : nat) : Gen unit :=
  t ← tcg_temp_new_vec type;
  tcg_debug_assert (negb (vece =? MO_8));;
  (if (if MO_32 <=? vece then have_avx512vl F else have_avx512vbmi2 F) then
     tcg_gen_dup_i32_vec vece t lsh;;
     (if MO_32 <=? vece then tcg_gen_rotlv_vec VH vece v0 v1 t else expand_vec_rotv type vece v0 v1 t false)
   else
     rsh ← tcg_temp_new I32;
     tcg_gen_neg_i32 rsh lsh;;
     tcg_gen_andi_i32 TT rsh rsh (Z.shiftl 8 vece - 1);;
     tcg_gen_shls_vec VH vece t v1 lsh;;
     tcg_gen_shrs_vec VH vece v0 v1 rsh;;
     tcg_gen_or_vec vece v0 v0 t;;
     tcg_temp_free_internal rsh);;
  tcg_temp_free_vec t.

Definition expand_vec_mul (type : TCGType) (vece : Z) (v0 v1 v2 : nat) : Gen unit :=
  tcg_debug_assert (vece =? MO_8);;
  let unpack opc ty r a b := vec_gen_3 opc ty MO_8 (temp_arg r) (temp_arg a) (temp_arg b) in
  match type with
  | TCG_TYPE_V64 =>
      t1 ← tcg_temp_new_vec TCG_TYPE_V128;
      t2 ← tcg_temp_new_vec TCG_TYPE_V128;
      zero ← tcg_constant_vec TCG_TYPE_V128 MO_8 0;
      unpack INDEX_op_x86_punpckl_vec TCG_TYPE_V128 t1 v1 zero;;
      unpack INDEX_op_x86_punpckl_vec TCG_TYPE_V128 t2 zero v2;;
      tcg_gen_mul_vec VH MO_16 t1 t1 t2;;
      tcg_gen_shri_vec VH MO_16 t1 t1 8;;
      unpack INDEX_op_x86_packus_vec TCG_TYPE_V128 v0 t1 t1;;
      tcg_temp_free_vec t1;; tcg_temp_free_vec t2
  | TCG_TYPE_V128 | TCG_TYPE_V256 =>
      t1 ← tcg_temp_new_vec type;
      t2 ← tcg_temp_new_vec type;
      t3 ← tcg_temp_new_vec type;
      t4 ← tcg_temp_new_vec type;
      zero ← tcg_constant_vec TCG_TYPE_V128 MO_8 0;
      unpack INDEX_op_x86_punpckl_vec type t1 v1 zero;;
      unpack INDEX_op_x86_punpckl_vec type t2 zero v2;;
      unpack INDEX_op_x86_punpckh_vec type t3 v1 zero;;
      unpack INDEX_op_x86_punpckh_vec type t4 zero v2;;
      tcg_gen_mul_vec VH MO_16 t1 t1 t2;;
      tcg_gen_mul_vec VH MO_16 t3 t3 t4;;
      tcg_gen_shri_vec VH MO_16 t1 t1 8;;
      tcg_gen_shri_vec VH MO_16 t3 t3 8;;
      unpack INDEX_op_x86_packus_vec type v0 t1 t3;;
      tcg_temp_free_vec t1;; tcg_temp_free_vec t2;; tcg_temp_free_vec t3;; tcg_temp_free_vec t4
  | _ => g_assert_not_reached
  end.

Definition NEED_INV : Z := 1.
Definition NEED_SWAP : Z := 2.
Definition NEED_BIAS : Z := 4.
Definition NEED_UMIN : Z := 8.
Definition NEED_UMAX : Z := 16.
Definition needs (fixup bits : Z) : bool := negb (Z.land fixup bits =? 0).

(** What a comparison needs to be made of an equality or a signed [>]. *)
Definition cmp_fixup (type : TCGType) (vece : Z) (cond : TCGCond) : option Z :=
  let can opc := negb (x86_can_emit_vec_op F opc type vece =? 0) in
  match cond with
  | TCG_COND_EQ | TCG_COND_GT => Some 0
  | TCG_COND_NE | TCG_COND_LE => Some NEED_INV
  | TCG_COND_LT => Some NEED_SWAP
  | TCG_COND_GE => Some (Z.lor NEED_SWAP NEED_INV)
  | TCG_COND_LEU => Some (if can INDEX_op_umin_vec then NEED_UMIN else Z.lor NEED_BIAS NEED_INV)
  | TCG_COND_GTU => Some (if can INDEX_op_umin_vec then Z.lor NEED_UMIN NEED_INV else NEED_BIAS)
  | TCG_COND_GEU => Some (if can INDEX_op_umax_vec then NEED_UMAX else Z.lor (Z.lor NEED_BIAS NEED_SWAP) NEED_INV)
  | TCG_COND_LTU => Some (if can INDEX_op_umax_vec then Z.lor NEED_UMAX NEED_INV else Z.lor NEED_BIAS NEED_SWAP)
  | _ => None
  end.

Definition expand_vec_cmp_noinv (type : TCGType) (vece : Z) (v0 v1 v2 : nat) (cond : TCGCond) : Gen bool :=
  match cmp_fixup type vece cond with
  | None => g_assert_not_reached
  | Some fixup =>
      let cond := if needs fixup NEED_INV then tcg_invert_cond cond else cond in
      let '(v1, v2, cond) := if needs fixup NEED_SWAP then (v2, v1, tcg_swap_cond cond) else (v1, v2, cond) in
      '(ts, v1, v2, cond) ←
        (if needs fixup (Z.lor NEED_UMIN NEED_UMAX) then
           t1 ← tcg_temp_new_vec type;
           (if needs fixup NEED_UMIN then tcg_gen_umin_vec VH env vece t1 v1 v2
            else tcg_gen_umax_vec VH env vece t1 v1 v2);;
           mret ([t1], v1, t1, TCG_COND_EQ)
         else if needs fixup NEED_BIAS then
           t1 ← tcg_temp_new_vec type;
           t2 ← tcg_temp_new_vec type;
           t3 ← tcg_constant_vec type vece (Z.shiftl 1 (Z.shiftl 8 vece - 1));
           tcg_gen_sub_vec VH vece t1 v1 t3;;
           tcg_gen_sub_vec VH vece t2 v2 t3;;
           mret ([t1; t2], t1, t2, tcg_signed_cond cond)
         else mret ([], v1, v2, cond));
      tcg_debug_assert (bool_decide (cond = TCG_COND_EQ) || bool_decide (cond = TCG_COND_GT));;
      vec_gen_4 INDEX_op_cmp_vec type vece (temp_arg v0) (temp_arg v1) (temp_arg v2) (const_arg (cond_code cond));;
      (match ts with
       | [] => mret tt
       | t1 :: ts => tcg_temp_free_vec t1;; match ts with [] => mret tt | t2 :: _ => tcg_temp_free_vec t2 end
       end);;
      mret (needs fixup NEED_INV)
  end.

Definition expand_vec_cmp (type : TCGType) (vece : Z) (v0 v1 v2 : nat) (cond : TCGCond) : Gen unit :=
  inv ← expand_vec_cmp_noinv type vece v0 v1 v2 cond;
  if inv : bool then tcg_gen_not_vec vece v0 v0 else mret tt.

Definition expand_vec_cmpsel (type : TCGType) (vece : Z) (v0 c1 c2 v3 v4 : nat) (cond : TCGCond) : Gen unit :=
  t ← tcg_temp_new_vec type;
  inv ← expand_vec_cmp_noinv type vece t c1 c2 cond;
  let '(v3, v4) := if inv : bool then (v4, v3) else (v3, v4) in
  vec_gen_4 INDEX_op_x86_vpblendvb_vec type vece (temp_arg v0) (temp_arg v4) (temp_arg v3) (temp_arg t);;
  tcg_temp_free_vec t.

Definition x86_expand_vec_op (opc : VecOpcode) (type : TCGType) (vece : Z) (args : list TCGArg) : Gen unit :=
  match opc, args with
  | INDEX_op_shli_vec, [temp_arg v0; temp_arg v1; const_arg a2] => expand_vec_shi type vece false v0 v1 a2
  | INDEX_op_shri_vec, [temp_arg v0; temp_arg v1; const_arg a2] => expand_vec_shi type vece true v0 v1 a2
  | INDEX_op_sari_vec, [temp_arg v0; temp_arg v1; const_arg a2] => expand_vec_sari type vece v0 v1 a2
  | INDEX_op_rotli_vec, [temp_arg v0; temp_arg v1; const_arg a2] => expand_vec_rotli type vece v0 v1 a2
  | INDEX_op_rotls_vec, [temp_arg v0; temp_arg v1; temp_arg a2] => expand_vec_rotls type vece v0 v1 a2
  | INDEX_op_rotlv_vec, [temp_arg v0; temp_arg v1; temp_arg v2] => expand_vec_rotv type vece v0 v1 v2 false
  | INDEX_op_rotrv_vec, [temp_arg v0; temp_arg v1; temp_arg v2] => expand_vec_rotv type vece v0 v1 v2 true
  | INDEX_op_mul_vec, [temp_arg v0; temp_arg v1; temp_arg v2] => expand_vec_mul type vece v0 v1 v2
  | INDEX_op_cmp_vec, [temp_arg v0; temp_arg v1; temp_arg v2; const_arg c] => expand_vec_cmp type vece v0 v1 v2 (cond_cast c)
  | INDEX_op_cmpsel_vec, [temp_arg v0; temp_arg v1; temp_arg v2; temp_arg v3; temp_arg v4; const_arg c] =>
      expand_vec_cmpsel type vece v0 v1 v2 v3 v4 (cond_cast c)
  | _, _ => mret tt
  end.
End Expand.

Fixpoint x86_vec_host (depth : nat) : VecHost := {|
  TCG_TARGET_HAS_tst_vec := false;
  tcg_can_emit_vec_op := x86_can_emit_vec_op F;
  tcg_expand_vec_op :=
    match depth with
    | O => λ _ _ _ _, g_assert_not_reached
    | S depth => x86_expand_vec_op (x86_vec_host depth)
    end;
|}.
End X86.

(** ** AArch64 *)

Definition aarch64_can_emit_vec_op (opc : VecOpcode) (type : TCGType) (vece : Z) : Z :=
  match opc with
  | INDEX_op_add_vec | INDEX_op_sub_vec | INDEX_op_and_vec | INDEX_op_or_vec | INDEX_op_xor_vec | INDEX_op_andc_vec
  | INDEX_op_orc_vec | INDEX_op_neg_vec | INDEX_op_abs_vec | INDEX_op_not_vec | INDEX_op_cmp_vec | INDEX_op_shli_vec
  | INDEX_op_shri_vec | INDEX_op_sari_vec | INDEX_op_ssadd_vec | INDEX_op_sssub_vec | INDEX_op_usadd_vec
  | INDEX_op_ussub_vec | INDEX_op_shlv_vec | INDEX_op_bitsel_vec => 1
  | INDEX_op_rotli_vec | INDEX_op_shrv_vec | INDEX_op_sarv_vec | INDEX_op_rotlv_vec | INDEX_op_rotrv_vec => -1
  | INDEX_op_mul_vec | INDEX_op_smax_vec | INDEX_op_smin_vec | INDEX_op_umax_vec | INDEX_op_umin_vec => Z.b2z (vece <? MO_64)
  | _ => 0
  end.

(** The generators that the expansions call are emitted. *)
Definition aarch64_expand_vec_op (VH : VecHost) (opc : VecOpcode) (type : TCGType) (vece : Z) (args : list TCGArg) : Gen unit :=
  match opc, args with
  | INDEX_op_rotli_vec, [temp_arg v0; temp_arg v1; const_arg a2] =>
      t1 ← tcg_temp_new_vec type;
      tcg_gen_shri_vec VH vece t1 v1 (Z.land (- a2) (Z.shiftl 8 vece - 1));;
      vec_gen_4 INDEX_op_aa64_sli_vec type vece (temp_arg v0) (temp_arg t1) (temp_arg v1) (const_arg a2);;
      tcg_temp_free_vec t1
  | (INDEX_op_shrv_vec | INDEX_op_sarv_vec), [temp_arg v0; temp_arg v1; temp_arg v2] =>
      t1 ← tcg_temp_new_vec type;
      tcg_gen_neg_vec VH vece t1 v2;;
      let opc := if bool_decide (opc = INDEX_op_shrv_vec) then INDEX_op_shlv_vec else INDEX_op_aa64_sshl_vec in
      vec_gen_3 opc type vece (temp_arg v0) (temp_arg v1) (temp_arg t1);;
      tcg_temp_free_vec t1
  | INDEX_op_rotlv_vec, [temp_arg v0; temp_arg v1; temp_arg v2] =>
      t1 ← tcg_temp_new_vec type;
      c1 ← tcg_constant_vec type vece (Z.shiftl 8 vece);
      tcg_gen_sub_vec VH vece t1 v2 c1;;
      vec_gen_3 INDEX_op_shlv_vec type vece (temp_arg t1) (temp_arg v1) (temp_arg t1);;
      vec_gen_3 INDEX_op_shlv_vec type vece (temp_arg v0) (temp_arg v1) (temp_arg v2);;
      tcg_gen_or_vec vece v0 v0 t1;;
      tcg_temp_free_vec t1
  | INDEX_op_rotrv_vec, [temp_arg v0; temp_arg v1; temp_arg v2] =>
      t1 ← tcg_temp_new_vec type;
      t2 ← tcg_temp_new_vec type;
      c1 ← tcg_constant_vec type vece (Z.shiftl 8 vece);
      tcg_gen_neg_vec VH vece t1 v2;;
      tcg_gen_sub_vec VH vece t2 c1 v2;;
      vec_gen_3 INDEX_op_shlv_vec type vece (temp_arg t1) (temp_arg v1) (temp_arg t1);;
      vec_gen_3 INDEX_op_shlv_vec type vece (temp_arg t2) (temp_arg v1) (temp_arg t2);;
      tcg_gen_or_vec vece v0 t1 t2;;
      tcg_temp_free_vec t1;; tcg_temp_free_vec t2
  | _, _ => g_assert_not_reached
  end.

Definition aarch64_vec_host : VecHost :=
  let emitting := mkVecHost true aarch64_can_emit_vec_op (λ _ _ _ _, g_assert_not_reached) in
  mkVecHost true aarch64_can_emit_vec_op (aarch64_expand_vec_op emitting).
