(* ===== verification/VecHostSpec.v ===== *)
(** What the hosts of [VecHosts] do with the operations they expand. *)
From S2P Require Import Prelude Lanes Cond Bitops Backend VecOps SymHelpers SymMemory SymVec Ops MemOp Temps Exec Logic Calls Vars.
From S2P Require Import GenCore GenCoreSpec GenAlu GenAluSpec GenConvSpec GenMemSpec GenNames GenVec VecLogic GenVecSpec VecHosts.

(** ** Generators that do the same *)

#[global] Instance gen_equiv {A} : Equiv (Gen A) := λ m m', ∀ s, m s = m' s.
#[global] Instance gen_equivalence {A} : Equivalence (≡@{Gen A}).
Proof. split; [by intros m s|by intros m m' H s|intros m m' m'' H H' s; by rewrite H]. Qed.
Lemma gen_bind_equiv {A B} (m m' : Gen A) (k k' : A → Gen B) : m ≡ m' → (∀ x, k x ≡ k' x) → m ≫= k ≡ m' ≫= k'.
Proof. intros Hm Hk s. unfold mbind, gen_bind. rewrite Hm. by destruct (m' s); [apply Hk|..]. Qed.

(** The same generator on both sides. *)
Ltac grefl := match goal with |- ?m ≡ ?m => reflexivity end.
(** Follow the structure of both down to the generators that [leaf] relates. *)
Ltac gwalk leaf :=
  repeat first [grefl | leaf | lazymatch goal with |- _ ≫= _ ≡ _ => apply gen_bind_equiv; [|intros ?] end | case_match].
Ltac gnames := unfold tcg_gen_shli_vec, tcg_gen_shri_vec, tcg_gen_sari_vec, tcg_gen_shls_vec, tcg_gen_shrs_vec,
  tcg_gen_sub_vec, tcg_gen_mul_vec, tcg_gen_shlv_vec, tcg_gen_shrv_vec, tcg_gen_rotlv_vec.

Section SameHost.
Context (VH VH' : VecHost).
Context (Hh : TCG_TARGET_HAS_tst_vec VH = TCG_TARGET_HAS_tst_vec VH' ∧ tcg_can_emit_vec_op VH = tcg_can_emit_vec_op VH').

(** The hosts expand [opc] in the same way. *)
Definition same_expand (opc : VecOpcode) (vece : Z) : Prop :=
  ∀ type args, tcg_can_emit_vec_op VH opc type vece < 0 →
    tcg_expand_vec_op VH opc type vece args ≡ tcg_expand_vec_op VH' opc type vece args.

Lemma same_shifti op opc vece r a n :
  same_expand opc vece → gen_sym_shifti VH op opc vece r a n ≡ gen_sym_shifti VH' op opc vece r a n.
Proof.
  intros Hs. do 2 (apply gen_bind_equiv; [grefl|intros ?]). unfold do_shifti. do 4 (apply gen_bind_equiv; [grefl|intros ?]).
  case_match; [done|]. rewrite <- (proj2 Hh). case_match; [done|]. intros s. unfold mbind, gen_bind, tcg_debug_assert.
  destruct (tcg_can_emit_vec_op VH opc _ vece <? 0) eqn:E; [|done]. cbn. apply Hs. lia.
Qed.
Lemma same_shifts op opc vece r a b :
  same_expand opc vece → gen_sym_shifts VH op opc vece r a b ≡ gen_sym_shifts VH' op opc vece r a b.
Proof.
  intros Hs. apply gen_bind_equiv; [done|intros _]. unfold do_shifts. do 3 (apply gen_bind_equiv; [grefl|intros ?]).
  rewrite <- (proj2 Hh). case_match; [done|]. destruct (_ <? 0) eqn:E; [|done]. apply Hs. lia.
Qed.
Lemma same_op3 vece r a b opc : same_expand opc vece → do_op3 VH vece r a b opc ≡ do_op3 VH' vece r a b opc.
Proof.
  intros Hs. do 5 (apply gen_bind_equiv; [grefl|intros ?]). rewrite <- (proj2 Hh). cbv zeta. case_match; [done|].
  destruct (_ <? 0) eqn:E; [|done]. apply gen_bind_equiv; [|done]. apply Hs. lia.
Qed.
Lemma same_sym_op3 op opc vece r a b :
  same_expand opc vece → gen_sym_op3 VH op opc vece r a b ≡ gen_sym_op3 VH' op opc vece r a b.
Proof. intros Hs. apply gen_bind_equiv; [done|intros _]. apply gen_bind_equiv; [by apply same_op3|done]. Qed.
Lemma same_cmp env cond vece r a b :
  same_expand INDEX_op_cmp_vec vece → tcg_gen_cmp_vec VH env cond vece r a b ≡ tcg_gen_cmp_vec VH' env cond vece r a b.
Proof.
  intros Hs. do 7 (apply gen_bind_equiv; [grefl|intros ?]). rewrite <- (proj1 Hh), <- (proj2 Hh). cbv zeta.
  apply gen_bind_equiv; [done|intros [[[? ?] ?] ?]]. apply gen_bind_equiv; [|done]. case_match; [done|].
  intros s. unfold mbind, gen_bind, tcg_debug_assert. destruct (_ <? 0) eqn:E; [|done]. cbn. apply Hs. lia.
Qed.
(** An operation that is emitted is not a fallback. *)
Lemma same_emitted {A} vece r a b opc (k k' : bool → Gen A) :
  (∀ type, 0 < tcg_can_emit_vec_op VH opc type vece) → k true ≡ k' true →
  do_op3 VH vece r a b opc ≫= k ≡ do_op3 VH' vece r a b opc ≫= k'.
Proof.
  intros Hpos Hk s. unfold do_op3. rewrite <- (proj2 Hh). unfold mbind, gen_bind.
  destruct (base_type_of r s) as [type s1| |]; [|done..]. destruct (base_type_of a s1) as [? s2| |]; [|done..].
  destruct (base_type_of b s2) as [? s3| |]; [|done..]. do 2 (destruct (tcg_debug_assert _ _); [|done..]).
  cbv zeta. replace (0 <? _) with true by (specialize (Hpos type); lia). apply Hk.
Qed.
Lemma same_minmax env opc cond vece r a b :
  (∀ type, 0 < tcg_can_emit_vec_op VH opc type vece) →
  do_minmax VH env opc cond vece r a b ≡ do_minmax VH' env opc cond vece r a b.
Proof. intros Hs. do 2 (apply gen_bind_equiv; [grefl|intros ?]). apply same_emitted; [exact Hs|]. cbn [negb]. grefl. Qed.
End SameHost.

(** ** Expansions on x86 end *)

Section Depth.
Context (F : X86Features) (TT : Target) (env : nat).
Abbreviation can := (x86_can_emit_vec_op F).

Section Hosts.
Context (VH VH' : VecHost).
Context (Htst : TCG_TARGET_HAS_tst_vec VH = TCG_TARGET_HAS_tst_vec VH').
Context (H1 : tcg_can_emit_vec_op VH = can) (H2 : tcg_can_emit_vec_op VH' = can).

Lemma hosts_can : TCG_TARGET_HAS_tst_vec VH = TCG_TARGET_HAS_tst_vec VH' ∧ tcg_can_emit_vec_op VH = tcg_can_emit_vec_op VH'.
Proof. by rewrite Htst, H1, H2. Qed.
(** An operation that is never expanded. *)
Lemma emitted_same opc vece : (∀ type, 0 ≤ can opc type vece) → same_expand VH VH' opc vece.
Proof. intros Hc type args. rewrite H1. specialize (Hc type). lia. Qed.

Lemma minmax_used type vece cond fixup :
  cmp_fixup F type vece cond = Some fixup → needs fixup (Z.lor NEED_UMIN NEED_UMAX) = true →
  ∀ type, 0 < can (if needs fixup NEED_UMIN then INDEX_op_umin_vec else INDEX_op_umax_vec) type vece.
Proof.
  unfold cmp_fixup. cbn [x86_can_emit_vec_op]. intros Hf Hn ty. destruct ((vece <=? MO_32) || have_avx512vl F) eqn:E.
  - destruct (needs fixup NEED_UMIN); unfold x86_can_emit_vec_op; by rewrite E.
  - by destruct cond; cbn in Hf; simplify_eq.
Qed.
Lemma cmp_noinv_same type vece v0 v1 v2 cond :
  expand_vec_cmp_noinv F env VH type vece v0 v1 v2 cond ≡ expand_vec_cmp_noinv F env VH' type vece v0 v1 v2 cond.
Proof.
  unfold expand_vec_cmp_noinv. destruct (cmp_fixup F type vece cond) as [fixup|] eqn:Hf; [|done]. cbv zeta.
  destruct (if needs fixup NEED_SWAP then _ else _) as [[w1 w2] cond'].
  apply gen_bind_equiv; [|done]. destruct (needs fixup (Z.lor NEED_UMIN NEED_UMAX)) eqn:Hu.
  - apply gen_bind_equiv; [done|intros t]. apply gen_bind_equiv; [|done]. pose proof (minmax_used _ _ _ _ Hf Hu) as Hc. rewrite <- H1 in Hc.
    unfold tcg_gen_umin_vec, tcg_gen_umax_vec. destruct (needs fixup NEED_UMIN); apply (same_minmax VH VH' hosts_can), Hc.
  - unfold tcg_gen_sub_vec. case_match; [|grefl]. do 3 (apply gen_bind_equiv; [grefl|intros ?]).
    do 2 (apply gen_bind_equiv; [apply same_sym_op3; [apply hosts_can|by apply emitted_same]|intros ?]). grefl.
Qed.

(** The operations that expand into emitted ones. *)
Ltac emitted := apply emitted_same; intros ?; unfold x86_can_emit_vec_op; unfold MO_8, MO_16, MO_32, MO_64 in *; repeat case_match;
  unfold Z.b2z; repeat case_match; first [lia | done].
Ltac flat_leaf := idtac; lazymatch goal with
  | |- gen_sym_shifti _ _ _ _ _ _ _ ≡ _ => apply same_shifti; [apply hosts_can|emitted]
  | |- gen_sym_shifts _ _ _ _ _ _ _ ≡ _ => apply same_shifts; [apply hosts_can|emitted]
  | |- gen_sym_op3 _ _ _ _ _ _ _ ≡ _ => apply same_sym_op3; [apply hosts_can|emitted]
  | |- expand_vec_cmp_noinv _ _ _ _ _ _ _ _ _ ≡ _ => apply cmp_noinv_same
  end.

Definition flat (opc : VecOpcode) (vece : Z) : bool :=
  match opc with
  | INDEX_op_sari_vec => negb (vece =? MO_64)
  | INDEX_op_rotli_vec => negb (vece =? MO_8)
  | _ => true
  end.
Lemma flat_same opc type vece args :
  0 ≤ vece ≤ 3 → flat opc vece = true →
  x86_expand_vec_op F TT env VH opc type vece args ≡ x86_expand_vec_op F TT env VH' opc type vece args.
Proof.
  intros Hv Hf. unfold x86_expand_vec_op. destruct opc; try grefl; repeat (case_match; try grefl); subst; cbn in Hf.
  all: unfold expand_vec_shi, expand_vec_sari, expand_vec_rotli, expand_vec_rotls, expand_vec_rotv, expand_vec_mul,
    expand_vec_cmp, expand_vec_cmpsel; gnames; gwalk flat_leaf; try discriminate.
Qed.
End Hosts.

(** The other two expand into those. *)
Section Nested.
Context (VH VH' : VecHost).
Context (Htst : TCG_TARGET_HAS_tst_vec VH = TCG_TARGET_HAS_tst_vec VH').
Context (H1 : tcg_can_emit_vec_op VH = can) (H2 : tcg_can_emit_vec_op VH' = can).
Context (Hflat : ∀ opc vece, 0 ≤ vece ≤ 3 → flat opc vece = true → same_expand VH VH' opc vece).

Lemma nested_same opc type vece args :
  0 ≤ vece ≤ 3 → x86_expand_vec_op F TT env VH opc type vece args ≡ x86_expand_vec_op F TT env VH' opc type vece args.
Proof.
  intros Hv. destruct (flat opc vece) eqn:E; [by apply flat_same|]. pose proof (hosts_can VH VH' Htst H1 H2) as Hh.
  destruct opc; cbn in E; try discriminate; unfold x86_expand_vec_op; repeat (case_match; try grefl); subst.
  all: unfold expand_vec_sari, expand_vec_rotli; gnames; gwalk ltac:(idtac; lazymatch goal with
    | |- gen_sym_shifti _ _ _ _ _ _ _ ≡ _ => apply (same_shifti _ _ Hh), Hflat; done
    | |- tcg_gen_cmp_vec _ _ _ _ _ _ _ ≡ _ => apply (same_cmp _ _ Hh), Hflat; done
    end); unfold MO_8, MO_64 in *; try lia.
Qed.
End Nested.

Lemma x86_depth n opc type vece args :
  0 ≤ vece ≤ 3 →
  tcg_expand_vec_op (x86_vec_host F TT env (2 + n)) opc type vece args
  ≡ tcg_expand_vec_op (x86_vec_host F TT env 2) opc type vece args.
Proof.
  intros Hv. apply (nested_same (x86_vec_host F TT env (1 + n)) (x86_vec_host F TT env 1)); [done..| |done].
  intros o ve Hve Ho ty l _. apply (flat_same (x86_vec_host F TT env n) (x86_vec_host F TT env 0)); [by destruct n|..|done|done].
  all: by destruct n.
Qed.
End Depth.

(** ** Expansions on x86 that keep their promise *)

(** Subtracting the smallest signed number from both sides turns an unsigned
    comparison into a signed one. *)
Lemma biased w x y :
  0 < w → in_range w x → in_range w y → let b := 2 ^ (w - 1) in
  cond_holds w TCG_COND_GT (bv_sub w x b) (bv_sub w y b) = cond_holds w TCG_COND_GTU x y.
Proof.
  intros Hw Hx Hy b. assert (E : ∀ z, in_range w z → sgn w (bv_sub w z b) = z - b); [|cbn; rewrite !E by done; lia].
  intros z [Hz1 Hz2]. assert (Hp : 2 ^ w = 2 * b) by (subst b; rewrite <- Z.pow_succ_r by lia; f_equal; lia).
  unfold bv_sub, sgn. rewrite wrap_wrap by lia. fold b. destruct (Z.ltb_spec z b).
  - replace (wrap w (z - b)) with (z + b); [destruct (Z.ltb_spec (z + b) b); lia|].
    apply (Z.mod_unique _ _ (-1)); lia.
  - rewrite wrap_small by (split; lia). destruct (Z.ltb_spec (z - b) b); lia.
Qed.

Section X86Spec.
Context `{SL : ShadowLaws} {BL : BackendLaws B BS}.
Context (i : Input) (F : X86Features) (TT : Target) (env : nat).
Context (ty : VarType) (Hty : is_vec ty = true) (vece : Z) (Hvece : 0 ≤ vece ≤ 3).
Let size := var_width ty.
Let w := vece_element_size vece.
Let n := lane_count size vece.

(** The comparisons that need no inversion, minimum or maximum. *)
Definition direct_cond (cond : TCGCond) : bool :=
  match cond with
  | TCG_COND_EQ | TCG_COND_GT | TCG_COND_LT => true
  | TCG_COND_GTU | TCG_COND_LTU => (vece =? MO_64) && negb (have_avx512vl F)
  | _ => false
  end.

(** The last operation of the expansion. *)
Lemma wpv_cmp_op cond r a b ρ g (Q : unit → vars → ghost → Prop) v0 e0 c1 c2 :
  ρ !! r = Some (Var TEMP_EBB ty v0 e0) → (∃ k e, ρ !! a = Some (Var k ty (Num c1) e)) → (∃ k e, ρ !! b = Some (Var k ty (Num c2) e)) →
  Q tt (<[r := Var TEMP_EBB ty (Num (vmap2 n w (cmp_element w cond) c1 c2)) e0]> ρ) g →
  wpv i (vec_gen_4 INDEX_op_cmp_vec (type_of ty) vece (temp_arg r) (temp_arg a) (temp_arg b) (const_arg (cond_code cond))) ρ g Q.
Proof.
  intros Hr Ha Hb HQ. eapply (wpv_vec_op i INDEX_op_cmp_vec ty vece r [a; b] [cond_code cond]); [done..| |apply (cmp_size ty Hty vece Hvece cond c1 c2)| |exact HQ].
  - by repeat constructor.
  - fold size w n. unfold vec_op_val. cbn. by rewrite cond_of_code_code.
Qed.

Lemma cmp_swapped cond a b : vmap2 n w (cmp_element w (tcg_swap_cond cond)) b a = vmap2 n w (cmp_element w cond) a b.
Proof.
  unfold vmap2. f_equal. rewrite <- zip_with_flip. apply zip_with_ext; [|done..]. intros x y. unfold flip, cmp_element.
  by rewrite cond_holds_swap.
Qed.
Lemma lane_vdup x k : (k < n)%nat → lane vece (vdup n w x) k = wrap w x.
Proof.
  intros Hk. pose proof (w_pos ty vece Hty Hvece) as Hw. fold w in Hw. unfold vdup.
  assert (E : lanes n w (Lanes.join w (replicate n (wrap w x))) = replicate n (wrap w x)).
  { rewrite <- (length_replicate n (wrap w x)) at 1. apply lanes_join; [done|]. apply Forall_replicate, wrap_range. lia. }
  apply (f_equal (λ l, l !! k)) in E. rewrite (lanes_lane ty Hty vece Hvece), list_lookup_fmap, lookup_seq_lt, lookup_replicate_2 in E by done.
  by injection E.
Qed.
Lemma cmp_biased a b :
  let bias x := vmap2 n w (bv_sub w) x (vdup n w (2 ^ (w - 1))) in
  vmap2 n w (cmp_element w TCG_COND_GT) (bias a) (bias b) = vmap2 n w (cmp_element w TCG_COND_GTU) a b.
Proof.
  intros bias. pose proof (w_pos ty vece Hty Hvece) as Hw. fold w in Hw.
  assert (Rs : ∀ x y, in_range w x → in_range w y → in_range w (bv_sub w x y)) by (intros; apply wrap_range; lia).
  assert (Rc : ∀ c x y, in_range w x → in_range w y → in_range w (cmp_element w c x y)) by (intros; apply cmp_element_range; lia).
  apply (lanes_inj ty Hty vece Hvece); [apply (cmp_size ty Hty vece Hvece)..|]. intros k Hk. subst bias. cbn beta.
  fold size w n in Hk |- *. rewrite !(lane_vmap2 ty Hty vece Hvece) by auto. fold n. rewrite !lane_vdup by done.
  unfold cmp_element. rewrite wrap_small, biased; [done|done|apply (lane_range ty Hty vece Hvece)..|].
  pose proof (pow2_pos (w - 1)). assert (2 ^ w = 2 * 2 ^ (w - 1)) by (rewrite <- Z.pow_succ_r by lia; f_equal; lia). split; lia.
Qed.
(** Both operands biased, in new temporaries. *)
Lemma spec_biased {A} VH a b ρ g (k : nat → nat → Gen A) (Q : A → vars → ghost → Prop) c1 x1 c2 x2 :
  tcg_can_emit_vec_op VH = x86_can_emit_vec_op F → vsrc ρ a ty c1 x1 → vsrc ρ b ty c2 x2 →
  let bias x := vmap2 n w (bv_sub w) x (vdup n w (2 ^ (w - 1))) in
  (∀ t1 t2 ρ' m e1 e2, ρ ⊆ ρ' → ρ !! t1 = None → ρ !! t2 = None → t1 ≠ t2 →
     ρ' !! t1 = Some (Var TEMP_EBB ty (Num (bias c1)) e1) → ρ' !! t2 = Some (Var TEMP_EBB ty (Num (bias c2)) e2) →
     wpv i (k t1 t2) ρ' (spent m g) Q) →
  wpv i (t1 ← tcg_temp_new_vec (type_of ty);
       t2 ← tcg_temp_new_vec (type_of ty);
       t3 ← tcg_constant_vec (type_of ty) vece (Z.shiftl 1 (Z.shiftl 8 vece - 1));
       tcg_gen_sub_vec VH vece t1 a t3;;
       tcg_gen_sub_vec VH vece t2 b t3;;
       k t1 t2) ρ g Q.
Proof.
  intros Hcan Ha Hb bias HQ.
  apply wpv_bind, wpv_temp_new; [by left|]. intros t1 N1. apply wpv_bind, wpv_temp_new; [by left|]. intros t2 N2.
  apply wpv_bind, spec_constant_vec; [done|done|]. intros z ρ1 u Hs Hz _ Hc.
  change (Z.shiftl 8 vece) with w in Hc. rewrite Z.shiftl_1_l in Hc. apply wpv_bind.
  assert (Hs1 : ρ ⊆ ρ1) by (etrans; [|exact Hs]; by do 2 (etrans; [|apply insert_subseteq; done])).
  assert (t1 ≠ t2) by (intros ->; by rewrite lookup_insert_eq in N2). rewrite lookup_insert_ne in N2 by done.
  assert (L1 : ρ1 !! t1 = Some (fresh_var TEMP_EBB ty)).
  { eapply lookup_weaken; [|exact Hs]. by rewrite lookup_insert_ne, lookup_insert_eq by done. }
  assert (L2 : ρ1 !! t2 = Some (fresh_var TEMP_EBB ty)) by (eapply lookup_weaken; [apply lookup_insert_eq|exact Hs]).
  assert (t1 ≠ a ∧ t1 ≠ b ∧ t2 ≠ a ∧ t2 ≠ b) as (? & ? & ? & ?) by (repeat split; vne).
  assert (z ≠ t1) by (by eapply const_ne). assert (z ≠ t2) by (by eapply const_ne).
  assert (Hd1 : vdst ρ1 t1 ty) by (by eexists _, _). assert (Hd2 : vdst ρ1 t2 ty) by (by eexists _, _).
  assert (Ha1 : vsrc ρ1 a ty c1 x1) by (by eapply vsrc_weaken). assert (Hb1 : vsrc ρ1 b ty c2 x2) by (by eapply vsrc_weaken).
  eapply (spec_arith i ty vece Hty Hvece VH SYM_VEC_sub INDEX_op_sub_vec); [by repeat constructor|left; by rewrite Hcan|vx|vx|vx|done|].
  intros m1. apply wpv_bind.
  eapply (spec_arith i ty vece Hty Hvece VH SYM_VEC_sub INDEX_op_sub_vec); [by repeat constructor|left; by rewrite Hcan|vx|vx|vx|done|].
  intros m2. fold size w n. cbn [vec_meaning]. rewrite spent_spent. eapply HQ; [|done|done|done|lk|lk].
  by do 2 (apply insert_subseteq_r; [done|]).
Qed.
Lemma direct_fixup type cond :
  direct_cond cond = true →
  cmp_fixup F type vece cond = Some (match cond with
    | TCG_COND_LT => NEED_SWAP | TCG_COND_GTU => NEED_BIAS | TCG_COND_LTU => Z.lor NEED_BIAS NEED_SWAP | _ => 0 end).
Proof.
  destruct cond; try done; cbn [direct_cond]; intros [E1 E2]%andb_true_iff; apply Z.eqb_eq in E1; apply negb_true_iff in E2;
    unfold cmp_fixup, x86_can_emit_vec_op; by rewrite E1, E2.
Qed.
(** The comparison of two operands as they are. *)
Ltac plain c :=
  apply wpv_bind, wpv_assert; [done|]; apply wpv_bind; eapply (wpv_cmp_op c); [done..|];
  apply wpv_bind, wpv_ret, wpv_ret, wpv_ret; rewrite <- (spent_0 _).
Lemma spec_cmp_direct VH cond r a b ρ g (Q : unit → vars → ghost → Prop) v0 e0 c1 x1 c2 x2 :
  tcg_can_emit_vec_op VH = x86_can_emit_vec_op F → direct_cond cond = true →
  ρ !! r = Some (Var TEMP_EBB ty v0 e0) → vsrc ρ a ty c1 x1 → vsrc ρ b ty c2 x2 →
  (∀ m, Q tt (<[r := Var TEMP_EBB ty (Num (vmap2 n w (cmp_element w cond) c1 c2)) e0]> ρ) (spent m g)) →
  wpv i (expand_vec_cmp F env VH (type_of ty) vece r a b cond) ρ g Q.
Proof.
  intros Hcan Hdir Hr Ha Hb HQ. apply wpv_post.
  assert (Va : ∃ k e, ρ !! a = Some (Var k ty (Num c1) e)) by (by eapply vsrc_value).
  assert (Vb : ∃ k e, ρ !! b = Some (Var k ty (Num c2) e)) by (by eapply vsrc_value).
  unfold expand_vec_cmp, expand_vec_cmp_noinv. rewrite direct_fixup by done. destruct cond; try discriminate Hdir.
  - apply wpv_bind, wpv_bind, wpv_ret. plain TCG_COND_EQ. vend HQ.
  - apply wpv_bind, (wpv_bind i (mret ([], b, a, TCG_COND_GT))), wpv_ret. plain TCG_COND_GT.
    rewrite <- (cmp_swapped TCG_COND_LT) in HQ. vend HQ.
  - apply wpv_bind, wpv_bind, wpv_ret. plain TCG_COND_GT. vend HQ.
  - apply wpv_bind, wpv_bind. eapply (spec_biased VH b a _ _ (λ t1 t2, mret ([t1; t2], t1, t2, TCG_COND_GT))); [done..|].
    intros t1 t2 ρ1 m e1 e2 Hs N1 N2 Ne L1 L2. apply wpv_ret. apply wpv_bind, wpv_assert; [done|]. apply wpv_bind.
    eapply (wpv_cmp_op TCG_COND_GT); [lk|by eexists _, _|by eexists _, _|]. rewrite cmp_biased. apply wpv_bind, wpv_bind.
    eapply wpv_temp_free; [lk|done|]. eapply wpv_temp_free; [lk|done|]. apply wpv_ret, wpv_ret. rewrite <- (cmp_swapped TCG_COND_LTU) in HQ. vend HQ.
  - apply wpv_bind, wpv_bind. eapply (spec_biased VH a b _ _ (λ t1 t2, mret ([t1; t2], t1, t2, TCG_COND_GT))); [done..|].
    intros t1 t2 ρ1 m e1 e2 Hs N1 N2 Ne L1 L2. apply wpv_ret. apply wpv_bind, wpv_assert; [done|]. apply wpv_bind.
    eapply (wpv_cmp_op TCG_COND_GT); [lk|by eexists _, _|by eexists _, _|]. rewrite cmp_biased. apply wpv_bind, wpv_bind.
    eapply wpv_temp_free; [lk|done|]. eapply wpv_temp_free; [lk|done|]. apply wpv_ret, wpv_ret. vend HQ.
Qed.

Lemma x86_cmp_ready d cond r a b :
  direct_cond cond = true → cmp_ready i ty vece (x86_vec_host F TT env (S d)) cond r a b.
Proof.
  intros Hdir. right. split; [done|]. intros ρ g Q v0 e0 c1 x1 c2 x2 Hr Ha Hb HQ.
  cbn [x86_vec_host tcg_expand_vec_op x86_expand_vec_op]. rewrite cond_cast_code.
  eapply (spec_cmp_direct (x86_vec_host F TT env d)); [by destruct d|done..|]. intros m. by apply HQ.
Qed.

(** A rotation to the left is two shifts, in every lane. *)
Lemma vmap_rol a s : in_range size a → 0 < s < w →
  Z.lor (vmap n w (λ x, bv_lshr w x (w - s)) a) (vmap n w (λ x, bv_shl w x s) a) = vmap n w (λ x, rol w x s) a.
Proof.
  intros Ha Hs. pose proof (w_pos ty vece Hty Hvece) as Hw. pose proof (size_lanes ty vece Hty Hvece) as Hsz. fold size w n in Hw, Hsz.
  assert (R1 : ∀ x, in_range w x → in_range w (bv_lshr w x (w - s))) by (intros; apply shiftr_range; done || lia).
  assert (R2 : ∀ x, in_range w x → in_range w (bv_shl w x s)) by (intros; apply wrap_range; lia).
  assert (R3 : ∀ x, in_range w x → in_range w (rol w x s)) by (intros; apply rol_range; lia).
  apply (lanes_inj ty Hty vece Hvece); [fold size; rewrite Hsz; apply lor_range; [lia|by apply vmap_range..]|fold size; rewrite Hsz; by apply vmap_range|].
  intros k Hk. rewrite (lane_bits ty Hty vece Hvece) by apply lor_bitwise. rewrite !(lane_vmap ty Hty vece Hvece) by done.
  rewrite Z.lor_comm. symmetry. apply rol_shifts; [by apply (vec_width ty Hty)|by apply (lane_range ty Hty vece Hvece)|lia].
Qed.

Lemma x86_rotli_ready d s r a :
  2 ≤ vece → have_avx512vl F = false → have_avx512vbmi2 F = false → 0 < s < w → r ≠ a →
  shifti_ready i ty vece (x86_vec_host F TT env (S d)) INDEX_op_rotli_vec (vmap n w (λ x, rol w x s)) s r a.
Proof.
  intros Hv2 HF1 HF2 Hs Hne. right. split; [cbn; by rewrite HF1|]. split; [done|].
  intros r' a' ρ g Q v0 e0 c x Hne' Hr Ha HQ. apply wpv_post. cbn [x86_vec_host tcg_expand_vec_op x86_expand_vec_op].
  unfold expand_vec_rotli. rewrite HF2, andb_false_r.
  set (ρ0 := <[r' := _]> ρ). assert (Hd : vdst ρ0 r' ty) by apply vdst_here.
  apply wpv_bind, wpv_temp_new; [by left|]. intros t Nt. assert (Ha0 : vsrc ρ0 a' ty c x) by (by apply vsrc_other).
  assert (t ≠ r' ∧ t ≠ a') as [? ?] by (split; vne). destruct Ha as (_ & Rc & Rx).
  assert (Hcan : ∀ opc, opc ∈ [INDEX_op_shli_vec; INDEX_op_shri_vec] → 0 < tcg_can_emit_vec_op (x86_vec_host F TT env d) opc (type_of ty) vece).
  { intros opc Ho. replace (tcg_can_emit_vec_op _) with (x86_can_emit_vec_op F) by (by destruct d).
    apply elem_of_cons in Ho as [->|[->|[]%not_elem_of_nil]%elem_of_cons]; cbn; unfold MO_8; by case_match; [lia|]. }
  assert (R1 : ∀ y, in_range size (vmap n w (λ x, bv_lshr w x (w - s)) y)).
  { intros y. pose proof (size_lanes ty vece Hty Hvece) as Hsz. fold size w n in Hsz. rewrite Hsz. apply vmap_range; [lia|].
    intros. apply shiftr_range; done || lia. }
  assert (R2 : ∀ y, in_range size (vmap n w (λ x, bv_shl w x s) y)).
  { intros y. pose proof (size_lanes ty vece Hty Hvece) as Hsz. fold size w n in Hsz. rewrite Hsz. apply vmap_range; [lia|].
    intros. apply wrap_range. lia. }
  apply wpv_bind. eapply (spec_shifti i ty Hty vece Hvece _ SYM_VEC_shift_left); [by repeat constructor|done|fold w; lia| |vx|vx|].
  { left. apply Hcan. by repeat constructor. }
  intros m1. cbn [vec_meaning]. fold size w n. apply wpv_bind. change (Z.shiftl 8 vece) with w.
  eapply (spec_shifti i ty Hty vece Hvece _ SYM_VEC_logical_shift_right); [by repeat constructor|done|fold w; lia| |vx|vx|].
  { left. apply Hcan. by repeat constructor. }
  intros m2. cbn [vec_meaning]. fold size w n. apply wpv_bind.
  eapply (spec_or_vec i ty vece Hty Hvece); [done|vx|vx; apply R1|vx; apply R2|done|]. intros m3. rewrite !vmap_rol by done.
  eapply wpv_temp_free; [lk|done|]. subst ρ0. rewrite lookup_insert_ne in Nt by done. vend HQ.
Qed.
End X86Spec.
