(* ===== verification/HelperTheorems.v ===== *)
(** What the symbolic helpers promise ([accel/tcg/tcg-runtime-sym.c] and
    [tcg-runtime-sym-common.c]).

    Each theorem says: when the expressions of the operands are right for the
    inputs [i], the helper returns, without failing an assertion, an expression
    that is right for the result; NULL stands for a value that does not depend
    on the inputs.  The witnesses apply them to the backend of [Denot]. *)
From S2P Require Import Prelude Cond Bitops Backend SymHelpers SymMemory Ops Temps Exec Logic.

(** ** The inputs of the witnesses *)

(** Variable [k] has the value [7 + k]. *)
Definition sample_input : Input (BackendSem := Denot.sem) := λ k : nat, 7 + Z.of_nat k.
Abbreviation sym32 k := (Some (Denot.var 32 k) : option (SymExpr (SymBackend := Denot.backend))).
Abbreviation sym64 k := (Some (Denot.var 64 k) : option (SymExpr (SymBackend := Denot.backend))).
(** A 64-bit guest whose addresses are those of the host. *)
Definition flat_guest : Guest := mkGuest (λ _ _ a, Some a) 64 0.

Definition sample_mem (a : Z) : Z := wrap 8 (3 * a).
Definition sample_shadow (k : Z) : option Denot.expr := if k =? 100 then Some (Denot.var 8 0) else None.

Lemma sample_bytes : bytes sample_mem.
Proof. intros k. by apply wrap_range. Qed.

Ltac sample := first [apply sample_bytes | done | by right | by left | lia | by (split; [|split])].

Section Helpers.
Context `{BL : BackendLaws}.
Implicit Types (i : Input) (o : option SymExpr).

(** C6: every two-operand helper (arithmetic, logic, shifts, rotations,
    divisions) gives the expression of its operation at width 32 or 64, for
    divisors that are not zero and rotations by less than the width. *)
Theorem binary_helpers_sound h i w c1 x1 o1 c2 x2 o2 :
  reg_width w → in_range w c1 → in_range w c2 → binary_domain h w x2 →
  shadows i w c1 x1 o1 → shadows i w c2 x2 o2 →
  computes (helper_sym_binary h c1 o1 c2 o2) i w (binary_meaning h w c1 c2) (binary_meaning h w x1 x2).
Proof. apply binary_helper_correct. Qed.

(** sign and zero extension from a number of bytes, the conversions between
    the two types, negation and complement give the expressions of their
    operations; the byte-swap helper reverses the low two, four or eight bytes
    of the expression, where narrower swaps need an operand that has no higher
    bits. *)
Theorem unary_helpers_sound i w c x o len :
  reg_width w → shadows i w c x o →
  (0 < len < 8 → 8 * len ≤ w →
   computes (helper_sym_sext o len) i w (wrap w (sgn (8 * len) c)) (wrap w (sgn (8 * len) x)) ∧
   computes (helper_sym_zext o len) i w (wrap (8 * len) c) (wrap (8 * len) x)) ∧
  (bswap_domain w len x → computes (helper_sym_bswap o len) i w (bswap_val len c) (bswap_val len x)) ∧
  computes (helper_sym_not o) i w (bv_not w c) (bv_not w x) ∧
  computes (helper_sym_neg o) i w (bv_neg w c) (bv_neg w x) ∧
  (w = 32 → computes (helper_sym_sext_i32_i64 o) i 64 (wrap 64 (sgn 32 c)) (wrap 64 (sgn 32 x)) ∧
            computes (helper_sym_zext_i32_i64 o) i 64 c x) ∧
  (w = 64 → computes (helper_sym_trunc_i64_i32 o) i 32 (wrap 32 c) (wrap 32 x)).
Proof.
  intros Hw Hs. split; [intros Hl Hlw; split; [apply sext_correct; (done || lia)|by apply zext_correct]|].
  split; [intros Hd; by apply bswap_correct|]. split; [by apply not_correct|]. split; [by apply neg_correct|].
  split; [intros ->; by apply extend_correct|intros ->; by apply trunc_correct].
Qed.

(** the bit-field helpers give the expressions of the zero- and sign-extended
    field, of the value with a field replaced, and of the double-word extract. *)
Theorem field_helpers_sound i w c1 x1 o1 c2 x2 o2 ofs len :
  reg_width w → in_range w c1 → in_range w c2 → field_ok w ofs len = true → len < w →
  shadows i w c1 x1 o1 → shadows i w c2 x2 o2 →
  computes (helper_sym_extract o1 ofs len) i w (wrap len (Z.shiftr c1 ofs)) (wrap len (Z.shiftr x1 ofs)) ∧
  computes (helper_sym_sextract o1 ofs len) i w
    (wrap w (sgn len (Z.shiftr c1 ofs))) (wrap w (sgn len (Z.shiftr x1 ofs))) ∧
  computes (helper_sym_deposit w c1 o1 c2 o2 ofs len) i w (put_field c1 ofs len c2) (put_field x1 ofs len x2) ∧
  computes (helper_sym_extract2 w c1 o1 c2 o2 ofs) i w (extract2_val w c1 c2 ofs) (extract2_val w x1 x2 ofs).
Proof.
  intros Hw H1 H2 Hf Hl S1 S2. split; [by apply extract_correct|]. split; [by apply sextract_correct|].
  split; [by apply deposit_correct|]. apply extract2_correct; try done.
  apply field_ok_spec in Hf. lia.
Qed.

(** a comparison gives the expression of its truth value and, when an
    operand is symbolic, pushes exactly one path constraint: the condition,
    with the outcome of the concrete run. *)
Theorem setcond_helper_sound i w r c1 x1 o1 c2 x2 o2 cond taken pc t :
  reg_width w → reg_width r → in_range w c1 → in_range w c2 → cond_proper cond = true →
  shadows i w c1 x1 o1 → shadows i w c2 x2 o2 →
  traces (sym_setcond_internal pc c1 o1 c2 o2 cond taken r t) t i r
    (Z.b2z (cond_holds w cond c1 c2)) (Z.b2z (cond_holds w cond x1 x2))
    (cond_holds w cond x1 x2) taken pc.
Proof. apply setcond_correct. Qed.

(** The conditional-move helper pushes the constraint of its condition, but
    the expression it returns masks both alternatives with the same condition:
    it denotes their difference when the condition holds and zero otherwise,
    never the alternative that is selected. *)
Lemma movcond_helper_masks i w c1 x1 o1 c2 x2 o2 v1 y1 p1 v2 y2 p2 cond taken pc t :
  reg_width w → in_range w c1 → in_range w c2 → in_range w v1 → in_range w v2 → cond_proper cond = true →
  shadows i w c1 x1 o1 → shadows i w c2 x2 o2 → shadows i w v1 y1 p1 → shadows i w v2 y2 p2 →
  is_Some o1 ∨ is_Some o2 →
  ∃ e e', sym_movcond_internal pc c1 o1 c2 o2 v1 p1 v2 p2 cond taken w t
            = Ok (Some e, t ++ [PathConstraint e' (wrap 8 taken) pc]) ∧
    denb i e' (cond_holds w cond x1 x2) ∧
    den i w e (if cond_holds w cond x1 x2 then Z.lxor y1 y2 else 0).
Proof. apply movcond_masks. Qed.
End Helpers.

Lemma binary_helpers_sound_witness :
  computes (helper_sym_binary (B := Denot.backend) SYM_mul 10 (sym32 0) 3 None) sample_input 32 30 21.
Proof.
  apply (binary_helpers_sound (BL := Denot.laws) SYM_mul sample_input 32 10 7 (sym32 0) 3 3 None); sample.
Defined.
Lemma unary_helpers_sound_witness :
  computes (helper_sym_sext (sym32 0) 1) sample_input 32 0xfffffff0 7.
Proof.
  destruct (unary_helpers_sound (BL := Denot.laws) sample_input 32 0xf0 7 (sym32 0) 1) as [H _]; [sample..|].
  apply H; sample.
Defined.

Lemma field_helpers_sound_witness :
  computes (helper_sym_deposit 32 0xffff (sym32 0) 5 (sym32 1) 8 8) sample_input 32 0x05ff 0x0807.
Proof.
  apply (field_helpers_sound (BL := Denot.laws) sample_input 32 0xffff 7 (sym32 0) 5 8 (sym32 1) 8 8); sample.
Defined.

Lemma setcond_helper_sound_witness :
  traces (sym_setcond_internal 0x400000 10 (sym64 0) 8 None TCG_COND_LTU 0 64 []) [] sample_input
    64 0 1 true 0 0x400000.
Proof.
  apply (setcond_helper_sound (BL := Denot.laws) sample_input 64 64 10 7 (sym64 0) 8 8 None TCG_COND_LTU 0
    0x400000 []); sample.
Defined.

Lemma movcond_helper_masks_witness :
  ∃ e e', sym_movcond_internal 0 7 (sym64 0) 9 None 1 None 2 None TCG_COND_LTU 1 64 []
            = Ok (Some e, [PathConstraint e' 1 0]) ∧
    denb sample_input e' true ∧ den sample_input 64 e 3.
Proof.
  apply (movcond_helper_masks (BL := Denot.laws) sample_input 64 7 7 (sym64 0) 9 9 None 1 1 None 2 2 None
    TCG_COND_LTU 1 0 []); sample.
Defined.

(** ** Symbolic memory *)

Section Memory.
Context `{SL : ShadowLaws} {BL : BackendLaws B BS}.
Implicit Types (i : Input) (o : option SymExpr) (sh : Shadow) (m : Mem).

(** the host load helpers give the expression of the little-endian value of
    the bytes at the address, zero-extended to the result, where the symbolic
    memory has the alternative value of every byte. *)
Theorem load_host_helpers_sound i sh m addr ofs n :
  0 < n ≤ 4 → bytes m →
  let a := wrap 64 (addr + ofs) in
  let now := le_join (Z.to_nat n) m a in
  let alt := le_join (Z.to_nat n) (alt_byte i sh m) a in
  shadows i 32 now alt (helper_sym_load_host_i32 sh m addr ofs n) ∧
  shadows i 64 now alt (helper_sym_load_host_i64 sh m addr ofs n) ∧
  shadows i (8 * n) now alt (helper_sym_load_host_vec sh m addr ofs n).
Proof.
  intros Hn Hm. split; [apply (load_host_correct i sh m addr ofs n 4); (done || lia)|].
  split; [apply (load_host_correct i sh m addr ofs n 8); (done || lia)|].
  apply (load_host_correct i sh m addr ofs n n); (done || lia).
Qed.

(** C8: a load that follows a store to the same address sees the low bytes of the
    stored value, in the concrete run and under the inputs considered; the
    store changes no other byte of either view. *)
Theorem store_load_roundtrip i sh m addr ofs n c x o :
  0 < n ≤ 8 → bytes m → shadows i 64 c x o →
  let a := wrap 64 (addr + ofs) in
  let sh' := helper_sym_store_host sh o addr ofs n in
  let m' := store_bytes m a n c in
  shadows i 64 (wrap (8 * n) c) (wrap (8 * n) x) (helper_sym_load_host_i64 sh' m' addr ofs n) ∧
  ∀ k, ¬ (a ≤ k < a + n) → m' k = m k ∧ alt_byte i sh' m' k = alt_byte i sh m k.
Proof.
  intros Hn Hm Hs a sh' m'.
  pose proof (load_host_correct i sh' m' addr ofs n 8 ltac:(lia) ltac:(lia) (store_bytes_range _ _ _ _ Hm)) as H.
  pose proof (store_correct i sh m a n 64 c x o ltac:(lia) ltac:(lia) Hs) as Halt. cbv zeta in H. fold a in H. split.
  - rewrite (le_join_ext _ (alt_byte i sh' m') (store_bytes (alt_byte i sh m) a n x)) in H by (intros; apply Halt).
    unfold m' in H at 1. by rewrite !load_store_bytes in H by lia.
  - intros k Hk. unfold sh', helper_sym_store_host. fold a. unfold m'. rewrite Halt. unfold store_bytes.
    by replace ((a <=? k) && (k <? a + n)) with false by lia.
Qed.

(** a guest load gives the expression of the bytes at the translated address
    and pins a symbolic address to its concrete value: the path condition gains
    exactly that equation. *)
Theorem load_guest_sound i tlb pc sh m addr xa oa n t :
  0 < n ≤ 8 → bytes m → in_range 64 addr → shadows i 64 addr xa oa →
  let '(o, t') := helper_sym_load_guest_i64 tlb pc 64 sh m addr oa n t in
  shadows i 64 (le_join (Z.to_nat n) m (tlb addr)) (le_join (Z.to_nat n) (alt_byte i sh m) (tlb addr)) o ∧
  path_holds i t' = path_holds i t && (xa =? addr).
Proof.
  intros Hn Hm Ha Hs. unfold helper_sym_load_guest_i64. rewrite wrap_small by done.
  pose proof (load_guest_correct i tlb pc 64 sh m addr oa n 8 t ltac:(lia) ltac:(lia) Hm) as H.
  unfold sym_load_guest_internal in *. split; [exact H|]. by apply pin_address_path.
Qed.
End Memory.

Lemma load_host_helpers_sound_witness :
  shadows sample_input 64 12076 12039
    (helper_sym_load_host_i64 (SM := DenotMem.shadow) sample_shadow sample_mem 90 10 2).
Proof.
  destruct (load_host_helpers_sound (BL := Denot.laws) (SL := DenotMem.shadow_laws) sample_input sample_shadow
    sample_mem 90 10 2) as (_ & H & _); [sample..|exact H].
Defined.

Lemma store_load_roundtrip_witness :
  shadows sample_input 64 0xcdef 7
    (helper_sym_load_host_i64 (SM := DenotMem.shadow)
       (helper_sym_store_host (SM := DenotMem.shadow) sample_shadow (sym64 0) 90 10 2)
       (store_bytes sample_mem 100 2 0x89abcdef) 90 10 2).
Proof.
  destruct (store_load_roundtrip (BL := Denot.laws) (SL := DenotMem.shadow_laws) sample_input sample_shadow sample_mem
    90 10 2 0x89abcdef 7 (sym64 0)) as (H & _); [sample..|exact H].
Defined.

Lemma load_guest_sound_witness :
  let '(o, t') := helper_sym_load_guest_i64 (SM := DenotMem.shadow) (λ a, a + 90) 0 64 sample_shadow sample_mem
    10 (sym64 3) 2 [] in
  shadows sample_input 64 12076 12039 o ∧ path_holds sample_input t' = true.
Proof.
  apply (load_guest_sound (BL := Denot.laws) (SL := DenotMem.shadow_laws) sample_input (λ a, a + 90) 0 sample_shadow
    sample_mem 10 10 (sym64 3) 2 []); sample.
Defined.
