(* ===== verification/CoreTheorems.v ===== *)
(** What the other components promise: the conditions ([include/tcg/tcg-cond.h]),
    the bit operations ([include/qemu/bitops.h], [host-utils.h], [bswap.h]), the
    interpreter ([tcg/tci.c]), and the temporaries of [tcg/tcg.c]. *)
From S2P Require Import Prelude Cond Bitops Backend SymHelpers SymMemory Ops Temps Exec Logic Calls Vars Block.

(** ** Conditions *)

(** inverting a condition negates it and swapping it exchanges its operands,
    on every pair of values; the result of either is a code of the enumeration,
    as the casts of the code assume; a test is an equality of the conjunction. *)
Theorem cond_operations w c a b :
  cond_holds w (tcg_invert_cond c) a b = negb (cond_holds w c a b) ∧
  cond_holds w (tcg_swap_cond c) a b = cond_holds w c b a ∧
  cond_code (tcg_invert_cond c) = Z.lxor (cond_code c) 1 ∧
  cond_code (tcg_swap_cond c) = Z.lxor (cond_code c) (Z.shiftl (Z.land (cond_code c) 2) 1) ∧
  (if is_tst_cond c then cond_holds w (tcg_tst_eqne_cond c) (Z.land a b) 0 = cond_holds w c a b else True).
Proof.
  split; [apply cond_holds_invert|]. split; [apply cond_holds_swap|]. destruct (cond_cast_exact c).
  split; [done|]. split; [done|]. destruct (is_tst_cond c) eqn:E; [by apply cond_holds_tst_eqne|done].
Qed.

(** a comparison of double words is decided by [tcg_high_cond] on the high
    words when these differ, and by [tcg_unsigned_cond] on the low words when
    they are equal. *)
Theorem double_word_comparison v c ah al bh bl :
  0 < v → is_tst_cond c = false →
  in_range v ah → in_range v al → in_range v bh → in_range v bl →
  cond_holds (2 * v) c (ah * 2 ^ v + al) (bh * 2 ^ v + bl)
  = if ah =? bh then cond_holds v (tcg_unsigned_cond c) al bl else cond_holds v (tcg_high_cond c) ah bh.
Proof. apply cond_holds_double. Qed.
Lemma double_word_comparison_witness :
  cond_holds (2 * 32) TCG_COND_LT (0xffffffff * 2 ^ 32 + 5) (1 * 2 ^ 32 + 5)
  = cond_holds 32 TCG_COND_LT 0xffffffff 1.
Proof. apply (double_word_comparison 32 TCG_COND_LT 0xffffffff 5 1 5); done. Defined.

(** ** Bit operations *)

(** a field is extracted and deposited as specified when it lies within the
    word, and the assertion fails otherwise; what was deposited is what is
    extracted, and depositing what was extracted changes nothing. *)
Theorem fields_roundtrip w v s l f :
  is_width w → in_range w v →
  if field_ok w s l then
    extract w v s l = Ok (wrap l (Z.shiftr v s)) ∧
    sextract w v s l = Ok (sgn l (Z.shiftr v s)) ∧
    (v' ← deposit w v s l f; extract w v' s l) = Ok (wrap l f) ∧
    (f' ← extract w v s l; deposit w v s l f') = Ok v
  else extract w v s l = Abort ∧ sextract w v s l = Abort ∧ deposit w v s l f = Abort.
Proof.
  intros Hw Hv. pose proof (width_pos w Hw). destruct (field_ok w s l) eqn:E.
  - pose proof (proj1 (field_ok_spec w s l) E).
    rewrite extract_eq, sextract_eq, deposit_eq by done. split; [done|]. split; [done|]. cbn.
    split.
    + rewrite extract_eq by (done || auto with range). by rewrite extract_put_field by lia.
    + rewrite deposit_eq by done. by rewrite put_field_wrap, put_field_extract by lia.
  - unfold extract, sextract, deposit. by rewrite E.
Qed.
Lemma fields_roundtrip_witness :
  (v' ← deposit 32 0xaaaaaaaa 4 8 0x155; extract 32 v' 4 8) = Ok 0x55.
Proof.
  destruct (fields_roundtrip 32 0xaaaaaaaa 4 8 0x155) as (_ & _ & H & _); [|done|exact H].
  unfold is_width. lia.
Defined.

(** rotation moves bit [j] to bit [j + s] modulo the width, for any amount,
    and the two directions undo each other; a byte swap reverses the bytes and is
    its own inverse. *)
Theorem rotations_and_swaps w x s j n v :
  is_width w → in_range w x → in_range (8 * Z.of_nat n) v →
  (0 ≤ j < w →
   Z.testbit (rol w x s) j = Z.testbit x ((j - s) mod w) ∧ Z.testbit (ror w x s) j = Z.testbit x ((j + s) mod w)) ∧
  ror w (rol w x s) s = x ∧ rol w x (- s) = ror w x s ∧
  (0 ≤ j < 8 * Z.of_nat n →
   Z.testbit (bswap_bytes n v) j = Z.testbit v (8 * (Z.of_nat n - 1 - j / 8) + j mod 8)) ∧
  bswap_bytes n (bswap_bytes n v) = v.
Proof.
  intros Hw Hx Hv. split; [intros Hj; split; [by apply testbit_rol|by apply testbit_ror]|].
  split; [by apply ror_rol|]. split; [by apply rol_ror_neg|]. split; [|by apply bswap_involutive].
  intros Hj. rewrite testbit_bswap by lia. by replace (j <? 8 * Z.of_nat n) with true by lia.
Qed.
Lemma rotations_and_swaps_witness :
  ror32 (rol32 0x80000001 36) 36 = 0x80000001 ∧ bswap32 (bswap32 0x12345678) = 0x12345678.
Proof.
  destruct (rotations_and_swaps 32 0x80000001 36 0 4 0x12345678) as (_ & H1 & _ & _ & H2); [|done|done|exact (conj H1 H2)].
  unfold is_width. lia.
Defined.

(** the shuffles spread the bits of the low half over the even positions, the
    unshuffles collect the even bits, and they undo each other. *)
Theorem bit_shuffles x :
  (∀ j, 0 ≤ j < 64 → Z.testbit (half_shuffle64 x) j = Z.even j && Z.testbit x (j / 2)) ∧
  (∀ j, 0 ≤ j < 32 → Z.testbit (half_unshuffle64 x) j = Z.testbit x (2 * j)) ∧
  half_unshuffle64 (half_shuffle64 x) = wrap 32 x ∧
  (∀ j, 0 ≤ j < 32 → Z.testbit (half_shuffle32 x) j = Z.even j && Z.testbit x (j / 2)) ∧
  (∀ j, 0 ≤ j < 16 → Z.testbit (half_unshuffle32 x) j = Z.testbit x (2 * j)) ∧
  half_unshuffle32 (half_shuffle32 x) = wrap 16 x.
Proof.
  split; [intros j; apply testbit_half_shuffle64|]. split; [intros j; apply testbit_half_unshuffle64|].
  split; [apply unshuffle_shuffle64|]. split; [intros j; apply testbit_half_shuffle32|].
  split; [intros j; apply testbit_half_unshuffle32|apply unshuffle_shuffle32].
Qed.
Lemma bit_shuffles_witness : half_unshuffle64 (half_shuffle64 0x1234567890) = 0x34567890.
Proof. destruct (bit_shuffles 0x1234567890) as (_ & _ & H & _). exact H. Defined.

(** the counts of leading and trailing zeros are the positions of the highest
    and of the lowest bit set, and the width on zero; a power of two is
    recognised and its exponent is its count of trailing zeros; the count of
    trailing zeros is the population count of the bits below the lowest one. *)
Theorem zero_counts x :
  in_range 64 x →
  (if x =? 0 then clz64 x = 64 ∧ ctz64 x = 64
   else 2 ^ (63 - clz64 x) ≤ x < 2 ^ (64 - clz64 x) ∧
        Z.testbit x (ctz64 x) = true ∧ (∀ j, 0 ≤ j < ctz64 x → Z.testbit x j = false) ∧
        ctpop64 (Z.land (wrap 64 (x - 1)) (wrap 64 (Z.lnot x))) = ctz64 x) ∧
  (if is_power_of_2 x then x = 2 ^ ctz64 x else True).
Proof.
  intros Hx. unfold clz64, ctz64. destruct (Z.eqb_spec x 0) as [->|Hn]; [done|]. split.
  - split; [|split; [|split]].
    + unfold builtin_clz. pose proof (Z.log2_spec x). destruct Hx.
      replace (63 - (64 - 1 - Z.log2 x)) with (Z.log2 x) by lia.
      replace (64 - (64 - 1 - Z.log2 x)) with (Z.succ (Z.log2 x)) by lia. lia.
    + apply ctz_lowest. destruct Hx. lia.
    + intros j Hj. apply ctz_below; [destruct Hx; lia|done].
    + by apply (ctz_popcount 64 64).
  - destruct (is_power_of_2 x) eqn:E; [|done]. by apply is_power_of_2_ctz.
Qed.
Lemma zero_counts_witness : 2 ^ (63 - clz64 40) ≤ 40 < 2 ^ (64 - clz64 40).
Proof. destruct (zero_counts 40) as [[H _] _]; [done|exact H]. Defined.

(** ** The interpreter *)


(** ** Temporaries *)



(** freeing a temporary of a basic block releases the pair and keeps the
    invariant; the next allocation of its type reuses it.  Freeing a constant or
    a temporary of the whole block does nothing. *)
Theorem temp_release t s n :
  ctx_wf s → pair_at (temps s) n t TEMP_EBB true → (∀ m, free_temps s (type_of t) m = false) →
  tcg_temp_free_internal n s = GOk tt (freed s n t) ∧ ctx_wf (freed s n t) ∧
  (∃ s', tcg_temp_new_internal (type_of t) TEMP_EBB (freed s n t) = GOk n s') ∧
  (∀ m t' k b, pair_at (temps s) m t' k b → k = TEMP_CONST ∨ k = TEMP_TB →
     tcg_temp_free_internal m s = GOk tt s).
Proof.
  intros Hs Hp Hf. split; [by apply tcg_temp_free_spec|]. split; [by apply freed_wf|].
  split; [by apply reuse_freed|]. intros m t' k b. apply tcg_temp_free_ignored.
Qed.

Definition one_temp_context : TCGContext :=
  with_temps (λ l, l ++ [value_temp (type_of I64) (type_of I64) TEMP_EBB 1 0; expr_temp TEMP_EBB 0])
    (tcg_func_start empty_context).
Lemma one_temp_allocated : allocated (tcg_func_start empty_context) one_temp_context 0 I64 TEMP_EBB.
Proof.
  apply (allocated_fresh (tcg_func_start empty_context) I64 TEMP_EBB); [|cbn; unfold TCG_MAX_TEMPS; lia].
  apply tcg_func_start_wf. cbn. lia.
Qed.
Lemma temp_release_witness :
  tcg_temp_free_internal 0 one_temp_context = GOk tt (freed one_temp_context 0 I64) ∧
  (∃ s', tcg_temp_new_internal TCG_TYPE_I64 TEMP_EBB (freed one_temp_context 0 I64) = GOk 0%nat s').
Proof.
  destruct (temp_release I64 one_temp_context 0) as (H1 & _ & H2 & _).
  - apply one_temp_allocated.
  - apply one_temp_allocated.
  - done.
  - exact (conj H1 H2).
Defined.

(** a constant is a temporary of that value with a NULL expression, and asking
    for it again returns the same temporary without allocating. *)
Theorem constant_temps t v s :
  ctx_wf s →
  match tcg_constant t v s with
  | GOk n s' => constant_at s s' n (type_of t) (sgn (ty_width t) v) ∧ tcg_constant t v s' = GOk n s'
  | GOverflow => True
  | GAssert => False
  end.
Proof.
  intros Hs. pose proof (tcg_constant_spec t v s Hs) as H. pose proof (constant_memo t v s) as Hm.
  destruct (tcg_constant t v s) as [n s'| |]; auto.
Qed.
Lemma constant_temps_witness :
  match tcg_constant I32 (-1) (tcg_func_start empty_context) with
  | GOk n s' => constant_at (tcg_func_start empty_context) s' n TCG_TYPE_I32 (-1) ∧
                tcg_constant I32 (-1) s' = GOk n s'
  | GOverflow => True
  | GAssert => False
  end.
Proof.
  apply (constant_temps I32 (-1) (tcg_func_start empty_context)). apply tcg_func_start_wf. cbn. lia.
Defined.

(** the globals of a CPU are pairs in the order of their creation; the
    expression of each has its own slot of [env_exprs], within its 513 slots. *)
Theorem globals_layout sym_ofs l :
  (2 + 2 * length l ≤ TCG_MAX_TEMPS)%nat →
  ∃ s, init_globals sym_ofs l empty_context = GOk (0%nat, map global_temp (seq 0 (length l))) s ∧
    ctx_wf (tcg_func_start s) ∧
    ∀ j ofs t, l !! j = Some (ofs, t) →
      temps (tcg_func_start s) !! global_temp j = Some (mem_value 0 ofs t) ∧
      (∃ te, temps (tcg_func_start s) !! S (global_temp j) = Some te ∧ symbolic_expression te = true ∧
         mem_offset te = sym_ofs + 8 * (1 + Z.of_nat j) ∧ 1 + Z.of_nat j < 513).
Proof.
  intros Hl. exists (cpu_context sym_ofs l). split; [by apply init_globals_eq|].
  assert (Hlen : length (temps (cpu_context sym_ofs l)) = (2 + 2 * length l)%nat)
    by (cbn; rewrite layout_length; lia).
  split; [apply tcg_func_start_wf; lia|]. intros j ofs t Hj.
  destruct (layout_lookup sym_ofs l 1 j ofs t Hj) as [L1 L2].
  cbn [tcg_func_start temps cpu_context nb_globals] in *. rewrite take_ge by lia.
  split; [exact L1|]. eexists. split; [exact L2|]. split; [done|]. cbn [mem_expr mem_offset].
  apply lookup_lt_Some in Hj. unfold TCG_MAX_TEMPS in Hl. lia.
Qed.
Lemma globals_layout_witness :
  ∃ s, init_globals 4096 [(8, I64); (16, I32)] empty_context = GOk (0%nat, [2%nat; 4%nat]) s ∧
    temps (tcg_func_start s) !! 4%nat = Some (mem_value 0 16 I32).
Proof.
  destruct (globals_layout 4096 [(8, I64); (16, I32)]) as (s & H & _ & Hj); [cbn; unfold TCG_MAX_TEMPS; lia|].
  exists s. split; [exact H|]. apply (Hj 1%nat 16 I32). done.
Defined.
