(* ===== verification/GenTheorems.v ===== *)
(** What the code generators promise ([tcg/tcg-op.c]).

    [binary_spec i m t pre f]: from any context, for any variables [ret], [a1]
    and [a2] of type [t] (which may be the same), the generator [m ret a1 a2]
    fails no assertion, and the operations it emits run without error; if the
    operands hold [c1], [c2] with expressions that give them the values [x1],
    [x2] under the inputs [i], then [ret] ends up with [f c1 c2] and an
    expression of value [f x1 x2], and everything else is as before.
    [apart_spec] is the same for a result that is not one of the operands,
    [unary_spec] for one operand, [convert_spec] for one of another type.
    [ends i m ρ g ρ' g'] says that the variables [ρ] and the path and memory [g]
    become [ρ'] and [g'].

    The theorems hold for every host [TT] and every input [i]; [run_sound]
    turns such a specification into a statement about the execution of a block. *)
From S2P Require Import Prelude Cond Bitops Backend SymHelpers SymMemory Ops Temps Exec Logic Calls Vars Block.
From S2P Require Import GenCore GenCoreSpec GenAlu GenAluSpec GenConvSpec GenWideSpec GenMemSpec GenNames Hosts.
From S2P Require Import HelperTheorems.

Section Generators.
Context `{SL : ShadowLaws} {BL : BackendLaws B BS}.
Context (i : Input) (TT : Target) (tcg_env : nat).
Implicit Types (t ty : RegType).

Definition ends (m : Gen unit) (ρ : vars) (g : ghost) (ρ' : vars) (g' : ghost) : Prop :=
  wpv i m ρ g (λ _ ρ1 g1, ρ1 = ρ' ∧ g1 = g').

(** A specification over both types, at each of them. *)
Lemma two (P : RegType → Prop) : (∀ t, P t) → P I32 ∧ P I64.
Proof. auto. Qed.
Ltac each := repeat match goal with |- (_ ∧ _) ∧ _ => apply conj end.

(** C2: the arithmetic and logical generators, and the shifts by an amount less
    than the width, compute their operation on the values and, through the
    expressions, on the values under other inputs. *)
Theorem arithmetic_generators :
  (binary_spec i tcg_gen_add_i32 I32 any2 (bv_add 32) ∧ binary_spec i tcg_gen_add_i64 I64 any2 (bv_add 64)) ∧
  (binary_spec i tcg_gen_sub_i32 I32 any2 (bv_sub 32) ∧ binary_spec i tcg_gen_sub_i64 I64 any2 (bv_sub 64)) ∧
  (binary_spec i tcg_gen_mul_i32 I32 any2 (bv_mul 32) ∧ binary_spec i tcg_gen_mul_i64 I64 any2 (bv_mul 64)) ∧
  (binary_spec i tcg_gen_and_i32 I32 any2 Z.land ∧ binary_spec i tcg_gen_and_i64 I64 any2 Z.land) ∧
  (binary_spec i tcg_gen_or_i32 I32 any2 Z.lor ∧ binary_spec i tcg_gen_or_i64 I64 any2 Z.lor) ∧
  (binary_spec i tcg_gen_xor_i32 I32 any2 Z.lxor ∧ binary_spec i tcg_gen_xor_i64 I64 any2 Z.lxor) ∧
  (unary_spec i tcg_gen_neg_i32 I32 any1 (bv_neg 32) ∧ unary_spec i tcg_gen_neg_i64 I64 any1 (bv_neg 64)) ∧
  (unary_spec i (tcg_gen_not_i32 TT) I32 any1 (bv_not 32) ∧ unary_spec i (tcg_gen_not_i64 TT) I64 any1 (bv_not 64)) ∧
  (unary_spec i tcg_gen_mov_i32 I32 any1 (λ c, c) ∧ unary_spec i tcg_gen_mov_i64 I64 any1 (λ c, c)) ∧
  (binary_spec i tcg_gen_shl_i32 I32 (small2 I32) (bv_shl 32) ∧
   binary_spec i tcg_gen_shl_i64 I64 (small2 I64) (bv_shl 64)) ∧
  (binary_spec i tcg_gen_shr_i32 I32 (small2 I32) (bv_lshr 32) ∧
   binary_spec i tcg_gen_shr_i64 I64 (small2 I64) (bv_lshr 64)) ∧
  (binary_spec i tcg_gen_sar_i32 I32 (small2 I32) (bv_ashr 32) ∧
   binary_spec i tcg_gen_sar_i64 I64 (small2 I64) (bv_ashr 64)).
Proof.
  each; [exact (two _ (spec_add i))|exact (two _ (spec_sub i))|exact (two _ (spec_mul i))
    |exact (two _ (spec_and i))|exact (two _ (spec_or i))|exact (two _ (spec_xor i))|exact (two _ (spec_neg i))
    |exact (two _ (spec_not i TT))|exact (two _ (spec_mov i))
    |exact (two _ (spec_shl i))|exact (two _ (spec_shr i))|exact (two _ (spec_sar i))].
Qed.

(** C24: the generators with an immediate operand, with their special cases (an
    operand that makes them a move, a constant, an extension or a shift), agree
    with the operation on the immediate. *)
Theorem immediate_generators n :
  (∀ t, let w := ty_width t in let m := wrap w n in
    unary_spec i (λ r a, tcg_gen_addi t r a n) t any1 (λ c, bv_add w c m) ∧
    unary_spec i (λ r a, tcg_gen_subi t r a n) t any1 (λ c, bv_sub w c m) ∧
    unary_spec i (λ r a, tcg_gen_subfi t r n a) t any1 (λ c, bv_sub w m c) ∧
    unary_spec i (λ r a, tcg_gen_andi TT t r a n) t any1 (λ c, Z.land c m) ∧
    unary_spec i (λ r a, tcg_gen_ori t r a n) t any1 (λ c, Z.lor c m) ∧
    unary_spec i (λ r a, tcg_gen_xori TT t r a n) t any1 (λ c, Z.lxor c m) ∧
    (imm t n → unary_spec i (λ r a, tcg_gen_muli t r a n) t any1 (λ c, bv_mul w c m)) ∧
    (0 ≤ n < w → unary_spec i (λ r a, tcg_gen_shli t r a n) t any1 (λ c, bv_shl w c n)) ∧
    (0 ≤ n < w → unary_spec i (λ r a, tcg_gen_shri t r a n) t any1 (λ c, bv_lshr w c n)) ∧
    (0 ≤ n < w → unary_spec i (λ r a, tcg_gen_sari t r a n) t any1 (λ c, bv_ashr w c n))).
Proof.
  intros t w m. split; [apply spec_addi|]. split; [apply spec_subi|]. split; [apply spec_subfi|].
  split; [apply spec_andi|]. split; [apply spec_ori|]. split; [apply spec_xori|]. split; [apply spec_muli|].
  split; [apply spec_shli|]. split; [apply spec_shri|apply spec_sari].
Qed.

(** C5: a comparison whose result is not one of its operands sets the result to
    its truth value, and the path condition gains exactly the constraint that
    the comparison goes the way it went. *)
Theorem comparison_generators t cond ret a1 a2 ρ g k c1 x1 c2 x2 env :
  dst ρ ret t k → src ρ a1 t c1 x1 → src ρ a2 t c2 x2 →
  ret ≠ a1 → ret ≠ a2 → ret ≠ tcg_env → ρ !! tcg_env = Some env →
  let holds := cond_holds (ty_width t) cond in
  let g' := assume g (Bool.eqb (holds x1 x2) (holds c1 c2)) in
  ends (tcg_gen_setcond tcg_env t cond ret a1 a2) ρ g
    (<[ret := full k t (Z.b2z (holds c1 c2)) (Z.b2z (holds x1 x2))]> ρ) g' ∧
  (TCG_TARGET_HAS_negsetcond TT t = false →
   ends (tcg_gen_negsetcond TT tcg_env t cond ret a1 a2) ρ g
     (<[ret := full k t (wrap (ty_width t) (- Z.b2z (holds c1 c2)))
                        (wrap (ty_width t) (- Z.b2z (holds x1 x2)))]> ρ) g').
Proof.
  intros Hr S1 S2 N1 N2 N3 He holds g'. split; [by eapply spec_setcond|].
  intros HT. by eapply spec_negsetcond.
Qed.

(** C4: a conditional branch is taken exactly when its condition holds of the
    values, changes no variable, and constrains the path to the inputs that take
    it the same way. *)
Theorem branch_generators t cond a1 a2 n l ρ g c1 x1 c2 x2 env :
  src ρ a1 t c1 x1 → src ρ a2 t c2 x2 → ρ !! tcg_env = Some env →
  let goes (h : Z → bool) j (g' : ghost) :=
    j = (if h c1 then Some l else None) ∧ g' = assume g (Bool.eqb (h x1) (h c1)) in
  wpvj i (tcg_gen_brcondi tcg_env t cond a1 n l) ρ g (λ j ρ' g',
    ρ ⊆ ρ' ∧ goes (λ v, cond_holds (ty_width t) cond v (wrap (ty_width t) n)) j g') ∧
  wpvj i (tcg_gen_brcond tcg_env t cond a1 a2 l) ρ g (λ j ρ' g',
    ρ' = ρ ∧ j = (if cond_holds (ty_width t) cond c1 c2 then Some l else None) ∧
    g' = assume g (Bool.eqb (cond_holds (ty_width t) cond x1 x2) (cond_holds (ty_width t) cond c1 c2))).
Proof.
  intros S1 S2 He goes. split; [|by eapply spec_brcond].
  eapply spec_brcondi; [exact S1|exact He|]. intros ρ' Hs. done.
Qed.

(** C25: the divisions, for a result that is not an operand and a divisor that is
    not zero (and no signed overflow); the remainders, on hosts that have a
    remainder or no single-word division; the unsigned remainder at 32 bits
    only. *)
Theorem division_generators :
  (∀ t, apart_spec i (tcg_gen_div TT t) t (sdiv_pre t) (bv_sdiv (ty_width t)) ∧
        apart_spec i (tcg_gen_divu TT t) t udiv_pre (bv_udiv (ty_width t))) ∧
  (∀ t, TCG_TARGET_HAS_rem TT t = true ∨ TCG_TARGET_HAS_div TT t = false →
        apart_spec i (tcg_gen_rem TT t) t (sdiv_pre t) (bv_srem (ty_width t))) ∧
  (TCG_TARGET_HAS_rem TT I32 = true ∨ TCG_TARGET_HAS_div TT I32 = false →
   apart_spec i (tcg_gen_remu_i32 TT) I32 udiv_pre (bv_urem 32)).
Proof.
  split; [intros t; split; [apply spec_div|apply spec_divu]|]. split; [apply spec_rem|apply spec_remu_i32].
Qed.

(** the logical operations with a complement, for a result that is not an
    operand, and the rotations by less than the width (on a host without
    rotations, by a variable amount other than zero). *)
Theorem logic_generators t n :
  let w := ty_width t in
  apart_spec i (tcg_gen_andc TT t) t any2 (λ a b, Z.land a (bv_not w b)) ∧
  apart_spec i (tcg_gen_orc TT t) t any2 (λ a b, Z.lor a (bv_not w b)) ∧
  apart_spec i (tcg_gen_eqv TT t) t any2 (λ a b, bv_not w (Z.lxor a b)) ∧
  apart_spec i (tcg_gen_nand TT t) t any2 (λ a b, bv_not w (Z.land a b)) ∧
  apart_spec i (tcg_gen_nor TT t) t any2 (λ a b, bv_not w (Z.lor a b)) ∧
  binary_spec i (tcg_gen_rotl TT t) t (rot_pre TT t) (rol w) ∧
  binary_spec i (tcg_gen_rotr TT t) t (rot_pre TT t) (ror w) ∧
  (0 ≤ n < w →
   unary_spec i (λ r a, tcg_gen_rotli TT t r a n) t any1 (λ c, rol w c n) ∧
   unary_spec i (λ r a, tcg_gen_rotri TT t r a n) t any1 (λ c, ror w c n)).
Proof.
  split; [apply spec_andc|]. split; [apply spec_orc|]. split; [apply spec_eqv|].
  split; [apply spec_nand|]. split; [apply spec_nor|]. split; [apply spec_rotl|]. split; [apply spec_rotr|].
  intros Hn. split; [by apply spec_rotli|by apply spec_rotri].
Qed.

(** C23: the bit-field generators, on every path through their choices of host
    operations, shifts, masks and extensions, give the field and the value with
    the field replaced. *)
Theorem field_generators t ofs len :
  0 ≤ ofs → 0 < len → ofs + len ≤ ty_width t →
  let w := ty_width t in
  unary_spec i (λ r a, tcg_gen_extract TT t r a ofs len) t any1 (λ c, wrap len (Z.shiftr c ofs)) ∧
  unary_spec i (λ r a, tcg_gen_sextract TT t r a ofs len) t any1 (λ c, wrap w (sgn len (Z.shiftr c ofs))) ∧
  binary_spec i (λ r a1 a2, tcg_gen_deposit TT t r a1 a2 ofs len) t any2 (λ a b, put_field a ofs len b) ∧
  unary_spec i (λ r a, tcg_gen_deposit_z TT t r a ofs len) t any1 (place_field w ofs len) ∧
  binary_spec i (λ r al ah, tcg_gen_extract2 TT t r al ah ofs) t any2 (λ al ah, extract2_val w ah al ofs).
Proof.
  intros H1 H2 H3 w. split; [by apply spec_extract|]. split; [by apply spec_sextract|].
  split; [by apply spec_deposit|]. split; [by apply spec_deposit_z|].
  intros ret al ah ρ g Q k cl xl ch xh Hr S1 S2 _ HQ. eapply spec_extract2; [lia|done..].
Qed.

(** the byte, half-word and word swaps and the absolute value.  The host's
    byte swaps of a part of the word need an operand without higher bits and no
    sign extension of the result: the expression has neither. *)
Theorem swap_generators flags :
  unary_spec i (tcg_gen_bswap32_i32 TT) I32 any1 bswap32 ∧
  unary_spec i (tcg_gen_bswap64_i64 TT) I64 any1 bswap64 ∧
  unary_spec i (tcg_gen_hswap_i32 TT) I32 any1 hswap32 ∧
  unary_spec i (tcg_gen_hswap_i64 TT) I64 any1 hswap64 ∧
  unary_spec i (tcg_gen_wswap_i64 TT) I64 any1 wswap64 ∧
  (∀ t, unary_spec i (tcg_gen_abs t) t any1 (λ c, wrap (ty_width t) (Z.abs (sgn (ty_width t) c)))) ∧
  (∀ t, has_flag flags TCG_BSWAP_OS = negb (has_flag flags TCG_BSWAP_OZ) →
        (TCG_TARGET_HAS_bswap16 TT t = true → has_flag flags TCG_BSWAP_OS = false) →
        unary_spec i (λ r a, tcg_gen_bswap16 TT t r a flags) t (bswap16_pre TT t flags)
          (bswap_flags (ty_width t) 2 flags)) ∧
  (has_flag flags TCG_BSWAP_OS && has_flag flags TCG_BSWAP_OZ = false →
   (TCG_TARGET_HAS_bswap32 TT I64 = true → has_flag flags TCG_BSWAP_OS = false) →
   unary_spec i (λ r a, tcg_gen_bswap32_i64 TT r a flags) I64 any1 (bswap_flags 64 4 flags)).
Proof.
  split; [apply spec_bswap32_i32|]. split; [apply spec_bswap64_i64|]. split; [apply spec_hswap_i32|].
  split; [apply spec_hswap_i64|]. split; [apply spec_wswap_i64|]. split; [apply spec_abs|].
  split; [intros t; apply spec_bswap16|apply spec_bswap32_i64].
Qed.

(** C26: the sign and zero extensions, whether the host has them or not; the
    conversions between the types, and their inverses: a 64-bit variable split
    into halves, and put together from them. *)
Theorem conversion_generators :
  (∀ t, unary_spec i (tcg_gen_ext8s TT t) t any1 (λ c, wrap (ty_width t) (sgn 8 c)) ∧
        unary_spec i (tcg_gen_ext16s TT t) t any1 (λ c, wrap (ty_width t) (sgn 16 c)) ∧
        unary_spec i (tcg_gen_ext8u TT t) t any1 (wrap 8) ∧
        unary_spec i (tcg_gen_ext16u TT t) t any1 (wrap 16)) ∧
  unary_spec i (tcg_gen_ext32s_i64 TT) I64 any1 (λ c, wrap 64 (sgn 32 c)) ∧
  unary_spec i (tcg_gen_ext32u_i64 TT) I64 any1 (wrap 32) ∧
  convert_spec i tcg_gen_extu_i32_i64 I64 I32 (λ c, c) ∧
  convert_spec i tcg_gen_ext_i32_i64 I64 I32 (λ c, wrap 64 (sgn 32 c)) ∧
  convert_spec i tcg_gen_extrl_i64_i32 I32 I64 (wrap 32) ∧
  convert_spec i tcg_gen_extrh_i64_i32 I32 I64 (λ c, Z.shiftr c 32) ∧
  binary_spec i (tcg_gen_concat32_i64 TT) I64 any2 (λ a b, put_field a 32 32 b) ∧
  (∀ dest lo hi ρ g k c1 x1 c2 x2,
     dst ρ dest I64 k → src ρ lo I32 c1 x1 → src ρ hi I32 c2 x2 →
     ends (tcg_gen_concat_i32_i64 TT dest lo hi) ρ g
       (<[dest := full k I64 (join 32 c1 c2) (join 32 x1 x2)]> ρ) g) ∧
  (∀ lo hi a ρ g k k' c x,
     dst ρ lo I32 k → dst ρ hi I32 k' → lo ≠ hi → src ρ a I64 c x →
     ends (tcg_gen_extr_i64_i32 lo hi a) ρ g
       (<[hi := full k' I32 (Z.shiftr c 32) (Z.shiftr x 32)]>
         (<[lo := full k I32 (wrap 32 c) (wrap 32 x)]> ρ)) g) ∧
  (∀ lo hi a ρ g k k' c x,
     dst ρ lo I64 k → dst ρ hi I64 k' → lo ≠ hi → lo ≠ a → src ρ a I64 c x →
     ends (tcg_gen_extr32_i64 TT lo hi a) ρ g
       (<[hi := full k' I64 (Z.shiftr c 32) (Z.shiftr x 32)]>
         (<[lo := full k I64 (wrap 32 c) (wrap 32 x)]> ρ)) g).
Proof.
  split; [intros t; split; [apply spec_ext8s|]; split; [apply spec_ext16s|]; split; [apply spec_ext8u|apply spec_ext16u]|].
  split; [apply spec_ext32s|]. split; [apply spec_ext32u|].
  split; [apply spec_extu_i32_i64|]. split; [apply spec_ext_i32_i64|]. split; [apply spec_extrl|].
  split; [apply spec_extrh|]. split; [apply spec_concat32|].
  split; [intros; by eapply spec_concat|]. split; [intros; by eapply spec_extr|intros; by eapply spec_extr32].
Qed.

(** C27: addition and subtraction of double words.  At 64 bits the carry is a
    comparison, so the path is also constrained to the inputs with the same
    carry or borrow. *)
Theorem double_word_generators rl rh al ah bl bh ρ g k k' c1 x1 c2 x2 c3 x3 c4 x4 :
  rl ≠ rh →
  (dst ρ rl I32 k → dst ρ rh I32 k' →
   src ρ al I32 c1 x1 → src ρ ah I32 c2 x2 → src ρ bl I32 c3 x3 → src ρ bh I32 c4 x4 →
   let after f := <[rh := full k' I32 (Z.shiftr (f (join 32 c1 c2) (join 32 c3 c4)) 32)
                                   (Z.shiftr (f (join 32 x1 x2) (join 32 x3 x4)) 32)]>
     (<[rl := full k I32 (wrap 32 (f (join 32 c1 c2) (join 32 c3 c4)))
                         (wrap 32 (f (join 32 x1 x2) (join 32 x3 x4)))]> ρ) in
   ends (tcg_gen_add2_i32 TT rl rh al ah bl bh) ρ g (after (bv_add 64)) g ∧
   ends (tcg_gen_sub2_i32 TT rl rh al ah bl bh) ρ g (after (bv_sub 64)) g) ∧
  (∀ env, dst ρ rl I64 k → dst ρ rh I64 k' → ρ !! tcg_env = Some env →
   src ρ al I64 c1 x1 → src ρ ah I64 c2 x2 → src ρ bl I64 c3 x3 → src ρ bh I64 c4 x4 →
   let after f := <[rl := full k I64 (lo64 (f (join 64 c1 c2) (join 64 c3 c4)))
                                     (lo64 (f (join 64 x1 x2) (join 64 x3 x4)))]>
     (<[rh := full k' I64 (hi64 (f (join 64 c1 c2) (join 64 c3 c4)))
                          (hi64 (f (join 64 x1 x2) (join 64 x3 x4)))]> ρ) in
   ends (tcg_gen_add2_i64 tcg_env rl rh al ah bl bh) ρ g (after (bv_add 128))
     (assume g (Bool.eqb (bv_add 64 x1 x3 <? x1) (bv_add 64 c1 c3 <? c1))) ∧
   ends (tcg_gen_sub2_i64 tcg_env rl rh al ah bl bh) ρ g (after (bv_sub 128))
     (assume g (Bool.eqb (x1 <? x3) (c1 <? c3)))).
Proof.
  intros Hne. split.
  - assert (Hr : ∀ z, in_range 64 (wrap 64 z)) by (intros; by apply wrap_range).
    intros Hl Hh S1 S2 S3 S4 after. split.
    + eapply (spec_gen_addsub2_i32 i TT _ (bv_add 64)); [exact (spec_add i I64)|intros; apply Hr|done..].
    + eapply (spec_gen_addsub2_i32 i TT _ (bv_sub 64)); [exact (spec_sub i I64)|intros; apply Hr|done..].
  - intros env Hl Hh He S1 S2 S3 S4 after. split; [by eapply spec_add2_i64|by eapply spec_sub2_i64].
Qed.

(** the 32-bit multiplications to a double word, unsigned, signed and mixed. *)
Theorem wide_multiplications rl rh a1 a2 ρ g k k' c1 x1 c2 x2 :
  dst ρ rl I32 k → dst ρ rh I32 k' → rl ≠ rh → src ρ a1 I32 c1 x1 → src ρ a2 I32 c2 x2 →
  let after p := <[rh := full k' I32 (Z.shiftr (wrap 64 (p c1 c2)) 32) (Z.shiftr (wrap 64 (p x1 x2)) 32)]>
    (<[rl := full k I32 (wrap 32 (p c1 c2)) (wrap 32 (p x1 x2))]> ρ) in
  ends (tcg_gen_mulu2_i32 rl rh a1 a2) ρ g (after (λ u v, u * v)) g ∧
  ends (tcg_gen_muls2_i32 rl rh a1 a2) ρ g (after (λ u v, sgn 32 u * sgn 32 v)) g ∧
  ends (tcg_gen_mulsu2_i32 rl rh a1 a2) ρ g (after (λ u v, sgn 32 u * v)) g.
Proof.
  intros Hl Hh Hne S1 S2 after.
  assert (E1 : ∀ u v, bv_mul 64 (wrap 64 (sgn 32 u)) (wrap 64 (sgn 32 v)) = wrap 64 (sgn 32 u * sgn 32 v))
    by (intros; by apply wrap_mul).
  assert (E2 : ∀ u v, bv_mul 64 (wrap 64 (sgn 32 u)) v = wrap 64 (sgn 32 u * v))
    by (intros; apply Zmult_mod_idemp_l).
  assert (Hz : ∀ v, in_range 32 v → in_range 64 v) by (intros v Hv; by apply (in_range_le 32)).
  assert (Hw : ∀ v, in_range 32 v → in_range 64 (wrap 64 (sgn 32 v))) by (intros; by apply wrap_range).
  split; [|split].
  - eapply (spec_gen_wide i _ _ (λ c, c) (λ c, c)); [apply spec_extu_i32_i64|apply spec_extu_i32_i64|done..|].
    cbv zeta beta. unfold after, bv_mul. by rewrite !(wrap_wrap_le 32 64).
  - eapply spec_gen_wide; [apply spec_ext_i32_i64|apply spec_ext_i32_i64|done..|].
    cbv zeta beta. rewrite !E1. unfold after. by rewrite !(wrap_wrap_le 32 64).
  - eapply (spec_gen_wide i _ _ _ (λ c, c)); [apply spec_ext_i32_i64|apply spec_extu_i32_i64|done..|].
    cbv zeta beta. rewrite !E2. unfold after. by rewrite !(wrap_wrap_le 32 64).
Qed.

(** C3: an unsigned load gives the variable the bytes at the address, in both
    views of memory; a store changes those bytes in both views and nothing
    else. *)
Theorem memory_generators t opc val base ofs ρ g k c x b xb :
  ldst_type opc = t → dst ρ val t k → src ρ base I64 b xb →
  let a := wrap 64 (b + ofs) in let n := data_size opc in
  (is_load opc = true → unsigned opc = true →
   ends (tcg_gen_ldst_op t opc val base ofs) ρ g (<[val := full k t (now g n a) (alt g n a)]> ρ) g) ∧
  (is_load opc = false → src ρ val t c x →
   ends (tcg_gen_ldst_op t opc val base ofs) ρ g ρ (after_store g a n c x)).
Proof.
  intros Ht Hd Hb a n. split.
  - intros Hl Hu. by eapply spec_load_unsigned.
  - intros Hl Hs. by eapply spec_store.
Qed.

(** a signed load gives the variable the sign-extended bytes, but the
    expression it attaches is that of the zero-extended bytes. *)
Theorem signed_loads_zero_extend t opc val base ofs ρ g k b xb :
  ldst_type opc = t → is_load opc = true → unsigned opc = false → dst ρ val t k → src ρ base I64 b xb →
  let a := wrap 64 (b + ofs) in let n := data_size opc in
  ends (tcg_gen_ldst_op t opc val base ofs) ρ g
    (<[val := Var k t (Num (wrap (ty_width t) (sgn (8 * n) (now g n a))))
                      (Exp (ty_width t) (now g n a) (alt g n a))]> ρ) g.
Proof.
  intros Ht Hl Hu Hd Hb a n. eapply spec_load; [done..|]. unfold loaded, unsigned in *.
  assert ((ldst_def opc).1 = (data_size opc, true)) as E.
  { pose proof (proj1 (ldst_size opc)) as H. destruct (ldst_def opc) as [[m s] l]. cbn in *. destruct s; [|done].
    congruence. }
  destruct (ldst_def opc) as [[m s] l]. cbn in E. injection E as -> ->. by subst t.
Qed.

(** the 64-bit multiplications to a double word: the low word is right in
    both views; the expression of the high word that the helper built is lost,
    because the call that computes the value clears it: under every input the
    high word of the unsigned product has its concrete value. *)
Theorem wide_multiplication_i64 rl rh a1 a2 ρ g k k' c1 x1 c2 x2 :
  dst ρ rl I64 k → dst ρ rh I64 k' → rl ≠ rh → src ρ a1 I64 c1 x1 → src ρ a2 I64 c2 x2 →
  ends (tcg_gen_mulu2_i64 rl rh a1 a2) ρ g
    (<[rl := full k I64 (lo64 (c1 * c2)) (lo64 (x1 * x2))]>
      (<[rh := full k' I64 (hi64 (c1 * c2)) (hi64 (c1 * c2))]> ρ)) g ∧
  ends (tcg_gen_mulsu2_i64 rl rh a1 a2) ρ g
    (<[rl := full k I64 (lo64 (sgn 64 c1 * c2)) (lo64 (sgn 64 x1 * x2))]>
      (<[rh := full k' I64 (hi64 (sgn 64 c1 * c2)) (bv_sub 64 (hi64 (c1 * c2)) (sign_mask x1 x2))]> ρ)) g.
Proof. intros. split; [by eapply spec_mulu2_i64|by eapply spec_mulsu2_i64]. Qed.

(** on a host that counts zeros and bits natively, the counts have the right
    value, but the result keeps the expression it had before, whatever that is. *)
Theorem bit_counts_keep_expression t ret a1 a2 ρ g k v e c1 x1 c2 x2 :
  TCG_TARGET_HAS_clz TT t = true → TCG_TARGET_HAS_ctpop TT t = true →
  ρ !! ret = Some (Var k t v e) → writable k = true → src ρ a1 t c1 x1 → src ρ a2 t c2 x2 →
  ends (tcg_gen_clz TT t ret a1 a2) ρ g (<[ret := Var k t (Num (clz_val t c1 c2)) e]> ρ) g ∧
  ends (match t with I32 => tcg_gen_ctpop_i32 TT ret a1 | I64 => tcg_gen_ctpop_i64 TT ret a1 end) ρ g
    (<[ret := Var k t (Num (popcount (Z.to_nat (ty_width t)) c1)) e]> ρ) g.
Proof. intros. split; [by eapply spec_clz_native|by eapply spec_ctpop_native]. Qed.
End Generators.

(** ** Witnesses *)

(** Four globals of a type: 10 with the alternative value 7, 3, and two zeros. *)
Definition sample_regs (t : RegType) : list (RegType * Z * Z) := [(t, 10, 7); (t, 3, 3); (t, 0, 0); (t, 0, 0)].
Definition sample_vars (t : RegType) : vars := cpu_vars 4096 (sample_regs t).
Definition sample_ghost : ghost := 
  Ghost true sample_mem (λ k, if k =? 4100 then 255 else sample_mem k) flat_guest [].

(** The result variable is global 2, at temporary 6. *)
Definition result_is (t : RegType) (c x : Z) (_ : unit) (ρ : vars) (g : ghost) : Prop :=
  ρ !! 6%nat = Some (full TEMP_GLOBAL t c x).

Ltac gsrc := split; [exists TEMP_GLOBAL; reflexivity|done].
Ltac gdst := split; [eexists _, _; reflexivity|done].
Abbreviation W m t c x :=
  (wpv (SL := DenotMem.shadow_laws) sample_input m (sample_vars t) sample_ghost (result_is t c x)).

Lemma arithmetic_generators_witness : W (tcg_gen_mul_i32 6 2 4) I32 30 21.
Proof.
  destruct (arithmetic_generators (BL := Denot.laws) (SL := DenotMem.shadow_laws) sample_input (x86_64 true true))
    as (_ & _ & [H _] & _).
  apply (H 6%nat 2%nat 4%nat _ _ _ TEMP_GLOBAL 10 7 3 3); [gdst|gsrc|gsrc|done|reflexivity].
Defined.

Lemma immediate_generators_witness : W (tcg_gen_muli_i32 6 2 (-4)) I32 0xffffffd8 0xffffffe4.
Proof.
  destruct (immediate_generators (BL := Denot.laws) (SL := DenotMem.shadow_laws) sample_input (x86_64 true true) (-4) I32) as (_ & _ & _ & _ & _ & _ & H & _).
  apply (H ltac:(unfold imm; cbn; lia) 6%nat 2%nat _ _ _ TEMP_GLOBAL 10 7); [gdst|gsrc|done|reflexivity].
Defined.

Lemma comparison_generators_witness : 
  ends (SL := DenotMem.shadow_laws) sample_input (tcg_gen_setcond_i64 0 TCG_COND_LT 6 2 4) (sample_vars I64) sample_ghost
    (<[6%nat := full TEMP_GLOBAL I64 0 0]> (sample_vars I64)) sample_ghost.
Proof.
  apply (comparison_generators (BL := Denot.laws) (SL := DenotMem.shadow_laws) sample_input (x86_64 true true) 0 I64 TCG_COND_LT 6%nat 2%nat 4%nat
    (sample_vars I64) sample_ghost TEMP_GLOBAL 10 7 3 3 (full TEMP_FIXED I64 4096 4096));
    [gdst|gsrc|gsrc|done..].
Defined.

Lemma branch_generators_witness : 
  wpvj (SL := DenotMem.shadow_laws) sample_input (tcg_gen_brcond_i32 0 TCG_COND_GTU 2 4 1) (sample_vars I32) sample_ghost
    (λ j ρ' g', ρ' = sample_vars I32 ∧ j = Some 1%nat ∧ g' = assume sample_ghost true).
Proof.
  apply (branch_generators (BL := Denot.laws) (SL := DenotMem.shadow_laws) sample_input 0 I32 TCG_COND_GTU 2%nat 4%nat 0 1%nat (sample_vars I32)
    sample_ghost 10 7 3 3 (full TEMP_FIXED I64 4096 4096)); [gsrc|gsrc|done].
Defined.

Lemma division_generators_witness : W (tcg_gen_remu_i32 (x86_64 true true) 6 2 4) I32 1 1.
Proof.
  destruct (division_generators (BL := Denot.laws) (SL := DenotMem.shadow_laws) sample_input (x86_64 true true)) as (_ & _ & H).
  apply (H ltac:(by right) 6%nat 2%nat 4%nat _ _ _ TEMP_GLOBAL 10 7 3 3);
    [gdst|gsrc|gsrc|done|done|done|reflexivity].
Defined.

Lemma logic_generators_witness :
  W (tcg_gen_andc_i32 (x86_64 true true) 6 2 4) I32 8 4 ∧
  W (tcg_gen_rotr_i32 (x86_64 true true) 6 2 4) I32 0x40000001 0xe0000000.
Proof.
  destruct (logic_generators (BL := Denot.laws) (SL := DenotMem.shadow_laws) sample_input (x86_64 true true) I32 0)
    as (H1 & _ & _ & _ & _ & _ & H2 & _). split.
  - apply (H1 6%nat 2%nat 4%nat _ _ _ TEMP_GLOBAL 10 7 3 3); [gdst|gsrc|gsrc|done|done|done|reflexivity].
  - apply (H2 6%nat 2%nat 4%nat _ _ _ TEMP_GLOBAL 10 7 3 3); [gdst|gsrc|gsrc| |reflexivity].
    split; [done|]. split; [done|]. by left.
Defined.

Lemma field_generators_witness : W (tcg_gen_deposit_i64 (x86_64 true true) 6 2 4 4 8) I64 58 55.
Proof.
  destruct (field_generators (BL := Denot.laws) (SL := DenotMem.shadow_laws) sample_input (x86_64 true true) I64 4 8) as (_ & _ & H & _); [lia|lia|cbn; lia|].
  apply (H 6%nat 2%nat 4%nat _ _ _ TEMP_GLOBAL 10 7 3 3); [gdst|gsrc|gsrc|done|reflexivity].
Defined.

Lemma swap_generators_witness : W (tcg_gen_bswap32_i32 (x86_64 true true) 6 2) I32 0x0a000000 0x07000000.
Proof.
  destruct (swap_generators (BL := Denot.laws) (SL := DenotMem.shadow_laws) sample_input (x86_64 true true) 0) as (H & _).
  apply (H 6%nat 2%nat _ _ _ TEMP_GLOBAL 10 7); [gdst|gsrc|done|reflexivity].
Defined.

Lemma conversion_generators_witness : W (tcg_gen_concat32_i64 (x86_64 true true) 6 2 4) I64 0x30000000a 0x300000007.
Proof.
  destruct (conversion_generators (BL := Denot.laws) (SL := DenotMem.shadow_laws) sample_input (x86_64 true true))
    as (_ & _ & _ & _ & _ & _ & _ & H & _).
  apply (H 6%nat 2%nat 4%nat _ _ _ TEMP_GLOBAL 10 7 3 3); [gdst|gsrc|gsrc|done|reflexivity].
Defined.

Lemma double_word_generators_witness : 
  ends (SL := DenotMem.shadow_laws) sample_input (tcg_gen_add2_i64 0 6 8 2 4 4 2) (sample_vars I64) sample_ghost
    (<[6%nat := full TEMP_GLOBAL I64 13 10]> (<[8%nat := full TEMP_GLOBAL I64 13 10]> (sample_vars I64)))
    (assume sample_ghost true).
Proof.
  destruct (double_word_generators (BL := Denot.laws) (SL := DenotMem.shadow_laws) sample_input (x86_64 true true) 0 6%nat 8%nat 2%nat 4%nat 4%nat 2%nat (sample_vars I64)
    sample_ghost TEMP_GLOBAL TEMP_GLOBAL 10 7 3 3 3 3 10 7) as [_ H]; [done|].
  apply (H (full TEMP_FIXED I64 4096 4096)); [gdst|gdst|done|gsrc|gsrc|gsrc|gsrc].
Defined.

Lemma wide_multiplications_witness : 
  ends (SL := DenotMem.shadow_laws) sample_input (tcg_gen_mulu2_i32 6 8 2 4) (sample_vars I32) sample_ghost
    (<[8%nat := full TEMP_GLOBAL I32 0 0]> (<[6%nat := full TEMP_GLOBAL I32 30 21]> (sample_vars I32))) sample_ghost.
Proof.
  apply (wide_multiplications (BL := Denot.laws) (SL := DenotMem.shadow_laws) sample_input 6%nat 8%nat 2%nat 4%nat (sample_vars I32)
    sample_ghost TEMP_GLOBAL TEMP_GLOBAL 10 7 3 3); [gdst|gdst|done|gsrc|gsrc].
Defined.

Lemma memory_generators_witness : 
  ends (SL := DenotMem.shadow_laws) sample_input (tcg_gen_ld8u_i64 6 0 4) (sample_vars I64) sample_ghost
    (<[6%nat := full TEMP_GLOBAL I64 12 255]> (sample_vars I64)) sample_ghost.
Proof.
  apply (memory_generators (BL := Denot.laws) (SL := DenotMem.shadow_laws) sample_input I64 (INDEX_op_ld8u I64) 6%nat 0%nat 4 (sample_vars I64)
    sample_ghost TEMP_GLOBAL 0 0 4096 4096); [done|gdst| |done|done].
  split; [by exists TEMP_FIXED|done].
Defined.

Lemma signed_loads_zero_extend_witness : 
  ends (SL := DenotMem.shadow_laws) sample_input (tcg_gen_ld8s_i64 6 0 44) (sample_vars I64) sample_ghost
    (<[6%nat := Var TEMP_GLOBAL I64 (Num 0xffffffffffffff84) (Exp 64 0x84 0x84)]> (sample_vars I64)) sample_ghost.
Proof.
  apply (signed_loads_zero_extend (BL := Denot.laws) (SL := DenotMem.shadow_laws) sample_input I64 (INDEX_op_ld8s I64) 6%nat 0%nat 44 (sample_vars I64)
    sample_ghost TEMP_GLOBAL 4096 4096); [done|done|done|gdst|]. split; [by exists TEMP_FIXED|done].
Defined.

Lemma wide_multiplication_i64_witness : 
  ends (SL := DenotMem.shadow_laws) sample_input (tcg_gen_mulu2_i64 6 8 2 4) (sample_vars I64) sample_ghost
    (<[6%nat := full TEMP_GLOBAL I64 30 21]> (<[8%nat := full TEMP_GLOBAL I64 0 0]> (sample_vars I64))) sample_ghost.
Proof.
  apply (wide_multiplication_i64 (BL := Denot.laws) (SL := DenotMem.shadow_laws) sample_input 6%nat 8%nat 2%nat 4%nat (sample_vars I64)
    sample_ghost TEMP_GLOBAL TEMP_GLOBAL 10 7 3 3); [gdst|gdst|done|gsrc|gsrc].
Defined.

Lemma bit_counts_keep_expression_witness : 
  ends (SL := DenotMem.shadow_laws) sample_input (tcg_gen_clz_i64 (x86_64 true true) 2 2 4) (sample_vars I64) sample_ghost
    (<[2%nat := Var TEMP_GLOBAL I64 (Num 60) (Exp 64 10 7)]> (sample_vars I64)) sample_ghost.
Proof.
  apply (bit_counts_keep_expression (SL := DenotMem.shadow_laws) sample_input (x86_64 true true) I64 2%nat 2%nat 4%nat (sample_vars I64)
    sample_ghost TEMP_GLOBAL (Num 10) (Exp 64 10 7) 10 7 3 3); [done|done|done|done|gsrc|gsrc].
Defined.

