(* ===== verification/BlockTheorems.v ===== *)
(** The execution of translated blocks: from specifications of generators to
    runs, and runs in which the expressions a block computes disagree with the
    values it computes.  In the latter the inputs considered are those of the
    run itself, so a right expression would evaluate to the value. *)
From S2P Require Import Prelude Cond Bitops Backend SymHelpers SymMemory Ops Temps Exec Logic Calls Vars Block.
From S2P Require Import GenCore GenCoreSpec GenAlu GenAluSpec GenConvSpec GenWideSpec GenMemSpec GenNames Hosts.
From S2P Require Import HelperTheorems GenTheorems.


(** ** A machine with four 64-bit globals *)

Abbreviation DState := (State (B := Denot.backend) (SM := DenotMem.shadow)).
Definition dptr (e : Denot.expr) : rval (B := Denot.backend) := VPtr (B := Denot.backend) e.
Definition num_ (z : Z) : rval (B := Denot.backend) := VNum (B := Denot.backend) z.

Definition four_globals : list (Z * RegType) := [(8, I64); (16, I64); (24, I64); (32, I64)].
Definition machine : TCGContext := cpu_context 4096 four_globals.

(** Global 0 holds [a] and is variable 0 of the inputs, global 1 holds [b]. *)
Definition start (a b : Z) : DState :=
  mkState (B := Denot.backend) (SM := DenotMem.shadow)
    (λ n, match n with
          | 0 => num_ 4096 | 2 => num_ a | 3 => dptr (Denot.var 64 0) | 4 => num_ b | _ => num_ 0
          end%nat) [] sample_mem (λ _, None) 0x400000 flat_guest [].

(** The value of a global and that of its expression, under the inputs [i]. *)
Definition observe (i : nat → Z) (r : Res (option (Outcome (B := Denot.backend) (SM := DenotMem.shadow)))) (n : nat)
    : option (Z * Z) :=
  match r with
  | Ok (Some (Fall st)) =>
      match regs st n, regs st (S n) with
      | VNum z, VPtr e => Some (z, Denot.denote i e)
      | VNum z, VNum 0 => Some (z, z)
      | _, _ => None
      end
  | _ => None
  end.
Definition constraints_hold (i : nat → Z) (r : Res (option (Outcome (B := Denot.backend) (SM := DenotMem.shadow))))
    : option bool :=
  match r with
  | Ok (Some (Fall st)) => Some (path_holds (BS := Denot.sem) i (trace st))
  | _ => None
  end.
Definition fails {A} (r : Res A) : bool := match r with Abort => true | Ok _ => false end.
Definition host : Target := x86_64 true true.

Lemma start_holds a b x :
  in_range 64 a → in_range 64 b → in_range 64 x →
  cpu_holds (BS := Denot.sem) (λ _ : nat, x) (start a b) 4096 [(I64, a, x); (I64, b, b); (I64, 0, 0); (I64, 0, 0)].
Proof.
  intros Ha Hb Hx. split.
  - by exists 4096, None.
  - intros [|[|[|[|j]]]] t c y; cbn; intros [= <- <- <-] || intros [=].
    + exists a, (Some (Denot.var 64 0)). split; [done|]. split; [done|]. split; [by apply wrap_small|].
      split; [done|]. split; [|split; [done|]]; [|by apply wrap_small]. cbn. lia.
    + exists b, None. split; [done|]. split; [done|]. split; [by apply wrap_small|]. done.
    + by exists 0, None.
    + by exists 0, None.
Qed.

(** The block [r2 := r0 + r1; r3 := r2 * 5], on inputs other than those of the
    run. *)
Definition sum_times_5 : Gen unit := tcg_gen_add_i64 6 2 4;; tcg_gen_muli_i64 8 6 5.


(** ** Expressions that disagree with the values *)

(** The value of global [k] after the block, and that of its expression under the
    inputs of the run. *)
Definition result (k : nat) (m : Gen unit) (a b : Z) : option (Z * Z) :=
  observe (λ _, a) (run_block m machine (start a b)) (global_temp k).

(** a conditional move from operands [10] and [3] to the smaller one gives the
    value 3 and an expression of value 0: the helper masks the alternatives with
    the comparison instead of choosing between them.  When the operands of the
    comparison are concrete and an alternative is not, the helper fails. *)
Theorem movcond_disagrees :
  result 2 (tcg_gen_movcond_i64 0 TCG_COND_LTU 6 2 4 2 4) 10 3 = Some (3, 0) ∧
  fails (run_block (tcg_gen_movcond_i64 0 TCG_COND_LTU 6 4 4 2 4) machine (start 10 3)) = true.
Proof. by split; vm_compute. Qed.

(** the 64-bit unsigned remainder of [2^64 - 1] by 10 is 5 with an expression of
    value [2^64 - 1], the signed remainder; the 32-bit one is right. *)
Theorem unsigned_remainder_disagrees :
  result 2 (tcg_gen_remu_i64 host 6 2 4) (2 ^ 64 - 1) 10 = Some (5, 2 ^ 64 - 1) ∧
  result 2 (tcg_gen_remu_i32 host 6 2 4) (2 ^ 64 - 1) 10 = Some (5, 5).
Proof. by split; vm_compute. Qed.

(** a division or a comparison into one of its operands computes the
    expression from the overwritten operand: 100 / 10 has an expression of value
    1, and [10 < 100] an expression of value 0 together with a constraint that
    the inputs of the run violate. *)
Theorem aliased_results_disagree :
  result 1 (tcg_gen_divu_i64 host 4 4 2) 10 100 = Some (10, 1) ∧
  let lt := tcg_gen_setcond_i64 0 TCG_COND_LT 4 2 4 in
  result 1 lt 10 100 = Some (1, 0) ∧
  constraints_hold (λ _, 10) (run_block lt machine (start 10 100)) = Some false.
Proof. split; [|split]; by vm_compute. Qed.

(** The same start with registers of temporaries that hold a number which is no
    expression. *)
Definition dirty_start (a b : Z) : DState :=
  let st := start a b in
  mkState (B := Denot.backend) (SM := DenotMem.shadow)
    (λ n, if (n <? 10)%nat then regs st n else num_ 1) (trace st) (mem st) (shadow st) (env_pc st) (guest st) (heap st).

(** on a host with division but no remainder (sparc64) a remainder passes the
    never-written expression of the temporary for the quotient to a helper: on a
    start where its register holds something else than an expression the block
    fails, which it does not on a host with double-word division (x86_64). *)
Theorem remainder_reads_uninitialised :
  let rem TT := run_block (tcg_gen_rem_i64 TT 6 2 4) machine (dirty_start 10 3) in
  fails (rem (sparc64 false)) = true ∧ observe (λ _, 10) (rem host) (global_temp 2) = Some (1, 1).
Proof. split; by vm_compute. Qed.

(** an extended-basic-block temporary of 128 bits that was freed cannot be
    allocated again: the second half of the value is taken for the expression,
    and the assertion on its type fails. *)
Theorem wide_temp_reuse_fails :
  (t ← tcg_temp_new_internal TCG_TYPE_I128 TEMP_EBB;
   tcg_temp_free_internal t;;
   tcg_temp_new_internal TCG_TYPE_I128 TEMP_EBB) (tcg_func_start machine) = GAssert.
Proof. by vm_compute. Qed.

(** the expression of a global that lives behind another global is addressed
    relative to that one's pointer, at the offset meant for the array of
    expressions in the CPU state: here it shares its eight bytes with the value. *)
Theorem indirect_expression_slot :
  match (tcg_global_mem_new_internal 2 40 TCG_TYPE_I64) machine with
  | GOk n s =>
      ∃ v e, temps s !! n = Some v ∧ temps s !! S n = Some e ∧
        (mem_base v, mem_offset v) = (Some 2%nat, 40) ∧ (mem_base e, mem_offset e) = (Some 2%nat, 40)
  | _ => False
  end.
Proof. vm_compute. by eexists _, _. Qed.


