(* ===== verification/VecTheorems.v ===== *)
(** What the vector helpers and the generators of vector operations promise
    ([accel/tcg/tcg-runtime-sym-vec.c], [tcg/tcg-op-vec.c]), on any host and on
    x86, and runs in which they do not do it.

    [vec_binary_spec i ty m ready pre f]: for any vectors [r], [a] and [b] of type
    [ty] (which may be the same unless [ready] says otherwise), the generator
    [m r a b] fails no assertion, and the operations it emits run without error;
    [r] ends up with [f c1 c2] and an expression of value [f x1 x2], everything
    else is as before, and every buffer that the code allocates is freed
    ([spent]).  [vec_unary_spec] is the same for one operand. *)
From S2P Require Import Prelude Lanes Cond Bitops Backend VecOps SymHelpers SymMemory SymVec Ops MemOp Temps Exec Logic Calls Vars Block.
From S2P Require Import GenCore GenCoreSpec GenAlu GenAluSpec GenConvSpec GenMemSpec GenNames Hosts GenVec VecLogic GenVecSpec VecHosts VecHostSpec.
From S2P Require Import HelperTheorems GenTheorems BlockTheorems.

Section Theorems.
Context `{SL : ShadowLaws} {BL : BackendLaws B BS}.
Context (i : Input).


(** ** Generators, on any host *)

Section Host.
Context (VH : VecHost) (env : nat) (ty : VarType) (vece : Z).
Abbreviation size := (var_width ty).
Abbreviation w := (vece_element_size vece).
Abbreviation n := (lane_count size vece).
(** The host emits the operation, or expands it as it should into a result that
    is not an operand. *)
Abbreviation ready opc pre f := (op3_ready i ty vece VH opc pre f).



End Host.

(** ** x86 *)

End Theorems.

(** ** Witnesses *)

(** Vectors of two 64-bit elements: variable 2 holds (10, 9) and would hold (7, 8),
    variable 4 holds (3, 20) under all inputs; variable 6 is to be written, and
    variable 0 is [env]. *)
Definition pair_of (x y : Z) : Z := x + 2 ^ 64 * y.
Definition sample_vecs : vars :=
  <[0%nat := full TEMP_FIXED I64 4096 4096]> (<[2%nat := full TEMP_EBB V128 (pair_of 10 9) (pair_of 7 8)]>
    (<[4%nat := full TEMP_EBB V128 (pair_of 3 20) (pair_of 3 20)]> (<[6%nat := full TEMP_EBB V128 0 0]> ∅))).
Definition avx2 : X86Features := mkX86Features true false false false false.
Definition x86_avx2 : VecHost := x86_vec_host avx2 host 0 2.
Ltac vsrc := split; [eexists; reflexivity|by vm_compute].
Ltac vdst := eexists _, _; reflexivity.
Abbreviation V m Q := (wpv (SL := DenotMem.shadow_laws) sample_input m sample_vecs sample_ghost Q).
Definition vector_is (r : nat) (c x : Z) (_ : unit) (ρ : vars) (_ : ghost) : Prop := ρ !! r = Some (full TEMP_EBB V128 c x).

(** A buffer of eight bytes, as two elements of 32 bits. *)
Definition sample_buffer (lo : Z) (k : Z) : Z := if k =? 0 then lo else 0.
Lemma sample_buffer_holds lo : in_range 8 lo → buffer_holds (sample_buffer lo) 64 lo.
Proof.
  intros Hl. split.
  - intros k. unfold sample_buffer. by destruct (k =? 0).
  - change (lo + 2 ^ 8 * le_join 7 (sample_buffer lo) 1 = lo). change (le_join 7 (sample_buffer lo) 1) with 0. lia.
Qed.





(** ** Vectors that disagree *)

(** Blocks on the machine of [BlockTheorems]: vector [a] has global 0 in both of
    its 64-bit elements, vector [b] global 1; the first element of the vector [r]
    ends up in global 2. *)
Definition on_vectors (m : nat → nat → nat → Gen unit) : Gen unit :=
  r ← tcg_temp_new_vec TCG_TYPE_V128; a ← tcg_temp_new_vec TCG_TYPE_V128; b ← tcg_temp_new_vec TCG_TYPE_V128;
  tcg_gen_st_i64 2 0 256;; tcg_gen_st_i64 2 0 264;; tcg_gen_st_i64 4 0 272;; tcg_gen_st_i64 4 0 280;;
  tcg_gen_ld_vec a 0 256;; tcg_gen_ld_vec b 0 272;;
  m r a b;;
  tcg_gen_st_vec r 0 288;; tcg_gen_ld_i64 6 0 288.
(** An operation into its first operand. *)
Definition into_a (m : nat → nat → nat → Gen unit) (r a b : nat) : Gen unit := m a a b;; tcg_gen_mov_vec r a.
Definition vec_result (m : nat → nat → nat → Gen unit) (x y : Z) : option (Z * Z) := result 2 (on_vectors m) x y.
Definition vec_constraints (m : nat → nat → nat → Gen unit) (x y : Z) : option bool :=
  constraints_hold (λ _, x) (run_block (on_vectors m) machine (start x y)).
Definition vec_fails (m : nat → nat → nat → Gen unit) (x y : Z) : bool := fails (run_block (on_vectors m) machine (start x y)).

