(* ===== verification/GuestTheorems.v ===== *)
(** What the accesses to guest memory promise: the generators of
    [tcg/tcg-op-ldst.c], the codes of [include/exec/memop.h], and the atomic helpers
    of [accel/tcg/atomic_template.h]. *)
From S2P Require Import Prelude Cond Bitops Backend SymHelpers SymMemory Ops MemOp Atomics Temps Exec GuestBytes Logic Calls Vars.
From S2P Require Import Block GenCore GenCoreSpec GenAlu GenAluSpec GenConvSpec GenWideSpec GenMemSpec GenLdst GenLdstSpec.
From S2P Require Import GenNames Hosts HelperTheorems GenTheorems BlockTheorems.

(** ** Codes *)

(** every access that fits the type of its generator has a canonical code, with
    the same size, alignment and byte order (a byte has none), no sign where it does
    not matter, and no atomicity in serial mode; canonical codes stay as they are,
    and the others fail the assertion.  The halves of a 128-bit access are 64-bit
    accesses, the first with its alignment, the second with what of it holds eight
    bytes further. *)
Theorem memop_canonical tb memop is64 st :
  0 ≤ memop < 2048 → check_max_alignment tb (get_alignment_bits memop) = true →
  (if Z.land memop MO_SIZE <=? (if is64 : bool then MO_64 else MO_32) then
     ∃ op, tcg_canonicalize_memop tb memop is64 st = Ok op ∧ canonical_of is64 st (CF_PARALLEL tb) memop op = true ∧
       tcg_canonicalize_memop tb op is64 st = Ok op
   else tcg_canonicalize_memop tb memop is64 st = Abort) ∧
  (Z.land memop MO_SIZE = MO_128 → ∀ bswap,
     ∃ h, canonicalize_memop_i128_as_i64 (λ _, bswap) memop = Ok h ∧ halves_of bswap memop h = true).
Proof.
  intros Hm Hc. split; [|intros Hs bswap; by apply halves_spec].
  pose proof (canonicalize_spec tb memop is64 st Hm Hc) as H.
  destruct (Z.land memop MO_SIZE <=? _); [|done]. destruct H as (op & H1 & _ & H2 & H3). by exists op.
Qed.

Section Generators.
Context `{SL : ShadowLaws} {BL : BackendLaws B BS}.
Context (i : Input) (TT : Target) (HM : HostMem) (tcg_env : nat) (tb : GuestTb).
Implicit Types (t ty : RegType).

Abbreviation ends := (ends i).
Definition tcg_gen_qemu_ld_chk (t : RegType) : nat → nat → Z → Z → RegType → Gen unit :=
  match t with
  | I32 => tcg_gen_qemu_ld_i32_chk TT HM tcg_env tb
  | I64 => tcg_gen_qemu_ld_i64_chk TT HM tcg_env tb
  end.
Definition tcg_gen_qemu_st_chk (t : RegType) : nat → nat → Z → Z → RegType → Gen unit :=
  match t with
  | I32 => tcg_gen_qemu_st_i32_chk TT HM tcg_env tb
  | I64 => tcg_gen_qemu_st_i64_chk TT HM tcg_env tb
  end.
Definition GEN_ATOMIC_HELPER (t : RegType) : AtomicOp → nat → nat → nat → Z → Z → RegType → Gen unit :=
  match t with
  | I32 => GEN_ATOMIC_HELPER_i32 TT HM tcg_env tb
  | I64 => GEN_ATOMIC_HELPER_i64 TT HM tcg_env tb
  end.

Lemma wpv_check_access t idx memop g m ρ (Q : unit → vars → ghost → Prop) :
  access_ok HM tb t idx memop g → wpv i m ρ g Q →
  wpv i (check_access tb I64 (Z.land memop MO_SIZE <=? (if is64 t then MO_64 else MO_32)) m) ρ g Q.
Proof.
  intros [] Hm. apply size_fits in ao_size. apply wpv_bind, wpv_assert; [by rewrite ao_type|].
  apply wpv_bind, wpv_assert; [lia|done].
Qed.


(** The operations without comparison, as functions of the old value and the operand
    on registers ([f]) and on words. *)
Definition plain_rmw (r : AtomicRmw) : bool :=
  match r with RMW_add | RMW_and | RMW_or | RMW_xor => true | _ => false end.
Definition plain_op (o : AtomicOp) : bool :=
  match o with ATOMIC_fetch r | ATOMIC_op_fetch r => plain_rmw r | ATOMIC_xchg => true end.
Definition is_add (o : AtomicOp) : bool :=
  match o with ATOMIC_fetch RMW_add | ATOMIC_op_fetch RMW_add => true | _ => false end.
Definition word_fn (n : Z) (o : AtomicOp) (old val : Z) : Z :=
  match o with ATOMIC_fetch r | ATOMIC_op_fetch r => rmw_fn n r old val | ATOMIC_xchg => val end.
Definition reg_fn (t : RegType) (o : AtomicOp) (old val : Z) : Z :=
  if is_add o then bv_add (ty_width t) old val else word_fn 0 o old val.

Lemma parts_spec t o : plain_op o = true → binary_spec i (atomic_parts tcg_env t o).1 t any2 (reg_fn t o).
Proof.
  destruct o as [[]|[]|]; try done; intros _; try apply spec_add; try apply spec_and; try apply spec_or; try apply spec_xor.
  intros r a b ρ g Q k c1 x1 c2 x2 Hd _ Hb _ HQ. by eapply spec_mov.
Qed.
Lemma reg_fn_range t o u v :
  plain_op o = true → in_range (ty_width t) u → in_range (ty_width t) v → in_range (ty_width t) (reg_fn t o u v).
Proof.
  intros Ho Hu Hv. unfold reg_fn. destruct (is_add o); [apply wrap_range; by destruct t|].
  pose proof (ty_width_pos t). destruct o as [[]|[]|]; try done; cbn; auto with range.
Qed.
Lemma reg_fn_word t o n u v :
  plain_op o = true → 0 < n → 8 * n ≤ ty_width t → in_range (8 * n) u → in_range (8 * n) v →
  wrap (8 * n) (reg_fn t o u v) = word_fn n o u v ∧ (is_add o = false → reg_fn t o u v = word_fn n o u v).
Proof.
  intros Ho Hn Hw Hu Hv. unfold reg_fn. destruct (is_add o) eqn:E.
  - split; [|done]. unfold bv_add. rewrite wrap_wrap_le by lia. by destruct o as [[]|[]|].
  - assert (word_fn 0 o u v = word_fn n o u v) as -> by (by destruct o as [[]|[]|]).
    split; [|done]. apply wrap_small. destruct o as [[]|[]|]; try done; cbn; auto with range.
Qed.
Lemma atomic_op_word be n o w v :
  plain_op o = true → 0 < n → in_range (8 * n) w →
  let old := BSWAP be n w in let new := word_fn n o old (wrap (8 * n) v) in
  cpu_atomic_op be n o w v = Some (if (atomic_parts tcg_env I32 o).2 then new else old, BSWAP be n new).
Proof.
  intros Ho Hn Hw old new. destruct o as [r|r|]; cbn [cpu_atomic_op]; [| |done].
  - rewrite rmw_spec by done. by destruct r.
  - rewrite rmw_spec by done. by destruct r.
Qed.

End Generators.

(** ** Atomic helpers *)

(** C32: the atomic helpers, on a word that holds the bytes in the order of the guest:
    the new word is the operation on the old value and the operand, whether it is
    done by one host instruction (on swapped operands) or by a loop, and the result
    is the old or the new value, sign-extended for a signed minimum or maximum; a
    compare-and-exchange writes exactly when the old value is the expected one. *)
Theorem atomic_helpers be n r new_val w val cmpv newv :
  0 < n → in_range (8 * n) w →
  let old := BSWAP be n w in let new := rmw_fn n r old (wrap (8 * n) val) in
  cpu_atomic_rmw be n r new_val w val =
    Some (abi n (signed_rmw r) (if new_val then new else old), BSWAP be n new) ∧
  cpu_atomic_cmpxchg be n w cmpv newv =
    (old, if old =? wrap (8 * n) cmpv then BSWAP be n (wrap (8 * n) newv) else w).
Proof.
  intros Hn Hw old new. split; [by apply rmw_spec|]. rewrite cmpxchg_spec by done. fold old. f_equal.
  destruct (old =? _); [done|]. by apply BSWAP_involutive.
Qed.

(** C33: the loop of an atomic helper, interleaved with any writes of other CPUs: when
    it returns it has written once, atomically, from the old value it reports to
    the new one; it lost at most as many attempts as others wrote in between; and
    alone it returns after one attempt. *)
Theorem atomic_loops be n r val w0 l w old new :
  rmw_run be n r val (w0, Read) l (w, Return old new) →
  wrote_once be n r val old new l ∧ (count is_lost l ≤ count is_other l)%nat ∧
  (∃ old' new', rmw_run be n r val (w0, Read) [Tau; Own w0 (BSWAP be n new')] (BSWAP be n new', Return old' new')).
Proof. intros H. apply rmw_invariant in H as [H1 H2]. split; [done|]. split; [done|]. apply rmw_alone. Qed.

(** ** Exits *)

Section Exits.
Context {B : SymBackend} {BS : BackendSem B} {SM : ShadowMemory B}.

(** What leaving a block keeps. *)
Definition kept (i : Input) (st st' : State) : Prop :=
  (∀ n, regs st' n = regs st n) ∧ mem st' = mem st ∧ shadow st' = shadow st ∧
  path_holds i (trace st') = path_holds i (trace st).
Lemma kept_gc i st :
  kept i st (set_trace st (helper_sym_collect_garbage (trace st))).
Proof.
  split; [done|]. split; [done|]. split; [done|].
  cbn [set_trace trace]. unfold helper_sym_collect_garbage. rewrite path_holds_app. cbn. by rewrite andb_true_r.
Qed.

(** the exits of a block take the indices they document and fail the assertion on
    others; they notify the garbage collection, leave to the block and index given,
    and keep registers, memory and path. *)
Theorem exit_generators i block idx s st :
  0 ≤ idx →
  (if (if block =? 0 then idx =? 0 else (idx <=? 1) || (idx =? 3)) then
     ∃ st', run_block (tcg_gen_exit_tb block idx) s st = Ok (Some (Leave (OpExitTb (block + idx)) st')) ∧ kept i st st'
   else run_block (tcg_gen_exit_tb block idx) s st = Abort) ∧
  (if idx <=? 1 then
     ∃ st', run_block (tcg_gen_goto_tb false idx) s st = Ok (Some (Leave (OpGotoTb idx) st')) ∧ kept i st st'
   else run_block (tcg_gen_goto_tb false idx) s st = Abort).
Proof.
  intros Hi. split.
  - unfold run_block, tcg_gen_exit_tb, TB_EXIT_IDXMAX, TB_EXIT_REQUESTED.
    destruct (block =? 0); [destruct (idx =? 0)|destruct (idx <=? 1); [|destruct (idx =? 3)]]; cbn; try done;
      eexists; (split; [reflexivity|apply kept_gc]).
  - unfold run_block, tcg_gen_goto_tb, TB_EXIT_IDXMAX. destruct (idx <=? 1); cbn; [|done].
    eexists. split; [reflexivity|apply kept_gc].
Qed.
End Exits.

(** ** Expressions that disagree with the values *)

(** A 64-bit user-mode guest; 63 symbolic bytes at 193, whose inputs are their
    values. *)
Definition linux_user (parallel : bool) : GuestTb := mkGuestTb I64 true false 12 parallel TCG_MO_ALL.
Definition symbolic_bytes (k : Z) : option Denot.expr :=
  if (192 <? k) && (k <? 256) then Some (Denot.var 8 (Z.to_nat (k - 192))) else None.
Definition run_input (a : Z) (j : nat) : Z := if (j =? 0)%nat then a else sample_mem (192 + Z.of_nat j).
Definition guest_start (a b : Z) : DState :=
  let st := start a b in
  mkState (B := Denot.backend) (SM := DenotMem.shadow) (regs st) (trace st) (mem st) symbolic_bytes (env_pc st) (guest st) (heap st).
Definition guest_result (m : Gen unit) (a b : Z) : option (Z * Z) :=
  observe (run_input a) (run_block m machine (guest_start a b)) (global_temp 2).

(** [r2 := load(r1)], [store(r1) := r0] and the atomic operations on [load(r1)] and [r0],
    on a host with or without MOVBE, in serial or parallel mode. *)
Definition load_r2 (movbe : bool) (memop : Z) : Gen unit :=
  tcg_gen_qemu_ld_i64_chk host (x86_64_mem movbe) 0 (linux_user false) 6 4 0 memop I64.
Definition store_r0 (movbe : bool) (memop : Z) : Gen unit :=
  tcg_gen_qemu_st_i64_chk host (x86_64_mem movbe) 0 (linux_user false) 2 4 0 memop I64.
Definition fetch_add_r2 (parallel : bool) (memop : Z) : Gen unit :=
  GEN_ATOMIC_HELPER_i64 host (x86_64_mem false) 0 (linux_user parallel) (ATOMIC_fetch RMW_add) 6 4 2 0 memop I64.

(** guest accesses whose expression is not that of the value: on a host that swaps
    bytes in memory accesses (MOVBE) a big-endian load keeps the expression of the
    unswapped bytes, and a big-endian store writes it; a signed load has the
    expression of the zero-extended byte; a 16-bit big-endian store on a host that
    swaps natively mixes the bits above into the first byte.  Without MOVBE, and
    for values that fit, they agree. *)
Theorem guest_expressions_disagree :
  guest_result (load_r2 false (Z.lor MO_BE MO_32)) 5 200 = Some (0x585b5e61, 0x585b5e61) ∧
  guest_result (load_r2 true (Z.lor MO_BE MO_32)) 5 200 = Some (0x585b5e61, 0x615e5b58) ∧
  guest_result (store_r0 true (Z.lor MO_BE MO_16);; load_r2 true MO_16) 0x2233 210 = Some (0x3322, 0x2233) ∧
  guest_result (load_r2 false (Z.lor MO_SIGN MO_8)) 5 240 = Some (2 ^ 64 - 48, 208) ∧
  guest_result (store_r0 false (Z.lor MO_BE MO_16);; load_r2 false MO_16) 0x442233 210 = Some (0x3322, 0x7722) ∧
  guest_result (store_r0 false (Z.lor MO_BE MO_16);; load_r2 false MO_16) 0x2233 210 = Some (0x3322, 0x3322).
Proof. repeat (split; [by vm_compute|]). by vm_compute. Qed.

(** the helper that does an atomic operation in parallel mode changes the memory and
    not the symbolic memory: a later load of the sum has the expression of the old
    value; in serial mode they agree. *)
Theorem atomics_leave_expressions :
  guest_result (fetch_add_r2 false MO_32;; load_r2 false MO_32) 5 200 = Some (0x615e5b5d, 0x615e5b5d) ∧
  guest_result (fetch_add_r2 true MO_32;; load_r2 false MO_32) 5 200 = Some (0x615e5b5d, 0x615e5b58).
Proof. split; by vm_compute. Qed.


(** ** Witnesses *)

Lemma memop_canonical_witness :
  ∃ op, tcg_canonicalize_memop (linux_user false) (Z.lor MO_BE (Z.lor MO_SIGN MO_8)) true false = Ok op ∧
    canonical_of true false false (Z.lor MO_BE (Z.lor MO_SIGN MO_8)) op = true.
Proof.
  destruct (memop_canonical (linux_user false) (Z.lor MO_BE (Z.lor MO_SIGN MO_8)) true false) as [(op & H1 & H2 & _) _];
    [done|done|]. by exists op.
Defined.

(** The guest addresses are those of the host. *)
Lemma flat_mapped acc idx memop b :
  0 ≤ b → b + memop_size memop ≤ 2 ^ 64 → Z.land b (Z.ones (get_alignment_bits memop)) = 0 →
  mapped flat_guest acc idx memop b b.
Proof. intros H0 H1 H2. split; [done|]. intros k Hk. cbn. f_equal. apply wrap_small. unfold in_range. lia. Qed.
Lemma sample_views : views sample_ghost.
Proof.
  split; [apply sample_bytes|]. intros k. cbn. destruct (k =? 4100); [done|]. apply sample_bytes.
Qed.
Lemma sample_access t idx memop :
  0 ≤ idx < 16 → 0 ≤ memop < 2048 → 8 * memop_size memop ≤ ty_width t →
  access_ok aarch64_mem (linux_user false) t idx memop sample_ghost.
Proof. intros. split; try done. apply sample_views. Qed.



Lemma atomic_helpers_witness :
  cpu_atomic_rmw true 2 RMW_smin true 0x0180 3 = Some (0xffff8001, 0x0180) ∧
  cpu_atomic_cmpxchg true 2 0x0180 0x8001 5 = (0x8001, 0x0500).
Proof.
  destruct (atomic_helpers true 2 RMW_smin true 0x0180 3 0x8001 5) as [H1 H2]; [done|done|].
  split; [rewrite H1; by vm_compute|rewrite H2; by vm_compute].
Defined.

(** Another CPU writes between the read and the first attempt. *)
Lemma atomic_loops_witness :
  rmw_run false 4 RMW_add 5 (10, Read) [Tau; Other 10 20; Lost; Own 20 25] (25, Return 20 25) ∧
  wrote_once false 4 RMW_add 5 20 25 [Tau; Other 10 20; Lost; Own 20 25].
Proof.
  assert (H : rmw_run false 4 RMW_add 5 (10, Read) [Tau; Other 10 20; Lost; Own 20 25] (25, Return 20 25)).
  { apply (run_snoc _ _ _ _ _ [Tau; Other 10 20; Lost] (20, Attempt 20)).
    - apply (run_snoc _ _ _ _ _ [Tau; Other 10 20] (20, Attempt 10)).
      + apply (run_snoc _ _ _ _ _ [Tau] (10, Attempt 10)); [apply (run_snoc _ _ _ _ _ [] (10, Read)); constructor|].
        apply step_other.
      + exact (step_attempt false 4 RMW_add 5 20 10 20 20 eq_refl).
    - exact (step_attempt false 4 RMW_add 5 20 20 20 25 eq_refl). }
  split; [exact H|]. exact (proj1 (atomic_loops false 4 RMW_add 5 10 _ 25 20 25 H)).
Defined.

Lemma exit_generators_witness :
  ∃ st', run_block (tcg_gen_exit_tb 0x1000 1) machine (start 10 3) = Ok (Some (Leave (OpExitTb 0x1001) st')).
Proof.
  destruct (exit_generators (BS := Denot.sem) (SM := DenotMem.shadow) sample_input 0x1000 1 machine (start 10 3))
    as [(st' & H & _) _]; [lia|]. exact (ex_intro _ st' H).
Defined.
