(* ===== verification/AtomicityTheorems.v ===== *)
(** What the host side of guest loads and stores guarantees: the bytes read and written,
    the atomicity that is required, and where the code falls short of it. *)
From S2P Require Import Prelude Bitops Backend SymMemory MemOp LdstAtomicity LdstAtomicitySpec.

(** x86-64 with CMPXCHG16B and AVX, and a host with 32-bit words only. *)
Definition x86_64_atomics : HostAtomics := mkHostAtomics true true true true true.
Definition word_atomics : HostAtomics := mkHostAtomics false false false false false.
Definition cas_atomics : HostAtomics := mkHostAtomics true true false true true.
(** A thread that runs beside others, under system or user emulation, with 4 KiB pages. *)
Definition parallel_cpu (user : bool) : LdstCpu := mkLdstCpu false user (λ _ _, false) 12.
Definition counting : Mem := λ a, a mod 251.

Lemma host_ok_x86_64 : host_ok x86_64_atomics.
Proof. by split. Qed.
Lemma host_ok_cas : host_ok cas_atomics.
Proof. by split. Qed.
Lemma bytes_counting : bytes counting.
Proof. intros k. unfold counting, in_range. pose proof (Z.mod_pos_bound k 251). lia. Qed.

(** C17: a load of two, four, eight or sixteen guest bytes that lie in one page gives the
    bytes at the address, changes no memory, touches no byte outside the page, and makes the
    parts for which [required_atomicity] asks with single host accesses.  It never fails an
    assertion, and it leaves for the serial context only when the CPU is not in it.  Two
    sizes are guarded: eight bytes need 64-bit host accesses in user emulation, and of
    sixteen bytes the pair that crosses a 16-byte boundary is not covered
    ([wide_loads_disagree] shows both are necessary). *)
Theorem atomic_loads H cpu p memop m F L (HH : host_ok H) (Hm : bytes m) :
  let parallel := cpu_in_serial_context cpu = false in
  (atomic_code 1 memop → in_page cpu p 2 F L →
     hwp parallel (load_atom_2 H cpu p memop) m (loaded_ok cpu 1 p memop m F L)) ∧
  (atomic_code 2 memop → in_page cpu p 4 F L →
     hwp parallel (load_atom_4 H cpu p memop) m (loaded_ok cpu 2 p memop m F L)) ∧
  (atomic_code 3 memop → in_page cpu p 8 F L → HAVE_al8 H = true ∨ user_only cpu = false →
     hwp parallel (load_atom_8 H cpu p memop) m (loaded_ok cpu 3 p memop m F L)) ∧
  (atomic_code 4 memop → in_page cpu p 16 F L →
     hwp parallel (load_atom_16 H cpu p memop) m (loaded16_ok cpu p memop m F L)).
Proof.
  split; [|split; [|split]]; intros;
    [apply load_atom_2_ok|apply load_atom_4_ok|apply load_atom_8_ok|apply load_atom_16_ok]; done.
Qed.
(** A load of eight bytes at an odd address that crosses a 16-byte boundary. *)
Lemma atomic_loads_witness :
  hwp True (load_atom_8 cas_atomics (parallel_cpu false) 4107 (Z.lor MO_64 MO_ATOM_WITHIN16_PAIR)) counting
    (λ v m' l, v = le_join 8 counting 4107 ∧ m' = counting).
Proof.
  pose proof (atomic_loads cas_atomics (parallel_cpu false) 4107 (Z.lor MO_64 MO_ATOM_WITHIN16_PAIR) counting
    4096 8192 host_ok_cas bytes_counting) as (_ & _ & H8 & _).
  specialize (H8 ltac:(split; [done|by vm_compute]) ltac:(apply (page_bounds (parallel_cpu false) 4107 8); done) (or_introl eq_refl)).
  unfold hwp in *. destruct (load_atom_8 _ _ _ _ _); [|done|done]. by destruct H8 as (-> & -> & _).
Defined.

(** C18: a store of two, four, eight or sixteen guest bytes that lie in one page writes the
    value's bytes at the address and no others, touches no byte outside the page, and makes
    the parts for which [required_atomicity] asks, pairs included, with single host
    accesses.  [store_parts_leN] writes its bytes with each aligned part in one access and
    returns the bytes that are left. *)
Theorem atomic_stores H cpu p memop m v F L (HH : host_ok H) (Hm : bytes m) :
  let parallel := cpu_in_serial_context cpu = false in
  (in_range 16 v → atomic_code 1 memop → in_page cpu p 2 F L →
     hwp parallel (store_atom_2 H cpu p memop v) m (stored_ok cpu 1 p memop m F L v)) ∧
  (in_range 32 v → atomic_code 2 memop → in_page cpu p 4 F L →
     hwp parallel (store_atom_4 H cpu p memop v) m (stored_ok cpu 2 p memop m F L v)) ∧
  (in_range 64 v → atomic_code 3 memop → in_page cpu p 8 F L →
     hwp parallel (store_atom_8 H cpu p memop v) m (stored_ok cpu 3 p memop m F L v)) ∧
  (in_range 128 v → atomic_code 4 memop → in_page cpu p 16 F L →
     hwp parallel (store_atom_16 H cpu p memop v) m (stored_ok cpu 4 p memop m F L v)) ∧
  (∀ n, 0 < n ≤ 8 → (n = 8 → p mod 8 ≠ 0) →
     hwp parallel (store_parts_leN p n v) m (λ r m' l,
       r = Z.shiftr v (8 * n) ∧ stored m p n v m' ∧ parts_within l p n ∧ inside p (p + n) l)).
Proof.
  split; [|split; [|split; [|split]]]; intros;
    [apply store_atom_2_ok|apply store_atom_4_ok|apply store_atom_8_ok|apply store_atom_16_ok|]; try done.
  apply hwp_parts; [done|done|lia|done].
Qed.
(** A store of sixteen bytes that crosses a 16-byte boundary. *)
Lemma atomic_stores_witness :
  hwp True (store_atom_16 x86_64_atomics (parallel_cpu false) 4099 (Z.lor MO_128 MO_ATOM_WITHIN16_PAIR) 1234567) counting
    (λ _ m' l, stored counting 4099 16 1234567 m').
Proof.
  pose proof (atomic_stores x86_64_atomics (parallel_cpu false) 4099 (Z.lor MO_128 MO_ATOM_WITHIN16_PAIR) counting
    1234567 4096 8192 host_ok_x86_64 bytes_counting) as (_ & _ & _ & H16 & _).
  specialize (H16 ltac:(by vm_compute) ltac:(split; [done|by vm_compute]) ltac:(apply (page_bounds (parallel_cpu false) 4099 16); done)).
  unfold hwp in *. destruct (store_atom_16 _ _ _ _ _ _); [|done|done]. by destruct H16 as [H16 _].
Defined.

