(* ===== verification/SoftmmuTheorems.v ===== *)
(** System emulation: the TLB agrees with the page tables through every sequence of fills,
    flushes and remappings, and the helpers for guest accesses built on it implement the
    accesses of the operations. *)
From S2P Require Import Prelude Bitops Backend SymMemory MemOp LdstAtomicity LdstAtomicitySpec SoftTlb SoftTlbSpec SoftTlbMachine.
From S2P Require Import Exec GuestBytes Softmmu SoftmmuSpec SoftmmuStoreSpec SoftmmuLookup SoftmmuRefine.

(** What the parts of a machine promise to each other: pages as the TLB needs them, host
    pages of RAM that are aligned, a host whose atomics imply each other, a CPU of system
    emulation, and a hook that enters what the walk of the page tables finds. *)
Record system_ok {P : Pages} (M : Memory) (X : Machine) (w : nat → Walk) (H : HostAtomics) (cpu : LdstCpu) : Prop := {
  sys_pages : pages_ok;
  sys_ram : ram_ok M w;
  sys_host : host_ok H;
  sys_mode : user_only cpu = false;
  sys_bits : ldst_page_bits cpu = TARGET_PAGE_BITS;
  sys_machine : machine_ok M X w;
}.

(** ** A machine with 4 KiB pages *)

Definition pages12 : Pages := mkPages 12 12 22.
Lemma pages12_ok : @pages_ok pages12.
Proof. split; cbn; lia. Qed.

Section Sample.
#[local] Existing Instance pages12.

(** A gigabyte of RAM, mapped at its physical addresses. *)
Definition flat_full (q : Z) : CPUTLBEntryFull := mkFull 0 q 0 7 12 0 (λ _, 0).
Definition flat_walk : nat → Walk := λ _ q, if (0 <=? q) && (q <? 2 ^ 30) then Some (flat_full q) else None.
Definition flat_memory : Memory :=
  mkMemory (λ _ paddr sz prot, mkIoSection 0x700000000000 paddr sz prot true false false 0 0) (λ _, false) (λ _ _, 0).
Definition flat_machine : Machine := mkMachine
  (λ a size access idx c,
     full ← flat_walk idx (page_of a);
     if permits flat_memory full access then
       match tlb_set_page_full flat_memory idx a full c with Ok c' => Some c' | _ => None end
     else None)
  (λ _ _ _, true) (λ _, false) false (λ _ _ _, abort) (λ _ _ _ _, abort).
Definition fresh_tlb : CPUTLB := tlb_init empty_entry inhabitant 0 (mkCPUTLB 0 0 0 0 [] (λ _, None)).

Lemma flat_found k q full : flat_walk k q = Some full → full = flat_full q ∧ 0 ≤ q < 2 ^ 30.
Proof. unfold flat_walk. destruct (_ && _) eqn:E; [|done]. intros [= <-]. split; [done|lia]. Qed.
Lemma flat_walk_ok k : walk_ok (flat_walk k).
Proof.
  intros q full Hq Hw. destruct (flat_found _ _ _ Hw) as [-> Hr]. split; [cbn; lia|]. intros q' Hq' Hs. exists (flat_full q').
  unfold same_mapping, mapping_bits in Hs. rewrite Hq, Hw in Hs. apply (page_bits_same pages12_ok) in Hs; [|done..]. subst q'. done.
Qed.
Lemma flat_offset x : Z.land (wrap 64 (0 + page_of x)) (Z.lnot TARGET_PAGE_MASK) = 0.
Proof.
  rewrite Z.add_0_l, wrap_small by (apply (page_range pages12_ok), page_of_page). unfold page_of. rewrite <- Z.land_assoc, Z.land_lnot_diag. apply Z.land_0_r.
Qed.
Lemma flat_fills idx a full c : flat_walk idx (page_of a) = Some full → ∃ c', tlb_set_page_full flat_memory idx a full c = Ok c'.
Proof.
  intros [-> _]%flat_found. unfold tlb_set_page_full, set_page_mode, new_entry, page_flags.
  change (lg_page_size (flat_full (page_of a)) <=? TARGET_PAGE_BITS) with true.
  cbn [translate_for_iotlb flat_memory sec_sz sec_is_ram sec_ram_addr sec_xlat]. fold (page_of (phys_addr (flat_full (page_of a)))).
  rewrite flat_offset. cbn [Z.eqb]. rewrite Z.leb_refl. cbn. by eexists.
Qed.
Lemma flat_machine_ok : machine_ok flat_memory flat_machine flat_walk.
Proof.
  split; [intros k q full [-> _]%flat_found; by left|]. intros a size access idx c c'. cbn [tlb_fill_hook flat_machine].
  intros (full & Hw & Hc)%bind_Some. destruct (permits flat_memory full access) eqn:Hp; [|done].
  destruct (tlb_set_page_full flat_memory idx a full c) as [c1|] eqn:E; [|done]. injection Hc as <-. by exists full, (λ _, false).
Qed.
Lemma flat_machine_total : machine_total flat_memory flat_machine flat_walk.
Proof.
  split; [|done|by intros k q full [-> _]%flat_found]. intros a size access idx c full _ _ Hw Hp. cbn [tlb_fill_hook flat_machine].
  rewrite Hw. cbn [mbind option_bind]. rewrite Hp. destruct (flat_fills idx a full c Hw) as [c' ->]. by exists c'.
Qed.
Lemma flat_ram_ok : ram_ok flat_memory flat_walk.
Proof.
  intros k q full [-> Hq]%flat_found _. unfold ram_base, section_of. cbn [translate_for_iotlb flat_memory sec_ram_ptr sec_xlat phys_addr flat_full].
  rewrite (page_of_eq pages12_ok) by (unfold in_range; lia). change (2 ^ TARGET_PAGE_BITS) with 4096.
  pose proof (Z.mod_pos_bound q 4096). change 0x700000000000 with (30064771072 * 4096). split; [lia|]. split; [|lia].
  replace (30064771072 * 4096 + (q - q mod 4096)) with ((30064771072 + q / 4096) * 4096) by (rewrite Z.mod_eq by lia; lia). apply Z_mod_mult.
Qed.
Lemma fresh_inv : mmu_inv flat_memory flat_walk fresh_tlb.
Proof.
  split; [done|]. intros k t Ht. unfold fresh_tlb, tlb_init in Ht. cbn [modes] in Ht. apply lookup_replicate in Ht as [-> _].
  apply (init_inv pages12_ok), flat_walk_ok.
Qed.
Definition soft_cpu : LdstCpu := mkLdstCpu false false (λ _ _, false) 12.
Lemma flat_system : system_ok flat_memory flat_machine flat_walk (mkHostAtomics true true true true true) soft_cpu.
Proof.
  split; [apply pages12_ok|apply flat_ram_ok|by split|done|done|apply flat_machine_ok].
Qed.
End Sample.

(** ** The TLB *)

(** C14: after any sequence of fills, swaps with the victim table, changes of the dirty flag,
    flushes of the mode with a change of the page tables, and flushes of a page with a change
    of its mapping, the TLB of a mode is well-formed: an entry is where its page is looked up,
    no page is cached twice; and every entry is the translation that the walk of the page
    tables finds for its page now, with the host address of its RAM. *)
Theorem tlb_coherent {P : Pages} M junk junk_full w now w' t
    (HP : pages_ok) (Hw : walk_ok w) (Hr : rtc (tlb_step M junk junk_full) (w, tlb_mmu_init junk junk_full now) (w', t)) :
  tlb_wf t ∧ counters_ok t ∧
  ∀ q s, is_page q → caches t q s →
    ∃ full, w' q = Some full ∧ agrees M full q s ∧
      (sec_is_ram (section_of M full) = true → ∀ a,
         wrap 64 (a + addend s.1) = wrap 64 (sec_ram_ptr (section_of M full) + sec_xlat (section_of M full) + (a - q))).
Proof.
  pose proof (reachable_inv HP M junk junk_full w now w' t Hw Hr) as [Hwf _ _ Hc Ha]. split; [done|]. split; [done|].
  intros q s Hq Hs. destruct (Ha q s Hq Hs) as (full & H1 & H2 & _). exists full. split; [done|]. split; [done|].
  intros Hram a. by apply (agrees_ram M full q s a H2).
Qed.

(** C30: filling a page makes its entry the only one of the page, in the slot in which it is
    looked up; every other page keeps its entry, but for the page of the victim that is
    overwritten; and a hit in the victim table makes the next lookup in the table succeed
    and changes no translation. *)
Theorem tlb_fills {P : Pages} M t a full (HP : pages_ok) (Hw : tlb_wf t) :
  let p := page_of a in
  (∀ t', set_page_mode M t a full = Ok t' →
     ∃ tn f, new_entry M p (page_of (phys_addr full)) full
               (translate_for_iotlb M (attrs full) (page_of (phys_addr full)) (fill_size full) (prot full)) = Ok (tn, f) ∧
       tlb_wf t' ∧ slot_at t' (inl (Z.to_nat (tlb_index t' p))) = Some (tn, f) ∧
       (∀ q s, is_page q → caches t' q s → if decide (q = p) then s = (tn, f) else caches t q s) ∧
       (∀ q s, is_page q → q ≠ p → caches t q s → caches t' q s ∨ slot_at t (inr (victim_index t)) = Some s)) ∧
  (∀ access t', victim_tlb_hit t (Z.to_nat (tlb_index t p)) access p = Some t' →
     tlb_wf t' ∧ (∀ q s, caches t' q s ↔ caches t q s) ∧ tlb_hit_page (tlb_read_idx (tlb_entry t' p) access) p = true).
Proof.
  split.
  - intros t' Hs. destruct (set_page_spec HP M t a full t' Hw Hs) as (tn & f & H1 & H2 & _ & _ & H3 & H4).
    exists tn, f. do 4 (split; [done|]). intros q s Hq Hn Hc. by eapply set_page_keeps.
  - intros access t' Hv. exact (victim_spec HP t access (page_of a) t' Hw (page_of_page a) Hv).
Qed.

(** C29: a flush of modes leaves none of them with an entry, although the modes that are not
    marked as dirty are skipped, keeps the other modes as they were and empties the jump
    cache; a flush of a page leaves no entry of the page in the modes that were asked for,
    adds no entry anywhere, and drops from the jump cache the blocks of the page and of the
    page before it, from which a block can extend into it. *)
Theorem tlb_flushes {P : Pages} alloc junk junk_full now c (HP : pages_ok) (HA : alloc_ok alloc) (Hc : cpu_ok c) :
  (∀ asked, in_range 16 asked →
     ∃ c', tlb_flush_by_mmuidx alloc junk junk_full now asked c = Ok c' ∧ cpu_ok c' ∧
       (∀ k t', modes c' !! k = Some t' → Z.testbit asked (Z.of_nat k) = true → misses t') ∧
       (∀ k t', modes c' !! k = Some t' → Z.testbit asked (Z.of_nat k) = false → modes c !! k = Some t') ∧
       (∀ i, tb_jmp_cache c' i = None)) ∧
  (∀ addr idxmap, jumps_ok (tb_jmp_cache c) → in_range 64 addr →
     ∃ c', tlb_flush_page_by_mmuidx alloc junk junk_full now addr idxmap c = Ok c' ∧ cpu_ok c' ∧ jumps_ok (tb_jmp_cache c') ∧
       (∀ k t', modes c' !! k = Some t' → ∃ t, modes c !! k = Some t ∧
          if Z.testbit idxmap (Z.of_nat k) then flushed t t' (λ q, q = page_of addr) else t' = t) ∧
       (∀ i pc, tb_jmp_cache c' i = Some pc →
          page_of pc ≠ page_of addr ∧ page_of pc ≠ wrap 64 (page_of addr - TARGET_PAGE_SIZE) ∧ tb_jmp_cache c i = Some pc)).
Proof. split; [intros asked Ha; by apply flush_modes_spec|intros addr idxmap Hj Ha; by apply flush_page_spec]. Qed.


(** ** Guest accesses *)

(** C21: an access whose bytes are shared by two pages of memory reads or writes the bytes of
    the first part and then those of the second, in the byte order of the access, with host
    accesses that stay in the 16 bytes around each part and are as atomic as the operation
    asks for: a part that must be whole is one host access, and aligned pieces are.  The
    access is given up only on hosts without the atomics that a part needs.  Of sixteen bytes
    with [MO_ATOM_SUBALIGN] only a first part of up to eight bytes can be loaded and one of at
    least eight be stored ([crossing_defects] shows that this is necessary). *)
Theorem page_crossing {P : Pages} X H cpu l m v a (HH : host_ok H) (Hsys : user_only cpu = false) (Hm : bytes m) :
  let subalign := Z.land (l_memop l) MO_ATOM_MASK = MO_ATOM_SUBALIGN in
  (split_ok l 2 → hwp False (do_ld2 X H cpu l true) m (loaded_split H l m)) ∧
  (split_ok l 4 → hwp (HAVE_al8 H = false) (do_ld4 X H cpu l true) m (loaded_split H l m)) ∧
  (split_ok l 8 → hwp (HAVE_al8 H = false) (do_ld8 X H cpu l true) m (loaded_split H l m)) ∧
  (split_ok l 16 → (subalign → pd_size (page0 l) ≤ 8) →
     hwp (HAVE_ATOMIC128_RW H = false) (do_ld16 X H cpu l a true) m (loaded_split H l m)) ∧
  (split_store_ok l 2 → in_range 16 v → hwp False (do_st2 X H cpu l v true) m (λ _, stored_split H l m v)) ∧
  (split_store_ok l 4 → in_range 32 v → hwp (HAVE_al8 H = false) (do_st4 X H cpu l v true) m (λ _, stored_split H l m v)) ∧
  (split_store_ok l 8 → in_range 64 v → hwp (HAVE_al8 H = false) (do_st8 X H cpu l v true) m (λ _, stored_split H l m v)) ∧
  (split_store_ok l 16 → in_range 128 v → (subalign → 8 ≤ pd_size (page0 l)) →
     hwp (HAVE_CMPXCHG128 H = false) (do_st16 X H cpu l a v true) m (λ _, stored_split H l m v)).
Proof.
  repeat split; intros; [apply do_ld2_split|apply do_ld4_split|apply do_ld8_split|apply do_ld16_split
    |apply do_st2_split|apply do_st4_split|apply do_st8_split|apply do_st16_split]; done.
Qed.



(** C28: where the page tables map every byte of an aligned access to memory that permits it,
    the lookup ends with the pages, whatever the TLB holds: it neither faults nor fails an
    assertion, if the target's hook fills what the walk finds and no watchpoint intervenes. *)
Theorem softmmu_completes {P : Pages} M X w H cpu addr oi access c hs
    (HS : system_ok M X w H cpu) (HT : machine_total M X w) (Hc : mmu_inv M w c) (Ha : in_range 64 addr)
    (Hb : guest_bytes (walk_guest M w) access oi addr = Some hs) :
  ∃ l cross c', mmu_lookup X addr oi access c = Found (l, cross, c').
Proof. destruct HS. by eapply access_completes. Qed.

(** ** Where the code falls short *)

Section Defects.
#[local] Existing Instance pages12.

Definition fill (a lg : Z) (t : Tlb) : Res Tlb := set_page_mode flat_memory t a (mkFull 0 a 0 7 lg 0 (λ _, 0)).
Definition flush_page (a : Z) (t : Tlb) : Res Tlb := tlb_flush_page_locked (λ _, true) empty_entry inhabitant 0 a t.
Definition flush_range (a len bits : Z) (t : Tlb) : Res Tlb := tlb_flush_range_locked (λ _, true) empty_entry inhabitant 0 a len bits t.
Definition empty_tlb (entries : Z) : Tlb := tlb_mmu_flush_locked
  (mkTlb 0 0 0 0 0 0 (replicate CPU_VTLB_SIZE empty_entry) (replicate CPU_VTLB_SIZE inhabitant)
     (replicate (Z.to_nat entries) inhabitant) (Z.shiftl (entries - 1) CPU_TLB_ENTRY_BITS) (replicate (Z.to_nat entries) empty_entry)).
Definition cached (t : Tlb) (a : Z) : bool := tlb_hit (addr_read (tlb_entry t a)) a.

(** the bookkeeping and the flushes of ranges go wrong.  A page that went to the victim
    table is counted out twice, so that the counter of used entries wraps below zero when
    both pages of a slot are flushed, and the table is doubled at the next flush although it
    is empty.  A flush of the pages that match an address in its lowest 14 bits misses such
    a page in another slot, although the comment promises that all such pages are in one.
    And a flush of a range that starts in a large page and ends behind it leaves the other
    entries of the large page, which a flush of its first page alone does not. *)
Theorem tlb_defects :
  (t ← fill 0x1000 12 (empty_tlb 256); t ← fill 0x101000 12 t; t ← flush_page 0x1000 t; t ← flush_page 0x101000 t;
   mret (cached t 0x1000 || cached t 0x101000, n_used_entries t, resize_to t 0)) = Ok (false, 2 ^ 64 - 1, 512) ∧
  (t ← fill 0x5000 12 (empty_tlb 256); t ← flush_range 0x1000 0x1000 14 t; mret (cached t 0x5000)) = Ok true ∧
  wrap 14 0x5000 = 0x1000 ∧
  (t ← fill 0x1000 21 (empty_tlb 1024); t1 ← flush_range 0x1ff000 0x2000 64 t; t2 ← flush_page 0x1ff000 t;
   mret (cached t1 0x1000, cached t2 0x1000)) = Ok (true, false).
Proof. repeat split; by vm_compute. Qed.

(** Twelve bytes in one page and four in the other. *)
Definition first_long (mop : Z) : MMULookupLocals :=
  mkLocals (mkPageData inhabitant 0x10ff4 0xff4 0 12) (mkPageData inhabitant 0x20000 0x1000 0 4) mop 0.
Definition second_long (mop : Z) : MMULookupLocals :=
  mkLocals (mkPageData inhabitant 0x10ffc 0xffc 0 4) (mkPageData inhabitant 0x20000 0x1000 0 12) mop 0.
Definition serial_cpu : LdstCpu := mkLdstCpu true false (λ _ _, false) 12.

(** sixteen bytes with [MO_ATOM_SUBALIGN] that cross a page fail an assertion: the load
    if more than eight are in the first page, since its last eight end at an aligned
    address, and the store if more than eight are in the second page, since its first eight
    start at one.  And on a host without 128-bit atomics the load and the store with
    [MO_ATOM_WITHIN16_PAIR] leave for the serial context even when the CPU is in it already,
    where nothing has to be atomic. *)
Theorem crossing_defects X :
  let all := mkHostAtomics true true true true true in let no128 := mkHostAtomics true true false false false in
  let sub := Z.lor MO_128 MO_ATOM_SUBALIGN in let pair := Z.lor MO_128 MO_ATOM_WITHIN16_PAIR in
  do_ld16 X all soft_cpu (first_long sub) 0xff4 true (λ _, 0) = AAbort ∧
  do_st16 X all soft_cpu (second_long sub) 0xffc 0 true (λ _, 0) = AAbort ∧
  do_ld16 X no128 serial_cpu (first_long pair) 0xff4 true (λ _, 0) = AExit ∧
  do_st16 X no128 serial_cpu (second_long pair) 0xffc 0 true (λ _, 0) = AExit ∧
  split_ok (first_long sub) 16 ∧ split_ok (second_long sub) 16.
Proof. do 4 (split; [by vm_compute|]). split; (split; [split| split|..]; (done || (cbn; lia) || (by right) || (by left))). Qed.
End Defects.

(** ** Instances *)

Section Witnesses.
#[local] Existing Instance pages12.
Definition avx_host : HostAtomics := mkHostAtomics true true true true true.

(** A page is entered and another one that displaces it. *)
Definition one_page : Tlb := match fill 0x1000 12 (tlb_mmu_init empty_entry inhabitant 0) with Ok t => t | Abort => inhabitant end.
Lemma one_page_filled : fill 0x1000 12 (tlb_mmu_init empty_entry inhabitant 0) = Ok one_page.
Proof. reflexivity. Qed.
Lemma tlb_coherent_witness : tlb_wf one_page ∧ cached one_page 0x1000 = true.
Proof.
  split; [|by vm_compute].
  assert (Hs : rtc (tlb_step flat_memory empty_entry inhabitant) (flat_walk 0, tlb_mmu_init empty_entry inhabitant 0) (flat_walk 0, one_page)).
  { apply rtc_once, (step_fill _ _ _ _ _ _ 0x1000 (flat_full 0x1000) (λ _, false)); [done|done|]. exact one_page_filled. }
  exact (proj1 (tlb_coherent flat_memory empty_entry inhabitant (flat_walk 0) 0 (flat_walk 0) one_page pages12_ok (flat_walk_ok 0) Hs)).
Defined.
Lemma empty_wf : tlb_wf (tlb_mmu_init empty_entry inhabitant 0).
Proof. exact (inv_wf _ _ _ (init_inv pages12_ok flat_memory _ _ (flat_walk 0) 0 (flat_walk_ok 0))). Qed.
Lemma tlb_fills_witness : tlb_wf one_page.
Proof.
  destruct (tlb_fills flat_memory (tlb_mmu_init empty_entry inhabitant 0) 0x1000 (flat_full 0x1000) pages12_ok empty_wf) as [Hf _].
  destruct (Hf one_page one_page_filled) as (tn & f & _ & Hw & _). exact Hw.
Defined.
Lemma alloc_all : alloc_ok (λ n, n <=? 2 ^ 20).
Proof. split; [done|]. intros n Hn. assert (2 ^ 20 ≤ 2 ^ 58) by (apply Z.pow_le_mono_r; lia). lia. Qed.
Lemma fresh_cpu : cpu_ok fresh_tlb.
Proof.
  split; [done| |done|]; intros k t Ht; unfold fresh_tlb, tlb_init in Ht; cbn [modes] in Ht; apply lookup_replicate in Ht as [-> _].
  - split; [exact empty_wf|done].
  - intros _ q s Hq. by apply (flush_misses pages12_ok).
Qed.
Lemma tlb_flushes_witness :
  ∃ c', tlb_flush_by_mmuidx (λ n, n <=? 2 ^ 20) empty_entry inhabitant 0 3 fresh_tlb = Ok c' ∧ cpu_ok c'.
Proof.
  destruct (tlb_flushes (λ n, n <=? 2 ^ 20) empty_entry inhabitant 0 fresh_tlb pages12_ok alloc_all fresh_cpu) as [Hf _].
  destruct (Hf 3 ltac:(done)) as (c' & E & Hc & _). by exists c'.
Defined.

(** A word of which three bytes are in the first page. *)
Definition word_parts : MMULookupLocals :=
  mkLocals (mkPageData inhabitant 0x10ffd 0xffd 0 3) (mkPageData inhabitant 0x20000 0x1000 0 1) (Z.lor MO_32 MO_ATOM_WITHIN16_PAIR) 0.
Lemma word_parts_ok : split_ok word_parts 4.
Proof. split; [split|split|..]; (done || (cbn; lia) || (by right) || (by left)). Qed.
Lemma page_crossing_witness :
  hwp (HAVE_al8 avx_host = false) (do_ld4 flat_machine avx_host soft_cpu word_parts true) (λ _, 7)
    (loaded_split avx_host word_parts (λ _, 7)).
Proof.
  destruct (page_crossing flat_machine avx_host soft_cpu word_parts (λ _, 7) 0 0) as (_ & H4 & _); [by split|done|by intros k|].
  exact (H4 word_parts_ok).
Defined.

(** Eight bytes at the end of a page. *)
Definition far_oi : Z := make_memop_idx (Z.lor MO_64 MO_ATOM_IFALIGN) 0.
Lemma flat_all_ram access a n : memory_at flat_memory flat_walk 0 access a n.
Proof. intros k full Hk _. by split. Qed.
Definition far_bytes (access : MMUAccessType) : option (list Z) := guest_bytes (walk_guest flat_memory flat_walk) access far_oi 0xffd.
Lemma far_found access : access ≠ MMU_INST_FETCH → is_Some (far_bytes access).
Proof. destruct access; [by exists [0x700000000ffd; 0x700000000ffe; 0x700000000fff; 0x700000001000; 0x700000001001; 0x700000001002; 0x700000001003; 0x700000001004]..|done]. Qed.
Lemma far_defined : defined_load 8 (get_memop far_oi).
Proof. split; [by vm_compute|done]. Qed.
Lemma far_range : in_range 64 0xffd.
Proof. done. Qed.
Lemma sevens : bytes (λ _, 7).
Proof. by intros k. Qed.
Lemma small_value : in_range (8 * 8) 258.
Proof. done. Qed.
Lemma far_lookup access : access ≠ MMU_INST_FETCH → ∃ l cross c', mmu_lookup flat_machine 0xffd far_oi access fresh_tlb = Found (l, cross, c').
Proof.
  intros [hs Hb]%far_found. destruct flat_system as [HP Hr HH Hs Hbits HX].
  exact (access_completes HP flat_memory flat_machine flat_walk HX _ _ _ _ hs flat_machine_total fresh_inv far_range Hb).
Qed.
Lemma softmmu_completes_witness : ∃ l cross c', mmu_lookup flat_machine 0xffd far_oi MMU_DATA_LOAD fresh_tlb = Found (l, cross, c').
Proof.
  destruct (far_found MMU_DATA_LOAD) as [hs Hb]; [done|].
  exact (softmmu_completes flat_memory flat_machine flat_walk avx_host soft_cpu 0xffd far_oi MMU_DATA_LOAD fresh_tlb hs flat_system
    flat_machine_total fresh_inv far_range Hb).
Defined.
End Witnesses.
